(** * streamdeck-ui-node: a shallow embedding of the interaction state
      machine, the page attachment table and the image animation clock.

    The development follows the JavaScript sources:
    - [lib/wild-array-valued-set.js]  (module [WildArrayValuedSet])
    - [lib/wild-array-keyed-map.js]   (modules [ArrayKeyedMap] and
                                       [WildArrayKeyedMap])
    - [lib/image.js]                  (modules [Image] and [Loader])
    - [lib/utils.js]                  (modules [Colors] and [Utils])
    - [lib/key.js], [lib/page.js], [lib/streamdeck.js] (module [Deck])

    Part I holds the definitions, Part II the lemmas and theorems. *)

From Stdlib Require Import ZArith List Bool Lia String Ascii.
From stdpp Require Import base option list gmap strings pretty.

Import ListNotations.

Set Warnings "-register-all".

(* ===================================================================== *)
(** * Part I — definitions                                                *)
(* ===================================================================== *)

(** ** JavaScript values that reach the library

    The arrays stored in the per-key state sets are [[index, page]] pairs:
    a key slot number, a [Page] object or [undefined]; the public methods
    are handed any value.  A number is an integer, [JNum n], or a finite
    number that is no integer, [JFraction whole part]: the number strictly
    between [whole] and [whole + 1] whose fractional part is number [part]
    in a fixed enumeration of the fractions, so that two of them are the
    same number exactly if they are the same term.  Strings are compared
    by content and objects by identity, which the model renders as
    equality of their heap addresses.  [NaN], the one value that [!==]
    tells from itself, is not among the values: no slot number is [NaN],
    and what is stated of the containers in general either holds at [NaN]
    as well or asks that the array equal itself entry by entry. *)

Definition pid := nat.   (* address of a Page object *)
Definition kid := nat.   (* address of a Key object  *)
Definition tid := nat.   (* a handle returned by setTimeout *)

Inductive jsval : Type :=
| JUndefined
| JNum (n : Z)
| JFraction (whole : Z) (part : positive)
| JString (s : string)
| JPage (p : pid)
| JKey (k : kid).

#[global] Instance jsval_eq_dec : EqDecision jsval.
Proof. solve_decision. Defined.

(** [a !== b] *)
Definition strict_neq (a b : jsval) : bool := negb (bool_decide (a = b)).

(** [arr[i]], which is [undefined] past the end. *)
Definition element_at (arr : list jsval) (i : nat) : jsval :=
  nth i arr JUndefined.

(** What a thrown JavaScript exception carries. *)
Inductive exn : Type :=
| TypeError (msg : string)
| RangeError (msg : string)
| Error (msg : string).

Inductive result (A : Type) : Type :=
| Ok (a : A)
| Throw (e : exn).
Arguments Ok {A} a.
Arguments Throw {A} e.

(** ** lib/wild-array-valued-set.js *)

Module WildArrayValuedSet.

(** A JavaScript [Set] iterates in insertion order; its members here are
    arrays. *)
Definition t := list (list jsval).

(** The inner loop of [add], [delete] and [has]:
    [for (const [index, value] of arr.entries())
       if (value !== element[index]) continue checkLoop] *)
Fixpoint entries_equal (index : nat) (arr element : list jsval) : bool :=
  match arr with
  | [] => true
  | value :: rest =>
      if strict_neq value (element_at element index) then false
      else entries_equal (S index) rest element
  end.

(** The inner loop of [wildHas]:
    [if (value !== element[index] && element[index] !== undefined)
       continue checkLoop] *)
Fixpoint entries_wild_equal (index : nat) (arr element : list jsval) : bool :=
  match arr with
  | [] => true
  | value :: rest =>
      if strict_neq value (element_at element index)
         && strict_neq (element_at element index) JUndefined
      then false
      else entries_wild_equal (S index) rest element
  end.

(** One turn of [checkLoop]: the length test, then the inner loop. *)
Definition same_array (arr element : list jsval) : bool :=
  if negb (length arr =? length element)%nat then false
  else entries_equal 0 arr element.

Definition wild_same_array (arr element : list jsval) : bool :=
  if negb (length arr =? length element)%nat then false
  else entries_wild_equal 0 arr element.

(** [add(element)]: returns [this] unchanged when some member has the same
    content, otherwise [super.add] appends the fresh copy. *)
Definition add (this : t) (element : list jsval) : t :=
  if existsb (fun arr => same_array arr element) this then this
  else this ++ [element].

(** [delete(element)]: [super.delete(arr)] for the first member with the
    same content; the boolean is the method's return value. *)
Fixpoint delete (this : t) (element : list jsval) : t * bool :=
  match this with
  | [] => ([], false)
  | arr :: rest =>
      if same_array arr element then (rest, true)
      else let '(rest', found) := delete rest element in (arr :: rest', found)
  end.

Definition has (this : t) (element : list jsval) : bool :=
  existsb (fun arr => same_array arr element) this.

Definition wildHas (this : t) (element : list jsval) : bool :=
  existsb (fun arr => wild_same_array arr element) this.

Definition size (this : t) : nat := length this.

(** The calls that change a set, and the set that a sequence of them
    builds from the empty one. *)
Inductive call : Type :=
| Add (element : list jsval)
| Delete (element : list jsval).

Definition perform (this : t) (c : call) : t :=
  match c with
  | Add element => add this element
  | Delete element => fst (delete this element)
  end.

Definition after (calls : list call) : t := fold_left perform calls [].

End WildArrayValuedSet.

(** ** lib/wild-array-keyed-map.js

    [WildArrayKeyedMap] extends the [array-keyed-map] package, a map whose
    keys are arrays compared element by element; the sources only use its
    [has], [get], [set], [delete], [size], [values] and [clear]. *)

Module ArrayKeyedMap.

Definition t (V : Type) := list (list jsval * V).

Definition get {V} (this : t V) (key : list jsval) : option V :=
  snd <$> find (fun e => bool_decide (fst e = key)) this.

Definition has {V} (this : t V) (key : list jsval) : bool :=
  bool_decide (is_Some (get this key)).

Definition delete {V} (this : list (list jsval * V)) (key : list jsval)
  : list (list jsval * V) :=
  filter (fun e => fst e ≠ key) this.

Definition set {V} (this : t V) (key : list jsval) (v : V) : t V :=
  if has this key
  then map (fun e => if bool_decide (fst e = key) then (key, v) else e) this
  else this ++ [(key, v)].

Definition values {V} (this : t V) : list V := map snd this.

End ArrayKeyedMap.

(** ** lib/wild-array-keyed-map.js — [WildArrayKeyedMap#wildHas] *)

Module WildArrayKeyedMap.

(** [this.keys()], here in the order in which the keys were set; the
    iterator of [array-keyed-map] walks its tree of entries in an order of
    its own.  [wildHas] asks only whether some key matches. *)
Definition keys {V} (this : ArrayKeyedMap.t V) : list (list jsval) :=
  map fst this.

(** [wildHas(element)]: the loop of [WildArrayValuedSet#wildHas] over the
    keys of the map. *)
Definition wildHas {V} (this : ArrayKeyedMap.t V) (element : list jsval) : bool :=
  existsb (fun arr => WildArrayValuedSet.wild_same_array arr element) (keys this).

End WildArrayKeyedMap.

(** ** lib/utils.js — [checkValid] on integers *)

Module Utils.

(** The options that [checkValidInteger] reads.  [min], [max] and
    [validValues] count only when they are a number, a number and an
    array. *)
Record Options : Type := {
  allowUndefined : bool;
  name : string;
  validValues : option (list Z);
  min : option Z;
  max : option Z }.

(** [validValues.join(', ')] *)
Definition join (vs : list Z) : string :=
  String.concat ", " (pretty <$> vs).

(** The three range tests that close [checkValidNumber] and
    [checkValidInteger]. *)
Definition check_bounds (value : Z) (o : Options) : result unit :=
  match min o, max o with
  | Some lo, Some hi =>
      if ((value <? lo) || (hi <? value))%Z
      then Throw (RangeError ("Expected " +:+ name o +:+ " to be between "
                              +:+ pretty lo +:+ " and " +:+ pretty hi
                              +:+ " inclusive"))
      else Ok tt
  | Some lo, None =>
      if (value <? lo)%Z
      then Throw (RangeError ("Expected " +:+ name o
                              +:+ " to be equal to or greater than "
                              +:+ pretty lo))
      else Ok tt
  | None, Some hi =>
      if (hi <? value)%Z
      then Throw (RangeError ("Expected " +:+ name o
                              +:+ " to be equal to or less than "
                              +:+ pretty hi))
      else Ok tt
  | None, None => Ok tt
  end.

(** [checkValidInteger(value, options)]; a [JNum] is an integer. *)
Definition checkValidInteger (value : jsval) (o : Options) : result unit :=
  match value with
  | JNum v =>
      match validValues o with
      | Some vs =>
          if negb (bool_decide (v ∈ vs))
          then Throw (TypeError ("Expected " +:+ name o +:+ " to be one of: "
                                 +:+ join vs))
          else check_bounds v o
      | None => check_bounds v o
      end
  | _ =>
      Throw (TypeError ("Expected " +:+ name o +:+ " to be an integer"
                        +:+ (if allowUndefined o then " or undefined" else "")))
  end.

(** [checkValid(value, { type: 'integer', ... })] *)
Definition checkValid (value : jsval) (o : Options) : result jsval :=
  if allowUndefined o && bool_decide (value = JUndefined) then Ok JUndefined
  else match checkValidInteger value o with
       | Throw e => Throw e
       | Ok _ => Ok value
       end.

(** What the options ask of a number. *)
Definition listed (v : Z) (o : Options) : Prop :=
  forall vs, validValues o = Some vs -> v ∈ vs.

Definition within (v : Z) (o : Options) : Prop :=
  (forall lo, min o = Some lo -> (lo <= v)%Z)
  /\ (forall hi, max o = Some hi -> (v <= hi)%Z).

End Utils.

(** ** lib/image.js — the animation clock and the frame table *)

Module Image.

Record Buffers : Type := { withAlpha : list Z; withoutAlpha : list Z }.

(** [Image.FrameData] *)
Record FrameData : Type :=
  { base : Buffers; scaled : option Buffers; split : option (list Buffers) }.

Inductive event : Type :=
| sharpLoaded
| frameLoaded (index : nat)
| imageLoaded
| frameUpdated
| error (e : exn)
| destroy.

(** The private and public properties of the class that the animation
    clock reads or writes.  [animate] is [undefined] until the first call
    of [startAnimation] or [stopAnimation].  A pending timer remembers the
    delay it was armed with, [frameDelays[currentFrame]], which is
    [undefined] when the table has no such entry.  [loadListeners] are the
    closures that [nextFrame] registers on [frameLoaded]; each one captured
    its own [nextFrame] and [nextLoop]. *)
Record t : Type := {
  WIDTH : Z;
  HEIGHT : Z;
  animate : option bool;
  nextFrameTimeoutId : option (option nat);
  frames : list FrameData;
  frameDelays : list nat;
  frameCount : nat;
  currentFrame : nat;
  loopCount : nat;
  currentLoop : nat;
  destroyed : bool;
  frameUpdatedListeners : nat;
  loadListeners : list (nat * (nat * nat));
  nextListenerId : nat;
  emitted : list event }.

Definition set_animate (a : option bool) (i : t) : t :=
  {| WIDTH := WIDTH i; HEIGHT := HEIGHT i; animate := a;
     nextFrameTimeoutId := nextFrameTimeoutId i; frames := frames i;
     frameDelays := frameDelays i; frameCount := frameCount i;
     currentFrame := currentFrame i; loopCount := loopCount i;
     currentLoop := currentLoop i; destroyed := destroyed i;
     frameUpdatedListeners := frameUpdatedListeners i;
     loadListeners := loadListeners i; nextListenerId := nextListenerId i;
     emitted := emitted i |}.

Definition set_nextFrameTimeoutId (x : option (option nat)) (i : t) : t :=
  {| WIDTH := WIDTH i; HEIGHT := HEIGHT i; animate := animate i;
     nextFrameTimeoutId := x; frames := frames i;
     frameDelays := frameDelays i; frameCount := frameCount i;
     currentFrame := currentFrame i; loopCount := loopCount i;
     currentLoop := currentLoop i; destroyed := destroyed i;
     frameUpdatedListeners := frameUpdatedListeners i;
     loadListeners := loadListeners i; nextListenerId := nextListenerId i;
     emitted := emitted i |}.

Definition set_position (frame loop : nat) (i : t) : t :=
  {| WIDTH := WIDTH i; HEIGHT := HEIGHT i; animate := animate i;
     nextFrameTimeoutId := nextFrameTimeoutId i; frames := frames i;
     frameDelays := frameDelays i; frameCount := frameCount i;
     currentFrame := frame; loopCount := loopCount i;
     currentLoop := loop; destroyed := destroyed i;
     frameUpdatedListeners := frameUpdatedListeners i;
     loadListeners := loadListeners i; nextListenerId := nextListenerId i;
     emitted := emitted i |}.

Definition set_frames (fs : list FrameData) (i : t) : t :=
  {| WIDTH := WIDTH i; HEIGHT := HEIGHT i; animate := animate i;
     nextFrameTimeoutId := nextFrameTimeoutId i; frames := fs;
     frameDelays := frameDelays i; frameCount := frameCount i;
     currentFrame := currentFrame i; loopCount := loopCount i;
     currentLoop := currentLoop i; destroyed := destroyed i;
     frameUpdatedListeners := frameUpdatedListeners i;
     loadListeners := loadListeners i; nextListenerId := nextListenerId i;
     emitted := emitted i |}.

Definition set_destroyed (b : bool) (i : t) : t :=
  {| WIDTH := WIDTH i; HEIGHT := HEIGHT i; animate := animate i;
     nextFrameTimeoutId := nextFrameTimeoutId i; frames := frames i;
     frameDelays := frameDelays i; frameCount := frameCount i;
     currentFrame := currentFrame i; loopCount := loopCount i;
     currentLoop := currentLoop i; destroyed := b;
     frameUpdatedListeners := frameUpdatedListeners i;
     loadListeners := loadListeners i; nextListenerId := nextListenerId i;
     emitted := emitted i |}.

Definition set_frameUpdatedListeners (n : nat) (i : t) : t :=
  {| WIDTH := WIDTH i; HEIGHT := HEIGHT i; animate := animate i;
     nextFrameTimeoutId := nextFrameTimeoutId i; frames := frames i;
     frameDelays := frameDelays i; frameCount := frameCount i;
     currentFrame := currentFrame i; loopCount := loopCount i;
     currentLoop := currentLoop i; destroyed := destroyed i;
     frameUpdatedListeners := n;
     loadListeners := loadListeners i; nextListenerId := nextListenerId i;
     emitted := emitted i |}.

Definition set_loadListeners (ls : list (nat * (nat * nat))) (next : nat)
  (i : t) : t :=
  {| WIDTH := WIDTH i; HEIGHT := HEIGHT i; animate := animate i;
     nextFrameTimeoutId := nextFrameTimeoutId i; frames := frames i;
     frameDelays := frameDelays i; frameCount := frameCount i;
     currentFrame := currentFrame i; loopCount := loopCount i;
     currentLoop := currentLoop i; destroyed := destroyed i;
     frameUpdatedListeners := frameUpdatedListeners i;
     loadListeners := ls; nextListenerId := next;
     emitted := emitted i |}.

(** [this.emit(ev)] as far as passive listeners see it. *)
Definition emit (ev : event) (i : t) : t :=
  {| WIDTH := WIDTH i; HEIGHT := HEIGHT i; animate := animate i;
     nextFrameTimeoutId := nextFrameTimeoutId i; frames := frames i;
     frameDelays := frameDelays i; frameCount := frameCount i;
     currentFrame := currentFrame i; loopCount := loopCount i;
     currentLoop := currentLoop i; destroyed := destroyed i;
     frameUpdatedListeners := frameUpdatedListeners i;
     loadListeners := loadListeners i; nextListenerId := nextListenerId i;
     emitted := emitted i ++ [ev] |}.

Definition checkImageDestroyed (i : t) : result unit :=
  if destroyed i then Throw (Error "Image has been destroyed!") else Ok tt.

(** [if (id !== undefined) { clearTimeout(id); id = undefined }] *)
Definition clearNextFrameTimeout (i : t) : t := set_nextFrameTimeoutId None i.

(** [id = setTimeout(() => this.nextFrame(), this._frameDelays[this._currentFrame])] *)
Definition armNextFrameTimeout (i : t) : t :=
  set_nextFrameTimeoutId (Some (frameDelays i !! currentFrame i)) i.

(** [!this._animate] *)
Definition not_animating (i : t) : bool :=
  match animate i with Some true => false | _ => true end.

(** [!this.listenerCount('frameUpdated')] *)
Definition unobserved (i : t) : bool := (frameUpdatedListeners i =? 0)%nat.

Definition manageNextFrameTimeout (i : t) : t :=
  if unobserved i then clearNextFrameTimeout i
  else if not_animating i then i
  else match nextFrameTimeoutId i with
       | None => armNextFrameTimeout i
       | Some _ => i
       end.

(** [getFrame()] ; [null] is [None]. *)
Definition getFrame (i : t) : result (option FrameData) :=
  match checkImageDestroyed i with
  | Throw e => Throw e
  | Ok _ =>
      if negb (bool_decide (is_Some (frames i !! currentFrame i)))
         && negb (length (frames i) =? 0)%nat
      then Ok (frames i !! (length (frames i) - 1)%nat)
      else Ok (frames i !! currentFrame i)
  end.

(** The tail shared by [nextFrame], [setCurrentFrame] and
    [resetAnimation]: notify, then re-arm while animating and observed. *)
Definition announce_and_rearm (i : t) : t :=
  let i := emit frameUpdated i in
  if not_animating i then i
  else if unobserved i then i
  else armNextFrameTimeout i.

(** The closure [loadListener] of [nextFrame], called with the index of
    the frame that finished loading. *)
Definition loadListener (id nextFrame nextLoop : nat) (loaded : nat) (i : t) : t :=
  if (loaded <? nextFrame)%nat then i
  else
    let i := set_loadListeners
               (filter (fun l => fst l ≠ id) (loadListeners i))
               (nextListenerId i) i in
    let i := manageNextFrameTimeout i in              (* this.off(...) *)
    let i := set_position nextFrame nextLoop i in
    let i := emit frameUpdated i in
    if not_animating i then i
    else if unobserved i then i
    else armNextFrameTimeout (clearNextFrameTimeout i).

(** [this.emit('frameLoaded', index)]: the listeners registered when the
    event is emitted run in registration order. *)
Definition emit_frameLoaded (index : nat) (i : t) : t :=
  fold_left (fun acc l => loadListener (fst l) (fst (snd l)) (snd (snd l)) index acc)
            (loadListeners i) (emit (frameLoaded index) i).

Definition nextFrame (i : t) : t :=
  if destroyed i then i
  else if (frameCount i <=? 1)%nat then i
  else
    let i := clearNextFrameTimeout i in
    let nextFrame := (currentFrame i + 1)%nat in
    let nextLoop := currentLoop i in
    if (frameCount i <=? nextFrame)%nat
       && ((0 <? loopCount i)%nat && (loopCount i <=? nextLoop)%nat)
    then set_animate (Some false) i
    else
      let '(nextFrame, nextLoop) :=
        if (frameCount i <=? nextFrame)%nat then (0%nat, (nextLoop + 1)%nat)
        else (nextFrame, nextLoop) in
      if (nextFrame <? length (frames i))%nat
      then announce_and_rearm (set_position nextFrame nextLoop i)
      else
        (* this.on('frameLoaded', loadListener) *)
        manageNextFrameTimeout
          (set_loadListeners
             (loadListeners i ++ [(nextListenerId i, (nextFrame, nextLoop))])
             (S (nextListenerId i)) i).

(** A scheduled tick: the pending timer fires and runs its callback,
    [() => this.nextFrame()].  Without a pending timer nothing happens. *)
Definition tick (i : t) : t :=
  match nextFrameTimeoutId i with
  | None => i
  | Some _ => nextFrame i
  end.

Definition startAnimation (i : t) : result t :=
  match checkImageDestroyed i with
  | Throw e => Throw e
  | Ok _ =>
      if (frameCount i <=? 1)%nat then Ok i
      else
        let i := set_animate (Some true) i in
        if unobserved i then Ok i
        else match nextFrameTimeoutId i with
             | None => Ok (armNextFrameTimeout i)
             | Some _ => Ok i
             end
  end.

Definition stopAnimation (i : t) : t :=
  if destroyed i then i
  else set_animate (Some false) (clearNextFrameTimeout i).

(** [setCurrentFrame(currentFrame)].  The last case is never reached:
    [checkValid] throws on what is no integer. *)
Definition setCurrentFrame (currentFrame : jsval) (i : t) : result t :=
  match checkImageDestroyed i with
  | Throw e => Throw e
  | Ok _ =>
      if (frameCount i <=? 1)%nat
      then Throw (Error "Image does not have multiple frames")
      else
        match Utils.checkValid currentFrame
                {| Utils.allowUndefined := false;
                   Utils.name := "currentFrame";
                   Utils.validValues := None;
                   Utils.min := Some 0%Z;
                   Utils.max := Some (Z.of_nat (frameCount i) - 1)%Z |},
              currentFrame with
        | Throw e, _ => Throw e
        | Ok _, JNum frame =>
            Ok (announce_and_rearm
                  (set_position (Z.to_nat frame) (currentLoop i)
                     (clearNextFrameTimeout i)))
        | Ok _, _ => Ok i
        end
  end.

Definition resetAnimation (i : t) : result t :=
  match checkImageDestroyed i with
  | Throw e => Throw e
  | Ok _ =>
      if (frameCount i <=? 1)%nat then Ok i
      else Ok (announce_and_rearm (set_position 0 0 (clearNextFrameTimeout i)))
  end.

(** [on('frameUpdated', fn)] and [off('frameUpdated', fn)] for an outside
    observer such as a key's bound [draw]. *)
Definition on_frameUpdated (i : t) : result t :=
  match checkImageDestroyed i with
  | Throw e => Throw e
  | Ok _ =>
      Ok (manageNextFrameTimeout
            (set_frameUpdatedListeners (S (frameUpdatedListeners i)) i))
  end.

Definition off_frameUpdated (i : t) : t :=
  manageNextFrameTimeout
    (set_frameUpdatedListeners (pred (frameUpdatedListeners i)) i).

Definition destroyImage (i : t) : result t :=
  match checkImageDestroyed i with
  | Throw e => Throw e
  | Ok _ =>
      let i := stopAnimation i in
      let i := manageNextFrameTimeout (set_frameUpdatedListeners 0 i) in
      Ok (emit destroy (set_destroyed true i))
  end.

(** The end of one turn of the frame loop of [loadImage]: the finished
    frame is pushed and announced. *)
Definition frame_done (index : nat) (frame : FrameData) (i : t) : t :=
  let i := set_frames (frames i ++ [frame]) i in
  let i := emit_frameLoaded index i in
  let i := if (index =? currentFrame i)%nat then emit frameUpdated i else i in
  if (index =? 0)%nat && (1 <? frameCount i)%nat
     && bool_decide (animate i = None) && negb (destroyed i)
  then match startAnimation i with Ok i' => i' | Throw _ => i end
  else i.

(** The state an image is in once its metadata has been read and all
    [frameCount] frames are in the table, before any advance. *)
Definition loaded (fs : list FrameData) (delays : list nat) (loops : nat)
  (observers : nat) (anim : option bool) : t :=
  {| WIDTH := 72; HEIGHT := 72; animate := anim;
     nextFrameTimeoutId := None; frames := fs; frameDelays := delays;
     frameCount := length fs; currentFrame := 0; loopCount := loops;
     currentLoop := 0; destroyed := false;
     frameUpdatedListeners := observers; loadListeners := [];
     nextListenerId := 0; emitted := [] |}.

(** A looping film of two frames that plays its loop once, observed and
    animating. *)
Definition blank_frame : FrameData :=
  {| base := {| withAlpha := []; withoutAlpha := [] |};
     scaled := None; split := None |}.

Definition film2 : t :=
  loaded [blank_frame; blank_frame] [100; 100]%nat 1 1 (Some true).

(** The fields that no advance writes. *)
Definition same_film (a b : t) : Prop :=
  destroyed a = destroyed b /\ frameCount a = frameCount b
  /\ loopCount a = loopCount b /\ frames a = frames b
  /\ frameDelays a = frameDelays b
  /\ frameUpdatedListeners a = frameUpdatedListeners b.

(** The object as the constructor leaves it, with [observers] listeners
    registered for [frameUpdated] through the [onFrameUpdated] option. *)
Definition constructed (W H : Z) (observers : nat) : t :=
  {| WIDTH := W; HEIGHT := H; animate := None; nextFrameTimeoutId := None;
     frames := []; frameDelays := []; frameCount := 1; currentFrame := 0;
     loopCount := 0; currentLoop := 0; destroyed := false;
     frameUpdatedListeners := observers; loadListeners := [];
     nextListenerId := 0; emitted := [] |}.

(** [loadImage], once the composited image is there:
    [_frameCount = metadata.pages || 1], [_loopCount = metadata.loop || 0],
    [_frameDelays = (metadata.delay || []).slice()]. *)
Definition metadata_read (pages loop : option nat) (delay : option (list nat))
  (i : t) : t :=
  let i := emit sharpLoaded i in
  {| WIDTH := WIDTH i; HEIGHT := HEIGHT i; animate := animate i;
     nextFrameTimeoutId := nextFrameTimeoutId i; frames := frames i;
     frameDelays := default [] delay;
     frameCount := match pages with Some (S n) => S n | _ => 1%nat end;
     currentFrame := currentFrame i; loopCount := default 0%nat loop;
     currentLoop := currentLoop i; destroyed := destroyed i;
     frameUpdatedListeners := frameUpdatedListeners i;
     loadListeners := loadListeners i; nextListenerId := nextListenerId i;
     emitted := emitted i |}.

(** What can happen to an image: the calls of its user, the expiry of the
    pending timer and the arrival of a frame from the loader. *)
Inductive call : Type :=
| StartAnimation
| StopAnimation
| NextFrame
| TimerFires
| SetCurrentFrame (frame : jsval)
| ResetAnimation
| OnFrameUpdated
| OffFrameUpdated
| Destroy
| FrameDone (index : nat) (frame : FrameData).

(** A method that throws does so before it writes anything. *)
Definition unless_thrown (r : result t) (i : t) : t :=
  match r with
  | Ok i' => i'
  | Throw _ => i
  end.

Definition perform (i : t) (c : call) : t :=
  match c with
  | StartAnimation => unless_thrown (startAnimation i) i
  | StopAnimation => stopAnimation i
  | NextFrame => nextFrame i
  | TimerFires => tick i
  | SetCurrentFrame frame => unless_thrown (setCurrentFrame frame i) i
  | ResetAnimation => unless_thrown (resetAnimation i) i
  | OnFrameUpdated => unless_thrown (on_frameUpdated i) i
  | OffFrameUpdated => off_frameUpdated i
  | Destroy => unless_thrown (destroyImage i) i
  | FrameDone index frame => frame_done index frame i
  end.

Definition replay (calls : list call) (i : t) : t := fold_left perform calls i.

(** A pending timer belongs to an image that animates, is observed and is
    not destroyed; only an image of several frames animates. *)
Definition timer_sound (i : t) : Prop :=
  (nextFrameTimeoutId i <> None ->
   animate i = Some true /\ frameUpdatedListeners i <> 0%nat)
  /\ (animate i = Some true -> destroyed i = false /\ (1 < frameCount i)%nat).

(** The constructor leaves one frame, so nothing animates before the
    metadata are read. *)
Definition at_rest (i : t) : Prop :=
  nextFrameTimeoutId i = None /\ animate i <> Some true
  /\ loadListeners i = [] /\ currentFrame i = 0%nat.

End Image.

(** ** lib/image.js — [loadImage], from the sources to the layer list

    The decoding, resizing and colour parsing are done by the [sharp] and
    [colornames] packages and by the regular expression of [parseColor];
    they enter as the variables of the section, each one free to succeed
    or to throw on any input.  A source that is another Image is asked for
    its pipeline with [Image#sharp()], whose promise may stay pending. *)

Module Loader.

(** What [sharp(...)] can be given to decode. *)
Inductive Raw : Type :=
| Path (file : string)
| Bytes (buffer : list Z).

(** [Image.Color] before parsing. *)
Inductive Color : Type :=
| ColorString (s : string)
| ColorArray (channels : list Z)
| ColorObject (red green blue : Z) (alpha : option Z).

(** The value of the [source] property of a source object. *)
Inductive SourceField : Type :=
| FieldUndefined
| FieldRaw (r : Raw)
| FieldImage (image : nat).

(** Option bags are passed through to [sharp] untouched. *)
Definition Options := nat.

Record SourceObject : Type := {
  o_source : SourceField;
  o_empty : option bool;
  o_color : option Color;
  o_sharpOptions : option Options;
  o_resize : option bool;
  o_resizeOptions : option Options;
  o_compositeOptions : option Options }.

(** [Image.Source] *)
Inductive Source : Type :=
| SRaw (r : Raw)
| SImage (image : nat)
| SObject (o : SourceObject)
| SArray (items : list Source).

(** What [metadata()] reports, as far as [loadImage] reads it. *)
Record Metadata : Type := {
  m_width : Z;
  m_height : Z;
  m_raw : bool;                    (* format === 'raw' *)
  m_channels : Z;
  m_pages : option nat;
  m_loop : option nat;
  m_delay : option (list nat);
  m_pageHeight : option Z }.

(** A [sharp] pipeline: one the library produced from outside data, or the
    blank canvas that [sharp({ create: ... }).raw()] describes. *)
Inductive Sharp : Type :=
| External (handle : nat)
| Created (width height channels : Z) (r g b alpha : Z).

(** A resolved entry of [sourcesData]. *)
Record SourceData : Type := {
  source : Sharp;
  metadata : Metadata;
  resize : option bool;
  resizeOptions : option Options;
  compositeOptions : option Options }.

(** [sharp] reports of a created canvas the dimensions it was asked for. *)
Definition created_metadata (width height channels : Z) : Metadata :=
  {| m_width := width; m_height := height; m_raw := true;
     m_channels := channels; m_pages := None; m_loop := None;
     m_delay := None; m_pageHeight := None |}.

(** [sourcesData.flat(Infinity)] *)
Fixpoint flat (s : Source) : list Source :=
  match s with
  | SArray items => flat_map flat items
  | _ => [s]
  end.

(** [if (!Array.isArray(sourcesData)) sourcesData = sourcesData ? [sourcesData] : []]
    followed by the flattening; the empty string is falsy. *)
Definition parse_sources (SOURCE : option Source) : list Source :=
  match SOURCE with
  | None => []
  | Some (SArray items) => flat (SArray items)
  | Some (SRaw (Path "")) => []
  | Some s => flat s
  end.

(** The wrapping of a bare string, Buffer or Image into an object. *)
Definition as_object (s : Source) : SourceObject :=
  match s with
  | SRaw r =>
      {| o_source := FieldRaw r; o_empty := None; o_color := None;
         o_sharpOptions := None; o_resize := None; o_resizeOptions := None;
         o_compositeOptions := None |}
  | SImage i =>
      {| o_source := FieldImage i; o_empty := None; o_color := None;
         o_sharpOptions := None; o_resize := None; o_resizeOptions := None;
         o_compositeOptions := None |}
  | SObject o => o
  | SArray _ =>
      {| o_source := FieldUndefined; o_empty := None; o_color := None;
         o_sharpOptions := None; o_resize := None; o_resizeOptions := None;
         o_compositeOptions := None |}
  end.

(** What becomes of a promise that is awaited: it is fulfilled, it is
    rejected, or it never settles and the [await] never returns. *)
Inductive Awaited (A : Type) : Type :=
| Fulfilled (a : A)
| Rejected (e : exn)
| Pending.
Arguments Fulfilled {A} a.
Arguments Rejected {A} e.
Arguments Pending {A}.

(** An [await] on code that returns or throws. *)
Definition settle {A} (r : result A) : Awaited A :=
  match r with
  | Ok a => Fulfilled a
  | Throw e => Rejected e
  end.

(** How [sharp()] finds the Image it is called on and what the Image does
    afterwards.  [clone] is what [_sharp.clone()] and the [metadata()] of
    the clone give. *)
Inductive ImageFate : Type :=
| WasDestroyed
| HasSharp (clone : result (Sharp * Metadata))
| EmitsSharpLoaded (clone : result (Sharp * Metadata))
| EmitsDestroy
| EmitsNeither.

(** [await image.sharp()] and the [await] of the [metadata()] of what it
    gives.  [sharp()] throws on a destroyed Image and returns the clone
    when [_sharp] is set.  Otherwise it returns a promise that is resolved
    by the listener of [sharpLoaded] and rejected by the listener of
    [destroy]; an Image whose own load failed before [sharpLoaded] and
    that nobody destroys emits neither, and the promise stays pending. *)
Definition image_sharp (fate : ImageFate) : Awaited (Sharp * Metadata) :=
  match fate with
  | WasDestroyed => Rejected (Error "Image has been destroyed!")
  | HasSharp clone => settle clone
  | EmitsSharpLoaded clone => settle clone
  | EmitsDestroy => Rejected (Error "Image was destroyed!")
  | EmitsNeither => Pending
  end.

Section WithSharp.

(** [sharp(source, { pages: -1, ...sharpOptions })] and its [metadata()]. *)
Variable decode : Raw -> option Options -> result (Sharp * Metadata).
(** The Images that the sources name. *)
Variable fate : nat -> ImageFate.
(** [parseColor(color, { shortNames: true })]: red, green, blue, alpha. *)
Variable parseColor : Color -> result (Z * Z * Z * Z).
(** [sharp({ create: ..., ...sharpOptions }).raw()] and its [metadata()]. *)
Variable fill : Z -> Z -> Z * Z * Z * Z -> option Options -> result (Sharp * Metadata).
(** [sharp(await source.clone().resize(options).toBuffer(), ...)] and its
    [metadata()]; the options are the target size merged with
    [resizeOptions]. *)
Variable resized : Sharp -> Metadata -> Z -> Z -> option Options -> result (Sharp * Metadata).

Variables WIDTH HEIGHT : Z.

Definition resolved (o : SourceObject) (sm : Sharp * Metadata) : SourceData :=
  {| source := fst sm; metadata := snd sm; resize := o_resize o;
     resizeOptions := o_resizeOptions o;
     compositeOptions := o_compositeOptions o |}.

(** The callback of the first [sourcesData.map]: its promise is fulfilled
    with the resolved entry, or with [null] after the error was emitted,
    which [Rejected] stands for, or it stays pending. *)
Definition resolve_source (s : Source) : Awaited SourceData :=
  let o := as_object s in
  match o_source o with
  | FieldRaw r =>
      match decode r (o_sharpOptions o) with
      | Ok sm => Fulfilled (resolved o sm)
      | Throw err => Rejected err
      end
  | FieldImage i =>
      match image_sharp (fate i) with
      | Fulfilled sm => Fulfilled (resolved o sm)
      | Rejected err => Rejected err
      | Pending => Pending
      end
  | FieldUndefined =>
      let color :=
        match o_empty o with
        | Some _ => Some (ColorObject 0 0 0 (Some 0%Z))
        | None => o_color o
        end in
      match color with
      | Some c =>
          match parseColor c with
          | Ok rgba =>
              match fill WIDTH HEIGHT rgba (o_sharpOptions o) with
              | Ok sm => Fulfilled (resolved o sm)
              | Throw err => Rejected err
              end
          | Throw err => Rejected err
          end
      | None => Rejected (Error "Unrecognized Image source!")
      end
  end.

(** The callback of the second [sourcesData.map]. *)
Definition resize_source (d : SourceData) : Awaited SourceData :=
  if bool_decide (resize d = Some false) then Fulfilled d
  else if bool_decide (resizeOptions d = None)
          && bool_decide (m_width (metadata d) = WIDTH)
          && bool_decide (m_height (metadata d) = HEIGHT)
  then Fulfilled d
  else
    match resized (source d) (metadata d) WIDTH HEIGHT (resizeOptions d) with
    | Ok sm =>
        Fulfilled {| source := fst sm; metadata := snd sm; resize := resize d;
                     resizeOptions := resizeOptions d;
                     compositeOptions := compositeOptions d |}
    | Throw err => Rejected err
    end.

(** [await Promise.all(xs.map(f))] followed by [.filter((x) => x)], with
    the errors emitted on the way.  When one of the promises stays pending
    so does [Promise.all], and there is no array: [None].  The errors are
    listed in the order of the sources; the code emits them in the order
    in which the promises settle. *)
Fixpoint map_filter {A B} (f : A -> Awaited B) (xs : list A)
  : option (list B) * list exn :=
  match xs with
  | [] => (Some [], [])
  | x :: rest =>
      let '(kept, errors) := map_filter f rest in
      match f x with
      | Fulfilled y => (cons y <$> kept, errors)
      | Rejected err => (kept, err :: errors)
      | Pending => (None, errors)
      end
  end.

(** The source made when [!sourcesData.length]. *)
Definition transparent_source : SourceData :=
  {| source := Created WIDTH HEIGHT 4 0 0 0 0;
     metadata := created_metadata WIDTH HEIGHT 4;
     resize := None; resizeOptions := None; compositeOptions := None |}.

(** [loadImage] up to the line [let { source: image, metadata } =
    sourcesData[0]]: the layers that will be composited, if the load gets
    there, and the errors emitted on the Image. *)
Definition load_layers (SOURCE : option Source)
  : option (list SourceData) * list exn :=
  let '(parsed, errors1) := map_filter resolve_source (parse_sources SOURCE) in
  match parsed with
  | None => (None, errors1)
  | Some parsed =>
      let '(sized, errors2) := map_filter resize_source parsed in
      match sized with
      | None => (None, errors1 ++ errors2)
      | Some sized =>
          (Some (if (length sized =? 0)%nat
                 then sized ++ [transparent_source] else sized),
           errors1 ++ errors2)
      end
  end.

End WithSharp.

(** What a [map] callback contributes to the kept entries and to the
    emitted errors. *)
Definition fulfilled {A B} (f : A -> Awaited B) (x : A) : option B :=
  match f x with Fulfilled y => Some y | _ => None end.

Definition rejected {A B} (f : A -> Awaited B) (x : A) : option exn :=
  match f x with Rejected e => Some e | _ => None end.

(** A decoder that rejects whatever it is given. *)
Definition rejecting {A B} (_ : A) : result B :=
  Throw (Error "Input file is missing").

End Loader.

(** ** lib/utils.js — [parseColor] and [checkValidColor]

    The regular expression of the two functions is rendered by the
    function [color_match]; the [colornames] package enters as a
    variable. *)

Module Colors.
Import Loader.

(** [[0-9a-f]] under the flag [i], with the value of the digit: the
    character codes 48 to 57 are [0] to [9], 97 to 102 are [a] to [f] and
    65 to 70 are [A] to [F]. *)
Definition hex_value (c : ascii) : option Z :=
  let code := Z.of_nat (nat_of_ascii c) in
  if ((48 <=? code) && (code <=? 57))%Z then Some (code - 48)%Z
  else if ((97 <=? code) && (code <=? 102))%Z then Some (code - 87)%Z
  else if ((65 <=? code) && (code <=? 70))%Z then Some (code - 55)%Z
  else None.

Definition is_hex (c : ascii) : bool :=
  match hex_value c with Some _ => true | None => false end.

(** The named groups of a match. *)
Record Groups : Type := {
  g_red : string;
  g_green : string;
  g_blue : string;
  g_alpha : option string }.

Definition text (cs : list ascii) : string := string_of_list_ascii cs.

(** The regular expression of [checkValidColor] and [parseColor]:
    [^#?], then 3, 4, 6 or 8 hex digits up to the end.  With 3 or 4 digits
    each group takes one digit, with 6 or 8 two; [alpha] is the fourth
    digit or the fourth pair. *)
Definition color_match (s : string) : option Groups :=
  let body :=
    match s with
    | String "#" rest => rest
    | _ => s
    end in
  if forallb is_hex (list_ascii_of_string body) then
    match list_ascii_of_string body with
    | [r; g; b] =>
        Some {| g_red := text [r]; g_green := text [g]; g_blue := text [b];
                g_alpha := None |}
    | [r; g; b; a] =>
        Some {| g_red := text [r]; g_green := text [g]; g_blue := text [b];
                g_alpha := Some (text [a]) |}
    | [r1; r2; g1; g2; b1; b2] =>
        Some {| g_red := text [r1; r2]; g_green := text [g1; g2];
                g_blue := text [b1; b2]; g_alpha := None |}
    | [r1; r2; g1; g2; b1; b2; a1; a2] =>
        Some {| g_red := text [r1; r2]; g_green := text [g1; g2];
                g_blue := text [b1; b2]; g_alpha := Some (text [a1; a2]) |}
    | _ => None
    end
  else None.

(** [parseInt(str, 16)] on a string of hex digits; [None] is [NaN]. *)
Definition parseInt16 (str : string) : option Z :=
  match list_ascii_of_string str with
  | [] => None
  | cs =>
      fold_left
        (fun acc c =>
           match acc, hex_value c with
           | Some n, Some v => Some (16 * n + v)%Z
           | _, _ => None
           end)
        cs (Some 0%Z)
  end.

(** [if (color[key].length === 1) color[key] = `${color[key]}${color[key]}`]
    and then [parseInt(color[key], 16)]. *)
Definition channel (str : string) : option Z :=
  parseInt16 (if (String.length str =? 1)%nat then str +:+ str else str).

(** The four channels that a matching string stands for; [alpha] is
    ['FF'] when the group did not take part. *)
Definition hex_channels (s : string)
  : option (option Z * option Z * option Z * option Z) :=
  match color_match s with
  | None => None
  | Some g =>
      Some (channel (g_red g), channel (g_green g), channel (g_blue g),
            channel (default "FF"%string (g_alpha g)))
  end.

Record ParseOptions : Type := { shortNames : bool; excludeAlpha : bool }.

Section WithColorNames.

(** The [colornames] package: the hex code of a colour name, if it is
    one. *)
Variable colorNames : string -> option string.

(** [colorNames(color)] is truthy. *)
Definition named (s : string) : option string :=
  match colorNames s with
  | Some hex => if bool_decide (hex = ""%string) then None else Some hex
  | None => None
  end.

(** The object [{ red, green, blue, alpha }] that [parseColor] builds
    first. *)
Definition channels_of (color : Color)
  : result (option Z * option Z * option Z * option Z) :=
  match color with
  | ColorString s =>
      match hex_channels (default s (named s)) with
      | Some c => Ok c
      | None =>
          Throw (TypeError "Cannot read properties of null (reading 'groups')")
      end
  | ColorArray cs => Ok (cs !! 0%nat, cs !! 1%nat, cs !! 2%nat, cs !! 3%nat)
  | ColorObject r g b a => Ok (Some r, Some g, Some b, a)
  end.

(** [parseColor(color, { shortNames, excludeAlpha })]: the object that is
    returned, as its properties in order. *)
Definition parseColor (color : Color) (o : ParseOptions)
  : result (list (string * option Z)) :=
  match channels_of color with
  | Throw e => Throw e
  | Ok (r, g, b, a) =>
      let object :=
        if shortNames o
        then [("r", r); ("g", g); ("b", b); ("alpha", a)]
        else [("red", r); ("green", g); ("blue", b); ("alpha", a)] in
      Ok (if excludeAlpha o
          then filter (fun kv => fst kv <> "alpha") object
          else object)%string
  end.

(** [typeof v === 'number' && v >= 0 && v <= 255] *)
Definition in_byte (v : Z) : bool := ((0 <=? v) && (v <=? 255))%Z.

(** The negation of the condition under which [checkValidColor]
    throws. *)
Definition valid_color (value : Color) : bool :=
  match value with
  | ColorString s =>
      bool_decide (is_Some (color_match s)) || bool_decide (is_Some (named s))
  | ColorArray cs =>
      negb ((length cs <? 3)%nat || (4 <? length cs)%nat) && forallb in_byte cs
  | ColorObject r g b a =>
      in_byte r && in_byte g && in_byte b
      && match a with None => true | Some a => in_byte a end
  end.

(** [checkValidColor(value, { name, allowUndefined })] *)
Definition checkValidColor (value : Color) (name : string)
  (allowUndefined : bool) : result unit :=
  if valid_color value then Ok tt
  else
    Throw (TypeError
             ("Expected " +:+ name
              +:+ " to be a hex color code string, an Array with color values,"
              +:+ (if allowUndefined then "" else " or")
              +:+ " an Object with color properties"
              +:+ (if allowUndefined then ", or undefined" else ""))).

End WithColorNames.

(** A channel value. *)
Definition byte (v : option Z) : Prop :=
  exists n, v = Some n /\ (0 <= n <= 255)%Z.

(** A [colornames] that knows one name. *)
Definition only_red (s : string) : option string :=
  if String.eqb s "red" then Some "#ff0000"%string else None.

End Colors.

(** ** A JavaScript [Map] keyed by key slot index

    [Page#_keys] is iterated by [detachKey] and by the focus notifications,
    so the insertion order is kept: [set] on a present key keeps its place,
    [set] on a new key appends. *)

Module JsMap.

Definition t (V : Type) := list (Z * V).

Definition get {V} (this : t V) (key : Z) : option V :=
  snd <$> find (fun e => bool_decide (fst e = key)) this.

Definition has {V} (this : t V) (key : Z) : bool :=
  bool_decide (is_Some (get this key)).

Definition delete {V} (this : list (Z * V)) (key : Z) : list (Z * V) :=
  filter (fun e => fst e ≠ key) this.

Definition set {V} (this : t V) (key : Z) (v : V) : t V :=
  if has this key
  then map (fun e => if bool_decide (fst e = key) then (key, v) else e) this
  else this ++ [(key, v)].

Definition entries {V} (this : t V) : list (Z * V) := this.
Definition values {V} (this : t V) : list V := map snd this.

End JsMap.

(** ** lib/key.js, lib/page.js, lib/streamdeck.js — the objects *)

Module Key.

Record t : Type := {
  HOLD_TIME : option Z;            (* number | undefined *)
  PRESS_TIME : Z;
  IDLE_TIME : Z;
  destroyed : bool;
  holdTimeoutIds : ArrayKeyedMap.t tid;
  pressTimeoutIds : ArrayKeyedMap.t tid;
  idleTimeoutId : option tid;
  downStates : WildArrayValuedSet.t;
  holdStates : WildArrayValuedSet.t;
  pressStates : WildArrayValuedSet.t }.

Definition set_destroyed (x : bool) (k : t) : t :=
  {| HOLD_TIME := HOLD_TIME k; PRESS_TIME := PRESS_TIME k;
     IDLE_TIME := IDLE_TIME k; destroyed := x;
     holdTimeoutIds := holdTimeoutIds k; pressTimeoutIds := pressTimeoutIds k;
     idleTimeoutId := idleTimeoutId k; downStates := downStates k;
     holdStates := holdStates k; pressStates := pressStates k |}.

Definition set_holdTimeoutIds (x : ArrayKeyedMap.t tid) (k : t) : t :=
  {| HOLD_TIME := HOLD_TIME k; PRESS_TIME := PRESS_TIME k;
     IDLE_TIME := IDLE_TIME k; destroyed := destroyed k;
     holdTimeoutIds := x; pressTimeoutIds := pressTimeoutIds k;
     idleTimeoutId := idleTimeoutId k; downStates := downStates k;
     holdStates := holdStates k; pressStates := pressStates k |}.

Definition set_pressTimeoutIds (x : ArrayKeyedMap.t tid) (k : t) : t :=
  {| HOLD_TIME := HOLD_TIME k; PRESS_TIME := PRESS_TIME k;
     IDLE_TIME := IDLE_TIME k; destroyed := destroyed k;
     holdTimeoutIds := holdTimeoutIds k; pressTimeoutIds := x;
     idleTimeoutId := idleTimeoutId k; downStates := downStates k;
     holdStates := holdStates k; pressStates := pressStates k |}.

Definition set_idleTimeoutId (x : option tid) (k : t) : t :=
  {| HOLD_TIME := HOLD_TIME k; PRESS_TIME := PRESS_TIME k;
     IDLE_TIME := IDLE_TIME k; destroyed := destroyed k;
     holdTimeoutIds := holdTimeoutIds k; pressTimeoutIds := pressTimeoutIds k;
     idleTimeoutId := x; downStates := downStates k;
     holdStates := holdStates k; pressStates := pressStates k |}.

Definition set_downStates (x : WildArrayValuedSet.t) (k : t) : t :=
  {| HOLD_TIME := HOLD_TIME k; PRESS_TIME := PRESS_TIME k;
     IDLE_TIME := IDLE_TIME k; destroyed := destroyed k;
     holdTimeoutIds := holdTimeoutIds k; pressTimeoutIds := pressTimeoutIds k;
     idleTimeoutId := idleTimeoutId k; downStates := x;
     holdStates := holdStates k; pressStates := pressStates k |}.

Definition set_holdStates (x : WildArrayValuedSet.t) (k : t) : t :=
  {| HOLD_TIME := HOLD_TIME k; PRESS_TIME := PRESS_TIME k;
     IDLE_TIME := IDLE_TIME k; destroyed := destroyed k;
     holdTimeoutIds := holdTimeoutIds k; pressTimeoutIds := pressTimeoutIds k;
     idleTimeoutId := idleTimeoutId k; downStates := downStates k;
     holdStates := x; pressStates := pressStates k |}.

Definition set_pressStates (x : WildArrayValuedSet.t) (k : t) : t :=
  {| HOLD_TIME := HOLD_TIME k; PRESS_TIME := PRESS_TIME k;
     IDLE_TIME := IDLE_TIME k; destroyed := destroyed k;
     holdTimeoutIds := holdTimeoutIds k; pressTimeoutIds := pressTimeoutIds k;
     idleTimeoutId := idleTimeoutId k; downStates := downStates k;
     holdStates := holdStates k; pressStates := x |}.

(** The object [new Key(streamDeck, queue, options)] builds: empty maps
    and sets, the hold time of the options, the press and idle times of
    the options or else the deck's. *)
Definition create (holdTime : option Z) (pressTime idleTime : Z) : t :=
  {| HOLD_TIME := holdTime; PRESS_TIME := pressTime; IDLE_TIME := idleTime;
     destroyed := false; holdTimeoutIds := []; pressTimeoutIds := [];
     idleTimeoutId := None; downStates := []; holdStates := [];
     pressStates := [] |}.

End Key.

Module Page.

Record t : Type := {
  HOLD_TIME : option Z;            (* number | undefined *)
  IDLE_TIME : Z;
  destroyed : bool;
  holdTimeoutIds : gmap Z tid;
  idleTimeoutId : option tid;
  downIndexes : gset Z;
  holdIndexes : gset Z;
  keys : JsMap.t kid }.

Definition set_destroyed (x : bool) (p : t) : t :=
  {| HOLD_TIME := HOLD_TIME p; IDLE_TIME := IDLE_TIME p; destroyed := x;
     holdTimeoutIds := holdTimeoutIds p; idleTimeoutId := idleTimeoutId p;
     downIndexes := downIndexes p; holdIndexes := holdIndexes p;
     keys := keys p |}.

Definition set_holdTimeoutIds (x : gmap Z tid) (p : t) : t :=
  {| HOLD_TIME := HOLD_TIME p; IDLE_TIME := IDLE_TIME p;
     destroyed := destroyed p;
     holdTimeoutIds := x; idleTimeoutId := idleTimeoutId p;
     downIndexes := downIndexes p; holdIndexes := holdIndexes p;
     keys := keys p |}.

Definition set_idleTimeoutId (x : option tid) (p : t) : t :=
  {| HOLD_TIME := HOLD_TIME p; IDLE_TIME := IDLE_TIME p;
     destroyed := destroyed p;
     holdTimeoutIds := holdTimeoutIds p; idleTimeoutId := x;
     downIndexes := downIndexes p; holdIndexes := holdIndexes p;
     keys := keys p |}.

Definition set_downIndexes (x : gset Z) (p : t) : t :=
  {| HOLD_TIME := HOLD_TIME p; IDLE_TIME := IDLE_TIME p;
     destroyed := destroyed p;
     holdTimeoutIds := holdTimeoutIds p; idleTimeoutId := idleTimeoutId p;
     downIndexes := x; holdIndexes := holdIndexes p;
     keys := keys p |}.

Definition set_holdIndexes (x : gset Z) (p : t) : t :=
  {| HOLD_TIME := HOLD_TIME p; IDLE_TIME := IDLE_TIME p;
     destroyed := destroyed p;
     holdTimeoutIds := holdTimeoutIds p; idleTimeoutId := idleTimeoutId p;
     downIndexes := downIndexes p; holdIndexes := x;
     keys := keys p |}.

Definition set_keys (x : JsMap.t kid) (p : t) : t :=
  {| HOLD_TIME := HOLD_TIME p; IDLE_TIME := IDLE_TIME p;
     destroyed := destroyed p;
     holdTimeoutIds := holdTimeoutIds p; idleTimeoutId := idleTimeoutId p;
     downIndexes := downIndexes p; holdIndexes := holdIndexes p;
     keys := x |}.

Definition create (holdTime : option Z) (idleTime : Z) : t :=
  {| HOLD_TIME := holdTime; IDLE_TIME := idleTime; destroyed := false;
     holdTimeoutIds := ∅; idleTimeoutId := None; downIndexes := ∅;
     holdIndexes := ∅; keys := [] |}.

End Page.

Module StreamDeck.

Record t : Type := {
  KEY_COUNT : Z;
  PANEL_ROW_COUNT : Z;
  PANEL_COLUMN_COUNT : Z;
  HOLD_TIME : Z;
  PRESS_TIME : Z;
  IDLE_TIME : Z;
  destroyed : bool;
  holdTimeoutIds : gmap Z tid;
  idleTimeoutId : option tid;
  downPages : gmap Z (option pid);
  downKeys : gmap Z (option kid);
  holdIndexes : gset Z;
  defaultPage : option pid;
  focusedPage : option pid }.

Definition set_holdTimeoutIds (x : gmap Z tid) (d : t) : t :=
  {| KEY_COUNT := KEY_COUNT d; PANEL_ROW_COUNT := PANEL_ROW_COUNT d;
     PANEL_COLUMN_COUNT := PANEL_COLUMN_COUNT d; HOLD_TIME := HOLD_TIME d;
     PRESS_TIME := PRESS_TIME d; IDLE_TIME := IDLE_TIME d;
     destroyed := destroyed d; holdTimeoutIds := x;
     idleTimeoutId := idleTimeoutId d; downPages := downPages d;
     downKeys := downKeys d; holdIndexes := holdIndexes d;
     defaultPage := defaultPage d; focusedPage := focusedPage d |}.

Definition set_idleTimeoutId (x : option tid) (d : t) : t :=
  {| KEY_COUNT := KEY_COUNT d; PANEL_ROW_COUNT := PANEL_ROW_COUNT d;
     PANEL_COLUMN_COUNT := PANEL_COLUMN_COUNT d; HOLD_TIME := HOLD_TIME d;
     PRESS_TIME := PRESS_TIME d; IDLE_TIME := IDLE_TIME d;
     destroyed := destroyed d; holdTimeoutIds := holdTimeoutIds d;
     idleTimeoutId := x; downPages := downPages d;
     downKeys := downKeys d; holdIndexes := holdIndexes d;
     defaultPage := defaultPage d; focusedPage := focusedPage d |}.

Definition set_down (pages : gmap Z (option pid)) (keys : gmap Z (option kid))
  (d : t) : t :=
  {| KEY_COUNT := KEY_COUNT d; PANEL_ROW_COUNT := PANEL_ROW_COUNT d;
     PANEL_COLUMN_COUNT := PANEL_COLUMN_COUNT d; HOLD_TIME := HOLD_TIME d;
     PRESS_TIME := PRESS_TIME d; IDLE_TIME := IDLE_TIME d;
     destroyed := destroyed d; holdTimeoutIds := holdTimeoutIds d;
     idleTimeoutId := idleTimeoutId d; downPages := pages;
     downKeys := keys; holdIndexes := holdIndexes d;
     defaultPage := defaultPage d; focusedPage := focusedPage d |}.

Definition set_holdIndexes (x : gset Z) (d : t) : t :=
  {| KEY_COUNT := KEY_COUNT d; PANEL_ROW_COUNT := PANEL_ROW_COUNT d;
     PANEL_COLUMN_COUNT := PANEL_COLUMN_COUNT d; HOLD_TIME := HOLD_TIME d;
     PRESS_TIME := PRESS_TIME d; IDLE_TIME := IDLE_TIME d;
     destroyed := destroyed d; holdTimeoutIds := holdTimeoutIds d;
     idleTimeoutId := idleTimeoutId d; downPages := downPages d;
     downKeys := downKeys d; holdIndexes := x;
     defaultPage := defaultPage d; focusedPage := focusedPage d |}.

Definition set_focusedPage (x : option pid) (d : t) : t :=
  {| KEY_COUNT := KEY_COUNT d; PANEL_ROW_COUNT := PANEL_ROW_COUNT d;
     PANEL_COLUMN_COUNT := PANEL_COLUMN_COUNT d; HOLD_TIME := HOLD_TIME d;
     PRESS_TIME := PRESS_TIME d; IDLE_TIME := IDLE_TIME d;
     destroyed := destroyed d; holdTimeoutIds := holdTimeoutIds d;
     idleTimeoutId := idleTimeoutId d; downPages := downPages d;
     downKeys := downKeys d; holdIndexes := holdIndexes d;
     defaultPage := defaultPage d; focusedPage := x |}.

Definition set_defaultPage (x : option pid) (d : t) : t :=
  {| KEY_COUNT := KEY_COUNT d; PANEL_ROW_COUNT := PANEL_ROW_COUNT d;
     PANEL_COLUMN_COUNT := PANEL_COLUMN_COUNT d; HOLD_TIME := HOLD_TIME d;
     PRESS_TIME := PRESS_TIME d; IDLE_TIME := IDLE_TIME d;
     destroyed := destroyed d; holdTimeoutIds := holdTimeoutIds d;
     idleTimeoutId := idleTimeoutId d; downPages := downPages d;
     downKeys := downKeys d; holdIndexes := holdIndexes d;
     defaultPage := x; focusedPage := focusedPage d |}.

(** The object the constructor builds for a device that reports
    [keyCount] keys on a panel of [rows] by [columns]; [holdTime] defaults
    to 500, [pressTime] to 0 and [idleTime] to 10000 when the options leave
    them out. *)
Definition create (keyCount rows columns : Z)
  (holdTime pressTime idleTime : option Z) : t :=
  {| KEY_COUNT := keyCount; PANEL_ROW_COUNT := rows;
     PANEL_COLUMN_COUNT := columns;
     HOLD_TIME := default 500%Z holdTime;
     PRESS_TIME := default 0%Z pressTime;
     IDLE_TIME := default 10000%Z idleTime;
     destroyed := false; holdTimeoutIds := ∅; idleTimeoutId := None;
     downPages := ∅; downKeys := ∅; holdIndexes := ∅;
     defaultPage := None; focusedPage := None |}.

End StreamDeck.

(** ** The running system: one StreamDeck, its pages and keys, the timers
       of the event loop and what has been emitted *)

Module Deck.

Inductive scope : Type :=
| OnDeck
| OnPage (p : pid)
| OnKey (k : kid).

Inductive evname : Type :=
| down | hold | up | click | held
| activity_down | activity_up | activity_focus
| idle | attach | detach | focus | blur.

(** One call of [emit]: the emitter, the event and the index, page and key
    arguments.  For [focus] and [blur] the page argument is the page that
    gains the focus and [n_blur] the page that loses it. *)
Record Notif : Type := {
  target : scope;
  name : evname;
  n_index : option Z;
  n_page : option pid;
  n_key : option kid;
  n_blur : option pid }.

#[global] Instance scope_eq_dec : EqDecision scope.
Proof. solve_decision. Defined.
#[global] Instance evname_eq_dec : EqDecision evname.
Proof. solve_decision. Defined.
#[global] Instance Notif_eq_dec : EqDecision Notif.
Proof. solve_decision. Defined.

(** The callbacks handed to [setTimeout], with what each closure
    captured. *)
Inductive TimerAction : Type :=
| DeckHold (index : Z) (page : option pid) (key : option kid)
| DeckIdle
| PageHold (p : pid) (index : Z) (key : option kid)
| PageIdle (p : pid)
| KeyHold (k : kid) (index : Z) (page : pid)
| KeyPress (k : kid) (index : Z) (page : pid)
| KeyIdle (k : kid).

Record Timer : Type := {
  t_id : tid;
  t_deadline : Z;
  t_action : TimerAction }.

(** A job pushed on the graphics queue by [draw()]. *)
Inductive DrawJob : Type :=
| DrawKey (k : kid)
| DrawPage (p : pid).

(** Objects live in [pages] and [keys] under their addresses and are never
    freed; an address without an object behaves as an object that ignores
    every call.  [log] lists the [emit] calls in order, [graphicsQueue]
    the pushed draw jobs. *)
Record World : Type := {
  now : Z;
  nextTimeoutId : tid;
  timers : list Timer;
  deck : StreamDeck.t;
  pages : gmap pid Page.t;
  keys : gmap kid Key.t;
  log : list Notif;
  graphicsQueue : list DrawJob }.

Definition set_clock (t : Z) (id : tid) (ts : list Timer) (w : World) : World :=
  {| now := t; nextTimeoutId := id; timers := ts; deck := deck w;
     pages := pages w; keys := keys w; log := log w;
     graphicsQueue := graphicsQueue w |}.

Definition set_deck (d : StreamDeck.t) (w : World) : World :=
  {| now := now w; nextTimeoutId := nextTimeoutId w; timers := timers w;
     deck := d; pages := pages w; keys := keys w; log := log w;
     graphicsQueue := graphicsQueue w |}.

Definition set_pages (ps : gmap pid Page.t) (w : World) : World :=
  {| now := now w; nextTimeoutId := nextTimeoutId w; timers := timers w;
     deck := deck w; pages := ps; keys := keys w; log := log w;
     graphicsQueue := graphicsQueue w |}.

Definition set_keys (ks : gmap kid Key.t) (w : World) : World :=
  {| now := now w; nextTimeoutId := nextTimeoutId w; timers := timers w;
     deck := deck w; pages := pages w; keys := ks; log := log w;
     graphicsQueue := graphicsQueue w |}.

Definition set_log (l : list Notif) (w : World) : World :=
  {| now := now w; nextTimeoutId := nextTimeoutId w; timers := timers w;
     deck := deck w; pages := pages w; keys := keys w; log := l;
     graphicsQueue := graphicsQueue w |}.

Definition set_graphicsQueue (q : list DrawJob) (w : World) : World :=
  {| now := now w; nextTimeoutId := nextTimeoutId w; timers := timers w;
     deck := deck w; pages := pages w; keys := keys w; log := log w;
     graphicsQueue := q |}.

Definition put_page (p : pid) (P : Page.t) (w : World) : World :=
  set_pages (<[p := P]> (pages w)) w.

Definition put_key (k : kid) (K : Key.t) (w : World) : World :=
  set_keys (<[k := K]> (keys w)) w.

(** The longest delay that a timer of Node takes. *)
Definition TIMEOUT_MAX : Z := 2147483647.

(** The delay that Node gives a timer asked for with [delay]:
    [if (!(after >= 1 && after <= TIMEOUT_MAX)) after = 1]. *)
Definition timeout_after (delay : Z) : Z :=
  if ((1 <=? delay) && (delay <=? TIMEOUT_MAX))%Z then delay else 1%Z.

(** [setTimeout(callback, delay)] *)
Definition setTimeout (action : TimerAction) (delay : Z) (w : World) : World * tid :=
  let id := nextTimeoutId w in
  (set_clock (now w) (S id)
     (timers w ++ [{| t_id := id; t_deadline := (now w + timeout_after delay)%Z;
                      t_action := action |}]) w,
   id).

(** [clearTimeout(id)] *)
Definition clearTimeout (id : tid) (w : World) : World :=
  set_clock (now w) (nextTimeoutId w)
    (filter (fun t => t_id t ≠ id) (timers w)) w.

(** [if (map.has(key)) { clearTimeout(map.get(key)); map.delete(key) }],
    the part that touches the event loop. *)
Definition clearTimeout_opt (id : option tid) (w : World) : World :=
  match id with
  | Some id => clearTimeout id w
  | None => w
  end.

(** The record of one [emit] call. *)
Definition notify (s : scope) (ev : evname) (index : option Z)
  (page : option pid) (key : option kid) (w : World) : World :=
  set_log (log w ++ [{| target := s; name := ev; n_index := index;
                        n_page := page; n_key := key; n_blur := None |}]) w.

(** The record of an [emit] of [focus] or [blur]. *)
Definition notify_focus (s : scope) (ev : evname) (focusPage blurPage : option pid)
  (w : World) : World :=
  set_log (log w ++ [{| target := s; name := ev; n_index := None;
                        n_page := focusPage; n_key := None;
                        n_blur := blurPage |}]) w.

(** [typeof x.HOLD_TIME === 'number'] *)
Definition is_number (x : option Z) : bool :=
  match x with Some _ => true | None => false end.

(** *** Reading and writing one object *)

Definition upd_key (k : kid) (f : Key.t -> Key.t) (w : World) : World :=
  match keys w !! k with
  | Some K => put_key k (f K) w
  | None => w
  end.

Definition upd_page (p : pid) (f : Page.t -> Page.t) (w : World) : World :=
  match pages w !! p with
  | Some P => put_page p (f P) w
  | None => w
  end.

Definition upd_deck (f : StreamDeck.t -> StreamDeck.t) (w : World) : World :=
  set_deck (f (deck w)) w.

(** [map.set(key, setTimeout(callback, delay))]: the timer is armed and
    [store] files its handle. *)
Definition arm (action : TimerAction) (delay : Z)
  (store : tid -> World -> World) (w : World) : World :=
  store (snd (setTimeout action delay w)) (fst (setTimeout action delay w)).

(** *** Key *)

(** [Key#draw()]: the job is pushed unless the key is destroyed. *)
Definition key_draw (k : kid) (w : World) : World :=
  match keys w !! k with
  | None => w
  | Some K =>
      if Key.destroyed K then w
      else set_graphicsQueue (graphicsQueue w ++ [DrawKey k]) w
  end.

(** The clearing of the two timers of a pair that opens the [detach],
    [down] and [up] listeners. *)
Definition key_clear_timers (k : kid) (pair : list jsval) (w : World) : World :=
  match keys w !! k with
  | None => w
  | Some K =>
      let w := clearTimeout_opt (ArrayKeyedMap.get (Key.holdTimeoutIds K) pair) w in
      let w := clearTimeout_opt (ArrayKeyedMap.get (Key.pressTimeoutIds K) pair) w in
      upd_key k
        (fun K =>
           Key.set_pressTimeoutIds
             (ArrayKeyedMap.delete (Key.pressTimeoutIds K) pair)
             (Key.set_holdTimeoutIds
                (ArrayKeyedMap.delete (Key.holdTimeoutIds K) pair) K)) w
  end.

(** [downStates.delete(pair); holdStates.delete(pair); pressStates.delete(pair)] *)
Definition key_forget (pair : list jsval) (K : Key.t) : Key.t :=
  Key.set_pressStates
    (fst (WildArrayValuedSet.delete (Key.pressStates K) pair))
    (Key.set_holdStates
       (fst (WildArrayValuedSet.delete (Key.holdStates K) pair))
       (Key.set_downStates
          (fst (WildArrayValuedSet.delete (Key.downStates K) pair)) K)).

(** [downStates.add(pair); holdStates.delete(pair); pressStates.add(pair)] *)
Definition key_press (pair : list jsval) (K : Key.t) : Key.t :=
  Key.set_pressStates
    (WildArrayValuedSet.add (Key.pressStates K) pair)
    (Key.set_holdStates
       (fst (WildArrayValuedSet.delete (Key.holdStates K) pair))
       (Key.set_downStates
          (WildArrayValuedSet.add (Key.downStates K) pair) K)).

(** [this.on('detach', (index, page) => ...)] *)
Definition key_on_detach (k : kid) (index : Z) (page : pid) (w : World) : World :=
  match keys w !! k with
  | None => w
  | Some K =>
      if Key.destroyed K then w
      else
        let pair := [JNum index; JPage page] in
        let w := key_clear_timers k pair w in
        upd_key k (key_forget pair) w
  end.

(** [this.on('down', (index, page) => ...)] *)
Definition key_on_down (k : kid) (index : Z) (page : pid) (w : World) : World :=
  match keys w !! k with
  | None => w
  | Some K =>
      if Key.destroyed K then w
      else
        let pair := [JNum index; JPage page] in
        let w := key_clear_timers k pair w in
        let w := upd_key k (key_press pair) w in
        let w :=
          match Key.HOLD_TIME K with
          | Some h =>
              if (0 <? h)%Z then
                arm (KeyHold k index page) h
                  (fun id =>
                     upd_key k
                       (fun K =>
                          Key.set_holdTimeoutIds
                            (ArrayKeyedMap.set (Key.holdTimeoutIds K) pair id) K))
                  w
              else w
          | None => w
          end in
        let w :=
          if (0 <? Key.PRESS_TIME K)%Z then
            arm (KeyPress k index page) (Key.PRESS_TIME K)
              (fun id =>
                 upd_key k
                   (fun K =>
                      Key.set_pressTimeoutIds
                        (ArrayKeyedMap.set (Key.pressTimeoutIds K) pair id) K))
              w
          else w in
        key_draw k w
  end.

(** [this.on('hold', (index, page) => ...)] *)
Definition key_on_hold (k : kid) (index : Z) (page : pid) (w : World) : World :=
  match keys w !! k with
  | None => w
  | Some K =>
      if Key.destroyed K then w
      else if is_number (Key.HOLD_TIME K) then w
      else
        upd_key k
          (fun K =>
             Key.set_holdStates
               (WildArrayValuedSet.add (Key.holdStates K) [JNum index; JPage page])
               K) w
  end.

(** [this.on('up', (index, page) => ...)].  The [held] and [click] events
    it emits have no listener inside the class; the two flags are read
    before the sets are cleared. *)
Definition key_on_up (k : kid) (index : Z) (page : pid) (w : World) : World :=
  match keys w !! k with
  | None => w
  | Some K =>
      if Key.destroyed K then w
      else
        let pair := [JNum index; JPage page] in
        let w := key_clear_timers k pair w in
        let was_held := WildArrayValuedSet.has (Key.holdStates K) pair in
        let pressed := WildArrayValuedSet.has (Key.pressStates K) pair in
        let w := upd_key k (key_forget pair) w in
        let w :=
          if is_number (Key.HOLD_TIME K)
          then notify (OnKey k) (if was_held then held else click)
                 (Some index) (Some page) (Some k) w
          else w in
        if pressed then key_draw k w else w
  end.

(** The callback of the idle timer of a key; [idle] has no listener inside
    the class. *)
Definition key_idle_fires (k : kid) (w : World) : World :=
  notify (OnKey k) idle None None None
    (upd_key k (Key.set_idleTimeoutId None) w).

(** [this.on('activity', () => ...)] *)
Definition key_on_activity (k : kid) (w : World) : World :=
  match keys w !! k with
  | None => w
  | Some K =>
      if Key.destroyed K then w
      else
        let w := clearTimeout_opt (Key.idleTimeoutId K) w in
        let w := upd_key k (Key.set_idleTimeoutId None) w in
        if (Key.IDLE_TIME K <=? 0)%Z
           || negb (WildArrayValuedSet.size (Key.downStates K) =? 0)%nat
        then w
        else
          arm (KeyIdle k) (Key.IDLE_TIME K)
            (fun id => upd_key k (Key.set_idleTimeoutId (Some id))) w
  end.

(** [key.emit(ev, index, page, key)]: the call is recorded and the
    listener that the constructor registered for [ev] runs.  The deck and
    the pages always pass an index and a page with [detach], [down],
    [hold] and [up]. *)
Definition key_emit (k : kid) (ev : evname) (index : option Z)
  (page : option pid) (key : option kid) (w : World) : World :=
  let w := notify (OnKey k) ev index page key w in
  match ev, index, page with
  | detach, Some i, Some p => key_on_detach k i p w
  | down, Some i, Some p => key_on_down k i p w
  | hold, Some i, Some p => key_on_hold k i p w
  | up, Some i, Some p => key_on_up k i p w
  | activity_down, _, _ | activity_up, _, _ | activity_focus, _, _ =>
      key_on_activity k w
  | _, _, _ => w
  end.

(** [key?.emit(...)] *)
Definition key_emit_opt (key : option kid) (ev : evname) (index : option Z)
  (page : option pid) (w : World) : World :=
  match key with
  | Some k => key_emit k ev index page key w
  | None => w
  end.

(** The callback of the hold timer that the [down] listener of a key
    arms. *)
Definition key_hold_fires (k : kid) (index : Z) (page : pid) (w : World) : World :=
  let pair := [JNum index; JPage page] in
  let w :=
    upd_key k
      (fun K =>
         Key.set_holdStates (WildArrayValuedSet.add (Key.holdStates K) pair)
           (Key.set_holdTimeoutIds
              (ArrayKeyedMap.delete (Key.holdTimeoutIds K) pair) K)) w in
  key_emit k hold (Some index) (Some page) (Some k) w.

(** The callback of the press timer. *)
Definition key_press_fires (k : kid) (index : Z) (page : pid) (w : World) : World :=
  let pair := [JNum index; JPage page] in
  let w :=
    upd_key k
      (fun K =>
         Key.set_pressStates
           (fst (WildArrayValuedSet.delete (Key.pressStates K) pair))
           (Key.set_pressTimeoutIds
              (ArrayKeyedMap.delete (Key.pressTimeoutIds K) pair) K)) w in
  key_draw k w.

(** *** Page *)

(** [Page#draw()] *)
Definition page_draw (p : pid) (w : World) : World :=
  match pages w !! p with
  | None => w
  | Some P =>
      if Page.destroyed P then w
      else set_graphicsQueue (graphicsQueue w ++ [DrawPage p]) w
  end.

(** [key && typeof key.HOLD_TIME !== 'number'] *)
Definition key_inherits (key : option kid) (w : World) : bool :=
  match key with
  | None => false
  | Some k =>
      match keys w !! k with
      | None => false
      | Some K => negb (is_number (Key.HOLD_TIME K))
      end
  end.

(** [page && typeof page.HOLD_TIME !== 'number'] *)
Definition page_inherits (page : option pid) (w : World) : bool :=
  match page with
  | None => false
  | Some p =>
      match pages w !! p with
      | None => false
      | Some P => negb (is_number (Page.HOLD_TIME P))
      end
  end.

(** [this.on('down', (index) => ...)] *)
Definition page_on_down (p : pid) (index : Z) (w : World) : World :=
  match pages w !! p with
  | None => w
  | Some P =>
      if Page.destroyed P then w
      else
        let w := clearTimeout_opt (Page.holdTimeoutIds P !! index) w in
        let key := JsMap.get (Page.keys P) index in
        let w :=
          upd_page p
            (fun P =>
               Page.set_holdIndexes (Page.holdIndexes P ∖ {[index]})
                 (Page.set_downIndexes ({[index]} ∪ Page.downIndexes P)
                    (Page.set_holdTimeoutIds
                       (delete index (Page.holdTimeoutIds P)) P))) w in
        match Page.HOLD_TIME P with
        | None => w
        | Some h =>
            if (h <=? 0)%Z then w
            else
              arm (PageHold p index key) h
                (fun id =>
                   upd_page p
                     (fun P =>
                        Page.set_holdTimeoutIds
                          (<[index := id]> (Page.holdTimeoutIds P)) P)) w
        end
  end.

(** [this.on('hold', (index) => ...)] *)
Definition page_on_hold (p : pid) (index : Z) (w : World) : World :=
  match pages w !! p with
  | None => w
  | Some P =>
      if Page.destroyed P then w
      else if is_number (Page.HOLD_TIME P) then w
      else
        upd_page p
          (fun P => Page.set_holdIndexes ({[index]} ∪ Page.holdIndexes P) P) w
  end.

(** [this.on('up', (index) => ...)].  The page has no listener of its own
    for [held] and [click]. *)
Definition page_on_up (p : pid) (index : Z) (w : World) : World :=
  match pages w !! p with
  | None => w
  | Some P =>
      if Page.destroyed P then w
      else
        let w := clearTimeout_opt (Page.holdTimeoutIds P !! index) w in
        let key := JsMap.get (Page.keys P) index in
        let was_held := bool_decide (index ∈ Page.holdIndexes P) in
        let w :=
          upd_page p
            (fun P =>
               Page.set_holdIndexes (Page.holdIndexes P ∖ {[index]})
                 (Page.set_downIndexes (Page.downIndexes P ∖ {[index]})
                    (Page.set_holdTimeoutIds
                       (delete index (Page.holdTimeoutIds P)) P))) w in
        if negb (is_number (Page.HOLD_TIME P)) then w
        else
          let ev := if was_held then held else click in
          let w := notify (OnPage p) ev (Some index) (Some p) key w in
          if key_inherits key w
          then key_emit_opt key ev (Some index) (Some p) w
          else w
  end.

(** The callback of the idle timer of a page. *)
Definition page_idle_fires (p : pid) (w : World) : World :=
  notify (OnPage p) idle None None None
    (upd_page p (Page.set_idleTimeoutId None) w).

(** [this.on('activity', () => ...)] *)
Definition page_on_activity (p : pid) (w : World) : World :=
  match pages w !! p with
  | None => w
  | Some P =>
      if Page.destroyed P then w
      else
        let w := clearTimeout_opt (Page.idleTimeoutId P) w in
        let w := upd_page p (Page.set_idleTimeoutId None) w in
        if (Page.IDLE_TIME P <=? 0)%Z
           || negb (size (Page.downIndexes P) =? 0)%nat
        then w
        else
          arm (PageIdle p) (Page.IDLE_TIME P)
            (fun id => upd_page p (Page.set_idleTimeoutId (Some id))) w
  end.

(** [page.emit(ev, index, page, key)] *)
Definition page_emit (p : pid) (ev : evname) (index : option Z)
  (page : option pid) (key : option kid) (w : World) : World :=
  let w := notify (OnPage p) ev index page key w in
  match ev, index with
  | down, Some i => page_on_down p i w
  | hold, Some i => page_on_hold p i w
  | up, Some i => page_on_up p i w
  | activity_down, _ | activity_up, _ | activity_focus, _ =>
      page_on_activity p w
  | _, _ => w
  end.

(** [page?.emit(...)] *)
Definition page_emit_opt (page : option pid) (ev : evname) (index : option Z)
  (key : option kid) (w : World) : World :=
  match page with
  | Some p => page_emit p ev index page key w
  | None => w
  end.

(** The callback of the hold timer that the [down] listener of a page
    arms; [key] is the key the listener found at the slot. *)
Definition page_hold_fires (p : pid) (index : Z) (key : option kid) (w : World) : World :=
  let w :=
    upd_page p
      (fun P =>
         Page.set_holdIndexes ({[index]} ∪ Page.holdIndexes P)
           (Page.set_holdTimeoutIds (delete index (Page.holdTimeoutIds P)) P))
      w in
  let w := page_emit p hold (Some index) (Some p) key w in
  if key_inherits key w
  then key_emit_opt key hold (Some index) (Some p) w
  else w.

(** *** StreamDeck *)

(** The callback of the idle timer of the deck. *)
Definition deck_idle_fires (w : World) : World :=
  notify OnDeck idle None None None
    (upd_deck (StreamDeck.set_idleTimeoutId None) w).

(** [this.on('activity', () => ...)] *)
Definition deck_on_activity (w : World) : World :=
  let D := deck w in
  if StreamDeck.destroyed D then w
  else
    let w := clearTimeout_opt (StreamDeck.idleTimeoutId D) w in
    let w := upd_deck (StreamDeck.set_idleTimeoutId None) w in
    if (StreamDeck.IDLE_TIME D <=? 0)%Z
       || negb (size (StreamDeck.downKeys D) =? 0)%nat
    then w
    else
      arm DeckIdle (StreamDeck.IDLE_TIME D)
        (fun id => upd_deck (StreamDeck.set_idleTimeoutId (Some id))) w.

(** [this.emit(ev, index, page, key)] on the deck; only [activity] has a
    listener inside the class. *)
Definition deck_emit (ev : evname) (index : option Z) (page : option pid)
  (key : option kid) (w : World) : World :=
  let w := notify OnDeck ev index page key w in
  match ev with
  | activity_down | activity_up | activity_focus => deck_on_activity w
  | _ => w
  end.

(** [page.emit(ev, ...)] and, under it, [key.emit(ev, ...)], each one only
    when the receiver has no hold time of its own: the propagation that
    the deck does for [hold], [held] and [click]. *)
Definition propagate (ev : evname) (index : Z) (page : option pid)
  (key : option kid) (w : World) : World :=
  if page_inherits page w then
    let w := page_emit_opt page ev (Some index) key w in
    if key_inherits key w
    then key_emit_opt key ev (Some index) page w
    else w
  else w.

(** The callback of the hold timer that the hardware [down] listener
    arms, with the page and key it captured. *)
Definition deck_hold_fires (index : Z) (page : option pid) (key : option kid)
  (w : World) : World :=
  let w :=
    upd_deck
      (fun D =>
         StreamDeck.set_holdIndexes ({[index]} ∪ StreamDeck.holdIndexes D)
           (StreamDeck.set_holdTimeoutIds
              (delete index (StreamDeck.holdTimeoutIds D)) D)) w in
  let w := deck_emit hold (Some index) page key w in
  propagate hold index page key w.

(** [this.STREAMDECK_NODE.on('down', (index) => ...)] *)
Definition hw_down (index : Z) (w : World) : World :=
  let D := deck w in
  if StreamDeck.destroyed D then w
  else
    let w := clearTimeout_opt (StreamDeck.holdTimeoutIds D !! index) w in
    let page := StreamDeck.focusedPage D in
    let key :=
      match page with
      | None => None
      | Some p =>
          match pages w !! p with
          | None => None
          | Some P => JsMap.get (Page.keys P) index
          end
      end in
    let w :=
      upd_deck
        (fun D =>
           StreamDeck.set_holdIndexes (StreamDeck.holdIndexes D ∖ {[index]})
             (StreamDeck.set_down (<[index := page]> (StreamDeck.downPages D))
                (<[index := key]> (StreamDeck.downKeys D))
                (StreamDeck.set_holdTimeoutIds
                   (delete index (StreamDeck.holdTimeoutIds D)) D))) w in
    let w := deck_emit down (Some index) page key w in
    let w := page_emit_opt page down (Some index) key w in
    let w := key_emit_opt key down (Some index) page w in
    let w :=
      if (0 <? StreamDeck.HOLD_TIME D)%Z then
        arm (DeckHold index page key) (StreamDeck.HOLD_TIME D)
          (fun id =>
             upd_deck
               (fun D =>
                  StreamDeck.set_holdTimeoutIds
                    (<[index := id]> (StreamDeck.holdTimeoutIds D)) D)) w
      else w in
    let w := deck_emit activity_down (Some index) page key w in
    let w := page_emit_opt page activity_down (Some index) key w in
    key_emit_opt key activity_down (Some index) page w.

(** [this.STREAMDECK_NODE.on('up', (index) => ...)] *)
Definition hw_up (index : Z) (w : World) : World :=
  let D := deck w in
  if StreamDeck.destroyed D then w
  else
    let w := clearTimeout_opt (StreamDeck.holdTimeoutIds D !! index) w in
    let page := default None (StreamDeck.downPages D !! index) in
    let key := default None (StreamDeck.downKeys D !! index) in
    let was_held := bool_decide (index ∈ StreamDeck.holdIndexes D) in
    let w :=
      upd_deck
        (fun D =>
           StreamDeck.set_holdIndexes (StreamDeck.holdIndexes D ∖ {[index]})
             (StreamDeck.set_down (delete index (StreamDeck.downPages D))
                (delete index (StreamDeck.downKeys D))
                (StreamDeck.set_holdTimeoutIds
                   (delete index (StreamDeck.holdTimeoutIds D)) D))) w in
    let w := deck_emit up (Some index) page key w in
    let w := page_emit_opt page up (Some index) key w in
    let w := key_emit_opt key up (Some index) page w in
    let ev := if was_held then held else click in
    let w := deck_emit ev (Some index) page key w in
    let w := propagate ev index page key w in
    let w := deck_emit activity_up (Some index) page key w in
    let w := page_emit_opt page activity_up (Some index) key w in
    key_emit_opt key activity_up (Some index) page w.

(** *** The public methods of Page and StreamDeck *)

(** [checkValid(value, { name, type: 'integer', min, max })] on an
    integer. *)
Definition check_range (what : string) (value min max : Z) : result unit :=
  if ((value <? min) || (max <? value))%Z
  then Throw (RangeError ("Expected " +:+ what +:+ " to be between "
                          +:+ pretty min +:+ " and " +:+ pretty max
                          +:+ " inclusive"))
  else Ok tt.

(** What the same [checkValid] throws on a number that is no integer. *)
Definition not_an_integer (what : string) : exn :=
  TypeError ("Expected " +:+ what +:+ " to be an integer").

(** [checkValid(key, { type: 'class', class: 'Key', streamDeck,
    allowUndefined, allowDestroyed })] *)
Definition check_key (allowUndefined allowDestroyed : bool) (key : jsval)
  (w : World) : result unit :=
  match key with
  | JUndefined =>
      if allowUndefined then Ok tt
      else Throw (TypeError "Expected key to be an instance of Key")
  | JKey k =>
      match keys w !! k with
      | Some K =>
          if negb allowDestroyed && Key.destroyed K
          then Throw (TypeError "Key key has been destroyed")
          else Ok tt
      | None => Ok tt
      end
  | _ =>
      Throw (TypeError ("Expected key to be an instance of Key"
                        +:+ (if allowUndefined then " or undefined" else "")))
  end.

(** The three call shapes of [attachKey] and [detachKey], told apart by
    [typeof row === 'number'] and [typeof column === 'number']: the slot
    index, when the arguments name one, and the key argument. *)
Definition slot_of_arguments (D : StreamDeck.t) (row column key : jsval)
  : result (option Z * jsval) :=
  match row, column with
  | JNum r, JNum c =>
      match check_range "row" r 1 (StreamDeck.PANEL_ROW_COUNT D) with
      | Throw e => Throw e
      | Ok _ =>
          match check_range "column" c 1 (StreamDeck.PANEL_COLUMN_COUNT D) with
          | Throw e => Throw e
          | Ok _ =>
              Ok (Some (c - 1 + (r - 1) * StreamDeck.PANEL_COLUMN_COUNT D)%Z, key)
          end
      end
  | JNum r, JFraction _ _ =>
      match check_range "row" r 1 (StreamDeck.PANEL_ROW_COUNT D) with
      | Throw e => Throw e
      | Ok _ => Throw (not_an_integer "column")
      end
  | JFraction _ _, JNum _ => Throw (not_an_integer "row")
  | JFraction _ _, JFraction _ _ => Throw (not_an_integer "row")
  | JNum r, _ =>
      match check_range "index" r 0 (StreamDeck.KEY_COUNT D - 1) with
      | Throw e => Throw e
      | Ok _ => Ok (Some r, column)
      end
  | JFraction _ _, _ => Throw (not_an_integer "index")
  | _, _ => Ok (None, row)
  end.

(** The test of the [for] loop of [detachKey] on one entry. *)
Definition detach_matches (index : option Z) (key : jsval) (e : Z * kid) : bool :=
  match index with
  | Some i => bool_decide (fst e = i)
  | None => true
  end
  && match key with
     | JUndefined => true
     | _ => bool_decide (JKey (snd e) = key)
     end.

(** [Page#detachKey(row, column, key)].  The third [emit] of the loop is
    called on the [key] parameter. *)
Definition detachKey (p : pid) (row column key : jsval) (w : World)
  : World * result unit :=
  match pages w !! p with
  | None => (w, Ok tt)
  | Some P =>
      if Page.destroyed P then (w, Throw (Error "Page has been destroyed!"))
      else
        match slot_of_arguments (deck w) row column key with
        | Throw e => (w, Throw e)
        | Ok (index, key) =>
            match check_key (bool_decide (is_Some index)) true key w with
            | Throw e => (w, Throw e)
            | Ok _ =>
                match find (detach_matches index key) (JsMap.entries (Page.keys P)) with
                | None => (page_draw p w, Ok tt)
                | Some (attachedIndex, attachedKey) =>
                    let w := put_page p
                               (Page.set_keys
                                  (JsMap.delete (Page.keys P) attachedIndex) P) w in
                    let w := deck_emit detach (Some attachedIndex) (Some p)
                               (Some attachedKey) w in
                    let w := page_emit p detach (Some attachedIndex) (Some p)
                               (Some attachedKey) w in
                    match key with
                    | JKey k =>
                        let w := key_emit k detach (Some attachedIndex) (Some p)
                                   (Some attachedKey) w in
                        (page_draw p w, Ok tt)
                    | _ =>
                        (w, Throw (TypeError
                           "Cannot read properties of undefined (reading 'emit')"))
                    end
                end
            end
        end
  end.

(** The search for the first free slot in the key-only call of
    [attachKey]. *)
Definition first_free_slot (D : StreamDeck.t) (P : Page.t) : option Z :=
  find (fun i => negb (JsMap.has (Page.keys P) i))
       (seqZ 0 (StreamDeck.KEY_COUNT D)).

(** [Page#attachKey(row, column, key)] *)
Definition attachKey (p : pid) (row column key : jsval) (w : World)
  : World * result unit :=
  match pages w !! p with
  | None => (w, Ok tt)
  | Some P =>
      if Page.destroyed P then (w, Throw (Error "Page has been destroyed!"))
      else
        let chosen : result (Z * jsval) :=
          match slot_of_arguments (deck w) row column key with
          | Throw e => Throw e
          | Ok (Some index, key) => Ok (index, key)
          | Ok (None, key) =>
              match first_free_slot (deck w) P with
              | Some index => Ok (index, key)
              | None => Throw (Error "There are no free key slots on this Page")
              end
          end in
        match chosen with
        | Throw e => (w, Throw e)
        | Ok (index, key) =>
            match check_key false false key w, key with
            | Throw e, _ => (w, Throw e)
            | Ok _, JKey k =>
                let '(w, detached) :=
                  if JsMap.has (Page.keys P) index
                  then detachKey p (JNum index) JUndefined JUndefined w
                  else (w, Ok tt) in
                match detached, pages w !! p with
                | Throw e, _ => (w, Throw e)
                | Ok _, None => (w, Ok tt)
                | Ok _, Some P =>
                    let w := put_page p
                               (Page.set_keys (JsMap.set (Page.keys P) index k) P) w in
                    let w := deck_emit attach (Some index) (Some p) (Some k) w in
                    let w := page_emit p attach (Some index) (Some p) (Some k) w in
                    let w := key_emit k attach (Some index) (Some p) (Some k) w in
                    (key_draw k w, Ok tt)
                end
            | Ok _, _ => (w, Throw (TypeError "Expected key to be an instance of Key"))
            end
        end
  end.

(** [for (const key of page.keys.values()) key.emit(ev, ...)] *)
Definition emit_to_keys (ks : list kid) (emit_one : kid -> World -> World)
  (w : World) : World :=
  fold_left (fun acc k => emit_one k acc) ks w.

Definition keys_of_page (p : pid) (w : World) : list kid :=
  match pages w !! p with
  | None => []
  | Some P => JsMap.values (Page.keys P)
  end.

(** [StreamDeck#setFocusedPage(page = this._defaultPage)].  The panel
    clearing and the brightness are calls on the transport and leave no
    trace here. *)
Definition setFocusedPage (page : jsval) (w : World) : World * result unit :=
  let D := deck w in
  if StreamDeck.destroyed D
  then (w, Throw (Error "StreamDeck has been destroyed!"))
  else
    let requested : result (option pid) :=
      match page with
      | JUndefined => Ok (StreamDeck.defaultPage D)
      | JPage p => Ok (Some p)
      | _ => Throw (TypeError "Expected page to be an instance of Page or undefined")
      end in
    match requested with
    | Throw e =>
        (w, Throw e)
    | Ok page =>
        if bool_decide (StreamDeck.focusedPage D = page) then (w, Ok tt)
        else
          let destroyed_page :=
            match page with
            | Some p =>
                match pages w !! p with
                | Some P => Page.destroyed P
                | None => false
                end
            | None => false
            end in
          if destroyed_page
          then (w, Throw (TypeError "Page page has been destroyed"))
          else
            let blurPage := StreamDeck.focusedPage D in
            let w := set_deck (StreamDeck.set_focusedPage page D) w in
            let w :=
              match blurPage with
              | None => w
              | Some b =>
                  let w := notify_focus OnDeck blur page blurPage w in
                  let w := notify_focus (OnPage b) blur page blurPage w in
                  emit_to_keys (keys_of_page b w)
                    (fun k => notify_focus (OnKey k) blur page blurPage) w
              end in
            match page with
            | None => (w, Ok tt)
            | Some f =>
                let w := page_draw f w in
                let w := notify_focus OnDeck focus page blurPage w in
                let w := notify_focus (OnPage f) focus page blurPage w in
                let w := emit_to_keys (keys_of_page f w)
                           (fun k => notify_focus (OnKey k) focus page blurPage) w in
                let w := deck_emit activity_focus None page None w in
                let w := page_emit f activity_focus None page None w in
                let w := emit_to_keys (keys_of_page f w)
                           (fun k => key_emit k activity_focus None page None) w in
                (w, Ok tt)
            end
    end.

(** [Key#isPressed(index, page)] *)
Definition isPressed (k : kid) (index page : jsval) (w : World) : result bool :=
  match keys w !! k with
  | None => Ok false
  | Some K =>
      if Key.destroyed K then Throw (Error "Key has been destroyed!")
      else
        let index_ok :=
          match index with
          | JUndefined => Ok tt
          | JNum i => check_range "index" i 0 (StreamDeck.KEY_COUNT (deck w) - 1)
          | _ => Throw (TypeError "Expected index to be an integer or undefined")
          end in
        let page_ok :=
          match page with
          | JUndefined => Ok tt
          | JPage p =>
              match pages w !! p with
              | Some P =>
                  if Page.destroyed P
                  then Throw (TypeError "Page page has been destroyed")
                  else Ok tt
              | None => Ok tt
              end
          | _ => Throw (TypeError "Expected page to be an instance of Page or undefined")
          end in
        match index_ok, page_ok with
        | Throw e, _ => Throw e
        | Ok _, Throw e => Throw e
        | Ok _, Ok _ =>
            Ok (WildArrayValuedSet.wildHas (Key.pressStates K) [index; page])
        end
  end.

(** The arguments that the validation in [isPressed] lets through: an
    index that is omitted or in range, a page that is omitted or is a
    page not destroyed. *)
Definition valid_index_argument (D : StreamDeck.t) (index : jsval) : Prop :=
  index = JUndefined
  \/ exists i, index = JNum i /\ (0 <= i <= StreamDeck.KEY_COUNT D - 1)%Z.

Definition valid_page_argument (w : World) (page : jsval) : Prop :=
  page = JUndefined
  \/ exists p, page = JPage p
       /\ forall P, pages w !! p = Some P -> Page.destroyed P = false.

(** *** The event loop *)

(** The run of one timer callback. *)
Definition fire (a : TimerAction) (w : World) : World :=
  match a with
  | DeckHold index page key => deck_hold_fires index page key w
  | DeckIdle => deck_idle_fires w
  | PageHold p index key => page_hold_fires p index key w
  | PageIdle p => page_idle_fires p w
  | KeyHold k index page => key_hold_fires k index page w
  | KeyPress k index page => key_press_fires k index page w
  | KeyIdle k => key_idle_fires k w
  end.

(** Timers that are due by [limit]. *)
Definition due (limit : Z) (ts : list Timer) : list Timer :=
  filter (fun t => (t_deadline t <= limit)%Z) ts.

(** The timer the event loop runs next: the earliest deadline, and among
    equal deadlines the one armed first. *)
Fixpoint earliest (ts : list Timer) : option Timer :=
  match ts with
  | [] => None
  | t :: rest =>
      match earliest rest with
      | None => Some t
      | Some u => if (t_deadline t <=? t_deadline u)%Z then Some t else Some u
      end
  end.

(** One turn of the event loop for a timer [t]: it leaves the timer list,
    the clock is at its deadline at the earliest, its callback runs. *)
Definition run_timer (t : Timer) (w : World) : World :=
  fire (t_action t)
    (set_clock (Z.max (now w) (t_deadline t)) (nextTimeoutId w)
       (filter (fun u => t_id u ≠ t_id t) (timers w)) w).

(** The timers due by [limit] run in order.  No callback arms a timer, so
    as many turns as there are pending timers suffice. *)
Fixpoint run_due (turns : nat) (limit : Z) (w : World) : World :=
  match turns with
  | O => w
  | S turns =>
      match earliest (due limit (timers w)) with
      | None => w
      | Some t => run_due turns limit (run_timer t w)
      end
  end.

(** [dt] milliseconds pass without any input. *)
Definition elapse (dt : Z) (w : World) : World :=
  let limit := (now w + dt)%Z in
  let w := run_due (length (timers w)) limit w in
  set_clock (Z.max (now w) limit) (nextTimeoutId w) (timers w) w.

(** What can happen to the system from outside: the transport reports a
    button transition, time passes, the program calls a public method. *)
Inductive Input : Type :=
| HwDown (index : Z)
| HwUp (index : Z)
| Elapse (dt : Z)
| AttachKey (p : pid) (row column key : jsval)
| DetachKey (p : pid) (row column key : jsval)
| SetFocusedPage (page : jsval).

(** One input; an exception thrown by a method goes to the caller and the
    state keeps what the method did before throwing. *)
Definition step (w : World) (i : Input) : World :=
  match i with
  | HwDown index => hw_down index w
  | HwUp index => hw_up index w
  | Elapse dt => elapse dt w
  | AttachKey p row column key => fst (attachKey p row column key w)
  | DetachKey p row column key => fst (detachKey p row column key w)
  | SetFocusedPage page => fst (setFocusedPage page w)
  end.

Definition run (w : World) (inputs : list Input) : World :=
  fold_left step inputs w.

(** The state right after [new StreamDeck(...)]. *)
Definition boot (D : StreamDeck.t) : World :=
  {| now := 0; nextTimeoutId := 0; timers := []; deck := D;
     pages := ∅; keys := ∅; log := []; graphicsQueue := [] |}.

(** What was emitted between two states of one run. *)
Definition emitted_since (before after : World) : list Notif :=
  drop (length (log before)) (log after).

(** The [ev] notifications among [l] that [s] emitted for slot [index]. *)
Definition heard (s : scope) (index : Z) (l : list Notif) : list evname :=
  name <$> filter (fun n => target n = s ∧ n_index n = Some index) l.

(** Only [click] and [held]. *)
Definition outcomes (l : list evname) : list evname :=
  filter (fun ev => ev = click ∨ ev = held) l.

(** The hold time in force at each scope: a defined value wins over the
    value of the enclosing scope. *)
Definition page_hold_time (D : StreamDeck.t) (P : Page.t) : Z :=
  default (StreamDeck.HOLD_TIME D) (Page.HOLD_TIME P).

Definition key_hold_time (D : StreamDeck.t) (P : Page.t) (K : Key.t) : Z :=
  default (page_hold_time D P) (Key.HOLD_TIME K).

(** The slot a call of [attachKey] or [detachKey] names, before any range
    check: by row and column, by index, or none. *)
Definition named_slot (D : StreamDeck.t) (row column : jsval) : option Z :=
  match row, column with
  | JNum r, JNum c => Some (c - 1 + (r - 1) * StreamDeck.PANEL_COLUMN_COUNT D)%Z
  | JNum r, _ => Some r
  | _, _ => None
  end.

(** A deck of 3 rows by 5 columns with one focused page (address 0) and two
    keys (addresses 0 and 1); key 0 sits at row 1, column 1.  The three
    arguments are the [holdTime] options of the deck, the page and the
    keys. *)
Definition desk (deckHold pageHold keyHold : option Z) : World :=
  let D := StreamDeck.create 15 3 5 deckHold None None in
  let w := boot D in
  let w := put_page 0 (Page.create pageHold (StreamDeck.IDLE_TIME D)) w in
  let w := put_key 0 (Key.create keyHold (StreamDeck.PRESS_TIME D)
                        (StreamDeck.IDLE_TIME D)) w in
  let w := put_key 1 (Key.create keyHold (StreamDeck.PRESS_TIME D)
                        (StreamDeck.IDLE_TIME D)) w in
  let w := fst (setFocusedPage (JPage 0) w) in
  fst (attachKey 0 (JNum 1) (JNum 1) (JKey 0) w).

(** The attachment table of a page. *)
Definition attachments (p : pid) (w : World) : option (JsMap.t kid) :=
  Page.keys <$> pages w !! p.

(** *** What a press and its release report *)

(** The record that one [emit] leaves in the log. *)
Definition said (s : scope) (ev : evname) (index : option Z)
  (page : option pid) (key : option kid) : Notif :=
  {| target := s; name := ev; n_index := index; n_page := page;
     n_key := key; n_blur := None |}.

(** What the release of a button reports at a scope whose hold time in
    force is [h], [dt] milliseconds after the press: [held] if the press
    armed a hold timer, which it does for a positive [h], and the delay
    that Node gave the timer has passed. *)
Definition verdict (h dt : Z) : evname :=
  if (0 <? h)%Z && (timeout_after h <=? dt)%Z then held else click.

(** What the three scopes report at the release of slot [i], read off the
    flags that the release finds: each scope with a hold time of its own
    reads its own flag, a scope without one repeats the enclosing scope. *)
Definition deck_says (i : Z) (D : StreamDeck.t) : evname :=
  if bool_decide (i ∈ StreamDeck.holdIndexes D) then held else click.

Definition page_says (i : Z) (D : StreamDeck.t) (P : Page.t) : evname :=
  match Page.HOLD_TIME P with
  | Some _ => if bool_decide (i ∈ Page.holdIndexes P) then held else click
  | None => deck_says i D
  end.

Definition key_says (i : Z) (p : pid) (D : StreamDeck.t) (P : Page.t)
  (K : Key.t) : evname :=
  match Key.HOLD_TIME K with
  | Some _ =>
      if WildArrayValuedSet.has (Key.holdStates K) [JNum i; JPage p]
      then held else click
  | None => page_says i D P
  end.

(** *** Invariants of the running system *)

(** A key that never marks a press as held: hold time 0, nothing marked. *)
Definition key_silent (K : Key.t) : Prop :=
  Key.HOLD_TIME K = Some 0%Z /\ Key.holdStates K = [].

(** A notification that is no [hold] and no [held] of key [k0]. *)
Definition silent_notif_of (k0 : kid) (n : Notif) : Prop :=
  target n = OnKey k0 -> name n <> hold /\ name n <> held.

(** Key [k0] stays silent, no hold timer of the key is pending, and from
    position [base] on the log holds no [hold] and no [held] of the key. *)
Definition calm_from (k0 : kid) (base : nat) (w : World) : Prop :=
  (forall K, keys w !! k0 = Some K -> key_silent K)
  /\ (forall t, t ∈ timers w -> forall i p, t_action t <> KeyHold k0 i p)
  /\ (base <= length (log w))%nat
  /\ Forall (silent_notif_of k0) (drop base (log w)).

(** *** A pressed slot *)

(** The hold timers of one slot, by the scope that armed them. *)
Definition deck_hold_timer (i : Z) (a : TimerAction) : bool :=
  match a with
  | DeckHold j _ _ => bool_decide (j = i)
  | _ => false
  end.

Definition page_hold_timer (p : pid) (i : Z) (a : TimerAction) : bool :=
  match a with
  | PageHold q j _ => bool_decide (q = p ∧ j = i)
  | _ => false
  end.

Definition key_hold_timer (k : kid) (i : Z) (p : pid) (a : TimerAction) : bool :=
  match a with
  | KeyHold l j q => bool_decide (l = k ∧ j = i ∧ q = p)
  | _ => false
  end.

(** Some timer of the class [c] is due by [limit]. *)
Definition due_hold (c : TimerAction -> bool) (limit : Z) (ts : list Timer) : bool :=
  existsb (fun t => c (t_action t) && (t_deadline t <=? limit)%Z) ts.

(** A notification that is no [click] and no [held]. *)
Definition quiet_notif (n : Notif) : Prop :=
  name n <> click /\ name n <> held.

(** The log grew, by quiet notifications only. *)
Definition grows_quietly (w w' : World) : Prop :=
  exists l, log w' = log w ++ l /\ Forall quiet_notif l.

(** Slot [i] is down with page [p] focused and key [k] attached there.  The
    flags say whether each scope has marked the press as held; the flag of
    a page or key without a hold time of its own is not looked at.  The
    marks of a key are a set: no pair is listed twice. *)
Definition deck_ok (i : Z) (p : pid) (k : kid) (fd : bool) (D : StreamDeck.t) : Prop :=
  StreamDeck.destroyed D = false
  /\ StreamDeck.downPages D !! i = Some (Some p)
  /\ StreamDeck.downKeys D !! i = Some (Some k)
  /\ bool_decide (i ∈ StreamDeck.holdIndexes D) = fd.

Definition page_ok (i : Z) (k : kid) (hp : option Z) (fp : bool) (P : Page.t) : Prop :=
  Page.destroyed P = false
  /\ Page.HOLD_TIME P = hp
  /\ JsMap.get (Page.keys P) i = Some k
  /\ (is_number hp = true -> bool_decide (i ∈ Page.holdIndexes P) = fp).

Definition key_ok (i : Z) (p : pid) (hk : option Z) (fk : bool) (K : Key.t) : Prop :=
  Key.destroyed K = false
  /\ Key.HOLD_TIME K = hk
  /\ NoDup (Key.holdStates K)
  /\ (is_number hk = true ->
      WildArrayValuedSet.has (Key.holdStates K) [JNum i; JPage p] = fk).

Definition deck_part (i : Z) (p : pid) (k : kid) (fd : bool) (w : World) : Prop :=
  deck_ok i p k fd (deck w).

Definition page_part (i : Z) (p : pid) (k : kid) (hp : option Z) (fp : bool)
  (w : World) : Prop :=
  exists P, pages w !! p = Some P /\ page_ok i k hp fp P.

Definition key_part (i : Z) (p : pid) (k : kid) (hk : option Z) (fk : bool)
  (w : World) : Prop :=
  exists K, keys w !! k = Some K /\ key_ok i p hk fk K.

Definition pressed (i : Z) (p : pid) (k : kid) (hp hk : option Z)
  (fd fp fk : bool) (w : World) : Prop :=
  deck_part i p k fd w /\ page_part i p k hp fp w /\ key_part i p k hk fk w.

(** *** The timers of a slot *)

(** The clock while one listener runs, with the timer handles issued
    before it started below [n0]: time stands still, handles are unique
    and were all issued already. *)
Definition clock_ok (n0 : tid) (t0 : Z) (w : World) : Prop :=
  now w = t0
  /\ (n0 <= nextTimeoutId w)%nat
  /\ NoDup (t_id <$> timers w)
  /\ (forall t, t ∈ timers w -> (t_id t < nextTimeoutId w)%nat).

(** The pending timers of the class [c]: none when [o] is [None], else at
    least one, all armed after [n0] and due at the time [o] gives. *)
Definition armed (n0 : tid) (c : TimerAction -> bool) (o : option Z)
  (w : World) : Prop :=
  (forall t, t ∈ timers w -> c (t_action t) = true ->
     (n0 <= t_id t)%nat /\ o = Some (t_deadline t))
  /\ (is_Some o -> exists t, t ∈ timers w /\ c (t_action t) = true).

(** The deadline of the hold timer that a [down] arms at a scope with the
    hold time [h]. *)
Definition hold_deadline (t0 : Z) (h : option Z) : option Z :=
  match h with
  | Some h => if (0 <? h)%Z then Some (t0 + timeout_after h)%Z else None
  | None => None
  end.

(** The clock and the hold timers of slot [i] with page [p] and key [k]:
    [oD], [oP] and [oK] give the deadlines of the hold timers of the deck,
    the page and the key. *)
Definition slot_timers (n0 : tid) (t0 : Z) (i : Z) (p : pid) (k : kid)
  (oD oP oK : option Z) (w : World) : Prop :=
  clock_ok n0 t0 w
  /\ armed n0 (deck_hold_timer i) oD w
  /\ armed n0 (page_hold_timer p i) oP w
  /\ armed n0 (key_hold_timer k i p) oK w.

(** A predicate that looks at the clock and the timers only. *)
Definition clockwise (Q : World -> Prop) : Prop :=
  forall w w', now w' = now w -> nextTimeoutId w' = nextTimeoutId w ->
    timers w' = timers w -> Q w -> Q w'.

(** No hold timer of slot [i] with page [p] and key [k] is pending. *)
Definition slot_at_rest (i : Z) (p : pid) (k : kid) (w : World) : Prop :=
  forall t, t ∈ timers w ->
    deck_hold_timer i (t_action t) = false
    /\ page_hold_timer p i (t_action t) = false
    /\ key_hold_timer k i p (t_action t) = false.

(** The handles of the pending timers are distinct and, as the handles
    that the deck, the page and the key have on file for their idle timers
    and for the timers of the pair, were issued already. *)
Definition handles_issued (i : Z) (p : pid) (P : Page.t) (K : Key.t)
  (w : World) : Prop :=
  NoDup (t_id <$> timers w)
  /\ (forall t, t ∈ timers w -> (t_id t < nextTimeoutId w)%nat)
  /\ (forall x, StreamDeck.idleTimeoutId (deck w) = Some x ->
        (x < nextTimeoutId w)%nat)
  /\ (forall x, Page.idleTimeoutId P = Some x -> (x < nextTimeoutId w)%nat)
  /\ (forall x, Key.idleTimeoutId K = Some x -> (x < nextTimeoutId w)%nat)
  /\ (forall x,
        ArrayKeyedMap.get (Key.holdTimeoutIds K) [JNum i; JPage p] = Some x
        \/ ArrayKeyedMap.get (Key.pressTimeoutIds K) [JNum i; JPage p] = Some x ->
        (x < nextTimeoutId w)%nat).

(** *** The press timer of a pair *)

(** The press timers of key [k] for slot [i] and page [p]. *)
Definition key_press_timer (k : kid) (i : Z) (p : pid) (a : TimerAction) : bool :=
  match a with
  | KeyPress l j q => bool_decide (l = k ∧ j = i ∧ q = p)
  | _ => false
  end.

(** The deadline of the press timer that a [down] arms at a key with the
    press time [pt]. *)
Definition press_deadline (t0 pt : Z) : option Z :=
  if (0 <? pt)%Z then Some (t0 + timeout_after pt)%Z else None.

(** Key [k] is live and its pressed marks are a set; the pair of slot [i]
    and page [p] is among them unless [cleared]. *)
Definition press_part (i : Z) (p : pid) (k : kid) (cleared : bool) (w : World)
  : Prop :=
  exists K, keys w !! k = Some K /\ Key.destroyed K = false
            /\ NoDup (Key.pressStates K)
            /\ WildArrayValuedSet.has (Key.pressStates K) [JNum i; JPage p]
               = negb cleared.

(** No press timer of key [k] for slot [i] and page [p] is pending. *)
Definition press_at_rest (i : Z) (p : pid) (k : kid) (w : World) : Prop :=
  forall t, t ∈ timers w -> key_press_timer k i p (t_action t) = false.

(** Whether a pair marked as pressed at a key with the press time [pt]
    still is, [dt] milliseconds after the press and before the release:
    not once the press timer, armed for a press time above 0, has run. *)
Definition still_pressed (pt dt : Z) : bool :=
  negb ((0 <? pt)%Z && (timeout_after pt <=? dt)%Z).

(** The desk of [desk] with the hold times left out and the press time of
    the deck, which its keys take over, set to [pressTime]. *)
Definition desk_pressing (pressTime : Z) : World :=
  let D := StreamDeck.create 15 3 5 None (Some pressTime) None in
  let w := boot D in
  let w := put_page 0 (Page.create None (StreamDeck.IDLE_TIME D)) w in
  let w := put_key 0 (Key.create None (StreamDeck.PRESS_TIME D)
                        (StreamDeck.IDLE_TIME D)) w in
  let w := put_key 1 (Key.create None (StreamDeck.PRESS_TIME D)
                        (StreamDeck.IDLE_TIME D)) w in
  let w := fst (setFocusedPage (JPage 0) w) in
  fst (attachKey 0 (JNum 1) (JNum 1) (JKey 0) w).

(** [StreamDeck#setDefaultPage(page)].  A value that is no page is never
    the default page, so [checkValid] throws on it as if it came first. *)
Definition setDefaultPage (page : jsval) (w : World) : World * result unit :=
  let D := deck w in
  if StreamDeck.destroyed D
  then (w, Throw (Error "StreamDeck has been destroyed!"))
  else
    let requested : result (option pid) :=
      match page with
      | JUndefined => Ok None
      | JPage p => Ok (Some p)
      | _ => Throw (TypeError "Expected page to be an instance of Page or undefined")
      end in
    match requested with
    | Throw e => (w, Throw e)
    | Ok requested =>
        if bool_decide (StreamDeck.defaultPage D = requested) then (w, Ok tt)
        else
          let destroyed_page :=
            match requested with
            | Some p =>
                match pages w !! p with
                | Some P => Page.destroyed P
                | None => false
                end
            | None => false
            end in
          if destroyed_page
          then (w, Throw (TypeError "Page page has been destroyed"))
          else
            let w := set_deck (StreamDeck.set_defaultPage requested D) w in
            if bool_decide (StreamDeck.focusedPage D = None)
            then setFocusedPage page w
            else (w, Ok tt)
    end.

(** [Page#blur()]: [setFocusedPage(this.STREAMDECK.defaultPage)] when the
    page has the focus. *)
Definition page_blur (p : pid) (w : World) : World * result unit :=
  match pages w !! p with
  | None => (w, Ok tt)
  | Some P =>
      if Page.destroyed P then (w, Throw (Error "Page has been destroyed!"))
      else if bool_decide (StreamDeck.focusedPage (deck w) = Some p)
      then setFocusedPage
             match StreamDeck.defaultPage (deck w) with
             | Some d => JPage d
             | None => JUndefined
             end w
      else (w, Ok tt)
  end.

(** The TypeError of [key.emit] on an [undefined] key. *)
Definition emit_of_undefined : exn :=
  TypeError "Cannot read properties of undefined (reading 'emit')".

(** The key found under a slot of the focused page, as the hardware
    listeners look it up. *)
Definition key_under (i : Z) (w : World) : option kid :=
  match StreamDeck.focusedPage (deck w) with
  | None => None
  | Some p =>
      match pages w !! p with
      | None => None
      | Some P => JsMap.get (Page.keys P) i
      end
  end.

(** What the listeners of a key keep of every key: the fields that only
    [down], [up], [detach] and the press timer write. *)
Definition marks (K : Key.t) : bool * WildArrayValuedSet.t * WildArrayValuedSet.t :=
  (Key.destroyed K, Key.downStates K, Key.pressStates K).

(** The record that a [focus] or [blur] emit leaves in the log. *)
Definition said_focus (s : scope) (ev : evname) (focusPage blurPage : option pid)
  : Notif :=
  {| target := s; name := ev; n_index := None; n_page := focusPage;
     n_key := None; n_blur := blurPage |}.

(** The callbacks that the listeners of pages and keys hand to
    [setTimeout]. *)
Definition page_or_key_timer (a : TimerAction) : bool :=
  match a with
  | DeckHold _ _ _ | DeckIdle => false
  | _ => true
  end.

(** Every timer pending in [w'] was pending in [w] or is of the class
    [c]. *)
Definition arms_only (c : TimerAction -> bool) (w w' : World) : Prop :=
  forall t, t ∈ timers w' -> t ∈ timers w \/ c (t_action t) = true.

(** The idle timer of the deck is the one whose handle the deck has on
    file. *)
Definition idle_timer_filed (w : World) : Prop :=
  forall t, t ∈ timers w -> t_action t = DeckIdle ->
    StreamDeck.idleTimeoutId (deck w) = Some (t_id t).

(** No idle timer of the deck among the pending timers. *)
Definition no_deck_idle (w : World) : Prop :=
  forall t, t ∈ timers w -> t_action t <> DeckIdle.

End Deck.

(* ===================================================================== *)
(** * Part II — lemmas and theorems                                       *)
(* ===================================================================== *)

(** ** The content-compared set *)

Module WildArrayValuedSetFacts.
Import WildArrayValuedSet.

Lemma strict_neq_false (a b : jsval) : strict_neq a b = false <-> a = b.
Proof.
  unfold strict_neq. rewrite negb_false_iff, bool_decide_eq_true. tauto.
Qed.

Lemma strict_neq_true (a b : jsval) : strict_neq a b = true <-> a <> b.
Proof.
  unfold strict_neq. rewrite negb_true_iff, bool_decide_eq_false. tauto.
Qed.

Lemma entries_equal_spec (arr element : list jsval) (n : nat) :
  entries_equal n arr element = true <->
  forall j v, arr !! j = Some v -> v = element_at element (n + j).
Proof.
  revert n. induction arr as [|a arr IH]; intros n; simpl.
  - split; [intros _ j v H; destruct j; discriminate | trivial].
  - destruct (strict_neq a (element_at element n)) eqn:E.
    + apply strict_neq_true in E. split; [discriminate|].
      intros H. specialize (H 0%nat a eq_refl). rewrite Nat.add_0_r in H. contradiction.
    + apply strict_neq_false in E. rewrite IH. split.
      * intros H [|j] v Hj; simpl in Hj.
        -- inversion Hj; subst. now rewrite Nat.add_0_r.
        -- rewrite <- Nat.add_succ_comm. now apply H.
      * intros H j v Hj. rewrite Nat.add_succ_comm. now apply (H (S j)).
Qed.

Lemma entries_wild_equal_spec (arr element : list jsval) (n : nat) :
  entries_wild_equal n arr element = true <->
  forall j v, arr !! j = Some v ->
    element_at element (n + j) = JUndefined \/ v = element_at element (n + j).
Proof.
  revert n. induction arr as [|a arr IH]; intros n; simpl.
  - split; [intros _ j v H; destruct j; discriminate | trivial].
  - destruct (strict_neq a (element_at element n) &&
              strict_neq (element_at element n) JUndefined) eqn:E.
    + apply andb_true_iff in E as [E1 E2].
      apply strict_neq_true in E1, E2. split; [discriminate|].
      intros H. specialize (H 0%nat a eq_refl). rewrite Nat.add_0_r in H.
      destruct H; congruence.
    + apply andb_false_iff in E. rewrite IH. split.
      * intros H [|j] v Hj; simpl in Hj.
        -- inversion Hj; subst. rewrite Nat.add_0_r.
           destruct E as [E|E]; apply strict_neq_false in E; auto.
        -- rewrite <- Nat.add_succ_comm. now apply H.
      * intros H j v Hj. rewrite Nat.add_succ_comm. now apply (H (S j)).
Qed.

Lemma same_array_eq (arr element : list jsval) :
  same_array arr element = true <-> arr = element.
Proof.
  unfold same_array.
  destruct (length arr =? length element)%nat eqn:L; simpl.
  - apply Nat.eqb_eq in L. rewrite entries_equal_spec. split.
    + intros H. apply list_eq. intros j.
      destruct (arr !! j) as [v|] eqn:Hj.
      * rewrite (H j v Hj). simpl. unfold element_at.
        apply lookup_lt_Some in Hj. rewrite L in Hj.
        destruct (nth_lookup_or_length element j JUndefined) as [E|E]; [|lia].
        now rewrite E.
      * apply lookup_ge_None in Hj. rewrite L in Hj.
        symmetry. now apply lookup_ge_None.
    + intros -> j v Hj. simpl. unfold element_at.
      symmetry. now apply nth_lookup_Some.
  - apply Nat.eqb_neq in L. split; [discriminate|]. intros ->. contradiction.
Qed.

Lemma has_elem_of (this : t) (element : list jsval) :
  has this element = true <-> element ∈ this.
Proof.
  unfold has. rewrite existsb_exists. split.
  - intros (arr & Hin & E). apply same_array_eq in E. subst.
    now apply list_elem_of_In.
  - intros H. exists element. split; [now apply list_elem_of_In|].
    now apply same_array_eq.
Qed.

Lemma add_present (this : t) (element : list jsval) :
  element ∈ this -> add this element = this.
Proof.
  intros H. unfold add. apply has_elem_of in H. unfold has in H. now rewrite H.
Qed.

Lemma add_absent (this : t) (element : list jsval) :
  element ∉ this -> add this element = this ++ [element].
Proof.
  intros H. unfold add.
  destruct (existsb _ this) eqn:E; [|reflexivity].
  exfalso. apply H. now apply has_elem_of.
Qed.

Lemma elem_of_add (this : t) (element x : list jsval) :
  x ∈ add this element <-> x = element \/ x ∈ this.
Proof.
  destruct (decide (element ∈ this)) as [H|H].
  - rewrite add_present by assumption. split; [tauto|]. intros [E|E]; [subst x|]; assumption.
  - rewrite add_absent by assumption. rewrite elem_of_app, list_elem_of_singleton. tauto.
Qed.

Lemma add_idempotent (this : t) (element : list jsval) :
  add (add this element) element = add this element.
Proof. apply add_present. apply elem_of_add. now left. Qed.

Lemma add_NoDup (this : t) (element : list jsval) :
  NoDup this -> NoDup (add this element).
Proof.
  intros H. destruct (decide (element ∈ this)) as [Hin|Hin].
  - now rewrite add_present.
  - rewrite add_absent by assumption. apply NoDup_app. split; [assumption|].
    split; [|apply NoDup_singleton].
    intros x Hx Hx'. apply list_elem_of_singleton in Hx'. now subst.
Qed.

Lemma delete_sublist (this : t) (element : list jsval) :
  fst (delete this element) ⊆ this.
Proof.
  induction this as [|arr rest IH]; simpl; [done|].
  destruct (same_array arr element).
  - simpl. intros x Hx. apply elem_of_cons. now right.
  - destruct (delete rest element) as [rest' found]. simpl in *.
    intros x Hx. apply elem_of_cons in Hx as [->|Hx]; apply elem_of_cons;
      [now left|right]. now apply IH.
Qed.

Lemma delete_removes (this : t) (element : list jsval) :
  NoDup this -> element ∉ fst (delete this element).
Proof.
  induction this as [|arr rest IH]; simpl; intros Hnd.
  - apply not_elem_of_nil.
  - apply NoDup_cons in Hnd as [Hnotin Hnd].
    destruct (same_array arr element) eqn:E.
    + apply same_array_eq in E. now subst.
    + specialize (IH Hnd). destruct (delete rest element) as [rest' found].
      simpl in *. intros H. apply elem_of_cons in H as [H|H]; [|contradiction].
      subst. assert (same_array arr arr = true) by now apply same_array_eq.
      congruence.
Qed.

Lemma delete_other (this : t) (element x : list jsval) :
  x <> element -> x ∈ fst (delete this element) <-> x ∈ this.
Proof.
  intros Hne. induction this as [|arr rest IH]; simpl; [done|].
  destruct (same_array arr element) eqn:E.
  - apply same_array_eq in E. subst. simpl. rewrite elem_of_cons. tauto.
  - destruct (delete rest element) as [rest' found]. simpl in *.
    rewrite !elem_of_cons. tauto.
Qed.

Lemma delete_NoDup (this : t) (element : list jsval) :
  NoDup this -> NoDup (fst (delete this element)).
Proof.
  induction this as [|arr rest IH]; simpl; intros Hnd; [constructor|].
  apply NoDup_cons in Hnd as [Hnotin Hnd].
  destruct (same_array arr element); [assumption|].
  specialize (IH Hnd). pose proof (delete_sublist rest element) as Hs.
  destruct (delete rest element) as [rest' found]. simpl in *.
  apply NoDup_cons. split; [|assumption]. intros H. apply Hnotin. now apply Hs.
Qed.

(** [wildHas] on a pair: some member pair agrees with every argument that
    is not [undefined]. *)
Lemma wild_same_array_pair (arr : list jsval) (index page : jsval) :
  wild_same_array arr [index; page] = true <->
  exists index' page', arr = [index'; page']
    /\ (index = JUndefined \/ index' = index)
    /\ (page = JUndefined \/ page' = page).
Proof.
  unfold wild_same_array.
  destruct arr as [|a [|b [|c arr]]]; simpl;
    try (split; [discriminate | intros (? & ? & ? & _); discriminate]).
  unfold element_at; simpl. split.
  - intros H. exists a, b. split; [reflexivity|].
    destruct (strict_neq a index) eqn:E1, (strict_neq index JUndefined) eqn:E2,
             (strict_neq b page) eqn:E3, (strict_neq page JUndefined) eqn:E4;
      simpl in H; try discriminate;
      repeat match goal with
             | E : strict_neq _ _ = false |- _ => apply strict_neq_false in E
             end; subst; auto.
  - intros (i' & p' & E & Hi & Hp). inversion E; subst.
    assert (strict_neq i' index && strict_neq index JUndefined = false) as ->.
    { apply andb_false_iff. destruct Hi as [->| ->];
        [right|left]; now apply strict_neq_false. }
    assert (strict_neq p' page && strict_neq page JUndefined = false) as ->.
    { apply andb_false_iff. destruct Hp as [->| ->];
        [right|left]; now apply strict_neq_false. }
    reflexivity.
Qed.

Lemma wildHas_pair (this : t) (index page : jsval) :
  wildHas this [index; page] = true <->
  exists index' page', [index'; page'] ∈ this
    /\ (index = JUndefined \/ index' = index)
    /\ (page = JUndefined \/ page' = page).
Proof.
  unfold wildHas. rewrite existsb_exists. split.
  - intros (arr & Hin & H). apply wild_same_array_pair in H
      as (i' & p' & -> & Hi & Hp).
    exists i', p'. split; [now apply list_elem_of_In|auto].
  - intros (i' & p' & Hin & Hi & Hp). exists [i'; p'].
    split; [now apply list_elem_of_In|].
    apply wild_same_array_pair. eauto.
Qed.

End WildArrayValuedSetFacts.

(** ** The animation clock *)

Module ImageFacts.
Import Image.

Lemma same_film_refl (a : t) : same_film a a.
Proof. repeat split. Qed.

Lemma same_film_trans (a b c : t) : same_film a b -> same_film b c -> same_film a c.
Proof. unfold same_film. intuition congruence. Qed.

Lemma announce_and_rearm_film (i : t) : same_film i (announce_and_rearm i).
Proof.
  unfold announce_and_rearm.
  destruct (not_animating _); [repeat split|].
  destruct (unobserved _); repeat split.
Qed.

Lemma announce_and_rearm_position (i : t) :
  currentFrame (announce_and_rearm i) = currentFrame i
  /\ currentLoop (announce_and_rearm i) = currentLoop i
  /\ animate (announce_and_rearm i) = animate i.
Proof.
  unfold announce_and_rearm.
  destruct (not_animating _); [repeat split|].
  destruct (unobserved _); repeat split.
Qed.

Lemma manageNextFrameTimeout_film (i : t) : same_film i (manageNextFrameTimeout i).
Proof.
  unfold manageNextFrameTimeout.
  destruct (unobserved i); [repeat split|].
  destruct (not_animating i); [repeat split|].
  destruct (nextFrameTimeoutId i); repeat split.
Qed.

Lemma nextFrame_film (i : t) : same_film i (nextFrame i).
Proof.
  unfold nextFrame.
  destruct (destroyed i) eqn:Hd; [apply same_film_refl|].
  destruct (frameCount i <=? 1)%nat; [apply same_film_refl|]. cbn zeta.
  match goal with |- context [if ?c then set_animate _ _ else _] => destruct c end;
    [repeat split; assumption|].
  match goal with |- context [let '(_, _) := ?p in _] => destruct p as [nf nl] end.
  match goal with |- context [if ?c then _ else _] => destruct c end.
  - eapply same_film_trans; [|apply announce_and_rearm_film].
    repeat split; assumption.
  - eapply same_film_trans; [|apply manageNextFrameTimeout_film].
    repeat split; assumption.
Qed.

(** One advance from frame [c] of loop [l] when every frame is loaded. *)
Lemma nextFrame_inside (i : t) :
  destroyed i = false -> (1 < frameCount i)%nat ->
  length (frames i) = frameCount i ->
  (currentFrame i + 1 < frameCount i)%nat ->
  currentFrame (nextFrame i) = (currentFrame i + 1)%nat
  /\ currentLoop (nextFrame i) = currentLoop i
  /\ animate (nextFrame i) = animate i.
Proof.
  intros Hd HF Hlen Hc. unfold nextFrame. rewrite Hd.
  destruct (Nat.leb_spec (frameCount i) 1); [lia|]. cbn zeta. simpl.
  destruct (Nat.leb_spec (frameCount i) (currentFrame i + 1)); [lia|]. simpl.
  destruct (Nat.ltb_spec (currentFrame i + 1) (length (frames i))); [|lia].
  match goal with
  | |- context [announce_and_rearm ?x] =>
      destruct (announce_and_rearm_position x) as (A & B & C); rewrite A, B, C
  end. simpl. auto.
Qed.

Lemma nextFrame_wraps (i : t) :
  destroyed i = false -> (1 < frameCount i)%nat ->
  length (frames i) = frameCount i ->
  (currentFrame i + 1 = frameCount i)%nat ->
  (loopCount i = 0 \/ currentLoop i < loopCount i)%nat ->
  currentFrame (nextFrame i) = 0%nat
  /\ currentLoop (nextFrame i) = (currentLoop i + 1)%nat
  /\ animate (nextFrame i) = animate i.
Proof.
  intros Hd HF Hlen Hc Hl. unfold nextFrame. rewrite Hd.
  destruct (Nat.leb_spec (frameCount i) 1); [lia|]. cbn zeta. simpl.
  destruct (Nat.leb_spec (frameCount i) (currentFrame i + 1)); [|lia]. simpl.
  assert (((0 <? loopCount i)%nat && (loopCount i <=? currentLoop i)%nat) = false) as ->.
  { apply andb_false_iff. destruct Hl as [Hl|Hl].
    - left. apply Nat.ltb_ge. lia.
    - right. apply Nat.leb_gt. lia. }
  destruct (Nat.ltb_spec 0 (length (frames i))); [|lia].
  match goal with
  | |- context [announce_and_rearm ?x] =>
      destruct (announce_and_rearm_position x) as (A & B & C); rewrite A, B, C
  end. simpl. auto.
Qed.

Lemma nextFrame_exhausted (i : t) :
  destroyed i = false -> (1 < frameCount i)%nat ->
  (currentFrame i + 1 = frameCount i)%nat ->
  (0 < loopCount i)%nat -> (loopCount i <= currentLoop i)%nat ->
  currentFrame (nextFrame i) = currentFrame i
  /\ currentLoop (nextFrame i) = currentLoop i
  /\ animate (nextFrame i) = Some false
  /\ nextFrameTimeoutId (nextFrame i) = None.
Proof.
  intros Hd HF Hc HN Hl. unfold nextFrame. rewrite Hd.
  destruct (Nat.leb_spec (frameCount i) 1); [lia|]. cbn zeta. simpl.
  destruct (Nat.leb_spec (frameCount i) (currentFrame i + 1)); [|lia].
  destruct (Nat.ltb_spec 0 (loopCount i)); [|lia].
  destruct (Nat.leb_spec (loopCount i) (currentLoop i)); [|lia].
  simpl. repeat split.
Qed.

Lemma iter_nextFrame_film (n : nat) (i : t) : same_film i (Nat.iter n nextFrame i).
Proof.
  induction n as [|n IH]; simpl; [apply same_film_refl|].
  eapply same_film_trans; [exact IH|apply nextFrame_film].
Qed.

(** While loops remain, [q * F + r] advances lead to frame [r] of loop [q]. *)
Lemma advances_position (i : t) (F N : nat) :
  destroyed i = false -> frameCount i = F -> length (frames i) = F ->
  loopCount i = N -> (1 < F)%nat -> (0 < N)%nat ->
  currentFrame i = 0%nat -> currentLoop i = 0%nat ->
  forall n q r, n = (q * F + r)%nat -> (r < F)%nat -> (q <= N)%nat ->
    currentFrame (Nat.iter n nextFrame i) = r
    /\ currentLoop (Nat.iter n nextFrame i) = q
    /\ animate (Nat.iter n nextFrame i) = animate i.
Proof.
  intros Hd HF Hlen HN H1 H0 Hc Hl n.
  induction n as [|n IH]; intros q r Hn Hr Hq.
  - assert (q = 0 /\ r = 0)%nat as [-> ->] by nia. simpl. auto.
  - simpl. set (j := Nat.iter n nextFrame i) in *.
    destruct (iter_nextFrame_film n i) as (Jd & JF & JN & Jfr & _).
    fold j in Jd, JF, JN, Jfr.
    assert (Hjd : destroyed j = false) by congruence.
    assert (HjF : frameCount j = F) by congruence.
    assert (HjN : loopCount j = N) by congruence.
    assert (Hjlen : length (frames j) = frameCount j) by (rewrite <- Jfr; congruence).
    destruct r as [|r].
    + destruct q as [|q]; [lia|].
      destruct (IH q (F - 1)%nat) as (Ic & Il & Ia); [nia|lia|lia|].
      destruct (nextFrame_wraps j Hjd) as (Wc & Wl & Wa); try lia.
      rewrite Wc, Wl, Wa, Il, Ia. repeat split. lia.
    + destruct (IH q r) as (Ic & Il & Ia); [nia|lia|lia|].
      destruct (nextFrame_inside j Hjd) as (Wc & Wl & Wa); try lia.
      rewrite Wc, Wl, Wa, Ic, Il, Ia. repeat split. lia.
Qed.

(** From the [(N + 1) * F]-th call on the clock is stopped. *)
Lemma advances_halted (i : t) (F N : nat) :
  destroyed i = false -> frameCount i = F -> length (frames i) = F ->
  loopCount i = N -> (1 < F)%nat -> (0 < N)%nat ->
  currentFrame i = 0%nat -> currentLoop i = 0%nat ->
  forall m,
    let j := Nat.iter ((N + 1) * F + m) nextFrame i in
    currentFrame j = (F - 1)%nat /\ currentLoop j = N
    /\ animate j = Some false /\ nextFrameTimeoutId j = None.
Proof.
  intros Hd HF Hlen HN H1 H0 Hc Hl m.
  induction m as [|m IH].
  - replace ((N + 1) * F + 0)%nat with (S (N * F + (F - 1)))%nat by nia.
    cbn zeta. simpl Nat.iter.
    destruct (advances_position i F N Hd HF Hlen HN H1 H0 Hc Hl
                (N * F + (F - 1))%nat N (F - 1)%nat) as (Ic & Il & Ia);
      [reflexivity|lia|lia|].
    set (j := Nat.iter (N * F + (F - 1)) nextFrame i) in *.
    destruct (iter_nextFrame_film (N * F + (F - 1)) i) as (Jd & JF & JN & _).
    fold j in Jd, JF, JN.
    assert (Hjd : destroyed j = false) by congruence.
    destruct (nextFrame_exhausted j Hjd) as (Wc & Wl & Wa & Wt); try lia.
    rewrite Wc, Wl, Wa, Wt, Ic, Il. auto.
  - replace ((N + 1) * F + S m)%nat with (S ((N + 1) * F + m))%nat by lia.
    cbn zeta in *. simpl Nat.iter.
    destruct IH as (Ic & Il & Ia & It).
    set (j := Nat.iter ((N + 1) * F + m) nextFrame i) in *.
    destruct (iter_nextFrame_film ((N + 1) * F + m) i) as (Jd & JF & JN & _).
    fold j in Jd, JF, JN.
    assert (Hjd : destroyed j = false) by congruence.
    destruct (nextFrame_exhausted j Hjd) as (Wc & Wl & Wa & Wt); try lia.
    rewrite Wc, Wl, Wa, Wt, Ic, Il. auto.
Qed.


Example film2_plays :
  map (fun n => let j := Nat.iter n nextFrame film2 in
                (currentFrame j, currentLoop j, animate j))
      [0; 1; 2; 3; 4; 5]%nat
  = [(0, 0, Some true); (1, 0, Some true); (0, 1, Some true);
     (1, 1, Some true); (1, 1, Some false); (1, 1, Some false)]%nat.
Proof. reflexivity. Qed.

(** C1, as the spec words it, fails: with F = 2 frames and N = 1 loop the
    clock still runs after N * F = 2 advances, a timer is armed, and the
    next scheduled tick changes the current frame. *)
Lemma nextFrame_runs_on_after_N_times_F :
  let j := Nat.iter (1 * 2) nextFrame film2 in
  frameCount film2 = 2%nat /\ loopCount film2 = 1%nat
  /\ animate j = Some true
  /\ nextFrameTimeoutId j = Some (Some 100%nat)
  /\ currentFrame j = 0%nat
  /\ currentFrame (tick j) = 1%nat.
Proof. vm_compute. repeat split. Qed.

(** C1, amended: for an image with F > 1 frames, all loaded, and loop count
    N > 0 that starts at frame 0 of loop 0, [q * F + r] calls of [nextFrame]
    (r < F, q <= N) leave it at frame r of loop q with the animation flag
    untouched, so the position keeps moving for (N + 1) * F - 1 calls; the
    call number (N + 1) * F and every later one leave it at frame F - 1 of
    loop N with the animation stopped and no timer armed, so no further
    tick is scheduled. *)
Theorem nextFrame_halts_after_last_loop (i : t) (F N : nat) :
  destroyed i = false -> frameCount i = F -> length (frames i) = F ->
  loopCount i = N -> (1 < F)%nat -> (0 < N)%nat ->
  currentFrame i = 0%nat -> currentLoop i = 0%nat ->
  (forall q r, (r < F)%nat -> (q <= N)%nat ->
     let j := Nat.iter (q * F + r) nextFrame i in
     currentFrame j = r /\ currentLoop j = q /\ animate j = animate i)
  /\ (forall m,
       let j := Nat.iter ((N + 1) * F + m) nextFrame i in
       currentFrame j = (F - 1)%nat /\ currentLoop j = N
       /\ animate j = Some false /\ nextFrameTimeoutId j = None
       /\ tick j = j).
Proof.
  intros Hd HF Hlen HN H1 H0 Hc Hl. split.
  - intros q r Hr Hq. cbn zeta.
    now apply (advances_position i F N Hd HF Hlen HN H1 H0 Hc Hl _ q r).
  - intros m. cbn zeta.
    destruct (advances_halted i F N Hd HF Hlen HN H1 H0 Hc Hl m) as (A & B & C & T).
    repeat split; try assumption. unfold tick. now rewrite T.
Qed.

Lemma nextFrame_halts_after_last_loop_witness :
  (forall q r, (r < 2)%nat -> (q <= 1)%nat ->
     let j := Nat.iter (q * 2 + r) nextFrame film2 in
     currentFrame j = r /\ currentLoop j = q /\ animate j = animate film2)
  /\ (forall m,
       let j := Nat.iter ((1 + 1) * 2 + m) nextFrame film2 in
       currentFrame j = (2 - 1)%nat /\ currentLoop j = 1%nat
       /\ animate j = Some false /\ nextFrameTimeoutId j = None
       /\ tick j = j).
Proof.
  apply (nextFrame_halts_after_last_loop film2 2 1);
    first [reflexivity | apply Nat.lt_1_2 | apply Nat.lt_0_1].
Defined.

(** C6: on an image that is not destroyed [getFrame] returns without
    throwing: the frame at the current index when that frame is in the
    table, otherwise the frame loaded last, otherwise [null]. *)
Theorem getFrame_returns_loaded_frame (i : t) :
  destroyed i = false ->
  getFrame i = Ok (match frames i !! currentFrame i with
                   | Some f => Some f
                   | None => last (frames i)
                   end).
Proof.
  intros Hd. unfold getFrame, checkImageDestroyed. rewrite Hd.
  destruct (frames i !! currentFrame i) as [f|] eqn:E.
  - rewrite bool_decide_eq_true_2 by eauto. reflexivity.
  - rewrite bool_decide_eq_false_2 by (intros [? ?]; discriminate). simpl.
    destruct (frames i) as [|f fs] eqn:Efs; [reflexivity|].
    cbn [length Nat.eqb negb]. rewrite last_lookup.
    replace (S (length fs) - 1)%nat with (length fs) by lia. reflexivity.
Qed.

Lemma getFrame_returns_loaded_frame_witness :
  getFrame (set_position 1 0 (loaded [blank_frame] [] 0 0 None)) = Ok (Some blank_frame).
Proof.
  exact (getFrame_returns_loaded_frame
           (set_position 1 0 (loaded [blank_frame] [] 0 0 None)) eq_refl).
Defined.

Example getFrame_before_first_frame :
  getFrame (loaded [] [] 0 0 None) = Ok None.
Proof. reflexivity. Qed.

Example getFrame_destroyed :
  getFrame (set_destroyed true (loaded [blank_frame] [] 0 0 None))
  = Throw (Error "Image has been destroyed!").
Proof. reflexivity. Qed.

End ImageFacts.

(** ** The layers of a load *)

Module LoaderFacts.
Import Loader.

Lemma map_filter_settled {A B} (f : A -> Awaited B) (xs : list A) :
  (forall x, x ∈ xs -> f x <> Pending) ->
  map_filter f xs = (Some (omap (fulfilled f) xs), omap (rejected f) xs).
Proof.
  induction xs as [|x xs IH]; intros H; [reflexivity|]. simpl.
  rewrite IH by (intros y Hy; apply H; now right).
  pose proof (H x (list_elem_of_here _ _)) as Hx.
  unfold fulfilled, rejected. cbn [omap list_omap].
  destruct (f x); [reflexivity..|congruence].
Qed.

Lemma map_filter_pending {A B} (f : A -> Awaited B) (xs : list A) (x : A) :
  x ∈ xs -> f x = Pending -> fst (map_filter f xs) = None.
Proof.
  intros Hin Hx. induction xs as [|y xs IH]; [now apply not_elem_of_nil in Hin|].
  simpl. destruct (map_filter f xs) as [kept errors].
  apply elem_of_cons in Hin as [<-|Hin].
  - now rewrite Hx.
  - simpl in IH. rewrite (IH Hin). now destruct (f y).
Qed.

Lemma settled_count {A B} (f : A -> Awaited B) (xs : list A) :
  (forall x, x ∈ xs -> f x <> Pending) ->
  (length (omap (fulfilled f) xs) + length (omap (rejected f) xs)
   = length xs)%nat.
Proof.
  induction xs as [|x xs IH]; intros H; [reflexivity|].
  specialize (IH (fun y Hy => H y (list_elem_of_further _ _ _ Hy))).
  pose proof (H x (list_elem_of_here _ _)) as Hx.
  unfold fulfilled, rejected in *. cbn [omap list_omap].
  destruct (f x); [simpl; lia..|congruence].
Qed.

Lemma all_rejected_none_kept {A B} (f : A -> Awaited B) (xs : list A) :
  Forall (fun x => exists e, f x = Rejected e) xs ->
  omap (fulfilled f) xs = [] /\ length (omap (rejected f) xs) = length xs.
Proof.
  induction 1 as [|x xs [e He] _ [IH1 IH2]]; [split; reflexivity|].
  unfold fulfilled, rejected in *. cbn [omap list_omap]. rewrite He.
  simpl. split; [exact IH1|now rewrite IH2].
Qed.

Section WithSharp.

Variable decode : Raw -> option Options -> result (Sharp * Metadata).
Variable fate : nat -> ImageFate.
Variable parseColor : Color -> result (Z * Z * Z * Z).
Variable fill : Z -> Z -> Z * Z * Z * Z -> option Options -> result (Sharp * Metadata).
Variable resized : Sharp -> Metadata -> Z -> Z -> option Options -> result (Sharp * Metadata).
Variables WIDTH HEIGHT : Z.

(** The second stage always settles. *)
Lemma resize_source_settles (d : SourceData) :
  resize_source resized WIDTH HEIGHT d <> Pending.
Proof.
  unfold resize_source.
  repeat match goal with
         | |- context [if ?b then _ else _] => destruct b
         | |- context [match ?r with Ok _ => _ | Throw _ => _ end] => destruct r
         end; discriminate.
Qed.

(** The first stage stays pending only on an Image that emits neither
    [sharpLoaded] nor [destroy]. *)
Lemma resolve_source_pending (s : Source) :
  resolve_source decode fate parseColor fill WIDTH HEIGHT s = Pending
  <-> exists i, o_source (as_object s) = FieldImage i /\ fate i = EmitsNeither.
Proof.
  unfold resolve_source. cbv zeta.
  destruct (o_source (as_object s)) as [|r|i].
  - split; [|intros (i & [=] & _)].
    repeat match goal with
           | |- context [match ?r with Ok _ => _ | Throw _ => _ end] => destruct r
           | |- context [match ?o with Some _ => _ | None => _ end] => destruct o
           end; discriminate.
  - split; [|intros (i & [=] & _)].
    destruct (decode r (o_sharpOptions (as_object s))); discriminate.
  - split.
    + intros H. exists i. split; [reflexivity|].
      destruct (fate i) as [|[]|[]| |]; try discriminate; reflexivity.
    + intros (i' & [= <-] & ->). reflexivity.
Qed.

(** C7, amended.  In a load whose sources all settle, which they do
    unless one is an Image that emits neither [sharpLoaded] nor [destroy],
    the load gets to the composite, and the layers it has there are the
    sources that came through both stages, in their order; every other
    source cost one [error] event and only itself.  When no source came
    through, and so when none resolved, the layers are exactly one fully
    transparent 4-channel source of WIDTH by HEIGHT pixels: the list is
    never empty. *)
Theorem load_never_without_layers (SOURCE : option Source) :
  let sources := parse_sources SOURCE in
  let resolve := resolve_source decode fate parseColor fill WIDTH HEIGHT in
  let fit := resize_source resized WIDTH HEIGHT in
  let survivors := omap (fulfilled fit) (omap (fulfilled resolve) sources) in
  (forall s, s ∈ sources -> resolve s <> Pending) ->
  exists layers errors,
    load_layers decode fate parseColor fill resized WIDTH HEIGHT SOURCE
    = (Some layers, errors)
    /\ layers <> []
    /\ layers = match survivors with
                | [] => [transparent_source WIDTH HEIGHT]
                | _ => survivors
                end
    /\ (forall s d d', s ∈ sources -> resolve s = Fulfilled d ->
          fit d = Fulfilled d' -> d' ∈ survivors /\ d' ∈ layers)
    /\ (forall d', d' ∈ survivors ->
          exists s d, s ∈ sources /\ resolve s = Fulfilled d
                      /\ fit d = Fulfilled d')
    /\ (length survivors + length errors = length sources)%nat
    /\ (Forall (fun s => exists e, resolve s = Rejected e) sources ->
        layers = [transparent_source WIDTH HEIGHT]
        /\ length errors = length sources)
    /\ source (transparent_source WIDTH HEIGHT) = Created WIDTH HEIGHT 4 0 0 0 0
    /\ m_width (metadata (transparent_source WIDTH HEIGHT)) = WIDTH
    /\ m_height (metadata (transparent_source WIDTH HEIGHT)) = HEIGHT.
Proof.
  intros sources resolve fit survivors Hsettle.
  set (parsed := omap (fulfilled resolve) sources) in *.
  assert (forall d, d ∈ parsed -> fit d <> Pending) as Hfit
    by (intros d _; apply resize_source_settles).
  assert (forall s d d', s ∈ sources -> resolve s = Fulfilled d ->
            fit d = Fulfilled d' -> d' ∈ survivors) as Hin.
  { intros s d d' Hs Hr Hf. unfold survivors.
    apply list_elem_of_omap. exists d. split.
    - apply list_elem_of_omap. exists s. split; [exact Hs|].
      unfold fulfilled. now rewrite Hr.
    - unfold fulfilled. now rewrite Hf. }
  exists (match survivors with
          | [] => [transparent_source WIDTH HEIGHT]
          | _ => survivors
          end),
         (omap (rejected resolve) sources ++ omap (rejected fit) parsed).
  split.
  { unfold load_layers. fold sources resolve fit.
    rewrite (map_filter_settled resolve sources Hsettle). fold parsed.
    rewrite (map_filter_settled fit parsed Hfit). fold survivors.
    destruct survivors; reflexivity. }
  split; [destruct survivors; discriminate|].
  split; [reflexivity|].
  split.
  { intros s d d' Hs Hr Hf. pose proof (Hin s d d' Hs Hr Hf) as H.
    split; [exact H|]. destruct survivors; [now apply not_elem_of_nil in H|exact H]. }
  split.
  { intros d' Hd'. unfold survivors in Hd'.
    apply list_elem_of_omap in Hd' as (d & Hd & Hf).
    apply list_elem_of_omap in Hd as (s & Hs & Hr).
    exists s, d. unfold fulfilled in Hr, Hf. split; [exact Hs|].
    destruct (resolve s); try discriminate. injection Hr as ->.
    destruct (fit d); try discriminate. injection Hf as ->. auto. }
  split.
  { rewrite length_app.
    pose proof (settled_count resolve sources Hsettle) as C1.
    pose proof (settled_count fit parsed Hfit) as C2.
    fold parsed in C1. fold survivors in C2. lia. }
  split; [|auto].
  intros Hall. destruct (all_rejected_none_kept resolve sources Hall) as [E1 E2].
  unfold survivors, parsed. rewrite E1. cbn [omap list_omap].
  split; [reflexivity|]. rewrite length_app, E2. cbn. lia.
Qed.

End WithSharp.

Lemma load_never_without_layers_witness :
  exists errors,
    load_layers (fun r _ => rejecting r) (fun _ => WasDestroyed) rejecting
      (fun _ _ _ _ => rejecting tt) (fun _ _ _ _ _ => rejecting tt) 72 72
      (Some (SArray [SRaw (Path "a.png"); SArray [SImage 0]]))
    = (Some [transparent_source 72 72], errors).
Proof.
  destruct (load_never_without_layers (fun r _ => rejecting r)
              (fun _ => WasDestroyed) rejecting
              (fun _ _ _ _ => rejecting tt) (fun _ _ _ _ _ => rejecting tt) 72 72
              (Some (SArray [SRaw (Path "a.png"); SArray [SImage 0]])))
    as (layers & errors & E & _ & -> & _).
  - intros s Hs.
    repeat (apply elem_of_cons in Hs as [->|Hs]; [discriminate|]).
    now apply not_elem_of_nil in Hs.
  - exists errors. exact E.
Defined.

(** C7, where the claim breaks.  One source is a file that does not
    decode, the other an Image whose own load failed before [sharpLoaded]
    and that is never destroyed.  No source resolves, the first costs its
    [error] event, and the load waits for the second for ever: it never
    gets to the line that makes the transparent source. *)
Example load_waits_for_an_image_that_never_loads :
  let resolve :=
    resolve_source (fun r _ => rejecting r) (fun _ => EmitsNeither) rejecting
      (fun _ _ _ _ => rejecting tt) 72 72 in
  let SOURCE := Some (SArray [SRaw (Path "a.png"); SImage 0]) in
  Forall (fun s => forall d, resolve s <> Fulfilled d) (parse_sources SOURCE)
  /\ load_layers (fun r _ => rejecting r) (fun _ => EmitsNeither) rejecting
       (fun _ _ _ _ => rejecting tt) (fun _ _ _ _ _ => rejecting tt) 72 72
       SOURCE
     = (None, [Error "Input file is missing"]).
Proof.
  cbv zeta. split; [|reflexivity].
  repeat constructor; discriminate.
Qed.

End LoaderFacts.

(** ** Maps keyed by slot index *)

Module JsMapFacts.
Import JsMap.

Lemma get_find {V} (this : t V) (key : Z) (v : V) :
  get this key = Some v <->
  find (fun e => bool_decide (fst e = key)) this = Some (key, v).
Proof.
  unfold get. split.
  - destruct (find _ this) as [[a b]|] eqn:E; simpl; [|discriminate].
    intros [= <-]. apply find_some in E as [_ E].
    apply bool_decide_eq_true in E. simpl in E. now subst.
  - intros ->. reflexivity.
Qed.

Lemma get_None_notin {V} (this : t V) (key : Z) :
  get this key = None <-> forall e, e ∈ this -> fst e <> key.
Proof.
  unfold get. split.
  - destruct (find _ this) eqn:E; [discriminate|]. intros _ e He Hk.
    apply list_elem_of_In in He.
    pose proof (find_none _ _ E e He) as H. simpl in H.
    apply bool_decide_eq_false in H. contradiction.
  - intros H. destruct (find _ this) as [e|] eqn:E; [|reflexivity].
    apply find_some in E as [Hin E]. apply bool_decide_eq_true in E.
    apply list_elem_of_In in Hin. now destruct (H e Hin).
Qed.

Lemma has_get {V} (this : t V) (key : Z) :
  has this key = true <-> is_Some (get this key).
Proof. unfold has. apply bool_decide_eq_true. Qed.

Lemma has_false_get {V} (this : t V) (key : Z) :
  has this key = false <-> get this key = None.
Proof.
  unfold has. rewrite bool_decide_eq_false. rewrite <- eq_None_not_Some. tauto.
Qed.

Lemma delete_absent {V} (this : t V) (key : Z) :
  get this key = None -> delete this key = this.
Proof.
  intros H. unfold delete. induction this as [|e rest IH]; [reflexivity|].
  assert (fst e <> key).
  { apply (proj1 (get_None_notin _ _) H). now left. }
  rewrite filter_cons_True by assumption. f_equal. apply IH.
  apply get_None_notin. intros x Hx. apply (proj1 (get_None_notin _ _) H).
  now right.
Qed.

Lemma get_delete {V} (this : t V) (key : Z) : get (delete this key) key = None.
Proof.
  apply get_None_notin. intros e He. unfold delete in He.
  now apply list_elem_of_filter in He as [He _].
Qed.

Lemma get_delete_ne {V} (this : t V) (key key' : Z) :
  key <> key' -> get (delete this key) key' = get this key'.
Proof.
  intros Hne. unfold get, delete. f_equal.
  induction this as [|e rest IH]; [reflexivity|].
  destruct (decide (fst e = key)) as [E|E].
  - rewrite filter_cons_False by tauto. simpl.
    rewrite bool_decide_eq_false_2 by congruence. exact IH.
  - rewrite filter_cons_True by assumption. simpl.
    destruct (bool_decide (fst e = key')); [reflexivity|exact IH].
Qed.

Lemma set_absent {V} (this : t V) (key : Z) (v : V) :
  get this key = None -> set this key v = this ++ [(key, v)].
Proof. intros H. unfold set. apply has_false_get in H. now rewrite H. Qed.

Lemma get_app_absent {V} (this : t V) (key : Z) (v : V) :
  get this key = None -> get (this ++ [(key, v)]) key = Some v.
Proof.
  intros H. unfold get in *. induction this as [|e rest IH]; simpl in *.
  - now rewrite bool_decide_eq_true_2.
  - destruct (bool_decide (fst e = key)); [discriminate|]. now apply IH.
Qed.

Lemma delete_app_absent {V} (this : t V) (key : Z) (v : V) :
  get this key = None -> delete (this ++ [(key, v)]) key = this.
Proof.
  intros H. unfold delete. rewrite filter_app.
  fold (delete this key). rewrite delete_absent by assumption.
  rewrite filter_cons_False by (simpl; tauto). simpl. apply app_nil_r.
Qed.

End JsMapFacts.

(** ** What each listener leaves alone *)

Module Frames.
Import Deck.

(** Projections over the straight-line primitives compute. *)
Ltac fields :=
  cbn [now nextTimeoutId timers deck pages keys log graphicsQueue
       notify notify_focus clearTimeout setTimeout put_page put_key upd_deck
       arm set_clock set_deck set_pages set_keys set_log set_graphicsQueue
       fst snd].

Ltac split_guard :=
  match goal with
  | |- context [match ?x with _ => _ end] =>
      lazymatch x with
      | context [match _ with _ => _ end] => fail
      | _ => destruct x
      end
  end.

Create Rewrite HintDb frames.

Ltac framed :=
  repeat first [progress fields | progress autorewrite with frames].

Ltac frame h :=
  intros; unfold h;
  repeat first [ progress unfold arm
               | progress fields
               | progress autorewrite with frames
               | split_guard
               | progress unfold key_emit_opt, page_emit_opt, propagate
               | progress unfold key_emit, page_emit, deck_emit ];
  reflexivity.

Lemma now_upd_key k f w : now (upd_key k f w) = now w. Proof. frame upd_key. Qed.
Lemma nextTimeoutId_upd_key k f w : nextTimeoutId (upd_key k f w) = nextTimeoutId w. Proof. frame upd_key. Qed.
Lemma timers_upd_key k f w : timers (upd_key k f w) = timers w. Proof. frame upd_key. Qed.
Lemma deck_upd_key k f w : deck (upd_key k f w) = deck w. Proof. frame upd_key. Qed.
Lemma pages_upd_key k f w : pages (upd_key k f w) = pages w. Proof. frame upd_key. Qed.
Lemma log_upd_key k f w : log (upd_key k f w) = log w. Proof. frame upd_key. Qed.
#[export] Hint Rewrite now_upd_key nextTimeoutId_upd_key timers_upd_key deck_upd_key pages_upd_key log_upd_key : frames.

Lemma now_upd_page p f w : now (upd_page p f w) = now w. Proof. frame upd_page. Qed.
Lemma nextTimeoutId_upd_page p f w : nextTimeoutId (upd_page p f w) = nextTimeoutId w. Proof. frame upd_page. Qed.
Lemma timers_upd_page p f w : timers (upd_page p f w) = timers w. Proof. frame upd_page. Qed.
Lemma deck_upd_page p f w : deck (upd_page p f w) = deck w. Proof. frame upd_page. Qed.
Lemma keys_upd_page p f w : keys (upd_page p f w) = keys w. Proof. frame upd_page. Qed.
Lemma log_upd_page p f w : log (upd_page p f w) = log w. Proof. frame upd_page. Qed.
#[export] Hint Rewrite now_upd_page nextTimeoutId_upd_page timers_upd_page deck_upd_page keys_upd_page log_upd_page : frames.

Lemma now_key_draw k w : now (key_draw k w) = now w. Proof. frame key_draw. Qed.
Lemma nextTimeoutId_key_draw k w : nextTimeoutId (key_draw k w) = nextTimeoutId w. Proof. frame key_draw. Qed.
Lemma timers_key_draw k w : timers (key_draw k w) = timers w. Proof. frame key_draw. Qed.
Lemma deck_key_draw k w : deck (key_draw k w) = deck w. Proof. frame key_draw. Qed.
Lemma pages_key_draw k w : pages (key_draw k w) = pages w. Proof. frame key_draw. Qed.
Lemma keys_key_draw k w : keys (key_draw k w) = keys w. Proof. frame key_draw. Qed.
Lemma log_key_draw k w : log (key_draw k w) = log w. Proof. frame key_draw. Qed.
#[export] Hint Rewrite now_key_draw nextTimeoutId_key_draw timers_key_draw deck_key_draw pages_key_draw keys_key_draw log_key_draw : frames.

Lemma now_page_draw p w : now (page_draw p w) = now w. Proof. frame page_draw. Qed.
Lemma nextTimeoutId_page_draw p w : nextTimeoutId (page_draw p w) = nextTimeoutId w. Proof. frame page_draw. Qed.
Lemma timers_page_draw p w : timers (page_draw p w) = timers w. Proof. frame page_draw. Qed.
Lemma deck_page_draw p w : deck (page_draw p w) = deck w. Proof. frame page_draw. Qed.
Lemma pages_page_draw p w : pages (page_draw p w) = pages w. Proof. frame page_draw. Qed.
Lemma keys_page_draw p w : keys (page_draw p w) = keys w. Proof. frame page_draw. Qed.
Lemma log_page_draw p w : log (page_draw p w) = log w. Proof. frame page_draw. Qed.
#[export] Hint Rewrite now_page_draw nextTimeoutId_page_draw timers_page_draw deck_page_draw pages_page_draw keys_page_draw log_page_draw : frames.

Lemma now_clearTimeout_opt id w : now (clearTimeout_opt id w) = now w. Proof. frame clearTimeout_opt. Qed.
Lemma nextTimeoutId_clearTimeout_opt id w : nextTimeoutId (clearTimeout_opt id w) = nextTimeoutId w. Proof. frame clearTimeout_opt. Qed.
Lemma deck_clearTimeout_opt id w : deck (clearTimeout_opt id w) = deck w. Proof. frame clearTimeout_opt. Qed.
Lemma pages_clearTimeout_opt id w : pages (clearTimeout_opt id w) = pages w. Proof. frame clearTimeout_opt. Qed.
Lemma keys_clearTimeout_opt id w : keys (clearTimeout_opt id w) = keys w. Proof. frame clearTimeout_opt. Qed.
Lemma log_clearTimeout_opt id w : log (clearTimeout_opt id w) = log w. Proof. frame clearTimeout_opt. Qed.
#[export] Hint Rewrite now_clearTimeout_opt nextTimeoutId_clearTimeout_opt deck_clearTimeout_opt pages_clearTimeout_opt keys_clearTimeout_opt log_clearTimeout_opt : frames.

Lemma now_key_clear_timers k pair w : now (key_clear_timers k pair w) = now w. Proof. frame key_clear_timers. Qed.
Lemma nextTimeoutId_key_clear_timers k pair w : nextTimeoutId (key_clear_timers k pair w) = nextTimeoutId w. Proof. frame key_clear_timers. Qed.
Lemma deck_key_clear_timers k pair w : deck (key_clear_timers k pair w) = deck w. Proof. frame key_clear_timers. Qed.
Lemma pages_key_clear_timers k pair w : pages (key_clear_timers k pair w) = pages w. Proof. frame key_clear_timers. Qed.
Lemma log_key_clear_timers k pair w : log (key_clear_timers k pair w) = log w. Proof. frame key_clear_timers. Qed.
#[export] Hint Rewrite now_key_clear_timers nextTimeoutId_key_clear_timers deck_key_clear_timers pages_key_clear_timers log_key_clear_timers : frames.

Lemma now_key_on_detach k i p w : now (key_on_detach k i p w) = now w. Proof. frame key_on_detach. Qed.
Lemma nextTimeoutId_key_on_detach k i p w : nextTimeoutId (key_on_detach k i p w) = nextTimeoutId w. Proof. frame key_on_detach. Qed.
Lemma deck_key_on_detach k i p w : deck (key_on_detach k i p w) = deck w. Proof. frame key_on_detach. Qed.
Lemma pages_key_on_detach k i p w : pages (key_on_detach k i p w) = pages w. Proof. frame key_on_detach. Qed.
Lemma log_key_on_detach k i p w : log (key_on_detach k i p w) = log w. Proof. frame key_on_detach. Qed.
#[export] Hint Rewrite now_key_on_detach nextTimeoutId_key_on_detach deck_key_on_detach pages_key_on_detach log_key_on_detach : frames.

Lemma now_key_on_down k i p w : now (key_on_down k i p w) = now w. Proof. frame key_on_down. Qed.
Lemma deck_key_on_down k i p w : deck (key_on_down k i p w) = deck w. Proof. frame key_on_down. Qed.
Lemma pages_key_on_down k i p w : pages (key_on_down k i p w) = pages w. Proof. frame key_on_down. Qed.
Lemma log_key_on_down k i p w : log (key_on_down k i p w) = log w. Proof. frame key_on_down. Qed.
#[export] Hint Rewrite now_key_on_down deck_key_on_down pages_key_on_down log_key_on_down : frames.

Lemma now_key_on_hold k i p w : now (key_on_hold k i p w) = now w. Proof. frame key_on_hold. Qed.
Lemma nextTimeoutId_key_on_hold k i p w : nextTimeoutId (key_on_hold k i p w) = nextTimeoutId w. Proof. frame key_on_hold. Qed.
Lemma timers_key_on_hold k i p w : timers (key_on_hold k i p w) = timers w. Proof. frame key_on_hold. Qed.
Lemma deck_key_on_hold k i p w : deck (key_on_hold k i p w) = deck w. Proof. frame key_on_hold. Qed.
Lemma pages_key_on_hold k i p w : pages (key_on_hold k i p w) = pages w. Proof. frame key_on_hold. Qed.
Lemma log_key_on_hold k i p w : log (key_on_hold k i p w) = log w. Proof. frame key_on_hold. Qed.
#[export] Hint Rewrite now_key_on_hold nextTimeoutId_key_on_hold timers_key_on_hold deck_key_on_hold pages_key_on_hold log_key_on_hold : frames.

Lemma now_key_on_up k i p w : now (key_on_up k i p w) = now w. Proof. frame key_on_up. Qed.
Lemma nextTimeoutId_key_on_up k i p w : nextTimeoutId (key_on_up k i p w) = nextTimeoutId w. Proof. frame key_on_up. Qed.
Lemma deck_key_on_up k i p w : deck (key_on_up k i p w) = deck w. Proof. frame key_on_up. Qed.
Lemma pages_key_on_up k i p w : pages (key_on_up k i p w) = pages w. Proof. frame key_on_up. Qed.
#[export] Hint Rewrite now_key_on_up nextTimeoutId_key_on_up deck_key_on_up pages_key_on_up : frames.

Lemma now_key_idle_fires k w : now (key_idle_fires k w) = now w. Proof. frame key_idle_fires. Qed.
Lemma nextTimeoutId_key_idle_fires k w : nextTimeoutId (key_idle_fires k w) = nextTimeoutId w. Proof. frame key_idle_fires. Qed.
Lemma timers_key_idle_fires k w : timers (key_idle_fires k w) = timers w. Proof. frame key_idle_fires. Qed.
Lemma deck_key_idle_fires k w : deck (key_idle_fires k w) = deck w. Proof. frame key_idle_fires. Qed.
Lemma pages_key_idle_fires k w : pages (key_idle_fires k w) = pages w. Proof. frame key_idle_fires. Qed.
#[export] Hint Rewrite now_key_idle_fires nextTimeoutId_key_idle_fires timers_key_idle_fires deck_key_idle_fires pages_key_idle_fires : frames.

Lemma now_key_on_activity k w : now (key_on_activity k w) = now w. Proof. frame key_on_activity. Qed.
Lemma deck_key_on_activity k w : deck (key_on_activity k w) = deck w. Proof. frame key_on_activity. Qed.
Lemma pages_key_on_activity k w : pages (key_on_activity k w) = pages w. Proof. frame key_on_activity. Qed.
Lemma log_key_on_activity k w : log (key_on_activity k w) = log w. Proof. frame key_on_activity. Qed.
#[export] Hint Rewrite now_key_on_activity deck_key_on_activity pages_key_on_activity log_key_on_activity : frames.

Lemma now_key_emit k ev i p key w : now (key_emit k ev i p key w) = now w. Proof. frame key_emit. Qed.
Lemma deck_key_emit k ev i p key w : deck (key_emit k ev i p key w) = deck w. Proof. frame key_emit. Qed.
Lemma pages_key_emit k ev i p key w : pages (key_emit k ev i p key w) = pages w. Proof. frame key_emit. Qed.
#[export] Hint Rewrite now_key_emit deck_key_emit pages_key_emit : frames.

Lemma now_key_emit_opt key ev i p w : now (key_emit_opt key ev i p w) = now w. Proof. frame key_emit_opt. Qed.
Lemma deck_key_emit_opt key ev i p w : deck (key_emit_opt key ev i p w) = deck w. Proof. frame key_emit_opt. Qed.
Lemma pages_key_emit_opt key ev i p w : pages (key_emit_opt key ev i p w) = pages w. Proof. frame key_emit_opt. Qed.
#[export] Hint Rewrite now_key_emit_opt deck_key_emit_opt pages_key_emit_opt : frames.

Lemma now_key_hold_fires k i p w : now (key_hold_fires k i p w) = now w. Proof. frame key_hold_fires. Qed.
Lemma nextTimeoutId_key_hold_fires k i p w : nextTimeoutId (key_hold_fires k i p w) = nextTimeoutId w. Proof. frame key_hold_fires. Qed.
Lemma timers_key_hold_fires k i p w : timers (key_hold_fires k i p w) = timers w. Proof. frame key_hold_fires. Qed.
Lemma deck_key_hold_fires k i p w : deck (key_hold_fires k i p w) = deck w. Proof. frame key_hold_fires. Qed.
Lemma pages_key_hold_fires k i p w : pages (key_hold_fires k i p w) = pages w. Proof. frame key_hold_fires. Qed.
#[export] Hint Rewrite now_key_hold_fires nextTimeoutId_key_hold_fires timers_key_hold_fires deck_key_hold_fires pages_key_hold_fires : frames.

Lemma now_key_press_fires k i p w : now (key_press_fires k i p w) = now w. Proof. frame key_press_fires. Qed.
Lemma nextTimeoutId_key_press_fires k i p w : nextTimeoutId (key_press_fires k i p w) = nextTimeoutId w. Proof. frame key_press_fires. Qed.
Lemma timers_key_press_fires k i p w : timers (key_press_fires k i p w) = timers w. Proof. frame key_press_fires. Qed.
Lemma deck_key_press_fires k i p w : deck (key_press_fires k i p w) = deck w. Proof. frame key_press_fires. Qed.
Lemma pages_key_press_fires k i p w : pages (key_press_fires k i p w) = pages w. Proof. frame key_press_fires. Qed.
Lemma log_key_press_fires k i p w : log (key_press_fires k i p w) = log w. Proof. frame key_press_fires. Qed.
#[export] Hint Rewrite now_key_press_fires nextTimeoutId_key_press_fires timers_key_press_fires deck_key_press_fires pages_key_press_fires log_key_press_fires : frames.

Lemma now_page_on_down p i w : now (page_on_down p i w) = now w. Proof. frame page_on_down. Qed.
Lemma deck_page_on_down p i w : deck (page_on_down p i w) = deck w. Proof. frame page_on_down. Qed.
Lemma keys_page_on_down p i w : keys (page_on_down p i w) = keys w. Proof. frame page_on_down. Qed.
Lemma log_page_on_down p i w : log (page_on_down p i w) = log w. Proof. frame page_on_down. Qed.
#[export] Hint Rewrite now_page_on_down deck_page_on_down keys_page_on_down log_page_on_down : frames.

Lemma now_page_on_hold p i w : now (page_on_hold p i w) = now w. Proof. frame page_on_hold. Qed.
Lemma nextTimeoutId_page_on_hold p i w : nextTimeoutId (page_on_hold p i w) = nextTimeoutId w. Proof. frame page_on_hold. Qed.
Lemma timers_page_on_hold p i w : timers (page_on_hold p i w) = timers w. Proof. frame page_on_hold. Qed.
Lemma deck_page_on_hold p i w : deck (page_on_hold p i w) = deck w. Proof. frame page_on_hold. Qed.
Lemma keys_page_on_hold p i w : keys (page_on_hold p i w) = keys w. Proof. frame page_on_hold. Qed.
Lemma log_page_on_hold p i w : log (page_on_hold p i w) = log w. Proof. frame page_on_hold. Qed.
#[export] Hint Rewrite now_page_on_hold nextTimeoutId_page_on_hold timers_page_on_hold deck_page_on_hold keys_page_on_hold log_page_on_hold : frames.

Lemma now_page_on_up p i w : now (page_on_up p i w) = now w. Proof. frame page_on_up. Qed.
Lemma nextTimeoutId_page_on_up p i w : nextTimeoutId (page_on_up p i w) = nextTimeoutId w. Proof. frame page_on_up. Qed.
Lemma deck_page_on_up p i w : deck (page_on_up p i w) = deck w. Proof. frame page_on_up. Qed.
Lemma keys_page_on_up p i w : keys (page_on_up p i w) = keys w. Proof. frame page_on_up. Qed.
#[export] Hint Rewrite now_page_on_up nextTimeoutId_page_on_up deck_page_on_up keys_page_on_up : frames.

Lemma now_page_idle_fires p w : now (page_idle_fires p w) = now w. Proof. frame page_idle_fires. Qed.
Lemma nextTimeoutId_page_idle_fires p w : nextTimeoutId (page_idle_fires p w) = nextTimeoutId w. Proof. frame page_idle_fires. Qed.
Lemma timers_page_idle_fires p w : timers (page_idle_fires p w) = timers w. Proof. frame page_idle_fires. Qed.
Lemma deck_page_idle_fires p w : deck (page_idle_fires p w) = deck w. Proof. frame page_idle_fires. Qed.
Lemma keys_page_idle_fires p w : keys (page_idle_fires p w) = keys w. Proof. frame page_idle_fires. Qed.
#[export] Hint Rewrite now_page_idle_fires nextTimeoutId_page_idle_fires timers_page_idle_fires deck_page_idle_fires keys_page_idle_fires : frames.

Lemma now_page_on_activity p w : now (page_on_activity p w) = now w. Proof. frame page_on_activity. Qed.
Lemma deck_page_on_activity p w : deck (page_on_activity p w) = deck w. Proof. frame page_on_activity. Qed.
Lemma keys_page_on_activity p w : keys (page_on_activity p w) = keys w. Proof. frame page_on_activity. Qed.
Lemma log_page_on_activity p w : log (page_on_activity p w) = log w. Proof. frame page_on_activity. Qed.
#[export] Hint Rewrite now_page_on_activity deck_page_on_activity keys_page_on_activity log_page_on_activity : frames.

Lemma now_page_emit p ev i pg key w : now (page_emit p ev i pg key w) = now w. Proof. frame page_emit. Qed.
Lemma deck_page_emit p ev i pg key w : deck (page_emit p ev i pg key w) = deck w. Proof. frame page_emit. Qed.
Lemma keys_page_emit p ev i pg key w : keys (page_emit p ev i pg key w) = keys w. Proof. frame page_emit. Qed.
#[export] Hint Rewrite now_page_emit deck_page_emit keys_page_emit : frames.

Lemma now_page_emit_opt page ev i key w : now (page_emit_opt page ev i key w) = now w. Proof. frame page_emit_opt. Qed.
Lemma deck_page_emit_opt page ev i key w : deck (page_emit_opt page ev i key w) = deck w. Proof. frame page_emit_opt. Qed.
Lemma keys_page_emit_opt page ev i key w : keys (page_emit_opt page ev i key w) = keys w. Proof. frame page_emit_opt. Qed.
#[export] Hint Rewrite now_page_emit_opt deck_page_emit_opt keys_page_emit_opt : frames.

Lemma now_page_hold_fires p i key w : now (page_hold_fires p i key w) = now w. Proof. frame page_hold_fires. Qed.
Lemma nextTimeoutId_page_hold_fires p i key w : nextTimeoutId (page_hold_fires p i key w) = nextTimeoutId w. Proof. frame page_hold_fires. Qed.
Lemma timers_page_hold_fires p i key w : timers (page_hold_fires p i key w) = timers w. Proof. frame page_hold_fires. Qed.
Lemma deck_page_hold_fires p i key w : deck (page_hold_fires p i key w) = deck w. Proof. frame page_hold_fires. Qed.
#[export] Hint Rewrite now_page_hold_fires nextTimeoutId_page_hold_fires timers_page_hold_fires deck_page_hold_fires : frames.

Lemma now_deck_idle_fires w : now (deck_idle_fires w) = now w. Proof. frame deck_idle_fires. Qed.
Lemma nextTimeoutId_deck_idle_fires w : nextTimeoutId (deck_idle_fires w) = nextTimeoutId w. Proof. frame deck_idle_fires. Qed.
Lemma timers_deck_idle_fires w : timers (deck_idle_fires w) = timers w. Proof. frame deck_idle_fires. Qed.
Lemma pages_deck_idle_fires w : pages (deck_idle_fires w) = pages w. Proof. frame deck_idle_fires. Qed.
Lemma keys_deck_idle_fires w : keys (deck_idle_fires w) = keys w. Proof. frame deck_idle_fires. Qed.
#[export] Hint Rewrite now_deck_idle_fires nextTimeoutId_deck_idle_fires timers_deck_idle_fires pages_deck_idle_fires keys_deck_idle_fires : frames.

Lemma now_deck_on_activity w : now (deck_on_activity w) = now w. Proof. frame deck_on_activity. Qed.
Lemma pages_deck_on_activity w : pages (deck_on_activity w) = pages w. Proof. frame deck_on_activity. Qed.
Lemma keys_deck_on_activity w : keys (deck_on_activity w) = keys w. Proof. frame deck_on_activity. Qed.
Lemma log_deck_on_activity w : log (deck_on_activity w) = log w. Proof. frame deck_on_activity. Qed.
#[export] Hint Rewrite now_deck_on_activity pages_deck_on_activity keys_deck_on_activity log_deck_on_activity : frames.

Lemma now_deck_emit ev i p key w : now (deck_emit ev i p key w) = now w. Proof. frame deck_emit. Qed.
Lemma pages_deck_emit ev i p key w : pages (deck_emit ev i p key w) = pages w. Proof. frame deck_emit. Qed.
Lemma keys_deck_emit ev i p key w : keys (deck_emit ev i p key w) = keys w. Proof. frame deck_emit. Qed.
#[export] Hint Rewrite now_deck_emit pages_deck_emit keys_deck_emit : frames.

Lemma now_propagate ev i page key w : now (propagate ev i page key w) = now w. Proof. frame propagate. Qed.
Lemma deck_propagate ev i page key w : deck (propagate ev i page key w) = deck w. Proof. frame propagate. Qed.
#[export] Hint Rewrite now_propagate deck_propagate : frames.

Lemma now_deck_hold_fires i page key w : now (deck_hold_fires i page key w) = now w. Proof. frame deck_hold_fires. Qed.
Lemma nextTimeoutId_deck_hold_fires i page key w : nextTimeoutId (deck_hold_fires i page key w) = nextTimeoutId w. Proof. frame deck_hold_fires. Qed.
Lemma timers_deck_hold_fires i page key w : timers (deck_hold_fires i page key w) = timers w. Proof. frame deck_hold_fires. Qed.
#[export] Hint Rewrite now_deck_hold_fires nextTimeoutId_deck_hold_fires timers_deck_hold_fires : frames.

Lemma now_fire a w : now (fire a w) = now w. Proof. frame fire. Qed.
Lemma nextTimeoutId_fire a w : nextTimeoutId (fire a w) = nextTimeoutId w. Proof. frame fire. Qed.
Lemma timers_fire a w : timers (fire a w) = timers w. Proof. frame fire. Qed.
#[export] Hint Rewrite now_fire nextTimeoutId_fire timers_fire : frames.
End Frames.

(** ** The event loop *)

Module EventLoopFacts.
Import Deck.

Lemma earliest_elem (ts : list Timer) (t : Timer) :
  earliest ts = Some t -> t ∈ ts.
Proof.
  revert t. induction ts as [|u ts IH]; intros t; simpl; [discriminate|].
  destruct (earliest ts) as [v|].
  - destruct (t_deadline u <=? t_deadline v)%Z; intros [= <-].
    + now left.
    + right. now apply IH.
  - intros [= <-]. now left.
Qed.

Lemma next_timer_pending (limit : Z) (w : World) (t : Timer) :
  earliest (due limit (timers w)) = Some t ->
  t ∈ timers w /\ (t_deadline t <= limit)%Z.
Proof.
  intros H. apply earliest_elem in H. unfold due in H.
  now apply list_elem_of_filter in H as [? ?].
Qed.

End EventLoopFacts.

(** ** A key whose own hold time is 0 *)

Module ZeroHold.
Import Deck.

Section Calm.

Variable k0 : kid.
Variable base : nat.

Local Abbreviation silent_notif := (silent_notif_of k0).
Local Abbreviation calm := (calm_from k0 base).

Lemma calm_notify s ev i p k w :
  calm w -> (s = OnKey k0 -> ev <> hold /\ ev <> held) ->
  calm (notify s ev i p k w).
Proof.
  intros (HK & HT & HB & HL) Hev. unfold calm, notify. simpl.
  refine (conj HK (conj HT (conj _ _))).
  - rewrite length_app. lia.
  - rewrite drop_app_le by assumption. apply Forall_app. split; [assumption|].
    constructor; [|constructor]. exact Hev.
Qed.

Lemma calm_notify_focus s ev f b w :
  calm w -> (ev = focus \/ ev = blur) -> calm (notify_focus s ev f b w).
Proof.
  intros (HK & HT & HB & HL) Hev. unfold calm, notify_focus. simpl.
  refine (conj HK (conj HT (conj _ _))).
  - rewrite length_app. lia.
  - rewrite drop_app_le by assumption. apply Forall_app. split; [assumption|].
    constructor; [|constructor]. intros _. simpl.
    destruct Hev as [-> | ->]; split; discriminate.
Qed.

Lemma calm_clearTimeout id w : calm w -> calm (clearTimeout id w).
Proof.
  intros (HK & HT & HB & HL). unfold calm, clearTimeout. simpl.
  refine (conj HK (conj _ (conj HB HL))).
  intros t Ht. apply list_elem_of_filter in Ht as [_ Ht]. now apply HT.
Qed.

Lemma calm_clearTimeout_opt id w : calm w -> calm (clearTimeout_opt id w).
Proof. destruct id; [apply calm_clearTimeout|trivial]. Qed.

Lemma calm_arm a d store w :
  calm w -> (forall i p, a <> KeyHold k0 i p) ->
  (forall id w', calm w' -> calm (store id w')) ->
  calm (arm a d store w).
Proof.
  intros (HK & HT & HB & HL) Ha Hstore. unfold arm. apply Hstore.
  unfold calm, setTimeout. simpl. refine (conj HK (conj _ (conj HB HL))).
  intros t Ht. apply elem_of_app in Ht as [Ht|Ht]; [now apply HT|].
  apply list_elem_of_singleton in Ht. subst t. exact Ha.
Qed.

Lemma calm_upd_key k f w :
  calm w -> (k = k0 -> forall K, key_silent K -> key_silent (f K)) ->
  calm (upd_key k f w).
Proof.
  intros (HK & HT & HB & HL) Hf. unfold calm, upd_key.
  destruct (keys w !! k) as [K|] eqn:E; [|exact (conj HK (conj HT (conj HB HL)))].
  unfold put_key. simpl. refine (conj _ (conj HT (conj HB HL))).
  intros K'. destruct (decide (k = k0)) as [->|Hne].
  - rewrite lookup_insert_eq. intros [= <-]. apply Hf; [reflexivity|]. now apply HK.
  - rewrite lookup_insert_ne by assumption. apply HK.
Qed.

Lemma calm_upd_page p f w : calm w -> calm (upd_page p f w).
Proof.
  intros H. unfold upd_page. destruct (pages w !! p); [|assumption]. exact H.
Qed.

Lemma calm_put_page p P w : calm w -> calm (put_page p P w).
Proof. trivial. Qed.

Lemma calm_upd_deck f w : calm w -> calm (upd_deck f w).
Proof. trivial. Qed.

Lemma calm_key_draw k w : calm w -> calm (key_draw k w).
Proof.
  intros H. unfold key_draw. destruct (keys w !! k) as [K|]; [|assumption].
  destruct (Key.destroyed K); assumption.
Qed.

Lemma calm_page_draw p w : calm w -> calm (page_draw p w).
Proof.
  intros H. unfold page_draw. destruct (pages w !! p) as [P|]; [|assumption].
  destruct (Page.destroyed P); assumption.
Qed.

Lemma calm_set_clock t w : calm w -> calm (set_clock t (nextTimeoutId w) (timers w) w).
Proof. trivial. Qed.

(** What the invariant says of the key itself. *)
Lemma calm_key w K : calm w -> keys w !! k0 = Some K -> key_silent K.
Proof. intros (HK & _) E. now apply HK. Qed.

Lemma calm_not_inherits w : calm w -> key_inherits (Some k0) w = false.
Proof.
  intros H. unfold key_inherits. destruct (keys w !! k0) as [K|] eqn:E; [|reflexivity].
  destruct (calm_key w K H E) as [-> _]. reflexivity.
Qed.

Lemma key_forget_silent pair K : key_silent K -> key_silent (key_forget pair K).
Proof. intros [H1 H2]. unfold key_silent, key_forget. simpl. now rewrite H1, H2. Qed.

Lemma key_press_silent pair K : key_silent K -> key_silent (key_press pair K).
Proof. intros [H1 H2]. unfold key_silent, key_press. simpl. now rewrite H1, H2. Qed.

Ltac calm_step :=
  match goal with
  | |- calm (notify _ _ _ _ _ _) => apply calm_notify
  | |- calm (notify_focus _ _ _ _ _) => apply calm_notify_focus
  | |- calm (clearTimeout_opt _ _) => apply calm_clearTimeout_opt
  | |- calm (upd_key _ _ _) => apply calm_upd_key
  | |- calm (upd_page _ _ _) => apply calm_upd_page
  | |- calm (put_page _ _ _) => apply calm_put_page
  | |- calm (upd_deck _ _) => apply calm_upd_deck
  | |- calm (key_draw _ _) => apply calm_key_draw
  | |- calm (page_draw _ _) => apply calm_page_draw
  | |- calm (arm _ _ _ _) => apply calm_arm
  | |- calm (if ?c then _ else _) => destruct c eqn:?
  | |- calm (match ?x with _ => _ end) => destruct x eqn:?
  | |- _ -> _ => intro
  | |- forall _, _ => intro
  | |- key_silent (key_forget _ _) => apply key_forget_silent
  | |- key_silent (key_press _ _) => apply key_press_silent
  | |- _ /\ _ => split
  | |- _ <> _ => discriminate
  | |- _ => assumption
  end.

Ltac calm_auto := cbv zeta; repeat calm_step.

Lemma calm_key_clear_timers k pair w : calm w -> calm (key_clear_timers k pair w).
Proof.
  intros H. unfold key_clear_timers. calm_auto.
Qed.

Lemma calm_key_on_detach k i p w : calm w -> calm (key_on_detach k i p w).
Proof.
  intros H. unfold key_on_detach. calm_auto. now apply calm_key_clear_timers.
Qed.

Lemma calm_key_on_down k i p w : calm w -> calm (key_on_down k i p w).
Proof.
  intros H. unfold key_on_down.
  destruct (keys w !! k) as [K|] eqn:E; [|assumption].
  destruct (Key.destroyed K); [assumption|]. cbv zeta.
  assert (calm (upd_key k (key_press [JNum i; JPage p])
                  (key_clear_timers k [JNum i; JPage p] w))) as H1.
  { calm_auto. now apply calm_key_clear_timers. }
  apply calm_key_draw.
  assert (calm match Key.HOLD_TIME K with
               | Some h =>
                   if (0 <? h)%Z
                   then arm (KeyHold k i p) h
                          (fun id => upd_key k (fun K0 =>
                             Key.set_holdTimeoutIds
                               (ArrayKeyedMap.set (Key.holdTimeoutIds K0)
                                  [JNum i; JPage p] id) K0))
                          (upd_key k (key_press [JNum i; JPage p])
                             (key_clear_timers k [JNum i; JPage p] w))
                   else upd_key k (key_press [JNum i; JPage p])
                          (key_clear_timers k [JNum i; JPage p] w)
               | None => upd_key k (key_press [JNum i; JPage p])
                           (key_clear_timers k [JNum i; JPage p] w)
               end) as H2.
  { destruct (Key.HOLD_TIME K) as [h|] eqn:Eh; [|assumption].
    destruct (0 <? h)%Z eqn:Epos; [|assumption].
    apply calm_arm; [assumption| |calm_auto].
    intros i' p' [= -> _ _].
    destruct (calm_key w K H E) as [Hz _]. rewrite Hz in Eh.
    injection Eh as <-. discriminate. }
  destruct (0 <? Key.PRESS_TIME K)%Z; [|assumption].
  apply calm_arm; [assumption|discriminate|calm_auto].
Qed.

Lemma calm_key_on_hold k i p w : calm w -> calm (key_on_hold k i p w).
Proof.
  intros H. unfold key_on_hold.
  destruct (keys w !! k) as [K|] eqn:E; [|assumption].
  destruct (Key.destroyed K); [assumption|].
  destruct (is_number (Key.HOLD_TIME K)) eqn:En; [assumption|].
  apply calm_upd_key; [assumption|]. intros -> K' _.
  destruct (calm_key w K H E) as [Hz _]. rewrite Hz in En. discriminate.
Qed.

Lemma calm_key_on_up k i p w : calm w -> calm (key_on_up k i p w).
Proof.
  intros H. unfold key_on_up.
  destruct (keys w !! k) as [K|] eqn:E; [|assumption].
  destruct (Key.destroyed K); [assumption|]. cbv zeta.
  assert (calm (upd_key k (key_forget [JNum i; JPage p])
                  (key_clear_timers k [JNum i; JPage p] w))) as H1.
  { calm_auto. now apply calm_key_clear_timers. }
  assert (calm (if is_number (Key.HOLD_TIME K)
                then notify (OnKey k)
                       (if WildArrayValuedSet.has (Key.holdStates K) [JNum i; JPage p]
                        then held else click) (Some i) (Some p) (Some k)
                       (upd_key k (key_forget [JNum i; JPage p])
                          (key_clear_timers k [JNum i; JPage p] w))
                else upd_key k (key_forget [JNum i; JPage p])
                       (key_clear_timers k [JNum i; JPage p] w))) as H2.
  { destruct (is_number (Key.HOLD_TIME K)); [|assumption].
    apply calm_notify; [assumption|]. intros [= ->].
    destruct (calm_key w K H E) as [_ ->]. simpl. split; discriminate. }
  destruct (WildArrayValuedSet.has (Key.pressStates K) _); [|assumption].
  now apply calm_key_draw.
Qed.

Lemma calm_key_on_activity k w : calm w -> calm (key_on_activity k w).
Proof. intros H. unfold key_on_activity. calm_auto. Qed.

Lemma calm_key_emit k ev i p key w :
  calm w -> (k = k0 -> ev <> hold /\ ev <> held) ->
  calm (key_emit k ev i p key w).
Proof.
  intros H Hev. unfold key_emit. cbv zeta.
  assert (calm (notify (OnKey k) ev i p key w)) as H1.
  { apply calm_notify; [assumption|]. intros [= ->]. now apply Hev. }
  destruct ev, i, p;
    first [ assumption
          | now apply calm_key_on_detach
          | now apply calm_key_on_down
          | now apply calm_key_on_hold
          | now apply calm_key_on_up
          | now apply calm_key_on_activity ].
Qed.

(** A key reached through the guard [key && typeof key.HOLD_TIME !==
    'number'] is not the silent key. *)
Lemma calm_key_emit_inherited key ev i p w :
  calm w -> key_inherits key w = true -> calm (key_emit_opt key ev i p w).
Proof.
  intros H Hin. unfold key_emit_opt. destruct key as [k|]; [|assumption].
  apply calm_key_emit; [assumption|]. intros ->.
  rewrite calm_not_inherits in Hin by assumption. discriminate.
Qed.

Lemma calm_key_emit_opt key ev i p w :
  calm w -> ev <> hold -> ev <> held -> calm (key_emit_opt key ev i p w).
Proof.
  intros H H1 H2. unfold key_emit_opt. destruct key as [k|]; [|assumption].
  apply calm_key_emit; auto.
Qed.

Lemma calm_key_hold_fires k i p w :
  calm w -> k <> k0 -> calm (key_hold_fires k i p w).
Proof.
  intros H Hne. unfold key_hold_fires. cbv zeta.
  apply calm_key_emit; [|contradiction].
  apply calm_upd_key; [assumption|contradiction].
Qed.

Lemma calm_key_press_fires k i p w : calm w -> calm (key_press_fires k i p w).
Proof. intros H. unfold key_press_fires. calm_auto. Qed.

Lemma calm_key_idle_fires k w : calm w -> calm (key_idle_fires k w).
Proof. intros H. unfold key_idle_fires. calm_auto. Qed.

(** *** Pages *)

Lemma calm_page_on_down p i w : calm w -> calm (page_on_down p i w).
Proof. intros H. unfold page_on_down. calm_auto. Qed.

Lemma calm_page_on_hold p i w : calm w -> calm (page_on_hold p i w).
Proof. intros H. unfold page_on_hold. calm_auto. Qed.

Lemma calm_page_on_activity p w : calm w -> calm (page_on_activity p w).
Proof. intros H. unfold page_on_activity. calm_auto. Qed.

Lemma calm_page_on_up p i w : calm w -> calm (page_on_up p i w).
Proof.
  intros H. unfold page_on_up.
  destruct (pages w !! p) as [P|] eqn:E; [|assumption].
  destruct (Page.destroyed P); [assumption|]. cbv zeta.
  destruct (negb (is_number (Page.HOLD_TIME P))); [calm_auto|].
  match goal with
  | |- calm (if key_inherits ?key ?W then _ else _) =>
      assert (calm W) as H1 by
        (apply calm_notify; [calm_auto|discriminate]);
      destruct (key_inherits key W) eqn:Ein; [|assumption]
  end.
  now apply calm_key_emit_inherited.
Qed.

Lemma calm_page_emit p ev i page key w : calm w -> calm (page_emit p ev i page key w).
Proof.
  intros H. unfold page_emit. cbv zeta.
  assert (calm (notify (OnPage p) ev i page key w)) as H1
    by (apply calm_notify; [assumption|discriminate]).
  destruct ev, i;
    first [ assumption
          | now apply calm_page_on_down
          | now apply calm_page_on_hold
          | now apply calm_page_on_up
          | now apply calm_page_on_activity ].
Qed.

Lemma calm_page_emit_opt page ev i key w :
  calm w -> calm (page_emit_opt page ev i key w).
Proof.
  intros H. unfold page_emit_opt. destruct page; [|assumption].
  now apply calm_page_emit.
Qed.

Lemma calm_page_hold_fires p i key w : calm w -> calm (page_hold_fires p i key w).
Proof.
  intros H. unfold page_hold_fires. cbv zeta.
  match goal with
  | |- calm (if key_inherits ?key ?W then _ else _) =>
      assert (calm W) as H1 by (apply calm_page_emit; calm_auto);
      destruct (key_inherits key W) eqn:Ein; [|assumption]
  end.
  now apply calm_key_emit_inherited.
Qed.

Lemma calm_page_idle_fires p w : calm w -> calm (page_idle_fires p w).
Proof. intros H. unfold page_idle_fires. calm_auto. Qed.

(** *** The deck *)

Lemma calm_deck_on_activity w : calm w -> calm (deck_on_activity w).
Proof. intros H. unfold deck_on_activity. calm_auto. Qed.

Lemma calm_deck_emit ev i p k w : calm w -> calm (deck_emit ev i p k w).
Proof.
  intros H. unfold deck_emit. cbv zeta.
  assert (calm (notify OnDeck ev i p k w)) as H1
    by (apply calm_notify; [assumption|discriminate]).
  destruct ev; first [assumption | now apply calm_deck_on_activity].
Qed.

Lemma calm_propagate ev i page key w : calm w -> calm (propagate ev i page key w).
Proof.
  intros H. unfold propagate.
  destruct (page_inherits page w); [|assumption]. cbv zeta.
  match goal with
  | |- calm (if key_inherits ?key ?W then _ else _) =>
      assert (calm W) as H1 by (now apply calm_page_emit_opt);
      destruct (key_inherits key W) eqn:Ein; [|assumption]
  end.
  now apply calm_key_emit_inherited.
Qed.

Lemma calm_deck_hold_fires i page key w : calm w -> calm (deck_hold_fires i page key w).
Proof.
  intros H. unfold deck_hold_fires. cbv zeta.
  apply calm_propagate, calm_deck_emit. calm_auto.
Qed.

Lemma calm_deck_idle_fires w : calm w -> calm (deck_idle_fires w).
Proof. intros H. unfold deck_idle_fires. calm_auto. Qed.

Lemma calm_hw_down i w : calm w -> calm (hw_down i w).
Proof.
  intros H. unfold hw_down.
  destruct (StreamDeck.destroyed (deck w)); [assumption|]. cbv zeta.
  apply calm_key_emit_opt; [|discriminate|discriminate].
  apply calm_page_emit_opt, calm_deck_emit.
  match goal with
  | |- calm (if _ then arm _ _ _ ?W else _) => assert (calm W) as H1
  end.
  { apply calm_key_emit_opt; [|discriminate|discriminate].
    apply calm_page_emit_opt, calm_deck_emit. calm_auto. }
  destruct (0 <? StreamDeck.HOLD_TIME (deck w))%Z; [|assumption].
  apply calm_arm; [assumption|discriminate|calm_auto].
Qed.

Lemma calm_hw_up i w : calm w -> calm (hw_up i w).
Proof.
  intros H. unfold hw_up.
  destruct (StreamDeck.destroyed (deck w)); [assumption|]. cbv zeta.
  apply calm_key_emit_opt; [|discriminate|discriminate].
  apply calm_page_emit_opt, calm_deck_emit, calm_propagate, calm_deck_emit.
  apply calm_key_emit_opt; [|discriminate|discriminate].
  apply calm_page_emit_opt, calm_deck_emit. calm_auto.
Qed.

(** *** The event loop and the public methods *)

Lemma calm_run_timer t w : calm w -> t ∈ timers w -> calm (run_timer t w).
Proof.
  intros H Ht. unfold run_timer.
  assert (calm (set_clock (Z.max (now w) (t_deadline t)) (nextTimeoutId w)
                  (filter (fun u => t_id u ≠ t_id t) (timers w)) w)) as H1.
  { destruct H as (HK & HT & HB & HL). refine (conj HK (conj _ (conj HB HL))).
    simpl. intros u Hu. apply list_elem_of_filter in Hu as [_ Hu]. now apply HT. }
  destruct (t_action t) as [i page key| |p i key|p|k i p|k i p|k] eqn:Ea; cbn [fire].
  - now apply calm_deck_hold_fires.
  - now apply calm_deck_idle_fires.
  - now apply calm_page_hold_fires.
  - now apply calm_page_idle_fires.
  - apply calm_key_hold_fires; [assumption|]. intros ->.
    destruct H as (_ & HT & _). exact (HT t Ht i p Ea).
  - now apply calm_key_press_fires.
  - now apply calm_key_idle_fires.
Qed.

Lemma calm_run_due turns limit w : calm w -> calm (run_due turns limit w).
Proof.
  revert w. induction turns as [|turns IH]; intros w H; cbn [run_due]; [assumption|].
  destruct (earliest (due limit (timers w))) as [t|] eqn:E; [|assumption].
  apply IH, calm_run_timer; [assumption|].
  now apply EventLoopFacts.next_timer_pending in E as [? _].
Qed.

Lemma calm_elapse dt w : calm w -> calm (elapse dt w).
Proof.
  intros H. unfold elapse. cbv zeta.
  apply (calm_run_due (length (timers w)) (now w + dt)%Z) in H.
  exact H.
Qed.

Lemma calm_detachKey p row column key w :
  calm w -> calm (fst (detachKey p row column key w)).
Proof.
  intros H. unfold detachKey.
  destruct (pages w !! p) as [P|]; [|assumption].
  destruct (Page.destroyed P); [assumption|].
  destruct (slot_of_arguments _ _ _ _) as [[index key']|]; [|assumption].
  destruct (check_key _ _ _ _); [|assumption].
  destruct (find _ _) as [[attachedIndex attachedKey]|]; cbn [fst];
    [|now apply calm_page_draw].
  match goal with
  | |- calm (fst match key' with _ => _ end) =>
      assert (calm (page_emit p detach (Some attachedIndex) (Some p) (Some attachedKey)
                      (deck_emit detach (Some attachedIndex) (Some p) (Some attachedKey)
                         (put_page p
                            (Page.set_keys (JsMap.delete (Page.keys P) attachedIndex) P)
                            w)))) as H1
        by (apply calm_page_emit, calm_deck_emit, calm_put_page; assumption)
  end.
  destruct key'; cbn [fst]; try assumption.
  apply calm_page_draw, calm_key_emit; [assumption|]. intros _. split; discriminate.
Qed.

Lemma calm_emit_to_keys ks emit_one w :
  (forall k w', calm w' -> calm (emit_one k w')) ->
  calm w -> calm (emit_to_keys ks emit_one w).
Proof.
  intros Hone. unfold emit_to_keys. revert w.
  induction ks as [|k ks IH]; intros w H; simpl; [assumption|].
  apply IH, Hone, H.
Qed.

Lemma calm_attachKey p row column key w :
  calm w -> calm (fst (attachKey p row column key w)).
Proof.
  intros H. unfold attachKey.
  destruct (pages w !! p) as [P|]; [|assumption].
  destruct (Page.destroyed P); [assumption|]. cbv zeta.
  match goal with
  | |- calm (fst match ?chosen with _ => _ end) =>
      destruct chosen as [[index key']|]; [|assumption]
  end.
  destruct (check_key false false key' w); [|assumption].
  destruct key' as [| | | | |k]; try assumption.
  match goal with
  | |- calm (fst (let '(_, _) := ?d in _)) =>
      assert (calm (fst d)) as H1
        by (destruct (JsMap.has (Page.keys P) index);
            [now apply calm_detachKey|assumption]);
      destruct d as [w1 [[]|e]]; cbn [fst] in H1 |- *; [|assumption]
  end.
  destruct (pages w1 !! p) as [P1|]; cbn [fst]; [|assumption].
  apply calm_key_draw, calm_key_emit; [|intros _; split; discriminate].
  apply calm_page_emit, calm_deck_emit, calm_put_page. assumption.
Qed.

Lemma calm_setFocusedPage page w :
  calm w -> calm (fst (setFocusedPage page w)).
Proof.
  intros H. unfold setFocusedPage.
  destruct (StreamDeck.destroyed (deck w)); [assumption|]. cbv zeta.
  match goal with
  | |- calm (fst match ?requested with _ => _ end) =>
      destruct requested as [target|]; [|assumption]
  end.
  destruct (bool_decide _); [assumption|].
  match goal with
  | |- calm (fst (if ?c then _ else _)) => destruct c; [assumption|]
  end.
  match goal with
  | |- calm (fst match target with Some _ => _ | None => (?W, _) end) =>
      assert (calm W) as H1
  end.
  { destruct (StreamDeck.focusedPage (deck w)) as [b|]; [|calm_auto].
    apply calm_emit_to_keys.
    - intros k w' Hw'. apply calm_notify_focus; [assumption|now right].
    - apply calm_notify_focus; [|now right].
      apply calm_notify_focus; [|now right]. calm_auto. }
  destruct target as [f|]; cbn [fst]; [|assumption].
  apply calm_emit_to_keys.
  - intros k w' Hw'. apply calm_key_emit; [assumption|]. intros _. split; discriminate.
  - apply calm_page_emit, calm_deck_emit, calm_emit_to_keys.
    + intros k w' Hw'. apply calm_notify_focus; [assumption|now left].
    + apply calm_notify_focus; [|now left].
      apply calm_notify_focus; [|now left]. now apply calm_page_draw.
Qed.

Lemma calm_step w i : calm w -> calm (step w i).
Proof.
  intros H. destruct i; cbn [step].
  - now apply calm_hw_down.
  - now apply calm_hw_up.
  - now apply calm_elapse.
  - now apply calm_attachKey.
  - now apply calm_detachKey.
  - now apply calm_setFocusedPage.
Qed.

Lemma calm_run inputs w : calm w -> calm (run w inputs).
Proof.
  revert w. induction inputs as [|i inputs IH]; intros w H; [assumption|].
  apply IH, calm_step, H.
Qed.

End Calm.

(** C3: a key whose own hold time is 0 never emits [hold] or [held],
    whatever the hold times of the page and of the deck are — in
    particular with a deck default of 500 and a page that leaves its hold
    time undefined — and whatever is done to the system: button
    transitions, time passing, attaching, detaching, focus changes. *)
Theorem zero_hold_key_never_holds (w : World) (k : kid) (K : Key.t)
  (inputs : list Input) :
  keys w !! k = Some K ->
  Key.HOLD_TIME K = Some 0%Z ->
  Key.holdStates K = [] ->
  (forall t, t ∈ timers w -> forall i p, t_action t <> KeyHold k i p) ->
  Forall (fun n => target n = OnKey k -> name n <> hold /\ name n <> held)
    (emitted_since w (run w inputs)).
Proof.
  intros Hk Hz Hs Ht.
  assert (calm_from k (length (log w)) w) as H.
  { unfold calm_from. split; [|split; [assumption|split; [lia|]]].
    - intros K' E. rewrite Hk in E. injection E as <-. split; assumption.
    - rewrite drop_all. constructor. }
  apply (calm_run k (length (log w)) inputs) in H.
  destruct H as (_ & _ & _ & H). exact H.
Qed.

Lemma zero_hold_key_never_holds_witness :
  Forall (fun n => target n = OnKey 0%nat -> name n <> hold /\ name n <> held)
    (emitted_since (desk (Some 500%Z) None (Some 0%Z))
       (run (desk (Some 500%Z) None (Some 0%Z))
          [HwDown 0; Elapse 700; HwUp 0])).
Proof.
  apply (zero_hold_key_never_holds (desk (Some 500%Z) None (Some 0%Z)) 0%nat
           (Key.create (Some 0%Z) 0 10000)).
  - reflexivity.
  - reflexivity.
  - reflexivity.
  - intros t Ht i p. vm_compute in Ht.
    repeat (apply elem_of_cons in Ht as [->|Ht]; [discriminate|]).
    now apply not_elem_of_nil in Ht.
Defined.

Example zero_hold_key_clicks :
  heard (OnKey 0%nat) 0
    (emitted_since (desk (Some 500%Z) None (Some 0%Z))
       (run (desk (Some 500%Z) None (Some 0%Z)) [HwDown 0; Elapse 700; HwUp 0]))
  = [down; activity_down; up; click; activity_up]
  /\ heard (OnPage 0%nat) 0
       (emitted_since (desk (Some 500%Z) None (Some 0%Z))
          (run (desk (Some 500%Z) None (Some 0%Z)) [HwDown 0; Elapse 700; HwUp 0]))
     = [down; activity_down; hold; up; held; activity_up].
Proof. split; vm_compute; reflexivity. Qed.

End ZeroHold.

(** ** The release of a button *)

Module Release.
Import Deck Frames.

Lemma log_notify s ev i p k w :
  log (notify s ev i p k w) = log w ++ [said s ev i p k].
Proof. reflexivity. Qed.

Lemma key_inherits_same key w w' :
  keys w' = keys w -> key_inherits key w' = key_inherits key w.
Proof. intros E. unfold key_inherits. now rewrite E. Qed.

Lemma page_inherits_same page w w' :
  pages w' = pages w -> page_inherits page w' = page_inherits page w.
Proof. intros E. unfold page_inherits. now rewrite E. Qed.

(** What the [up] listener of a page adds to the log. *)
Lemma log_page_on_up p i w P :
  pages w !! p = Some P -> Page.destroyed P = false ->
  log (page_on_up p i w)
  = log w ++
    match Page.HOLD_TIME P with
    | None => []
    | Some _ =>
        let ev := if bool_decide (i ∈ Page.holdIndexes P) then held else click in
        said (OnPage p) ev (Some i) (Some p) (JsMap.get (Page.keys P) i)
        :: (if key_inherits (JsMap.get (Page.keys P) i) w
            then [said (OnKey (default 0%nat (JsMap.get (Page.keys P) i))) ev
                    (Some i) (Some p) (JsMap.get (Page.keys P) i)]
            else [])
    end.
Proof.
  intros HP Hd. unfold page_on_up. rewrite HP, Hd. cbv zeta.
  destruct (Page.HOLD_TIME P) as [h|]; cbn [is_number negb].
  - rewrite (key_inherits_same _ w).
    2:{ fields. now autorewrite with frames. }
    destruct (key_inherits _ w) eqn:Hi.
    + destruct (JsMap.get (Page.keys P) i) as [k'|]; [|discriminate].
      unfold key_emit_opt, key_emit.
      destruct (bool_decide _); fields; autorewrite with frames; fields;
        now rewrite <- app_assoc.
    + fields. autorewrite with frames. reflexivity.
  - autorewrite with frames. fields. now rewrite app_nil_r.
Qed.


(** What the [up] listener of a key adds to the log. *)
Lemma log_key_on_up k i p w K :
  keys w !! k = Some K -> Key.destroyed K = false ->
  log (key_on_up k i p w)
  = log w ++
    if is_number (Key.HOLD_TIME K)
    then [said (OnKey k)
            (if WildArrayValuedSet.has (Key.holdStates K) [JNum i; JPage p]
             then held else click) (Some i) (Some p) (Some k)]
    else [].
Proof.
  intros HK Hd. unfold key_on_up. rewrite HK, Hd. cbv zeta.
  destruct (is_number (Key.HOLD_TIME K));
    destruct (WildArrayValuedSet.has (Key.pressStates K) _);
    autorewrite with frames; fields; autorewrite with frames;
    rewrite ?app_nil_r; reflexivity.
Qed.

(** What the propagation of [click] or [held] adds to the log. *)
Lemma log_propagate ev i p k w :
  ev = click \/ ev = held ->
  log (propagate ev i (Some p) (Some k) w)
  = log w ++
    if page_inherits (Some p) w
    then said (OnPage p) ev (Some i) (Some p) (Some k)
         :: (if key_inherits (Some k) w
             then [said (OnKey k) ev (Some i) (Some p) (Some k)] else [])
    else [].
Proof.
  intros Hev. unfold propagate.
  destruct (page_inherits (Some p) w); [|now rewrite app_nil_r].
  unfold page_emit_opt, key_emit_opt, page_emit, key_emit.
  destruct Hev as [-> | ->]; cbv zeta; cbn match;
    (rewrite (key_inherits_same _ w) by reflexivity);
    destruct (key_inherits (Some k) w); fields;
    rewrite <- ?app_assoc; reflexivity.
Qed.


Lemma log_deck_emit ev i p k w :
  log (deck_emit ev i p k w) = log w ++ [said OnDeck ev i p k].
Proof. unfold deck_emit. destruct ev; autorewrite with frames; reflexivity. Qed.

Lemma log_page_emit p ev i pg k w :
  ev <> up ->
  log (page_emit p ev i pg k w) = log w ++ [said (OnPage p) ev i pg k].
Proof.
  intros Hev. unfold page_emit.
  destruct ev, i; try congruence; autorewrite with frames; reflexivity.
Qed.

Lemma log_key_emit k ev i p key w :
  ev <> up ->
  log (key_emit k ev i p key w) = log w ++ [said (OnKey k) ev i p key].
Proof.
  intros Hev. unfold key_emit.
  destruct ev, i, p; try congruence; autorewrite with frames; reflexivity.
Qed.


Lemma page_inherits_upd_page pg p f w :
  (forall P, Page.HOLD_TIME (f P) = Page.HOLD_TIME P) ->
  page_inherits pg (upd_page p f w) = page_inherits pg w.
Proof.
  intros Hf. unfold page_inherits, upd_page.
  destruct pg as [q|]; [|reflexivity].
  destruct (pages w !! p) as [P|] eqn:HP; [|reflexivity]. fields.
  destruct (decide (p = q)) as [->|Hne].
  - now rewrite lookup_insert_eq, HP, Hf.
  - now rewrite lookup_insert_ne.
Qed.

Lemma key_inherits_upd_key key k f w :
  (forall K, Key.HOLD_TIME (f K) = Key.HOLD_TIME K) ->
  key_inherits key (upd_key k f w) = key_inherits key w.
Proof.
  intros Hf. unfold key_inherits, upd_key.
  destruct key as [q|]; [|reflexivity].
  destruct (keys w !! k) as [K|] eqn:HK; [|reflexivity]. fields.
  destruct (decide (k = q)) as [->|Hne].
  - now rewrite lookup_insert_eq, HK, Hf.
  - now rewrite lookup_insert_ne.
Qed.

Lemma page_inherits_page_on_up pg p i w :
  page_inherits pg (page_on_up p i w) = page_inherits pg w.
Proof.
  unfold page_on_up.
  destruct (pages w !! p) as [P|]; [|reflexivity].
  destruct (Page.destroyed P); [reflexivity|]. cbv zeta.
  assert (page_inherits pg
            (upd_page p
               (fun P => Page.set_holdIndexes (Page.holdIndexes P ∖ {[i]})
                  (Page.set_downIndexes (Page.downIndexes P ∖ {[i]})
                     (Page.set_holdTimeoutIds
                        (delete i (Page.holdTimeoutIds P)) P)))
               (clearTimeout_opt (Page.holdTimeoutIds P !! i) w))
          = page_inherits pg w) as E.
  { rewrite page_inherits_upd_page by reflexivity.
    apply page_inherits_same. now autorewrite with frames. }
  destruct (negb _); [exact E|].
  destruct (key_inherits _ _); rewrite <- E; apply page_inherits_same;
    autorewrite with frames; reflexivity.
Qed.

Lemma key_inherits_key_clear_timers key k pair w :
  key_inherits key (key_clear_timers k pair w) = key_inherits key w.
Proof.
  unfold key_clear_timers.
  destruct (keys w !! k) as [K|]; [|reflexivity]. cbv zeta.
  rewrite key_inherits_upd_key by reflexivity.
  apply key_inherits_same. destruct (ArrayKeyedMap.get _ _), (ArrayKeyedMap.get _ _); reflexivity.
Qed.

Lemma key_inherits_key_on_up key k i p w :
  key_inherits key (key_on_up k i p w) = key_inherits key w.
Proof.
  unfold key_on_up.
  destruct (keys w !! k) as [K|]; [|reflexivity].
  destruct (Key.destroyed K); [reflexivity|]. cbv zeta.
  assert (key_inherits key
            (upd_key k (key_forget [JNum i; JPage p])
               (key_clear_timers k [JNum i; JPage p] w))
          = key_inherits key w) as E.
  { rewrite key_inherits_upd_key by reflexivity.
    apply key_inherits_key_clear_timers. }
  destruct (is_number _), (WildArrayValuedSet.has (Key.pressStates K) _);
    rewrite <- E; apply key_inherits_same; autorewrite with frames; reflexivity.
Qed.

Lemma page_inherits_deck_emit pg ev i p k w :
  page_inherits pg (deck_emit ev i p k w) = page_inherits pg w.
Proof. apply page_inherits_same. now autorewrite with frames. Qed.

Lemma page_inherits_key_emit pg k ev i p key w :
  page_inherits pg (key_emit k ev i p key w) = page_inherits pg w.
Proof. apply page_inherits_same. now autorewrite with frames. Qed.

Lemma page_inherits_page_emit_up pg p i q key w :
  page_inherits pg (page_emit p up (Some i) q key w) = page_inherits pg w.
Proof. unfold page_emit. now rewrite page_inherits_page_on_up. Qed.

Lemma key_inherits_deck_emit key ev i p k w :
  key_inherits key (deck_emit ev i p k w) = key_inherits key w.
Proof. apply key_inherits_same. now autorewrite with frames. Qed.

Lemma key_inherits_page_emit key p ev i q k w :
  key_inherits key (page_emit p ev i q k w) = key_inherits key w.
Proof. apply key_inherits_same. now autorewrite with frames. Qed.

Lemma key_inherits_key_emit_up key k i p q w :
  key_inherits key (key_emit k up (Some i) (Some p) q w) = key_inherits key w.
Proof. unfold key_emit. now rewrite key_inherits_key_on_up. Qed.

Section Slot.

Variables (i : Z) (p : pid) (k : kid).

(** The log of one release, event by event. *)
Lemma hw_up_log w P K :
  StreamDeck.destroyed (deck w) = false ->
  StreamDeck.downPages (deck w) !! i = Some (Some p) ->
  StreamDeck.downKeys (deck w) !! i = Some (Some k) ->
  pages w !! p = Some P -> Page.destroyed P = false ->
  JsMap.get (Page.keys P) i = Some k ->
  keys w !! k = Some K -> Key.destroyed K = false ->
  let tell s ev := said s ev (Some i) (Some p) (Some k) in
  let own_page :=
    if bool_decide (i ∈ Page.holdIndexes P) then held else click in
  log (hw_up i w)
  = log w
    ++ [tell OnDeck up; tell (OnPage p) up]
    ++ (if is_number (Page.HOLD_TIME P)
        then tell (OnPage p) own_page
             :: (if is_number (Key.HOLD_TIME K) then []
                 else [tell (OnKey k) own_page])
        else [])
    ++ [tell (OnKey k) up]
    ++ (if is_number (Key.HOLD_TIME K)
        then [tell (OnKey k) (key_says i p (deck w) P K)] else [])
    ++ [tell OnDeck (deck_says i (deck w))]
    ++ (if is_number (Page.HOLD_TIME P) then []
        else tell (OnPage p) (deck_says i (deck w))
             :: (if is_number (Key.HOLD_TIME K) then []
                 else [tell (OnKey k) (deck_says i (deck w))]))
    ++ [tell OnDeck activity_up; tell (OnPage p) activity_up;
        tell (OnKey k) activity_up].
Proof.
  intros Hd HdP HdK HP HPd HPk HK HKd tell own_page.
  assert (key_inherits (Some k) w = negb (is_number (Key.HOLD_TIME K))) as Hki.
  { unfold key_inherits. now rewrite HK. }
  assert (page_inherits (Some p) w = negb (is_number (Page.HOLD_TIME P))) as Hpi.
  { unfold page_inherits. now rewrite HP. }
  unfold hw_up. rewrite Hd, HdP, HdK. cbv zeta. cbn [default from_option id].
  unfold page_emit_opt, key_emit_opt.
  rewrite !log_key_emit, !log_page_emit, !log_deck_emit by discriminate.
  rewrite log_propagate
    by (destruct (bool_decide (i ∈ StreamDeck.holdIndexes (deck w))); auto).
  rewrite log_deck_emit.
  rewrite !page_inherits_deck_emit, !page_inherits_key_emit,
    !page_inherits_page_emit_up, !page_inherits_deck_emit.
  rewrite !key_inherits_deck_emit, !key_inherits_key_emit_up,
    !key_inherits_page_emit, !key_inherits_deck_emit.
  rewrite (page_inherits_same _ w), (key_inherits_same _ w)
    by (framed; reflexivity).
  rewrite Hki, Hpi.
  unfold key_emit at 1.
  rewrite (log_key_on_up _ _ _ _ K); [|framed; assumption|assumption].
  fields. unfold page_emit at 1.
  rewrite (log_page_on_up _ _ _ P); [|framed; assumption|assumption].
  rewrite HPk. cbn [default].
  rewrite (key_inherits_same _ w) by (framed; reflexivity).
  rewrite Hki. framed. rewrite log_deck_emit. framed.
  unfold key_says, page_says, deck_says.
  destruct (Page.HOLD_TIME P), (Key.HOLD_TIME K); cbn [is_number negb];
    rewrite <- ?app_assoc; cbn [app]; reflexivity.
Qed.


Lemma heard_cons s s' ev pg key l :
  heard s i (said s' ev (Some i) pg key :: l)
  = if bool_decide (s' = s) then ev :: heard s i l else heard s i l.
Proof.
  unfold heard. case_bool_decide as E.
  - rewrite filter_cons_True by (split; [exact E|reflexivity]). reflexivity.
  - rewrite filter_cons_False by (intros [? _]; contradiction). reflexivity.
Qed.

Lemma heard_nil s : heard s i [] = [].
Proof. reflexivity. Qed.

(** What each scope reports at the release: one [click] or one [held]. *)
Lemma hw_up_outcomes w P K :
  StreamDeck.destroyed (deck w) = false ->
  StreamDeck.downPages (deck w) !! i = Some (Some p) ->
  StreamDeck.downKeys (deck w) !! i = Some (Some k) ->
  pages w !! p = Some P -> Page.destroyed P = false ->
  JsMap.get (Page.keys P) i = Some k ->
  keys w !! k = Some K -> Key.destroyed K = false ->
  outcomes (heard OnDeck i (emitted_since w (hw_up i w))) = [deck_says i (deck w)]
  /\ outcomes (heard (OnPage p) i (emitted_since w (hw_up i w)))
     = [page_says i (deck w) P]
  /\ outcomes (heard (OnKey k) i (emitted_since w (hw_up i w)))
     = [key_says i p (deck w) P K].
Proof.
  intros Hd HdP HdK HP HPd HPk HK HKd.
  unfold emitted_since.
  rewrite (hw_up_log w P K) by assumption. cbv zeta.
  rewrite drop_app_length.
  unfold key_says, page_says, deck_says.
  destruct (Page.HOLD_TIME P), (Key.HOLD_TIME K); cbn [is_number app];
    destruct (bool_decide (i ∈ StreamDeck.holdIndexes (deck w)));
    destruct (bool_decide (i ∈ Page.holdIndexes P));
    destruct (WildArrayValuedSet.has (Key.holdStates K) [JNum i; JPage p]);
    (split; [|split]);
    repeat (rewrite heard_cons; case_bool_decide; try congruence);
    rewrite heard_nil; reflexivity.
Qed.

End Slot.
End Release.

(** ** A pressed slot while time passes *)

Module Hold.
Import Deck Frames Deck.

Section Slot.

Variables (i : Z) (p : pid) (k : kid) (hp hk : option Z).

Local Abbreviation deck_part := (Deck.deck_part i p k).
Local Abbreviation page_part := (Deck.page_part i p k hp).
Local Abbreviation key_part := (Deck.key_part i p k hk).

(** *** The parts depend on one field each *)

Lemma deck_part_same fd w w' : deck w' = deck w -> deck_part fd w -> deck_part fd w'.
Proof. unfold Deck.deck_part. now intros ->. Qed.

Lemma page_part_same fp w w' : pages w' = pages w -> page_part fp w -> page_part fp w'.
Proof. unfold Deck.page_part. now intros ->. Qed.

Lemma key_part_same fk w w' : keys w' = keys w -> key_part fk w -> key_part fk w'.
Proof. unfold Deck.key_part. now intros ->. Qed.

Lemma page_part_upd_page fp fp' q f w :
  page_part fp w ->
  (q = p -> forall P, page_ok i k hp fp P -> page_ok i k hp fp' (f P)) ->
  (q <> p -> fp' = fp) ->
  page_part fp' (upd_page q f w).
Proof.
  intros (P & HP & Hok) Hf Hne. unfold upd_page.
  destruct (decide (q = p)) as [->|Hq].
  - rewrite HP. exists (f P). fields. rewrite lookup_insert_eq. auto.
  - rewrite (Hne Hq). destruct (pages w !! q); exists P; fields;
      [rewrite lookup_insert_ne by assumption|]; auto.
Qed.

Lemma key_part_upd_key fk fk' q f w :
  key_part fk w ->
  (q = k -> forall K, key_ok i p hk fk K -> key_ok i p hk fk' (f K)) ->
  (q <> k -> fk' = fk) ->
  key_part fk' (upd_key q f w).
Proof.
  intros (K & HK & Hok) Hf Hne. unfold upd_key.
  destruct (decide (q = k)) as [->|Hq].
  - rewrite HK. exists (f K). fields. rewrite lookup_insert_eq. auto.
  - rewrite (Hne Hq). destruct (keys w !! q); exists K; fields;
      [rewrite lookup_insert_ne by assumption|]; auto.
Qed.


(** *** Marks *)

Lemma has_add_same (S : WildArrayValuedSet.t) x :
  WildArrayValuedSet.has (WildArrayValuedSet.add S x) x = true.
Proof.
  apply WildArrayValuedSetFacts.has_elem_of, WildArrayValuedSetFacts.elem_of_add.
  now left.
Qed.

Lemma has_add_other (S : WildArrayValuedSet.t) x y :
  x <> y ->
  WildArrayValuedSet.has (WildArrayValuedSet.add S x) y
  = WildArrayValuedSet.has S y.
Proof.
  intros Hne. apply eq_true_iff_eq.
  rewrite !WildArrayValuedSetFacts.has_elem_of, WildArrayValuedSetFacts.elem_of_add.
  split; [intros [E|E]; [congruence|assumption]|now right].
Qed.

Lemma has_delete_same (S : WildArrayValuedSet.t) x :
  NoDup S -> WildArrayValuedSet.has (fst (WildArrayValuedSet.delete S x)) x = false.
Proof.
  intros Hnd. apply not_true_is_false. intros H.
  apply WildArrayValuedSetFacts.has_elem_of in H.
  now apply (WildArrayValuedSetFacts.delete_removes S x).
Qed.

Lemma mark_same (j : Z) (marks : gset Z) : bool_decide (j ∈ {[j]} ∪ marks) = true.
Proof. apply bool_decide_eq_true, elem_of_union_l, elem_of_singleton. reflexivity. Qed.

Lemma mark_other (j j' : Z) (marks : gset Z) :
  j' <> j -> bool_decide (j ∈ {[j']} ∪ marks) = bool_decide (j ∈ marks).
Proof.
  intros Hne. apply bool_decide_ext.
  rewrite elem_of_union, elem_of_singleton. split; [intros [E|E]|]; auto.
  congruence.
Qed.

Lemma unmark_same (j : Z) (marks : gset Z) : bool_decide (j ∈ marks ∖ {[j]}) = false.
Proof.
  apply bool_decide_eq_false. rewrite elem_of_difference, elem_of_singleton.
  intros [_ E]. now apply E.
Qed.

(** *** The key through the timer callbacks *)

Lemma key_part_key_on_hold fk q j r w :
  key_part fk w -> key_part fk (key_on_hold q j r w).
Proof.
  intros Hk. unfold key_on_hold.
  destruct (keys w !! q) as [K0|] eqn:E; [|assumption].
  destruct (Key.destroyed K0); [assumption|].
  destruct (is_number (Key.HOLD_TIME K0)) eqn:En; [assumption|].
  apply (key_part_upd_key fk); [assumption| |reflexivity].
  intros -> K (Hd & Hh & Hnd & Hf). destruct Hk as (K1 & HK1 & _ & Hh1 & _).
  rewrite HK1 in E. injection E as <-.
  repeat split; [exact Hd|exact Hh| |].
  - now apply WildArrayValuedSetFacts.add_NoDup.
  - intros Hn. rewrite <- Hh1, En in Hn. discriminate.
Qed.

Lemma key_part_key_emit_hold fk q j r key w :
  key_part fk w -> key_part fk (key_emit q hold j r key w).
Proof.
  intros Hk. unfold key_emit. cbv zeta.
  destruct j, r; try (apply key_part_key_on_hold);
    (eapply key_part_same; [|exact Hk]); reflexivity.
Qed.

Lemma key_part_key_emit_opt_hold fk key j r w :
  key_part fk w -> key_part fk (key_emit_opt key hold j r w).
Proof. destruct key; [apply key_part_key_emit_hold|trivial]. Qed.

Lemma key_part_key_hold_fires fk q j r w :
  key_part fk w ->
  key_part (fk || key_hold_timer k i p (KeyHold q j r)) (key_hold_fires q j r w).
Proof.
  intros Hk. unfold key_hold_fires. cbv zeta.
  apply key_part_key_emit_hold.
  apply (key_part_upd_key fk); [assumption| |].
  - intros -> K (Hd & Hh & Hnd & Hf).
    repeat split; [exact Hd|exact Hh| |];
      [now apply WildArrayValuedSetFacts.add_NoDup|].
    cbn [key_hold_timer]. intros Hn.
    cbn [Key.holdStates Key.set_holdStates Key.set_holdTimeoutIds].
    destruct (decide (j = i ∧ r = p)) as [[-> ->]|E].
    + rewrite (bool_decide_eq_true_2 (_ ∧ _)), orb_true_r by auto.
      apply has_add_same.
    + rewrite (bool_decide_eq_false_2 (_ ∧ _)), orb_false_r, has_add_other;
        [auto|intros [= -> ->]; auto|intros (_ & ? & ?); auto].
  - intros Hne. cbn [key_hold_timer].
    rewrite (bool_decide_eq_false_2 (_ ∧ _)), orb_false_r; [reflexivity|].
    intros (? & _). contradiction.
Qed.

Lemma key_part_key_press_fires fk q j r w :
  key_part fk w -> key_part fk (key_press_fires q j r w).
Proof.
  intros Hk. unfold key_press_fires. cbv zeta.
  eapply key_part_same; [apply keys_key_draw|].
  apply (key_part_upd_key fk); [assumption| |reflexivity].
  intros _ K (Hd & Hh & Hnd & Hf). repeat split; assumption.
Qed.

Lemma key_part_key_idle_fires fk q w :
  key_part fk w -> key_part fk (key_idle_fires q w).
Proof.
  intros Hk. unfold key_idle_fires.
  eapply key_part_same; [reflexivity|].
  apply (key_part_upd_key fk); [assumption| |reflexivity].
  intros _ K (Hd & Hh & Hnd & Hf). repeat split; assumption.
Qed.


(** *** The page through the timer callbacks *)

Lemma page_part_page_on_hold fp q j w :
  page_part fp w -> page_part fp (page_on_hold q j w).
Proof.
  intros Hp. unfold page_on_hold.
  destruct (pages w !! q) as [P0|] eqn:E; [|assumption].
  destruct (Page.destroyed P0); [assumption|].
  destruct (is_number (Page.HOLD_TIME P0)) eqn:En; [assumption|].
  apply (page_part_upd_page fp); [assumption| |reflexivity].
  intros -> P (Hd & Hh & Hk & Hf). destruct Hp as (P1 & HP1 & _ & Hh1 & _).
  rewrite HP1 in E. injection E as <-.
  repeat split; [exact Hd|exact Hh|exact Hk|]. intros Hn.
  rewrite <- Hh1, En in Hn. discriminate.
Qed.

Lemma page_part_page_emit_hold fp q j r key w :
  page_part fp w -> page_part fp (page_emit q hold j r key w).
Proof.
  intros Hp. unfold page_emit. cbv zeta.
  destruct j; try (apply page_part_page_on_hold);
    (eapply page_part_same; [|exact Hp]); reflexivity.
Qed.

Lemma page_part_page_emit_opt_hold fp page j key w :
  page_part fp w -> page_part fp (page_emit_opt page hold j key w).
Proof. destruct page; [apply page_part_page_emit_hold|trivial]. Qed.

Lemma page_part_page_hold_fires fp q j key w :
  page_part fp w ->
  page_part (fp || page_hold_timer p i (PageHold q j key))
    (page_hold_fires q j key w).
Proof.
  intros Hp. unfold page_hold_fires. cbv zeta.
  assert (page_part (fp || page_hold_timer p i (PageHold q j key))
            (page_emit q hold (Some j) (Some q) key
               (upd_page q
                  (fun P =>
                     Page.set_holdIndexes ({[j]} ∪ Page.holdIndexes P)
                       (Page.set_holdTimeoutIds
                          (delete j (Page.holdTimeoutIds P)) P)) w))) as H.
  { apply page_part_page_emit_hold.
    apply (page_part_upd_page fp); [assumption| |].
    - intros -> P (Hd & Hh & Hk & Hf). repeat split; [exact Hd|exact Hh|exact Hk|].
      cbn [page_hold_timer]. intros Hn.
      cbn [Page.holdIndexes Page.set_holdIndexes Page.set_holdTimeoutIds].
      destruct (decide (j = i)) as [->|E].
      + rewrite (bool_decide_eq_true_2 (_ ∧ _)), orb_true_r by auto.
        apply mark_same.
      + rewrite (bool_decide_eq_false_2 (_ ∧ _)), orb_false_r, mark_other;
          [auto|assumption|intros [_ ?]; contradiction].
    - intros Hne. cbn [page_hold_timer].
      rewrite bool_decide_eq_false_2, orb_false_r; [reflexivity|].
      intros (? & _). contradiction. }
  destruct (key_inherits key _); [|exact H].
  eapply page_part_same; [apply pages_key_emit_opt|exact H].
Qed.

Lemma page_part_page_idle_fires fp q w :
  page_part fp w -> page_part fp (page_idle_fires q w).
Proof.
  intros Hp. unfold page_idle_fires.
  eapply page_part_same; [reflexivity|].
  apply (page_part_upd_page fp); [assumption| |reflexivity].
  intros _ P (Hd & Hh & Hk & Hf). repeat split; assumption.
Qed.

Lemma key_part_page_hold_fires fk q j key w :
  key_part fk w -> key_part fk (page_hold_fires q j key w).
Proof.
  intros Hk. unfold page_hold_fires. cbv zeta.
  assert (forall w', keys w' = keys w -> key_part fk w') as Hs
    by (intros w' E; now apply (key_part_same fk w)).
  destruct (key_inherits key _).
  - apply key_part_key_emit_opt_hold, Hs. now framed.
  - apply Hs. now framed.
Qed.

(** *** Propagation of [hold] *)

Lemma page_part_propagate_hold fp j page key w :
  page_part fp w -> page_part fp (propagate hold j page key w).
Proof.
  intros Hp. unfold propagate. destruct (page_inherits page w); [|assumption].
  cbv zeta.
  assert (page_part fp (page_emit_opt page hold (Some j) key w)) as H
    by now apply page_part_page_emit_opt_hold.
  destruct (key_inherits key _); [|exact H].
  eapply page_part_same; [apply pages_key_emit_opt|exact H].
Qed.

Lemma key_part_propagate_hold fk j page key w :
  key_part fk w -> key_part fk (propagate hold j page key w).
Proof.
  intros Hk. unfold propagate. destruct (page_inherits page w); [|assumption].
  cbv zeta.
  assert (key_part fk (page_emit_opt page hold (Some j) key w)) as H
    by (eapply key_part_same; [apply keys_page_emit_opt|exact Hk]).
  destruct (key_inherits key _); [|exact H].
  now apply key_part_key_emit_opt_hold.
Qed.

(** *** The deck through the timer callbacks *)

Lemma deck_part_deck_hold_fires fd j page key w :
  deck_part fd w ->
  deck_part (fd || deck_hold_timer i (DeckHold j page key))
    (deck_hold_fires j page key w).
Proof.
  intros (Hd & HP & HK & Hf). unfold deck_hold_fires. cbv zeta.
  eapply deck_part_same; [apply deck_propagate|].
  unfold Deck.deck_part, deck_ok, deck_emit. fields.
  cbn [StreamDeck.destroyed StreamDeck.downPages StreamDeck.downKeys
       StreamDeck.holdIndexes StreamDeck.set_holdIndexes
       StreamDeck.set_holdTimeoutIds].
  repeat split; [exact Hd|exact HP|exact HK|].
  cbn [deck_hold_timer]. destruct (decide (j = i)) as [->|E].
  - rewrite (bool_decide_eq_true_2 (_ = _)), orb_true_r by reflexivity.
    apply mark_same.
  - rewrite (bool_decide_eq_false_2 (_ = _)), orb_false_r, mark_other;
      assumption.
Qed.

Lemma deck_part_deck_idle_fires fd w :
  deck_part fd w -> deck_part fd (deck_idle_fires w).
Proof. intros H. exact H. Qed.

Lemma page_part_deck_hold_fires fp j page key w :
  page_part fp w -> page_part fp (deck_hold_fires j page key w).
Proof.
  intros Hp. unfold deck_hold_fires. cbv zeta.
  apply page_part_propagate_hold.
  eapply page_part_same; [|exact Hp]. now framed.
Qed.

Lemma key_part_deck_hold_fires fk j page key w :
  key_part fk w -> key_part fk (deck_hold_fires j page key w).
Proof.
  intros Hk. unfold deck_hold_fires. cbv zeta.
  apply key_part_propagate_hold.
  eapply key_part_same; [|exact Hk]. now framed.
Qed.


(** *** One timer callback *)

Local Abbreviation pressed := (Deck.pressed i p k hp hk).

Lemma pressed_fire fd fp fk a w :
  pressed fd fp fk w ->
  pressed (fd || deck_hold_timer i a) (fp || page_hold_timer p i a)
    (fk || key_hold_timer k i p a) (fire a w).
Proof.
  intros (Hd & Hp & Hk).
  destruct a as [j pg ky| |q j ky|q|q j r|q j r|q];
    cbn [fire deck_hold_timer page_hold_timer key_hold_timer];
    rewrite ?orb_false_r; (split; [|split]).
  - now apply deck_part_deck_hold_fires.
  - now apply page_part_deck_hold_fires.
  - now apply key_part_deck_hold_fires.
  - exact Hd.
  - eapply page_part_same; [apply pages_deck_idle_fires|exact Hp].
  - eapply key_part_same; [apply keys_deck_idle_fires|exact Hk].
  - eapply deck_part_same; [apply deck_page_hold_fires|exact Hd].
  - now apply page_part_page_hold_fires.
  - now apply key_part_page_hold_fires.
  - eapply deck_part_same; [apply deck_page_idle_fires|exact Hd].
  - now apply page_part_page_idle_fires.
  - eapply key_part_same; [apply keys_page_idle_fires|exact Hk].
  - eapply deck_part_same; [apply deck_key_hold_fires|exact Hd].
  - eapply page_part_same; [apply pages_key_hold_fires|exact Hp].
  - now apply key_part_key_hold_fires.
  - eapply deck_part_same; [apply deck_key_press_fires|exact Hd].
  - eapply page_part_same; [apply pages_key_press_fires|exact Hp].
  - now apply key_part_key_press_fires.
  - eapply deck_part_same; [apply deck_key_idle_fires|exact Hd].
  - eapply page_part_same; [apply pages_key_idle_fires|exact Hp].
  - now apply key_part_key_idle_fires.
Qed.

Lemma pressed_same fd fp fk w w' :
  deck w' = deck w -> pages w' = pages w -> keys w' = keys w ->
  pressed fd fp fk w -> pressed fd fp fk w'.
Proof.
  intros Ed Ep Ek (Hd & Hp & Hk). split; [|split].
  - now apply (deck_part_same fd w).
  - now apply (page_part_same fp w).
  - now apply (key_part_same fk w).
Qed.

End Slot.

(** *** No timer callback says [click] or [held] *)

Lemma quiet_refl w : grows_quietly w w.
Proof. exists []. now rewrite app_nil_r. Qed.

Lemma quiet_trans w1 w2 w3 :
  grows_quietly w1 w2 -> grows_quietly w2 w3 -> grows_quietly w1 w3.
Proof.
  intros (l1 & E1 & H1) (l2 & E2 & H2). exists (l1 ++ l2).
  rewrite E2, E1, app_assoc. split; [reflexivity|now apply Forall_app].
Qed.

Lemma quiet_same w w1 w2 :
  log w2 = log w1 -> grows_quietly w w1 -> grows_quietly w w2.
Proof. intros E (l & E1 & H). exists l. now rewrite E. Qed.

Lemma quiet_said w w1 w2 s ev j r key :
  ev <> click -> ev <> held ->
  log w2 = log w1 ++ [said s ev j r key] ->
  grows_quietly w w1 -> grows_quietly w w2.
Proof.
  intros H1 H2 E Hq. apply (quiet_trans w w1); [assumption|].
  exists [said s ev j r key]. split; [assumption|].
  constructor; [now split|constructor].
Qed.

Lemma quiet_key_emit_opt_hold w w1 key j r :
  grows_quietly w w1 -> grows_quietly w (key_emit_opt key hold j r w1).
Proof.
  intros H. destruct key as [q|]; [|assumption]. cbn [key_emit_opt].
  eapply quiet_said; [| |apply (Release.log_key_emit q hold)|exact H]; discriminate.
Qed.

Lemma quiet_page_emit_opt_hold w w1 page j key :
  grows_quietly w w1 -> grows_quietly w (page_emit_opt page hold j key w1).
Proof.
  intros H. destruct page as [q|]; [|assumption]. cbn [page_emit_opt].
  eapply quiet_said; [| |apply (Release.log_page_emit q hold)|exact H]; discriminate.
Qed.

Lemma quiet_propagate_hold w w1 j page key :
  grows_quietly w w1 -> grows_quietly w (propagate hold j page key w1).
Proof.
  intros H. unfold propagate. destruct (page_inherits page w1); [|assumption].
  cbv zeta. destruct (key_inherits key _).
  - now apply quiet_key_emit_opt_hold, quiet_page_emit_opt_hold.
  - now apply quiet_page_emit_opt_hold.
Qed.

Lemma quiet_fire w w1 a :
  grows_quietly w w1 -> grows_quietly w (fire a w1).
Proof.
  intros H. destruct a as [j pg ky| |q j ky|q|q j r|q j r|q]; cbn [fire].
  - unfold deck_hold_fires. cbv zeta. apply quiet_propagate_hold.
    eapply quiet_said; [| |apply Release.log_deck_emit|]; [discriminate..|].
    eapply quiet_same; [|exact H]. reflexivity.
  - unfold deck_idle_fires.
    eapply quiet_said; [| |apply Release.log_notify|]; [discriminate..|].
    eapply quiet_same; [|exact H]. reflexivity.
  - unfold page_hold_fires. cbv zeta.
    assert (grows_quietly w
              (page_emit q hold (Some j) (Some q) ky
                 (upd_page q
                    (fun P =>
                       Page.set_holdIndexes ({[j]} ∪ Page.holdIndexes P)
                         (Page.set_holdTimeoutIds
                            (delete j (Page.holdTimeoutIds P)) P)) w1))) as H1.
    { eapply quiet_said; [| |apply (Release.log_page_emit q hold)|]; [discriminate..|].
      eapply quiet_same; [apply log_upd_page|exact H]. }
    destruct (key_inherits ky _); [|exact H1].
    now apply quiet_key_emit_opt_hold.
  - unfold page_idle_fires.
    eapply quiet_said; [| |apply Release.log_notify|]; [discriminate..|].
    eapply quiet_same; [apply log_upd_page|exact H].
  - unfold key_hold_fires. cbv zeta.
    eapply quiet_said; [| |apply (Release.log_key_emit q hold)|]; [discriminate..|].
    eapply quiet_same; [apply log_upd_key|exact H].
  - eapply quiet_same; [apply log_key_press_fires|exact H].
  - unfold key_idle_fires.
    eapply quiet_said; [| |apply Release.log_notify|]; [discriminate..|].
    eapply quiet_same; [apply log_upd_key|exact H].
Qed.

(** *** The timers that come due *)

Lemma earliest_None (ts : list Timer) : earliest ts = None -> ts = [].
Proof.
  destruct ts as [|t ts]; [reflexivity|]. simpl.
  destruct (earliest ts) as [u|]; [|discriminate].
  destruct (t_deadline t <=? t_deadline u)%Z; discriminate.
Qed.

Lemma due_hold_none c limit (ts : list Timer) :
  due limit ts = [] -> due_hold c limit ts = false.
Proof.
  intros H. unfold due_hold. apply not_true_is_false. intros E.
  apply existsb_exists in E as (t & Hin & Ht).
  apply andb_true_iff in Ht as [_ Ht]. apply Z.leb_le in Ht.
  assert (t ∈ due limit ts) as Hd
    by (apply list_elem_of_filter; split; [assumption|now apply list_elem_of_In]).
  rewrite H in Hd. now apply not_elem_of_nil in Hd.
Qed.

Lemma filter_other_ids (ts : list Timer) (t : Timer) :
  t_id t ∉ t_id <$> ts -> filter (fun u => t_id u ≠ t_id t) ts = ts.
Proof.
  induction ts as [|u ts IH]; intros H; [reflexivity|].
  rewrite fmap_cons, not_elem_of_cons in H. destruct H as [H1 H2].
  rewrite filter_cons_True by congruence. now rewrite IH.
Qed.

(** The timer that runs leaves the list, alone. *)
Lemma due_hold_remove c limit (ts : list Timer) (t : Timer) :
  NoDup (t_id <$> ts) -> t ∈ ts -> (t_deadline t <= limit)%Z ->
  due_hold c limit ts
  = c (t_action t) || due_hold c limit (filter (fun u => t_id u ≠ t_id t) ts).
Proof.
  induction ts as [|u ts IH]; intros Hnd Hin Hdue.
  - now apply not_elem_of_nil in Hin.
  - rewrite fmap_cons in Hnd. apply NoDup_cons in Hnd as [Hu Hnd].
    apply elem_of_cons in Hin as [->|Hin].
    + rewrite filter_cons_False by (intros H; now apply H).
      rewrite filter_other_ids by assumption.
      unfold due_hold. cbn [existsb].
      apply Z.leb_le in Hdue. now rewrite Hdue, andb_true_r.
    + assert (t_id u ≠ t_id t) as Hne.
      { intros E. apply Hu. rewrite E. now apply list_elem_of_fmap_2. }
      rewrite filter_cons_True by assumption.
      unfold due_hold in *. cbn [existsb]. rewrite IH by assumption.
      rewrite !orb_assoc. f_equal. apply orb_comm.
Qed.

Lemma filter_ids_NoDup (ts : list Timer) (P : Timer -> Prop)
  `{forall t, Decision (P t)} :
  NoDup (t_id <$> ts) -> NoDup (t_id <$> filter P ts).
Proof.
  induction ts as [|u ts IH]; intros Hnd; [constructor|].
  rewrite fmap_cons in Hnd. apply NoDup_cons in Hnd as [Hu Hnd].
  destruct (decide (P u)).
  - rewrite filter_cons_True by assumption. rewrite fmap_cons.
    apply NoDup_cons. split; [|now apply IH].
    intros Hin. apply Hu. apply list_elem_of_fmap in Hin as (v & E & Hv).
    apply list_elem_of_filter in Hv as [_ Hv]. rewrite E.
    now apply list_elem_of_fmap_2.
  - rewrite filter_cons_False by assumption. now apply IH.
Qed.

Lemma filter_own_id_shorter (ts : list Timer) (t : Timer) :
  t ∈ ts -> (length (filter (fun u => t_id u ≠ t_id t) ts) < length ts)%nat.
Proof.
  induction ts as [|u ts IH]; intros Hin.
  - now apply not_elem_of_nil in Hin.
  - pose proof (length_filter (fun u => t_id u ≠ t_id t) ts) as Hle.
    apply elem_of_cons in Hin as [->|Hin].
    + rewrite filter_cons_False by (intros H; now apply H). simpl. lia.
    + specialize (IH Hin). destruct (decide (t_id u ≠ t_id t)).
      * rewrite filter_cons_True by assumption. simpl. lia.
      * rewrite filter_cons_False by assumption. simpl. lia.
Qed.

Section Elapse.

Variables (i : Z) (p : pid) (k : kid) (hp hk : option Z).

Local Abbreviation pressed := (Deck.pressed i p k hp hk).

(** Each scope has marked the press by the time the available turns are
    spent exactly if a hold timer of the scope came due. *)
Lemma pressed_run_due turns limit w0 : forall w fd fp fk,
  pressed fd fp fk w -> grows_quietly w0 w ->
  NoDup (t_id <$> timers w) -> (length (timers w) <= turns)%nat ->
  pressed (fd || due_hold (deck_hold_timer i) limit (timers w))
    (fp || due_hold (page_hold_timer p i) limit (timers w))
    (fk || due_hold (key_hold_timer k i p) limit (timers w))
    (run_due turns limit w)
  /\ grows_quietly w0 (run_due turns limit w).
Proof.
  induction turns as [|turns IH]; intros w fd fp fk Hp Hq Hnd Hlen.
  - destruct (timers w); [|simpl in Hlen; lia].
    cbn [run_due due_hold existsb]. rewrite !orb_false_r. auto.
  - cbn [run_due].
    destruct (earliest (due limit (timers w))) as [t|] eqn:E.
    + destruct (EventLoopFacts.next_timer_pending _ _ _ E) as [Hin Hdue].
      rewrite (due_hold_remove (deck_hold_timer i) limit _ t),
        (due_hold_remove (page_hold_timer p i) limit _ t),
        (due_hold_remove (key_hold_timer k i p) limit _ t) by assumption.
      rewrite !orb_assoc.
      assert (timers (run_timer t w)
              = filter (fun u => t_id u ≠ t_id t) (timers w)) as Et
        by (unfold run_timer; now rewrite timers_fire).
      rewrite <- Et. apply IH.
      * unfold run_timer. apply pressed_fire.
        eapply pressed_same; [| | |exact Hp]; reflexivity.
      * unfold run_timer. apply quiet_fire.
        eapply quiet_same; [|exact Hq]. reflexivity.
      * rewrite Et. now apply filter_ids_NoDup.
      * rewrite Et. pose proof (filter_own_id_shorter _ _ Hin). lia.
    + apply earliest_None in E.
      rewrite !due_hold_none, !orb_false_r by assumption. auto.
Qed.

End Elapse.

End Hold.

(** ** The clock and the hold timers through a press *)

Module Down.
Import Deck Frames.

Section Clock.

Variables (n0 : tid) (t0 : Z).

Local Abbreviation clock_ok := (Deck.clock_ok n0 t0).
Local Abbreviation armed := (Deck.armed n0).

Lemma clock_ok_same w w' :
  now w' = now w -> nextTimeoutId w' = nextTimeoutId w -> timers w' = timers w ->
  clock_ok w -> clock_ok w'.
Proof. unfold Deck.clock_ok. now intros -> -> ->. Qed.

Lemma clock_ok_clearTimeout id w : clock_ok w -> clock_ok (clearTimeout id w).
Proof.
  intros (Hn & Hb & Hnd & Hlt). unfold Deck.clock_ok. fields.
  repeat split; [assumption..| |].
  - now apply Hold.filter_ids_NoDup.
  - intros t Ht. apply list_elem_of_filter in Ht as [_ Ht]. now apply Hlt.
Qed.

Lemma clock_ok_clearTimeout_opt id w :
  clock_ok w -> clock_ok (clearTimeout_opt id w).
Proof. destruct id; [apply clock_ok_clearTimeout|trivial]. Qed.

Lemma clock_ok_setTimeout a d w :
  clock_ok w -> clock_ok (fst (setTimeout a d w)).
Proof.
  intros (Hn & Hb & Hnd & Hlt). unfold Deck.clock_ok. fields.
  repeat split; [assumption|lia| |].
  - rewrite fmap_app. apply NoDup_app. split; [assumption|]. split.
    + intros x Hx Hx'. apply list_elem_of_fmap in Hx as (t & -> & Ht).
      apply Hlt in Ht. cbn in Hx'. apply list_elem_of_singleton in Hx'. lia.
    + apply NoDup_singleton.
  - intros t Ht. apply elem_of_app in Ht as [Ht|Ht].
    + apply Hlt in Ht. lia.
    + apply list_elem_of_singleton in Ht. subst t. cbn. lia.
Qed.

Lemma armed_same c o w w' : timers w' = timers w -> armed c o w -> armed c o w'.
Proof. unfold Deck.armed. now intros ->. Qed.

Lemma armed_clearTimeout c o id w :
  armed c o w -> (is_Some o -> (id < n0)%nat) -> armed c o (clearTimeout id w).
Proof.
  intros [Hall Hex] Hid. unfold Deck.armed. fields. split.
  - intros t Ht. apply list_elem_of_filter in Ht as [_ Ht]. now apply Hall.
  - intros Ho. destruct (Hex Ho) as (t & Ht & Hc). exists t. split; [|assumption].
    apply list_elem_of_filter. split; [|assumption].
    destruct (Hall t Ht Hc) as [Hge _]. specialize (Hid Ho). lia.
Qed.

Lemma armed_clearTimeout_opt c o id w :
  armed c o w -> (forall x, id = Some x -> is_Some o -> (x < n0)%nat) ->
  armed c o (clearTimeout_opt id w).
Proof. destruct id; [intros; apply armed_clearTimeout; eauto|trivial]. Qed.

Lemma armed_setTimeout_other c o a d w :
  c a = false -> armed c o w -> armed c o (fst (setTimeout a d w)).
Proof.
  intros Hc [Hall Hex]. unfold Deck.armed. fields. split.
  - intros t Ht Hct. apply elem_of_app in Ht as [Ht|Ht]; [now apply Hall|].
    apply list_elem_of_singleton in Ht. subst t. cbn in Hct. congruence.
  - intros Ho. destruct (Hex Ho) as (t & Ht & Hct). exists t.
    split; [|assumption]. apply elem_of_app. now left.
Qed.

Lemma armed_setTimeout_own c a d w :
  c a = true -> clock_ok w -> armed c None w ->
  armed c (Some (t0 + timeout_after d)%Z) (fst (setTimeout a d w)).
Proof.
  intros Hc (Hn & Hb & _) [Hall _]. unfold Deck.armed. fields. split.
  - intros t Ht Hct. apply elem_of_app in Ht as [Ht|Ht].
    + destruct (Hall t Ht Hct) as [_ ?]. discriminate.
    + apply list_elem_of_singleton in Ht. subst t. cbn. rewrite Hn. auto.
  - intros _. eexists. split; [apply elem_of_app; right; apply list_elem_of_singleton; reflexivity|].
    exact Hc.
Qed.

(** What the armed timers mean for the turn of the event loop. *)
Lemma armed_due_hold c o limit w :
  armed c o w ->
  due_hold c limit (timers w)
  = match o with Some d => (d <=? limit)%Z | None => false end.
Proof.
  intros [Hall Hex]. unfold due_hold. apply eq_true_iff_eq.
  rewrite existsb_exists. split.
  - intros (t & Ht & E). apply andb_true_iff in E as [Hc Hd].
    apply list_elem_of_In in Ht. destruct (Hall t Ht Hc) as [_ ->]. exact Hd.
  - destruct o as [d|]; [|discriminate]. intros Hd.
    destruct (Hex (ltac:(eauto))) as (t & Ht & Hc). exists t.
    split; [now apply list_elem_of_In|].
    destruct (Hall t Ht Hc) as [_ [= ->]]. now rewrite Hc.
Qed.


(** *** Steps that leave the clock alone *)

Lemma clockwise_clock_ok : clockwise clock_ok.
Proof. intros w w' E1 E2 E3. now apply clock_ok_same. Qed.

Lemma clockwise_armed c o : clockwise (armed c o).
Proof. intros w w' _ _ E3. now apply armed_same. Qed.

Section Clockwise.

Variable Q : World -> Prop.
Hypothesis HQ : clockwise Q.

Lemma cw_upd_key q f w : Q w -> Q (upd_key q f w).
Proof. apply HQ; [apply now_upd_key|apply nextTimeoutId_upd_key|apply timers_upd_key]. Qed.

Lemma cw_upd_page q f w : Q w -> Q (upd_page q f w).
Proof. apply HQ; [apply now_upd_page|apply nextTimeoutId_upd_page|apply timers_upd_page]. Qed.

Lemma cw_upd_deck f w : Q w -> Q (upd_deck f w).
Proof. apply HQ; reflexivity. Qed.

Lemma cw_notify s ev j r key w : Q w -> Q (notify s ev j r key w).
Proof. apply HQ; reflexivity. Qed.

Lemma cw_key_draw q w : Q w -> Q (key_draw q w).
Proof. apply HQ; [apply now_key_draw|apply nextTimeoutId_key_draw|apply timers_key_draw]. Qed.

End Clockwise.

(** *** The clock through the listeners of [down] and [activity] *)

Lemma clock_ok_key_clear_timers q pair w :
  clock_ok w -> clock_ok (key_clear_timers q pair w).
Proof.
  intros H. unfold key_clear_timers. destruct (keys w !! q); [|assumption].
  cbv zeta. apply cw_upd_key; [apply clockwise_clock_ok|].
  now apply clock_ok_clearTimeout_opt, clock_ok_clearTimeout_opt.
Qed.

Lemma clock_ok_arm a d store w :
  (forall id w', clock_ok w' -> clock_ok (store id w')) ->
  clock_ok w -> clock_ok (arm a d store w).
Proof. intros Hs H. unfold arm. now apply Hs, clock_ok_setTimeout. Qed.

Lemma clock_ok_key_on_down q j r w :
  clock_ok w -> clock_ok (key_on_down q j r w).
Proof.
  intros H. unfold key_on_down. destruct (keys w !! q) as [K|]; [|assumption].
  destruct (Key.destroyed K); [assumption|]. cbv zeta.
  apply cw_key_draw; [apply clockwise_clock_ok|].
  assert (clock_ok (upd_key q (key_press [JNum j; JPage r])
                      (key_clear_timers q [JNum j; JPage r] w))) as H1.
  { apply cw_upd_key; [apply clockwise_clock_ok|].
    now apply clock_ok_key_clear_timers. }
  set (w1 := upd_key q _ _) in *. clearbody w1.
  assert (clock_ok
            match Key.HOLD_TIME K with
            | Some h =>
                if (0 <? h)%Z
                then arm (KeyHold q j r) h
                       (fun id =>
                          upd_key q
                            (fun K =>
                               Key.set_holdTimeoutIds
                                 (ArrayKeyedMap.set (Key.holdTimeoutIds K)
                                    [JNum j; JPage r] id) K)) w1
                else w1
            | None => w1
            end) as H2.
  { destruct (Key.HOLD_TIME K) as [h|]; [|assumption].
    destruct (0 <? h)%Z; [|assumption].
    apply clock_ok_arm; [|assumption].
    intros id w'. apply cw_upd_key, clockwise_clock_ok. }
  destruct (0 <? Key.PRESS_TIME K)%Z; [|assumption].
  apply clock_ok_arm; [|assumption].
  intros id w'. apply cw_upd_key, clockwise_clock_ok.
Qed.

Lemma clock_ok_key_on_activity q w :
  clock_ok w -> clock_ok (key_on_activity q w).
Proof.
  intros H. unfold key_on_activity. destruct (keys w !! q) as [K|]; [|assumption].
  destruct (Key.destroyed K); [assumption|]. cbv zeta.
  assert (clock_ok (upd_key q (Key.set_idleTimeoutId None)
                      (clearTimeout_opt (Key.idleTimeoutId K) w))) as H1.
  { apply cw_upd_key; [apply clockwise_clock_ok|].
    now apply clock_ok_clearTimeout_opt. }
  destruct (_ || _); [assumption|].
  apply clock_ok_arm; [|assumption].
  intros id w'. apply cw_upd_key, clockwise_clock_ok.
Qed.

Lemma clock_ok_page_on_down q j w :
  clock_ok w -> clock_ok (page_on_down q j w).
Proof.
  intros H. unfold page_on_down. destruct (pages w !! q) as [P|]; [|assumption].
  destruct (Page.destroyed P); [assumption|]. cbv zeta.
  assert (clock_ok
            (upd_page q
               (fun P0 =>
                  Page.set_holdIndexes (Page.holdIndexes P0 ∖ {[j]})
                    (Page.set_downIndexes ({[j]} ∪ Page.downIndexes P0)
                       (Page.set_holdTimeoutIds
                          (delete j (Page.holdTimeoutIds P0)) P0)))
               (clearTimeout_opt (Page.holdTimeoutIds P !! j) w))) as H1.
  { apply cw_upd_page; [apply clockwise_clock_ok|].
    now apply clock_ok_clearTimeout_opt. }
  destruct (Page.HOLD_TIME P) as [h|]; [|assumption].
  destruct (h <=? 0)%Z; [assumption|].
  apply clock_ok_arm; [|assumption].
  intros id w'. apply cw_upd_page, clockwise_clock_ok.
Qed.

Lemma clock_ok_page_on_activity q w :
  clock_ok w -> clock_ok (page_on_activity q w).
Proof.
  intros H. unfold page_on_activity. destruct (pages w !! q) as [P|]; [|assumption].
  destruct (Page.destroyed P); [assumption|]. cbv zeta.
  assert (clock_ok (upd_page q (Page.set_idleTimeoutId None)
                      (clearTimeout_opt (Page.idleTimeoutId P) w))) as H1.
  { apply cw_upd_page; [apply clockwise_clock_ok|].
    now apply clock_ok_clearTimeout_opt. }
  destruct (_ || _); [assumption|].
  apply clock_ok_arm; [|assumption].
  intros id w'. apply cw_upd_page, clockwise_clock_ok.
Qed.

Lemma clock_ok_deck_on_activity w :
  clock_ok w -> clock_ok (deck_on_activity w).
Proof.
  intros H. unfold deck_on_activity. cbv zeta.
  destruct (StreamDeck.destroyed (deck w)); [assumption|].
  assert (clock_ok (upd_deck (StreamDeck.set_idleTimeoutId None)
                      (clearTimeout_opt (StreamDeck.idleTimeoutId (deck w)) w)))
    as H1.
  { apply cw_upd_deck; [apply clockwise_clock_ok|].
    now apply clock_ok_clearTimeout_opt. }
  destruct (_ || _); [assumption|].
  apply clock_ok_arm; [|assumption].
  intros id w'. apply cw_upd_deck, clockwise_clock_ok.
Qed.


(** *** The hold timers through the listeners of [down] and [activity] *)

Lemma armed_arm_other c o a d store w :
  c a = false ->
  (forall id w', armed c o w' -> armed c o (store id w')) ->
  armed c o w -> armed c o (arm a d store w).
Proof. intros Hc Hs H. unfold arm. now apply Hs, armed_setTimeout_other. Qed.

Lemma armed_arm_own c a d store w :
  c a = true ->
  (forall o id w', armed c o w' -> armed c o (store id w')) ->
  clock_ok w -> armed c None w ->
  armed c (Some (t0 + timeout_after d)%Z) (arm a d store w).
Proof. intros Hc Hs Hk H. unfold arm. now apply Hs, armed_setTimeout_own. Qed.

Lemma armed_key_clear_timers c o q pair w :
  armed c o w ->
  (is_Some o -> forall K x, keys w !! q = Some K ->
     ArrayKeyedMap.get (Key.holdTimeoutIds K) pair = Some x
     \/ ArrayKeyedMap.get (Key.pressTimeoutIds K) pair = Some x ->
     (x < n0)%nat) ->
  armed c o (key_clear_timers q pair w).
Proof.
  intros H Hcold. unfold key_clear_timers.
  destruct (keys w !! q) as [K|]; [|assumption]. cbv zeta.
  apply cw_upd_key; [apply clockwise_armed|].
  apply armed_clearTimeout_opt; [apply armed_clearTimeout_opt|]; eauto.
Qed.

Lemma armed_key_on_down c o o' q j r w K :
  keys w !! q = Some K -> Key.destroyed K = false ->
  c (KeyPress q j r) = false ->
  (c (KeyHold q j r) = false /\ o' = o)
  \/ (c (KeyHold q j r) = true /\ o = None
      /\ o' = hold_deadline t0 (Key.HOLD_TIME K)) ->
  clock_ok w -> armed c o w ->
  (is_Some o -> forall x,
     ArrayKeyedMap.get (Key.holdTimeoutIds K) [JNum j; JPage r] = Some x
     \/ ArrayKeyedMap.get (Key.pressTimeoutIds K) [JNum j; JPage r] = Some x ->
     (x < n0)%nat) ->
  armed c o' (key_on_down q j r w).
Proof.
  intros HK Hd Hpress Hhold Hck H Hcold. unfold key_on_down.
  rewrite HK, Hd. cbv zeta.
  apply cw_key_draw; [apply clockwise_armed|].
  assert (armed c o (upd_key q (key_press [JNum j; JPage r])
                       (key_clear_timers q [JNum j; JPage r] w))
          /\ clock_ok (upd_key q (key_press [JNum j; JPage r])
                         (key_clear_timers q [JNum j; JPage r] w)))
    as [H1 Hck1].
  { split.
    - apply cw_upd_key; [apply clockwise_armed|].
      apply armed_key_clear_timers; [assumption|].
      intros Ho K' x HK'. rewrite HK in HK'. injection HK' as <-. now apply Hcold.
    - apply cw_upd_key; [apply clockwise_clock_ok|].
      now apply clock_ok_key_clear_timers. }
  set (w1 := upd_key q _ _) in *. clearbody w1.
  assert (armed c o'
            match Key.HOLD_TIME K with
            | Some h =>
                if (0 <? h)%Z
                then arm (KeyHold q j r) h
                       (fun id =>
                          upd_key q
                            (fun K =>
                               Key.set_holdTimeoutIds
                                 (ArrayKeyedMap.set (Key.holdTimeoutIds K)
                                    [JNum j; JPage r] id) K)) w1
                else w1
            | None => w1
            end) as H2.
  { destruct Hhold as [[Hc ->]|(Hc & -> & ->)].
    - destruct (Key.HOLD_TIME K) as [h|]; [|assumption].
      destruct (0 <? h)%Z; [|assumption].
      apply armed_arm_other; [assumption| |assumption].
      intros id w'. apply cw_upd_key, clockwise_armed.
    - unfold hold_deadline. destruct (Key.HOLD_TIME K) as [h|]; [|assumption].
      destruct (0 <? h)%Z; [|assumption].
      apply armed_arm_own; [assumption| |assumption|assumption].
      intros o id w'. apply cw_upd_key, clockwise_armed. }
  destruct (0 <? Key.PRESS_TIME K)%Z; [|assumption].
  apply armed_arm_other; [assumption| |assumption].
  intros id w'. apply cw_upd_key, clockwise_armed.
Qed.

Lemma armed_page_on_down c o' q j w P :
  pages w !! q = Some P -> Page.destroyed P = false ->
  (c (PageHold q j (JsMap.get (Page.keys P) j)) = false /\ o' = None)
  \/ (c (PageHold q j (JsMap.get (Page.keys P) j)) = true
      /\ o' = hold_deadline t0 (Page.HOLD_TIME P)) ->
  clock_ok w -> armed c None w ->
  armed c o' (page_on_down q j w).
Proof.
  intros HP Hd Hhold Hck H. unfold page_on_down. rewrite HP, Hd. cbv zeta.
  assert (armed c None
            (upd_page q
               (fun P0 =>
                  Page.set_holdIndexes (Page.holdIndexes P0 ∖ {[j]})
                    (Page.set_downIndexes ({[j]} ∪ Page.downIndexes P0)
                       (Page.set_holdTimeoutIds
                          (delete j (Page.holdTimeoutIds P0)) P0)))
               (clearTimeout_opt (Page.holdTimeoutIds P !! j) w))
          /\ clock_ok
               (upd_page q
                  (fun P0 =>
                     Page.set_holdIndexes (Page.holdIndexes P0 ∖ {[j]})
                       (Page.set_downIndexes ({[j]} ∪ Page.downIndexes P0)
                          (Page.set_holdTimeoutIds
                             (delete j (Page.holdTimeoutIds P0)) P0)))
                  (clearTimeout_opt (Page.holdTimeoutIds P !! j) w)))
    as [H1 Hck1].
  { split.
    - apply cw_upd_page; [apply clockwise_armed|].
      apply armed_clearTimeout_opt; [assumption|]. intros x _ [? [=]].
    - apply cw_upd_page; [apply clockwise_clock_ok|].
      now apply clock_ok_clearTimeout_opt. }
  set (w1 := upd_page q _ _) in *. clearbody w1.
  destruct Hhold as [[Hc ->]|(Hc & ->)].
  - destruct (Page.HOLD_TIME P) as [h|]; [|assumption].
    destruct (h <=? 0)%Z; [assumption|].
    apply armed_arm_other; [assumption| |assumption].
    intros id w'. apply cw_upd_page, clockwise_armed.
  - unfold hold_deadline. destruct (Page.HOLD_TIME P) as [h|]; [|assumption].
    rewrite Z.leb_antisym. destruct (0 <? h)%Z; [|assumption]. cbn [negb].
    apply armed_arm_own; [assumption| |assumption|assumption].
    intros o id w'. apply cw_upd_page, clockwise_armed.
Qed.

Lemma armed_key_on_activity c o q w :
  c (KeyIdle q) = false -> armed c o w ->
  (forall K x, keys w !! q = Some K -> Key.idleTimeoutId K = Some x ->
     (x < n0)%nat) ->
  armed c o (key_on_activity q w).
Proof.
  intros Hc H Hcold. unfold key_on_activity.
  destruct (keys w !! q) as [K|]; [|assumption].
  destruct (Key.destroyed K); [assumption|]. cbv zeta.
  assert (armed c o (upd_key q (Key.set_idleTimeoutId None)
                       (clearTimeout_opt (Key.idleTimeoutId K) w))) as H1.
  { apply cw_upd_key; [apply clockwise_armed|].
    apply armed_clearTimeout_opt; eauto. }
  destruct (_ || _); [assumption|].
  apply armed_arm_other; [assumption| |assumption].
  intros id w'. apply cw_upd_key, clockwise_armed.
Qed.

Lemma armed_page_on_activity c o q w :
  c (PageIdle q) = false -> armed c o w ->
  (forall P x, pages w !! q = Some P -> Page.idleTimeoutId P = Some x ->
     (x < n0)%nat) ->
  armed c o (page_on_activity q w).
Proof.
  intros Hc H Hcold. unfold page_on_activity.
  destruct (pages w !! q) as [P|]; [|assumption].
  destruct (Page.destroyed P); [assumption|]. cbv zeta.
  assert (armed c o (upd_page q (Page.set_idleTimeoutId None)
                       (clearTimeout_opt (Page.idleTimeoutId P) w))) as H1.
  { apply cw_upd_page; [apply clockwise_armed|].
    apply armed_clearTimeout_opt; eauto. }
  destruct (_ || _); [assumption|].
  apply armed_arm_other; [assumption| |assumption].
  intros id w'. apply cw_upd_page, clockwise_armed.
Qed.

Lemma armed_deck_on_activity c o w :
  c DeckIdle = false -> armed c o w ->
  (forall x, StreamDeck.idleTimeoutId (deck w) = Some x -> (x < n0)%nat) ->
  armed c o (deck_on_activity w).
Proof.
  intros Hc H Hcold. unfold deck_on_activity. cbv zeta.
  destruct (StreamDeck.destroyed (deck w)); [assumption|].
  assert (armed c o (upd_deck (StreamDeck.set_idleTimeoutId None)
                       (clearTimeout_opt (StreamDeck.idleTimeoutId (deck w)) w)))
    as H1.
  { apply cw_upd_deck; [apply clockwise_armed|].
    apply armed_clearTimeout_opt; eauto. }
  destruct (_ || _); [assumption|].
  apply armed_arm_other; [assumption| |assumption].
  intros id w'. apply cw_upd_deck, clockwise_armed.
Qed.

End Clock.
(** *** What the listeners of [down] and [activity] keep of an object *)

Lemma kept_upd_key {A} (g : Key.t -> A) q f k' w :
  (forall K, g (f K) = g K) ->
  g <$> keys (upd_key q f w) !! k' = g <$> keys w !! k'.
Proof.
  intros Hf. unfold upd_key. destruct (keys w !! q) as [K|] eqn:E; [|reflexivity].
  fields. destruct (decide (q = k')) as [->|Hne].
  - now rewrite lookup_insert_eq, E; cbn; rewrite Hf.
  - now rewrite lookup_insert_ne.
Qed.

Lemma kept_upd_page {A} (g : Page.t -> A) q f p' w :
  (forall P, g (f P) = g P) ->
  g <$> pages (upd_page q f w) !! p' = g <$> pages w !! p'.
Proof.
  intros Hf. unfold upd_page. destruct (pages w !! q) as [P|] eqn:E; [|reflexivity].
  fields. destruct (decide (q = p')) as [->|Hne].
  - now rewrite lookup_insert_eq, E; cbn; rewrite Hf.
  - now rewrite lookup_insert_ne.
Qed.

Lemma idle_handle_key_clear_timers q pair k' w :
  Key.idleTimeoutId <$> keys (key_clear_timers q pair w) !! k'
  = Key.idleTimeoutId <$> keys w !! k'.
Proof.
  unfold key_clear_timers. destruct (keys w !! q); [|reflexivity]. cbv zeta.
  rewrite kept_upd_key by reflexivity. now framed.
Qed.

Lemma idle_handle_key_on_down q j r k' w :
  Key.idleTimeoutId <$> keys (key_on_down q j r w) !! k'
  = Key.idleTimeoutId <$> keys w !! k'.
Proof.
  unfold key_on_down. destruct (keys w !! q) as [K|]; [|reflexivity].
  destruct (Key.destroyed K); [reflexivity|]. cbv zeta.
  rewrite keys_key_draw.
  assert (forall a d w',
            Key.idleTimeoutId <$>
              keys (arm a d
                      (fun id =>
                         upd_key q
                           (fun K =>
                              Key.set_pressTimeoutIds
                                (ArrayKeyedMap.set (Key.pressTimeoutIds K)
                                   [JNum j; JPage r] id) K)) w') !! k'
            = Key.idleTimeoutId <$> keys w' !! k') as Hpress
    by (intros; unfold arm; now rewrite kept_upd_key by reflexivity).
  assert (forall a d w',
            Key.idleTimeoutId <$>
              keys (arm a d
                      (fun id =>
                         upd_key q
                           (fun K =>
                              Key.set_holdTimeoutIds
                                (ArrayKeyedMap.set (Key.holdTimeoutIds K)
                                   [JNum j; JPage r] id) K)) w') !! k'
            = Key.idleTimeoutId <$> keys w' !! k') as Hhold
    by (intros; unfold arm; now rewrite kept_upd_key by reflexivity).
  destruct (0 <? Key.PRESS_TIME K)%Z; rewrite ?Hpress;
    destruct (Key.HOLD_TIME K) as [h|]; try destruct (0 <? h)%Z;
    rewrite ?Hhold, kept_upd_key by reflexivity;
    apply idle_handle_key_clear_timers.
Qed.

Lemma idle_handle_page_on_down q j p' w :
  Page.idleTimeoutId <$> pages (page_on_down q j w) !! p'
  = Page.idleTimeoutId <$> pages w !! p'.
Proof.
  unfold page_on_down. destruct (pages w !! q) as [P|]; [|reflexivity].
  destruct (Page.destroyed P); [reflexivity|]. cbv zeta.
  destruct (Page.HOLD_TIME P) as [h|]; try destruct (h <=? 0)%Z;
    unfold arm;
    repeat first [rewrite kept_upd_page by reflexivity | progress framed];
    reflexivity.
Qed.

Section Slot.

Variables (i : Z) (p : pid) (k : kid) (hp hk : option Z).

Local Abbreviation page_part := (Deck.page_part i p k hp).
Local Abbreviation key_part := (Deck.key_part i p k hk).

Lemma page_part_kept fp q f w :
  (forall P, Page.destroyed (f P) = Page.destroyed P) ->
  (forall P, Page.HOLD_TIME (f P) = Page.HOLD_TIME P) ->
  (forall P, Page.keys (f P) = Page.keys P) ->
  (forall P, Page.holdIndexes (f P) = Page.holdIndexes P) ->
  page_part fp w -> page_part fp (upd_page q f w).
Proof.
  intros H1 H2 H3 H4 H. apply (Hold.page_part_upd_page i p k hp fp);
    [assumption| |reflexivity].
  intros _ P (Hd & Hh & Hk & Hf). unfold page_ok. now rewrite H1, H2, H3, H4.
Qed.

Lemma key_part_kept fk q f w :
  (forall K, Key.destroyed (f K) = Key.destroyed K) ->
  (forall K, Key.HOLD_TIME (f K) = Key.HOLD_TIME K) ->
  (forall K, Key.holdStates (f K) = Key.holdStates K) ->
  key_part fk w -> key_part fk (upd_key q f w).
Proof.
  intros H1 H2 H3 H. apply (Hold.key_part_upd_key i p k hk fk);
    [assumption| |reflexivity].
  intros _ K (Hd & Hh & Hnd & Hf). unfold key_ok. now rewrite H1, H2, H3.
Qed.

Lemma page_part_page_on_activity fp q w :
  page_part fp w -> page_part fp (page_on_activity q w).
Proof.
  intros H. unfold page_on_activity. destruct (pages w !! q) as [P|]; [|assumption].
  destruct (Page.destroyed P); [assumption|]. cbv zeta.
  assert (page_part fp (upd_page q (Page.set_idleTimeoutId None)
                          (clearTimeout_opt (Page.idleTimeoutId P) w))) as H1.
  { apply page_part_kept; try reflexivity.
    eapply Hold.page_part_same; [apply pages_clearTimeout_opt|exact H]. }
  destruct (_ || _); [assumption|].
  unfold arm. apply page_part_kept; try reflexivity.
  eapply Hold.page_part_same; [|exact H1]. reflexivity.
Qed.

Lemma key_part_key_on_activity fk q w :
  key_part fk w -> key_part fk (key_on_activity q w).
Proof.
  intros H. unfold key_on_activity. destruct (keys w !! q) as [K|]; [|assumption].
  destruct (Key.destroyed K); [assumption|]. cbv zeta.
  assert (key_part fk (upd_key q (Key.set_idleTimeoutId None)
                         (clearTimeout_opt (Key.idleTimeoutId K) w))) as H1.
  { apply key_part_kept; try reflexivity.
    eapply Hold.key_part_same; [apply keys_clearTimeout_opt|exact H]. }
  destruct (_ || _); [assumption|].
  unfold arm. apply key_part_kept; try reflexivity.
  eapply Hold.key_part_same; [|exact H1]. reflexivity.
Qed.

(** The [down] listeners clear the mark of the slot. *)
Lemma page_part_page_on_down fp w :
  page_part fp w -> page_part false (page_on_down p i w).
Proof.
  intros H. pose proof H as (P & HP & Hd & Hh & Hk & Hf).
  unfold page_on_down. rewrite HP, Hd. cbv zeta.
  assert (page_part false
            (upd_page p
               (fun P0 =>
                  Page.set_holdIndexes (Page.holdIndexes P0 ∖ {[i]})
                    (Page.set_downIndexes ({[i]} ∪ Page.downIndexes P0)
                       (Page.set_holdTimeoutIds
                          (delete i (Page.holdTimeoutIds P0)) P0)))
               (clearTimeout_opt (Page.holdTimeoutIds P !! i) w))) as H1.
  { apply (Hold.page_part_upd_page i p k hp fp).
    - eapply Hold.page_part_same; [apply pages_clearTimeout_opt|exact H].
    - intros _ P0 (Hd0 & Hh0 & Hk0 & _). repeat split; [assumption..|].
      intros _. apply Hold.unmark_same.
    - intros Hne. now contradiction Hne. }
  destruct (Page.HOLD_TIME P) as [h|]; [|assumption].
  destruct (h <=? 0)%Z; [assumption|].
  unfold arm. apply page_part_kept; try reflexivity.
  eapply Hold.page_part_same; [|exact H1]. reflexivity.
Qed.

Lemma key_part_key_clear_timers fk q pair w :
  key_part fk w -> key_part fk (key_clear_timers q pair w).
Proof.
  intros H. unfold key_clear_timers. destruct (keys w !! q) as [K|]; [|assumption].
  cbv zeta. apply key_part_kept; try reflexivity.
  eapply Hold.key_part_same; [|exact H]. now framed.
Qed.

Lemma key_part_key_on_down fk w :
  key_part fk w -> key_part false (key_on_down k i p w).
Proof.
  intros H. pose proof H as (K & HK & Hd & Hh & Hnd & Hf).
  unfold key_on_down. rewrite HK, Hd. cbv zeta.
  eapply Hold.key_part_same; [apply keys_key_draw|].
  assert (key_part false
            (upd_key k (key_press [JNum i; JPage p])
               (key_clear_timers k [JNum i; JPage p] w))) as H1.
  { apply (Hold.key_part_upd_key i p k hk fk).
    - now apply key_part_key_clear_timers.
    - intros _ K0 (Hd0 & Hh0 & Hnd0 & _).
      repeat split; [assumption..| |].
      + now apply WildArrayValuedSetFacts.delete_NoDup.
      + intros _. now apply Hold.has_delete_same.
    - intros Hne. now contradiction Hne. }
  set (w1 := upd_key k _ _) in *. clearbody w1.
  assert (key_part false
            match Key.HOLD_TIME K with
            | Some h =>
                if (0 <? h)%Z
                then arm (KeyHold k i p) h
                       (fun id =>
                          upd_key k
                            (fun K =>
                               Key.set_holdTimeoutIds
                                 (ArrayKeyedMap.set (Key.holdTimeoutIds K)
                                    [JNum i; JPage p] id) K)) w1
                else w1
            | None => w1
            end) as H2.
  { destruct (Key.HOLD_TIME K) as [h|]; [|assumption].
    destruct (0 <? h)%Z; [|assumption].
    unfold arm. apply key_part_kept; try reflexivity.
    eapply Hold.key_part_same; [|exact H1]. reflexivity. }
  destruct (0 <? Key.PRESS_TIME K)%Z; [|assumption].
  unfold arm. apply key_part_kept; try reflexivity.
  eapply Hold.key_part_same; [|exact H2]. reflexivity.
Qed.

End Slot.

(** *** The press of a button *)

Section Press.

Variables (i : Z) (p : pid) (k : kid) (n0 : tid) (t0 : Z).

Local Abbreviation T := (Deck.slot_timers n0 t0 i p k).

Ltac split4 := split; [|split; [|split]].

Lemma T_clockwise oD oP oK : clockwise (T oD oP oK).
Proof.
  intros w w' E1 E2 E3 (H0 & H1 & H2 & H3). split4.
  - now apply (clock_ok_same n0 t0 w).
  - now apply (armed_same n0 _ _ w).
  - now apply (armed_same n0 _ _ w).
  - now apply (armed_same n0 _ _ w).
Qed.

Lemma T_page_on_down w P :
  pages w !! p = Some P -> Page.destroyed P = false ->
  T None None None w ->
  T None (hold_deadline t0 (Page.HOLD_TIME P)) None (page_on_down p i w).
Proof.
  intros HP Hd (H0 & H1 & H2 & H3). split4.
  - now apply clock_ok_page_on_down.
  - apply (armed_page_on_down n0 t0 _ _ _ _ _ P); auto.
  - apply (armed_page_on_down n0 t0 _ _ _ _ _ P); auto.
    right. split; [|reflexivity]. cbn. apply bool_decide_eq_true. auto.
  - apply (armed_page_on_down n0 t0 _ _ _ _ _ P); auto.
Qed.

Lemma T_key_on_down oP w K :
  keys w !! k = Some K -> Key.destroyed K = false ->
  (forall x,
     ArrayKeyedMap.get (Key.holdTimeoutIds K) [JNum i; JPage p] = Some x
     \/ ArrayKeyedMap.get (Key.pressTimeoutIds K) [JNum i; JPage p] = Some x ->
     (x < n0)%nat) ->
  T None oP None w ->
  T None oP (hold_deadline t0 (Key.HOLD_TIME K)) (key_on_down k i p w).
Proof.
  intros HK Hd Hcold (H0 & H1 & H2 & H3). split4.
  - now apply clock_ok_key_on_down.
  - apply (armed_key_on_down n0 t0 _ None _ _ _ _ _ K); auto.
  - apply (armed_key_on_down n0 t0 _ oP _ _ _ _ _ K); auto.
  - apply (armed_key_on_down n0 t0 _ None _ _ _ _ _ K); auto.
    right. repeat split. cbn. apply bool_decide_eq_true. auto.
Qed.

Lemma T_deck_arm oP oK hD page key w :
  T None oP oK w ->
  T (hold_deadline t0 (Some hD)) oP oK
    (if (0 <? hD)%Z
     then arm (DeckHold i page key) hD
            (fun id =>
               upd_deck
                 (fun D =>
                    StreamDeck.set_holdTimeoutIds
                      (<[i := id]> (StreamDeck.holdTimeoutIds D)) D))
            w
     else w).
Proof.
  intros (H0 & H1 & H2 & H3). cbn [hold_deadline].
  destruct (0 <? hD)%Z; [|split4; assumption].
  split4.
  - apply clock_ok_arm; [|assumption].
    intros id w'. apply cw_upd_deck, clockwise_clock_ok.
  - apply armed_arm_own; [| |assumption..].
    + cbn. now apply bool_decide_eq_true.
    + intros o id w'. apply cw_upd_deck, clockwise_armed.
  - apply armed_arm_other; [reflexivity| |assumption].
    intros id w'. apply cw_upd_deck, clockwise_armed.
  - apply armed_arm_other; [reflexivity| |assumption].
    intros id w'. apply cw_upd_deck, clockwise_armed.
Qed.

Lemma T_deck_on_activity oD oP oK w :
  (forall x, StreamDeck.idleTimeoutId (deck w) = Some x -> (x < n0)%nat) ->
  T oD oP oK w -> T oD oP oK (deck_on_activity w).
Proof.
  intros Hcold (H0 & H1 & H2 & H3). split4.
  - now apply clock_ok_deck_on_activity.
  - now apply armed_deck_on_activity.
  - now apply armed_deck_on_activity.
  - now apply armed_deck_on_activity.
Qed.

Lemma T_page_on_activity oD oP oK q w :
  (forall x, Page.idleTimeoutId <$> pages w !! q = Some (Some x) -> (x < n0)%nat) ->
  T oD oP oK w -> T oD oP oK (page_on_activity q w).
Proof.
  intros Hcold (H0 & H1 & H2 & H3).
  assert (forall P x, pages w !! q = Some P -> Page.idleTimeoutId P = Some x ->
            (x < n0)%nat) as Hc.
  { intros P x HP Hx. apply Hcold. now rewrite HP; cbn; rewrite Hx. }
  split4.
  - now apply clock_ok_page_on_activity.
  - now apply armed_page_on_activity.
  - now apply armed_page_on_activity.
  - now apply armed_page_on_activity.
Qed.

Lemma T_key_on_activity oD oP oK q w :
  (forall x, Key.idleTimeoutId <$> keys w !! q = Some (Some x) -> (x < n0)%nat) ->
  T oD oP oK w -> T oD oP oK (key_on_activity q w).
Proof.
  intros Hcold (H0 & H1 & H2 & H3).
  assert (forall K x, keys w !! q = Some K -> Key.idleTimeoutId K = Some x ->
            (x < n0)%nat) as Hc.
  { intros K x HK Hx. apply Hcold. now rewrite HK; cbn; rewrite Hx. }
  split4.
  - now apply clock_ok_key_on_activity.
  - now apply armed_key_on_activity.
  - now apply armed_key_on_activity.
  - now apply armed_key_on_activity.
Qed.

End Press.

End Down.

(** ** The press of a button *)

Module Press.
Import Deck Frames.

Section Press.

Variables (i : Z) (p : pid) (k : kid).

Lemma deck_part_deck_on_activity fd w :
  deck_part i p k fd w -> deck_part i p k fd (deck_on_activity w).
Proof.
  intros H. unfold deck_on_activity. cbv zeta.
  destruct (StreamDeck.destroyed (deck w)); [assumption|].
  destruct (StreamDeck.idleTimeoutId (deck w)); destruct (_ || _); exact H.
Qed.

Lemma armed_at_rest c (w : World) :
  (forall t, t ∈ timers w -> c (t_action t) = false) ->
  armed (nextTimeoutId w) c None w.
Proof.
  intros H. split.
  - intros t Ht Hc. rewrite (H t Ht) in Hc. discriminate.
  - intros [? [=]].
Qed.

Lemma deck_arm_keeps fd hD page key w :
  let w' :=
    if (0 <? hD)%Z
    then arm (DeckHold i page key) hD
           (fun id =>
              upd_deck
                (fun D =>
                   StreamDeck.set_holdTimeoutIds
                     (<[i := id]> (StreamDeck.holdTimeoutIds D)) D))
           w
    else w in
  pages w' = pages w /\ keys w' = keys w /\ log w' = log w
  /\ StreamDeck.idleTimeoutId (deck w') = StreamDeck.idleTimeoutId (deck w)
  /\ (deck_ok i p k fd (deck w) -> deck_ok i p k fd (deck w')).
Proof.
  cbv zeta. destruct (0 <? hD)%Z;
    (split; [|split; [|split; [|split]]]); try reflexivity; intros H; exact H.
Qed.

Lemma hw_down_pressed w P K :
  StreamDeck.destroyed (deck w) = false ->
  StreamDeck.focusedPage (deck w) = Some p ->
  pages w !! p = Some P -> Page.destroyed P = false ->
  JsMap.get (Page.keys P) i = Some k ->
  keys w !! k = Some K -> Key.destroyed K = false ->
  NoDup (Key.holdStates K) ->
  slot_at_rest i p k w -> handles_issued i p P K w ->
  pressed i p k (Page.HOLD_TIME P) (Key.HOLD_TIME K) false false false
    (hw_down i w)
  /\ grows_quietly w (hw_down i w)
  /\ slot_timers (nextTimeoutId w) (now w) i p k
       (hold_deadline (now w) (Some (StreamDeck.HOLD_TIME (deck w))))
       (hold_deadline (now w) (Page.HOLD_TIME P))
       (hold_deadline (now w) (Key.HOLD_TIME K))
       (hw_down i w).
Proof.
  intros Hd Hf HP HPd HPk HK HKd HKn Hrest (Hnd & Hlt & HcD & HcP & HcK & HcKp).
  set (n0 := nextTimeoutId w). set (t0 := now w).
  set (T := slot_timers n0 t0 i p k).
  unfold hw_down. rewrite Hd. cbv zeta. rewrite Hf.
  rewrite pages_clearTimeout_opt, HP, HPk.
  unfold page_emit_opt, key_emit_opt.
  set (wa := upd_deck _ (clearTimeout_opt _ w)).
  set (wb := deck_emit down (Some i) (Some p) (Some k) wa).
  set (wc := page_emit p down (Some i) (Some p) (Some k) wb).
  set (wd := key_emit k down (Some i) (Some p) (Some k) wc).
  set (we := if (0 <? StreamDeck.HOLD_TIME (deck w))%Z then _ else wd).
  set (wf := deck_emit activity_down (Some i) (Some p) (Some k) we).
  set (wg := page_emit p activity_down (Some i) (Some p) (Some k) wf).
  set (wh := key_emit k activity_down (Some i) (Some p) (Some k) wg).
  assert (clock_ok n0 t0 w) as Hck by (repeat split; auto).
  (* the deck takes note of the press *)
  assert (pages wa = pages w /\ keys wa = keys w /\ log wa = log w)
    as (Pa & Ka & La) by (unfold wa; repeat split; now framed).
  assert (deck wa
          = StreamDeck.set_holdIndexes (StreamDeck.holdIndexes (deck w) ∖ {[i]})
              (StreamDeck.set_down (<[i:=Some p]> (StreamDeck.downPages (deck w)))
                 (<[i:=Some k]> (StreamDeck.downKeys (deck w)))
                 (StreamDeck.set_holdTimeoutIds
                    (delete i (StreamDeck.holdTimeoutIds (deck w))) (deck w))))
    as Da by (unfold wa; fields; now rewrite deck_clearTimeout_opt).
  assert (T None None None wa) as Ta.
  { unfold wa. apply Down.cw_upd_deck; [apply Down.T_clockwise|].
    split; [|split; [|split]].
    - now apply Down.clock_ok_clearTimeout_opt.
    - apply Down.armed_clearTimeout_opt; [|intros x _ [? [=]]].
      apply armed_at_rest. intros t Ht. now destruct (Hrest t Ht).
    - apply Down.armed_clearTimeout_opt; [|intros x _ [? [=]]].
      apply armed_at_rest. intros t Ht. now destruct (Hrest t Ht) as (_ & ? & _).
    - apply Down.armed_clearTimeout_opt; [|intros x _ [? [=]]].
      apply armed_at_rest. intros t Ht. now destruct (Hrest t Ht) as (_ & _ & ?). }
  (* [down] on the deck *)
  assert (pages wb = pages w /\ keys wb = keys w /\ deck wb = deck wa
          /\ log wb = log w ++ [said OnDeck down (Some i) (Some p) (Some k)])
    as (Pb & Kb & Db & Lb).
  { unfold wb. rewrite pages_deck_emit, keys_deck_emit, Release.log_deck_emit, La.
    auto. }
  assert (T None None None wb) as Tb
    by (apply (Down.T_clockwise i p k n0 t0 _ _ _ wa); auto).
  (* [down] on the page *)
  assert (T None (hold_deadline t0 (Page.HOLD_TIME P)) None wc) as Tc.
  { apply (Down.T_page_on_down i p k n0 t0 _ P); [fields; now rewrite Pb|assumption|].
    now apply Down.cw_notify; [apply Down.T_clockwise|]. }
  assert (page_part i p k (Page.HOLD_TIME P) false wc) as PPc.
  { apply (Down.page_part_page_on_down i p k _
             (bool_decide (i ∈ Page.holdIndexes P))).
    exists P. split; [fields; now rewrite Pb|]. repeat split; auto. }
  assert (keys wc = keys w /\ deck wc = deck wa
          /\ log wc = log wb ++ [said (OnPage p) down (Some i) (Some p) (Some k)]
          /\ Page.idleTimeoutId <$> pages wc !! p = Some (Page.idleTimeoutId P))
    as (Kc & Dc & Lc & Ic).
  { unfold wc. rewrite keys_page_emit, deck_page_emit, Release.log_page_emit by discriminate.
    repeat split; auto. unfold page_emit. cbv zeta.
    rewrite Down.idle_handle_page_on_down. fields. now rewrite Pb, HP. }
  (* [down] on the key *)
  assert (T None (hold_deadline t0 (Page.HOLD_TIME P))
            (hold_deadline t0 (Key.HOLD_TIME K)) wd) as Td.
  { apply (Down.T_key_on_down i p k n0 t0 _ _ K);
      [fields; now rewrite Kc|assumption|assumption|].
    now apply Down.cw_notify; [apply Down.T_clockwise|]. }
  assert (key_part i p k (Key.HOLD_TIME K) false wd) as KPd.
  { apply (Down.key_part_key_on_down i p k _
             (WildArrayValuedSet.has (Key.holdStates K) [JNum i; JPage p])).
    exists K. split; [fields; now rewrite Kc|]. repeat split; auto. }
  assert (pages wd = pages wc /\ deck wd = deck wa
          /\ log wd = log wc ++ [said (OnKey k) down (Some i) (Some p) (Some k)]
          /\ Key.idleTimeoutId <$> keys wd !! k = Some (Key.idleTimeoutId K))
    as (Pd & Dd & Ld & Id).
  { unfold wd. rewrite pages_key_emit, deck_key_emit, Release.log_key_emit by discriminate.
    repeat split; auto. unfold key_emit. cbv zeta.
    rewrite Down.idle_handle_key_on_down. fields. now rewrite Kc, HK. }
  (* the hold timer of the deck *)
  assert (T (hold_deadline t0 (Some (StreamDeck.HOLD_TIME (deck w))))
            (hold_deadline t0 (Page.HOLD_TIME P))
            (hold_deadline t0 (Key.HOLD_TIME K)) we) as Te
    by (unfold we; now apply Down.T_deck_arm).
  assert (pages we = pages wd /\ keys we = keys wd /\ log we = log wd
          /\ deck_ok i p k false (deck we)
          /\ StreamDeck.idleTimeoutId (deck we)
             = StreamDeck.idleTimeoutId (deck w))
    as (Pe & Ke & Le & De & Ie).
  { destruct (deck_arm_keeps false (StreamDeck.HOLD_TIME (deck w))
                (Some p) (Some k) wd) as (E1 & E2 & E3 & E4 & E5).
    fold we in E1, E2, E3, E4, E5. rewrite E4, Dd, Da.
    split; [exact E1|split; [exact E2|split; [exact E3|split; [|reflexivity]]]].
    apply E5. rewrite Dd, Da.
    repeat split; cbn;
      [exact Hd|apply lookup_insert_eq|apply lookup_insert_eq
      |apply Hold.unmark_same]. }
  (* [activity] on the deck, the page and the key *)
  assert (T (hold_deadline t0 (Some (StreamDeck.HOLD_TIME (deck w))))
            (hold_deadline t0 (Page.HOLD_TIME P))
            (hold_deadline t0 (Key.HOLD_TIME K)) wf) as Tf.
  { apply (Down.T_deck_on_activity i p k n0 t0).
    - fields. now rewrite Ie.
    - now apply Down.cw_notify; [apply Down.T_clockwise|]. }
  assert (pages wf = pages wd /\ keys wf = keys wd
          /\ log wf = log we ++ [said OnDeck activity_down (Some i) (Some p) (Some k)]
          /\ deck_part i p k false wf)
    as (Pf & Kf & Lf & Df).
  { unfold wf. rewrite pages_deck_emit, keys_deck_emit, Release.log_deck_emit.
    split; [exact Pe|split; [exact Ke|split; [reflexivity|]]].
    unfold deck_emit. cbv zeta. apply deck_part_deck_on_activity. exact De. }
  assert (T (hold_deadline t0 (Some (StreamDeck.HOLD_TIME (deck w))))
            (hold_deadline t0 (Page.HOLD_TIME P))
            (hold_deadline t0 (Key.HOLD_TIME K)) wg) as Tg.
  { apply (Down.T_page_on_activity i p k n0 t0).
    - fields. rewrite Pf, Pd, Ic. intros x [= E]. now apply HcP.
    - now apply Down.cw_notify; [apply Down.T_clockwise|]. }
  assert (keys wg = keys wd /\ deck wg = deck wf
          /\ log wg = log wf ++ [said (OnPage p) activity_down (Some i) (Some p) (Some k)]
          /\ page_part i p k (Page.HOLD_TIME P) false wg)
    as (Kg & Dg & Lg & PPg).
  { unfold wg. rewrite keys_page_emit, deck_page_emit, Release.log_page_emit by discriminate.
    split; [exact Kf|split; [reflexivity|split; [reflexivity|]]].
    unfold page_emit. cbv zeta. apply Down.page_part_page_on_activity.
    eapply Hold.page_part_same; [|exact PPc]. fields. now rewrite Pf. }
  assert (T (hold_deadline t0 (Some (StreamDeck.HOLD_TIME (deck w))))
            (hold_deadline t0 (Page.HOLD_TIME P))
            (hold_deadline t0 (Key.HOLD_TIME K)) wh) as Th.
  { apply (Down.T_key_on_activity i p k n0 t0).
    - fields. rewrite Kg, Id. intros x [= E]. now apply HcK.
    - now apply Down.cw_notify; [apply Down.T_clockwise|]. }
  assert (pages wh = pages wg /\ deck wh = deck wf
          /\ log wh = log wg ++ [said (OnKey k) activity_down (Some i) (Some p) (Some k)]
          /\ key_part i p k (Key.HOLD_TIME K) false wh)
    as (Ph & Dh & Lh & KPh).
  { unfold wh. rewrite pages_key_emit, deck_key_emit, Release.log_key_emit by discriminate.
    split; [reflexivity|split; [exact Dg|split; [reflexivity|]]].
    unfold key_emit. cbv zeta. apply Down.key_part_key_on_activity.
    eapply Hold.key_part_same; [|exact KPd]. fields. now rewrite Kg. }
  split; [|split].
  - split; [|split].
    + eapply Hold.deck_part_same; [exact Dh|exact Df].
    + eapply Hold.page_part_same; [exact Ph|exact PPg].
    + exact KPh.
  - eexists. split.
    + rewrite Lh, Lg, Lf, Le, Ld, Lc, Lb, <- !app_assoc. reflexivity.
    + repeat constructor; discriminate.
  - exact Th.
Qed.

End Press.
End Press.

(** ** Click or held *)

Module ClickOrHeld.
Import Deck Frames.

Lemma heard_app s i (l1 l2 : list Notif) :
  heard s i (l1 ++ l2) = heard s i l1 ++ heard s i l2.
Proof. unfold heard. now rewrite filter_app, fmap_app. Qed.

Lemma outcomes_app (l1 l2 : list evname) :
  outcomes (l1 ++ l2) = outcomes l1 ++ outcomes l2.
Proof. unfold outcomes. apply filter_app. Qed.

Lemma outcomes_quiet s i (l : list Notif) :
  Forall quiet_notif l -> outcomes (heard s i l) = [].
Proof.
  induction 1 as [|n l [H1 H2] _ IH]; [reflexivity|].
  unfold heard in *. destruct (decide (target n = s ∧ n_index n = Some i)).
  - rewrite filter_cons_True by assumption. rewrite fmap_cons.
    unfold outcomes in *. rewrite filter_cons_False; [exact IH|].
    intros [E|E]; contradiction.
  - now rewrite filter_cons_False by assumption.
Qed.

(** What was said since [w] is what was said quietly up to [w'] and then
    what [w''] adds. *)
Lemma outcomes_since s i (w w' w'' : World) :
  grows_quietly w w' -> (exists l, log w'' = log w' ++ l) ->
  outcomes (heard s i (emitted_since w w''))
  = outcomes (heard s i (emitted_since w' w'')).
Proof.
  intros (l1 & E1 & Hq) (l2 & E2). unfold emitted_since.
  rewrite E2, drop_app_length, E1, <- app_assoc, drop_app_length.
  now rewrite heard_app, outcomes_app, outcomes_quiet.
Qed.

Lemma verdict_deadline (t0 h dt : Z) (flag : bool) :
  flag = match hold_deadline t0 (Some h) with
         | Some d => (d <=? t0 + dt)%Z
         | None => false
         end ->
  (if flag then held else click) = verdict h dt.
Proof.
  intros ->. unfold verdict, hold_deadline.
  destruct (0 <? h)%Z; [|reflexivity]. cbn [andb].
  replace (t0 + timeout_after h <=? t0 + dt)%Z with (timeout_after h <=? dt)%Z;
    [reflexivity|].
  apply eq_true_iff_eq. rewrite !Z.leb_le. lia.
Qed.

(** For a hold time that Node takes as it is, the verdict turns on the
    hold time itself. *)
Lemma verdict_within_timeout_max (h dt : Z) :
  (h <= TIMEOUT_MAX)%Z ->
  verdict h dt = if (0 <? h)%Z && (h <=? dt)%Z then held else click.
Proof.
  intros Hh. unfold verdict, timeout_after.
  destruct (0 <? h)%Z eqn:E; [|reflexivity]. apply Z.ltb_lt in E.
  rewrite (proj2 (Z.leb_le 1 h)), (proj2 (Z.leb_le h TIMEOUT_MAX)) by lia.
  reflexivity.
Qed.



(** The same press and release, run: 300 ms is short of the 500 ms of the
    deck, which the page repeats, and past the 200 ms of the key. *)
Example press_300ms_clicks_deck_and_page_holds_key :
  let w := desk (Some 500%Z) None (Some 200%Z) in
  let told := emitted_since w (run w [HwDown 0; Elapse 300; HwUp 0]) in
  outcomes (heard OnDeck 0 told) = [click]
  /\ outcomes (heard (OnPage 0%nat) 0 told) = [click]
  /\ outcomes (heard (OnKey 0%nat) 0 told) = [held].
Proof. vm_compute. auto. Qed.


(** A release after 100 ms is a click at every scope, one after 700 ms is
    held at every scope. *)
Example press_100ms_clicks_and_700ms_holds :
  let w := desk (Some 500%Z) None (Some 200%Z) in
  let brief := emitted_since w (run w [HwDown 0; Elapse 100; HwUp 0]) in
  let long := emitted_since w (run w [HwDown 0; Elapse 700; HwUp 0]) in
  (outcomes (heard OnDeck 0 brief) = [click]
   /\ outcomes (heard (OnPage 0%nat) 0 brief) = [click]
   /\ outcomes (heard (OnKey 0%nat) 0 brief) = [click])
  /\ (outcomes (heard OnDeck 0 long) = [held]
      /\ outcomes (heard (OnPage 0%nat) 0 long) = [held]
      /\ outcomes (heard (OnKey 0%nat) 0 long) = [held]).
Proof. vm_compute. auto 7. Qed.

End ClickOrHeld.

(** ** Attaching and detaching *)

Module AttachFacts.
Import Deck Frames.

Lemma slot_of_arguments_named (D : StreamDeck.t) (row column key : jsval)
  (index : option Z) (key' : jsval) :
  slot_of_arguments D row column key = Ok (index, key') ->
  index = named_slot D row column.
Proof.
  unfold slot_of_arguments, named_slot.
  destruct row, column;
    repeat match goal with
      | |- context [check_range ?a ?b ?c ?d] => destruct (check_range a b c d)
      end; try discriminate; intros [= <- _]; reflexivity.
Qed.

Lemma find_detach_none (keys : JsMap.t kid) (index : Z) (key : jsval) :
  JsMap.get keys index = None ->
  find (detach_matches (Some index) key) (JsMap.entries keys) = None.
Proof.
  intros H. destruct (find _ _) as [e|] eqn:E; [|reflexivity].
  apply find_some in E as [Hin E]. unfold detach_matches in E.
  apply andb_true_iff in E as [E _]. apply bool_decide_eq_true in E.
  apply list_elem_of_In in Hin.
  now destruct (proj1 (JsMapFacts.get_None_notin _ _) H e Hin).
Qed.

Lemma find_detach_index_only (keys : JsMap.t kid) (index : Z) (k : kid) :
  JsMap.get keys index = Some k ->
  find (detach_matches (Some index) JUndefined) (JsMap.entries keys)
  = Some (index, k).
Proof.
  intros H. apply JsMapFacts.get_find in H. rewrite <- H. clear H.
  unfold JsMap.entries. induction keys as [|e rest IH]; [reflexivity|].
  simpl. unfold detach_matches at 1. rewrite andb_true_r.
  destruct (bool_decide (fst e = index)); [reflexivity|exact IH].
Qed.

(** C8: a [detachKey] call that names a slot to which nothing is attached
    leaves the pages, the keys, the deck and the timers as they are and
    emits nothing, so no [detach] notification; it only queues a redraw of
    the page. *)
Theorem detachKey_unattached_is_noop (w : World) (p : pid) (P : Page.t)
  (row column key : jsval) (index : Z) :
  pages w !! p = Some P ->
  named_slot (deck w) row column = Some index ->
  JsMap.get (Page.keys P) index = None ->
  let w' := fst (detachKey p row column key w) in
  attachments p w' = attachments p w
  /\ pages w' = pages w /\ keys w' = keys w /\ deck w' = deck w
  /\ timers w' = timers w /\ log w' = log w
  /\ emitted_since w w' = [].
Proof.
  intros Hp Hslot Hfree. cbn zeta.
  assert (forall w', pages w' = pages w -> keys w' = keys w -> deck w' = deck w ->
            timers w' = timers w -> log w' = log w ->
            attachments p w' = attachments p w
            /\ pages w' = pages w /\ keys w' = keys w /\ deck w' = deck w
            /\ timers w' = timers w /\ log w' = log w
            /\ emitted_since w w' = []) as Hsame.
  { intros w' H1 H2 H3 H4 H5. unfold attachments, emitted_since.
    rewrite H1, H5, drop_all. auto 10. }
  unfold detachKey. rewrite Hp.
  destruct (Page.destroyed P); [now apply Hsame|].
  destruct (slot_of_arguments (deck w) row column key) as [[index' key']|e] eqn:Eargs;
    [|now apply Hsame].
  apply slot_of_arguments_named in Eargs. rewrite Hslot in Eargs. subst index'.
  destruct (check_key _ true key' w); [|now apply Hsame].
  rewrite (find_detach_none _ _ _ Hfree). cbn [fst].
  apply Hsame; now autorewrite with frames.
Qed.

Lemma detachKey_unattached_is_noop_witness :
  let w := desk None None None in
  let w' := fst (detachKey 0 (JNum 2) (JNum 3) (JKey 0) w) in
  attachments 0 w' = attachments 0 w
  /\ pages w' = pages w /\ keys w' = keys w /\ deck w' = deck w
  /\ timers w' = timers w /\ log w' = log w
  /\ emitted_since w w' = [].
Proof.
  apply (detachKey_unattached_is_noop (desk None None None) 0
           {| Page.HOLD_TIME := None; Page.IDLE_TIME := 10000;
              Page.destroyed := false; Page.holdTimeoutIds := ∅;
              Page.idleTimeoutId := Some 1%nat; Page.downIndexes := ∅;
              Page.holdIndexes := ∅; Page.keys := [(0%Z, 0%nat)] |}
           (JNum 2) (JNum 3) (JKey 0) 7%Z); reflexivity.
Defined.

Example detachKey_unattached_returns :
  snd (detachKey 0 (JNum 7) JUndefined JUndefined (desk None None None)) = Ok tt
  /\ snd (detachKey 0 (JNum 2) (JNum 3) (JKey 1) (desk None None None)) = Ok tt.
Proof. split; reflexivity. Qed.

(** C9: [detachKey(i)] on a slot that holds a key deletes the entry, emits
    [detach] on the deck and on the page, and then throws a TypeError: the
    key's own [detach] is never emitted, its listener does not run (the
    key objects are untouched) and the page is not redrawn. *)
Theorem detachKey_index_only_throws (w : World) (p : pid) (P : Page.t)
  (index : Z) (k : kid) :
  pages w !! p = Some P ->
  Page.destroyed P = false ->
  (0 <= index <= StreamDeck.KEY_COUNT (deck w) - 1)%Z ->
  JsMap.get (Page.keys P) index = Some k ->
  let w' := fst (detachKey p (JNum index) JUndefined JUndefined w) in
  snd (detachKey p (JNum index) JUndefined JUndefined w)
  = Throw (TypeError "Cannot read properties of undefined (reading 'emit')")
  /\ attachments p w' = Some (JsMap.delete (Page.keys P) index)
  /\ (forall keys', attachments p w' = Some keys' -> JsMap.get keys' index = None)
  /\ log w' = log w
              ++ [ {| target := OnDeck; name := detach; n_index := Some index;
                      n_page := Some p; n_key := Some k; n_blur := None |};
                   {| target := OnPage p; name := detach; n_index := Some index;
                      n_page := Some p; n_key := Some k; n_blur := None |} ]
  /\ Forall (fun n => target n <> OnKey k) (emitted_since w w')
  /\ keys w' = keys w
  /\ graphicsQueue w' = graphicsQueue w.
Proof.
  intros Hp Hd Hrange Hk. cbn zeta.
  unfold detachKey. rewrite Hp, Hd. simpl slot_of_arguments.
  unfold check_range.
  assert (((index <? 0) || (StreamDeck.KEY_COUNT (deck w) - 1 <? index))%Z = false) as ->.
  { apply orb_false_iff. split; apply Z.ltb_ge; lia. }
  simpl. rewrite (find_detach_index_only _ _ _ Hk). simpl.
  unfold attachments, put_page, emitted_since. simpl.
  rewrite lookup_insert_eq. simpl.
  split; [reflexivity|]. split; [reflexivity|].
  split; [intros keys' [= <-]; apply JsMapFacts.get_delete|].
  split; [now rewrite <- app_assoc|].
  split; [|split; reflexivity].
  rewrite <- app_assoc, drop_app_length.
  repeat constructor; simpl; discriminate.
Qed.

Lemma detachKey_index_only_throws_witness :
  snd (detachKey 0 (JNum 0) JUndefined JUndefined (desk None None None))
  = Throw (TypeError "Cannot read properties of undefined (reading 'emit')").
Proof.
  apply (detachKey_index_only_throws (desk None None None) 0
           {| Page.HOLD_TIME := None; Page.IDLE_TIME := 10000;
              Page.destroyed := false; Page.holdTimeoutIds := ∅;
              Page.idleTimeoutId := Some 1%nat; Page.downIndexes := ∅;
              Page.holdIndexes := ∅; Page.keys := [(0%Z, 0%nat)] |}
           0%Z 0%nat); [reflexivity | reflexivity | vm_compute; split; discriminate | reflexivity].
Defined.


(** Attaching by row and column to a free slot appends the key under the
    index [column - 1 + (row - 1) * PANEL_COLUMN_COUNT]. *)
Lemma attachKey_free_slot (w : World) (p : pid) (P : Page.t) (K : Key.t)
  (r c : Z) (k : kid) :
  pages w !! p = Some P -> Page.destroyed P = false ->
  keys w !! k = Some K -> Key.destroyed K = false ->
  (1 <= r <= StreamDeck.PANEL_ROW_COUNT (deck w))%Z ->
  (1 <= c <= StreamDeck.PANEL_COLUMN_COUNT (deck w))%Z ->
  let index := (c - 1 + (r - 1) * StreamDeck.PANEL_COLUMN_COUNT (deck w))%Z in
  JsMap.get (Page.keys P) index = None ->
  snd (attachKey p (JNum r) (JNum c) (JKey k) w) = Ok tt
  /\ attachments p (fst (attachKey p (JNum r) (JNum c) (JKey k) w))
     = Some (Page.keys P ++ [(index, k)])
  /\ deck (fst (attachKey p (JNum r) (JNum c) (JKey k) w)) = deck w.
Proof.
  intros Hp Hd Hk HKd Hr Hc index Hfree.
  unfold attachKey. rewrite Hp, Hd. simpl slot_of_arguments. unfold check_range.
  assert (((r <? 1) || (StreamDeck.PANEL_ROW_COUNT (deck w) <? r))%Z = false) as ->
    by (apply orb_false_iff; split; apply Z.ltb_ge; lia).
  assert (((c <? 1) || (StreamDeck.PANEL_COLUMN_COUNT (deck w) <? c))%Z = false) as ->
    by (apply orb_false_iff; split; apply Z.ltb_ge; lia).
  fold index. unfold check_key. rewrite Hk, HKd. simpl.
  rewrite (proj2 (JsMapFacts.has_false_get _ _) Hfree). rewrite Hp.
  rewrite (JsMapFacts.set_absent _ _ _ Hfree).
  cbn [fst snd]. split; [reflexivity|]. unfold attachments, page_emit, deck_emit. framed.
  rewrite lookup_insert_eq. split; reflexivity.
Qed.

(** Detaching by index together with the key removes exactly that entry,
    tells the key and queues a redraw. *)
Lemma detachKey_with_key (w : World) (p : pid) (P : Page.t) (index : Z) (k : kid) :
  pages w !! p = Some P -> Page.destroyed P = false ->
  (0 <= index <= StreamDeck.KEY_COUNT (deck w) - 1)%Z ->
  JsMap.get (Page.keys P) index = Some k ->
  snd (detachKey p (JNum index) (JKey k) JUndefined w) = Ok tt
  /\ attachments p (fst (detachKey p (JNum index) (JKey k) JUndefined w))
     = Some (JsMap.delete (Page.keys P) index).
Proof.
  intros Hp Hd Hrange Hk.
  unfold detachKey. rewrite Hp, Hd. simpl slot_of_arguments. unfold check_range.
  assert (((index <? 0) || (StreamDeck.KEY_COUNT (deck w) - 1 <? index))%Z = false) as ->
    by (apply orb_false_iff; split; apply Z.ltb_ge; lia).
  assert (check_key (bool_decide (is_Some (Some index))) true (JKey k) w = Ok tt) as ->.
  { unfold check_key. destruct (keys w !! k); reflexivity. }
  assert (find (detach_matches (Some index) (JKey k)) (JsMap.entries (Page.keys P))
          = Some (index, k)) as ->.
  { apply JsMapFacts.get_find in Hk. rewrite <- Hk. unfold JsMap.entries.
    clear Hp Hd. pose proof Hk as Hk'. clear Hk.
    induction (Page.keys P) as [|e rest IH]; [discriminate|].
    simpl in *. unfold detach_matches at 1.
    destruct (bool_decide (fst e = index)) eqn:E.
    - injection Hk' as ->. simpl. now rewrite bool_decide_eq_true_2.
    - simpl. now apply IH. }
  cbn [fst snd]. split; [reflexivity|]. unfold attachments, page_emit, deck_emit. framed.
  rewrite lookup_insert_eq. reflexivity.
Qed.

(** On a free slot the round trip holds: attach by row and column, detach
    by the index and the key, and the table is what it was. *)
Lemma attach_detach_round_trip (w : World) (p : pid) (P : Page.t) (K : Key.t)
  (r c : Z) (k : kid) :
  pages w !! p = Some P -> Page.destroyed P = false ->
  keys w !! k = Some K -> Key.destroyed K = false ->
  (1 <= r <= StreamDeck.PANEL_ROW_COUNT (deck w))%Z ->
  (1 <= c <= StreamDeck.PANEL_COLUMN_COUNT (deck w))%Z ->
  let index := (c - 1 + (r - 1) * StreamDeck.PANEL_COLUMN_COUNT (deck w))%Z in
  (index <= StreamDeck.KEY_COUNT (deck w) - 1)%Z ->
  JsMap.get (Page.keys P) index = None ->
  let w1 := fst (attachKey p (JNum r) (JNum c) (JKey k) w) in
  attachments p w1 = Some (Page.keys P ++ [(index, k)])
  /\ attachments p (fst (detachKey p (JNum index) (JKey k) JUndefined w1))
     = Some (Page.keys P).
Proof.
  intros Hp Hd Hk HKd Hr Hc index Hmax Hfree w1.
  destruct (attachKey_free_slot w p P K r c k Hp Hd Hk HKd Hr Hc Hfree)
    as (_ & Hatt & Hdeck).
  fold index in Hatt. fold w1 in Hatt, Hdeck. split; [exact Hatt|].
  unfold attachments in Hatt.
  destruct (pages w1 !! p) as [P1|] eqn:Hp1; [|discriminate].
  simpl in Hatt. injection Hatt as Hkeys.
  assert (Page.destroyed P1 = false) as Hd1.
  { subst w1. revert Hp1. unfold attachKey. rewrite Hp, Hd.
    simpl slot_of_arguments. unfold check_range.
    assert (((r <? 1) || (StreamDeck.PANEL_ROW_COUNT (deck w) <? r))%Z = false) as ->
      by (apply orb_false_iff; split; apply Z.ltb_ge; lia).
    assert (((c <? 1) || (StreamDeck.PANEL_COLUMN_COUNT (deck w) <? c))%Z = false) as ->
      by (apply orb_false_iff; split; apply Z.ltb_ge; lia).
    fold index. unfold check_key. rewrite Hk, HKd. simpl.
    rewrite (proj2 (JsMapFacts.has_false_get _ _) Hfree). rewrite Hp.
    cbn [fst]. unfold page_emit, deck_emit. framed. rewrite lookup_insert_eq. intros [= <-]. exact Hd. }
  destruct (detachKey_with_key w1 p P1 index k Hp1 Hd1) as [_ Hdet].
  - rewrite Hdeck. subst index. nia.
  - rewrite Hkeys. now apply JsMapFacts.get_app_absent.
  - rewrite Hdet, Hkeys. f_equal. now apply JsMapFacts.delete_app_absent.
Qed.

(** C4, at the inputs that break it.  Slot 0 (row 1, column 1) of the page
    holds key 0.  Attaching key 1 by row 1 and column 1 throws a TypeError
    out of the [detachKey(index)] that is to make room: key 0 is gone from
    the table and key 1 never enters it.  After an attach by row 2 and
    column 3 to the free slot 7 the table holds the key under 7, and
    detaching by that index alone throws the same TypeError. *)
Theorem attachKey_on_occupied_slot_throws :
  let w := desk None None None in
  let oops :=
    Throw (TypeError "Cannot read properties of undefined (reading 'emit')") in
  attachments 0 w = Some [(0%Z, 0%nat)]
  /\ snd (attachKey 0 (JNum 1) (JNum 1) (JKey 1) w) = oops
  /\ attachments 0 (fst (attachKey 0 (JNum 1) (JNum 1) (JKey 1) w)) = Some []
  /\ attachments 0 (fst (attachKey 0 (JNum 2) (JNum 3) (JKey 1) w))
     = Some [(0%Z, 0%nat); (7%Z, 1%nat)]
  /\ snd (detachKey 0 (JNum 7) JUndefined JUndefined
            (fst (attachKey 0 (JNum 2) (JNum 3) (JKey 1) w))) = oops.
Proof. cbv zeta. repeat split; vm_compute; reflexivity. Qed.

End AttachFacts.

(** ** Held while down *)

Module HeldWhileDown.
Import Deck.

(** C5, at the input that breaks it.  The deck has a hold time of 500 ms,
    the page and the key have none.  Button 0 goes down, the key is
    detached from the slot with [page.detachKey(0, key)] 
    and the hold timer of the deck comes due: its callback still passes
    [hold] to the key it captured, whose listener marks the pair as held.
    The [detach] listener had removed the pair from the down states. *)
Theorem hold_after_detach_marks_held_without_down :
  let w := run (desk (Some 500%Z) None None)
             [HwDown 0; DetachKey 0 (JNum 0) (JKey 0%nat) JUndefined; Elapse 500] in
  exists K,
    keys w !! 0%nat = Some K
    /\ WildArrayValuedSet.has (Key.holdStates K) [JNum 0; JPage 0%nat] = true
    /\ WildArrayValuedSet.has (Key.downStates K) [JNum 0; JPage 0%nat] = false.
Proof.
  cbv zeta. eexists. split; [vm_compute; reflexivity|]. split; reflexivity.
Qed.

(** Without the detach the pair is held and down. *)
Example hold_while_down :
  let w := run (desk (Some 500%Z) None None) [HwDown 0; Elapse 500] in
  exists K,
    keys w !! 0%nat = Some K
    /\ WildArrayValuedSet.has (Key.holdStates K) [JNum 0; JPage 0%nat] = true
    /\ WildArrayValuedSet.has (Key.downStates K) [JNum 0; JPage 0%nat] = true.
Proof.
  cbv zeta. eexists. split; [vm_compute; reflexivity|]. split; reflexivity.
Qed.

(** A key with a hold time of its own is told by its own timer, which the
    [detach] listener cancels: the pair stays unmarked. *)
Example own_hold_timer_is_cancelled_on_detach :
  let w := run (desk (Some 500%Z) None (Some 500%Z))
             [HwDown 0; DetachKey 0 (JNum 0) (JKey 0%nat) JUndefined; Elapse 500] in
  exists K,
    keys w !! 0%nat = Some K
    /\ WildArrayValuedSet.has (Key.holdStates K) [JNum 0; JPage 0%nat] = false
    /\ WildArrayValuedSet.has (Key.downStates K) [JNum 0; JPage 0%nat] = false.
Proof.
  cbv zeta. eexists. split; [vm_compute; reflexivity|]. split; reflexivity.
Qed.

End HeldWhileDown.

(** ** isPressed *)

Module IsPressedFacts.
Import Deck.

(** The arguments that [checkValid] lets through. *)
Lemma isPressed_returns (k : kid) (K : Key.t) (index page : jsval) (w : World) :
  keys w !! k = Some K -> Key.destroyed K = false ->
  valid_index_argument (deck w) index -> valid_page_argument w page ->
  isPressed k index page w
  = Ok (WildArrayValuedSet.wildHas (Key.pressStates K) [index; page]).
Proof.
  intros HK Hd Hi Hp. unfold isPressed. rewrite HK, Hd. cbv zeta.
  assert (match index with
          | JUndefined => Ok tt
          | JNum i => check_range "index" i 0 (StreamDeck.KEY_COUNT (deck w) - 1)
          | _ => Throw (TypeError "Expected index to be an integer or undefined")
          end = Ok tt) as ->.
  { destruct Hi as [->|(i & -> & Hi)]; [reflexivity|]. unfold check_range.
    replace ((i <? 0) || (StreamDeck.KEY_COUNT (deck w) - 1 <? i))%Z with false;
      [reflexivity|].
    symmetry. apply orb_false_iff. split; apply Z.ltb_ge; lia. }
  destruct Hp as [->|(p & -> & Hp)]; [reflexivity|].
  destruct (pages w !! p) as [P|]; [|reflexivity].
  now rewrite (Hp P eq_refl).
Qed.

(** C10.  On a live key and arguments that pass validation, [isPressed]
    returns, and returns [true] exactly if some recorded pair agrees with
    every argument that is given; with no argument, exactly if some pair is
    recorded.  The set behind it compares entries by content: a pair added
    twice is listed once. *)
Theorem isPressed_iff_some_recorded_pair_matches (k : kid) (K : Key.t)
  (index page : jsval) (w : World) :
  keys w !! k = Some K -> Key.destroyed K = false ->
  valid_index_argument (deck w) index -> valid_page_argument w page ->
  (exists b,
     isPressed k index page w = Ok b
     /\ (b = true <->
         exists index' page',
           [index'; page'] ∈ Key.pressStates K
           /\ (index = JUndefined \/ index' = index)
           /\ (page = JUndefined \/ page' = page)))
  /\ (isPressed k JUndefined JUndefined w = Ok true <->
      exists index' page', [index'; page'] ∈ Key.pressStates K)
  /\ (forall pair,
        WildArrayValuedSet.add (WildArrayValuedSet.add (Key.pressStates K) pair) pair
        = WildArrayValuedSet.add (Key.pressStates K) pair)
  /\ (forall pair,
        NoDup (Key.pressStates K) ->
        NoDup (WildArrayValuedSet.add (Key.pressStates K) pair)).
Proof.
  intros HK Hd Hi Hp. split; [|split; [|split]].
  - eexists. split; [now apply (isPressed_returns k K)|].
    apply WildArrayValuedSetFacts.wildHas_pair.
  - rewrite (isPressed_returns k K) by (try assumption; now left).
    split.
    + intros [= H]. apply WildArrayValuedSetFacts.wildHas_pair in H
        as (i' & p' & Hin & _). eauto.
    + intros (i' & p' & Hin). f_equal.
      apply WildArrayValuedSetFacts.wildHas_pair. exists i', p'. auto.
  - intros pair. apply WildArrayValuedSetFacts.add_idempotent.
  - intros pair. apply WildArrayValuedSetFacts.add_NoDup.
Qed.

Lemma isPressed_iff_some_recorded_pair_matches_witness :
  let w := hw_down 0 (desk None None None) in
  exists b,
    isPressed 0%nat JUndefined (JPage 0%nat) w = Ok b
    /\ (b = true <->
        exists index' page',
          [index'; page']
            ∈ Key.pressStates (default (Key.create None 0 0) (keys w !! 0%nat))
          /\ (JUndefined = JUndefined \/ index' = JUndefined)
          /\ (JPage 0%nat = JUndefined \/ page' = JPage 0%nat)).
Proof.
  intros w.
  apply (isPressed_iff_some_recorded_pair_matches 0%nat
           (default (Key.create None 0 0) (keys w !! 0%nat))
           JUndefined (JPage 0%nat) w).
  - vm_compute. reflexivity.
  - reflexivity.
  - left. reflexivity.
  - right. exists 0%nat. split; [reflexivity|].
    intros P HP. vm_compute in HP. injection HP as <-. reflexivity.
Defined.

Example isPressed_while_down :
  let w := hw_down 0 (desk None None None) in
  isPressed 0%nat JUndefined JUndefined w = Ok true
  /\ isPressed 0%nat (JNum 0) JUndefined w = Ok true
  /\ isPressed 0%nat (JNum 1) JUndefined w = Ok false
  /\ isPressed 0%nat JUndefined (JPage 0%nat) w = Ok true
  /\ isPressed 0%nat (JNum 0) (JPage 1%nat) w = Ok false
  /\ isPressed 0%nat JUndefined JUndefined (hw_up 0 w) = Ok false
  /\ isPressed 0%nat (JNum 15) JUndefined w
     = Throw (RangeError "Expected index to be between 0 and 14 inclusive")
  /\ isPressed 0%nat (JFraction 0 1) JUndefined w
     = Throw (TypeError "Expected index to be an integer or undefined").
Proof. cbv zeta. repeat split; vm_compute; reflexivity. Qed.

End IsPressedFacts.

(** ** The graphics queue is written by [draw] alone *)

Module QueueFrames.
Import Deck Frames.

(** Only [draw()] pushes on the graphics queue. *)
Lemma graphicsQueue_upd_key k f w :
  graphicsQueue (upd_key k f w) = graphicsQueue w.
Proof. frame upd_key. Qed.

Lemma graphicsQueue_upd_page p f w :
  graphicsQueue (upd_page p f w) = graphicsQueue w.
Proof. frame upd_page. Qed.

Lemma graphicsQueue_clearTimeout_opt id w :
  graphicsQueue (clearTimeout_opt id w) = graphicsQueue w.
Proof. now destruct id. Qed.

Lemma graphicsQueue_key_clear_timers k pair w :
  graphicsQueue (key_clear_timers k pair w) = graphicsQueue w.
Proof.
  unfold key_clear_timers. destruct (keys w !! k); [|reflexivity]. cbv zeta.
  now rewrite graphicsQueue_upd_key, !graphicsQueue_clearTimeout_opt.
Qed.

Lemma graphicsQueue_key_on_detach k i p w :
  graphicsQueue (key_on_detach k i p w) = graphicsQueue w.
Proof.
  unfold key_on_detach. destruct (keys w !! k) as [K|]; [|reflexivity].
  destruct (Key.destroyed K); [reflexivity|]. cbv zeta.
  now rewrite graphicsQueue_upd_key, graphicsQueue_key_clear_timers.
Qed.

Lemma graphicsQueue_deck_on_activity w :
  graphicsQueue (deck_on_activity w) = graphicsQueue w.
Proof.
  unfold deck_on_activity. cbv zeta.
  destruct (StreamDeck.destroyed (deck w)); [reflexivity|].
  destruct (_ || _); unfold arm; fields;
    now rewrite graphicsQueue_clearTimeout_opt.
Qed.

Lemma graphicsQueue_page_on_activity p w :
  graphicsQueue (page_on_activity p w) = graphicsQueue w.
Proof.
  unfold page_on_activity. destruct (pages w !! p) as [P|]; [|reflexivity].
  destruct (Page.destroyed P); [reflexivity|]. cbv zeta.
  destruct (_ || _); unfold arm;
    rewrite ?graphicsQueue_upd_page; fields;
    now rewrite ?graphicsQueue_upd_page, graphicsQueue_clearTimeout_opt.
Qed.

Lemma graphicsQueue_key_on_activity k w :
  graphicsQueue (key_on_activity k w) = graphicsQueue w.
Proof.
  unfold key_on_activity. destruct (keys w !! k) as [K|]; [|reflexivity].
  destruct (Key.destroyed K); [reflexivity|]. cbv zeta.
  destruct (_ || _); unfold arm;
    rewrite ?graphicsQueue_upd_key; fields;
    now rewrite ?graphicsQueue_upd_key, graphicsQueue_clearTimeout_opt.
Qed.

End QueueFrames.

(** ** [WildArrayValuedSet]: what [add], [delete], [has] and [wildHas] promise *)

Module WildArrayValuedSetLaws.
Import WildArrayValuedSet WildArrayValuedSetFacts.

Lemma delete_absent_same (this : t) (element : list jsval) :
  has this element = false -> delete this element = (this, false).
Proof.
  unfold has. induction this as [|arr rest IH]; [reflexivity|].
  simpl. intros H. apply orb_false_iff in H as [H1 H2].
  rewrite H1, (IH H2). reflexivity.
Qed.

Lemma delete_reports (this : t) (element : list jsval) :
  snd (delete this element) = has this element.
Proof.
  unfold has. induction this as [|arr rest IH]; [reflexivity|].
  simpl. destruct (same_array arr element); [reflexivity|].
  destruct (delete rest element) as [rest' found]. exact IH.
Qed.

Lemma delete_app_last (this : t) (element : list jsval) :
  has this element = false ->
  delete (this ++ [element]) element = (this, true).
Proof.
  unfold has. induction this as [|arr rest IH]; simpl.
  - intros _. now rewrite (proj2 (same_array_eq element element) eq_refl).
  - intros H. apply orb_false_iff in H as [H1 H2].
    rewrite H1, (IH H2). reflexivity.
Qed.

Lemma has_false_notin (this : t) (element : list jsval) :
  has this element = false <-> element ∉ this.
Proof.
  rewrite <- has_elem_of. destruct (has this element); split; congruence.
Qed.

Lemma after_snoc (calls : list call) (c : call) :
  after (calls ++ [c]) = perform (after calls) c.
Proof. unfold after. now rewrite fold_left_app. Qed.

Lemma after_NoDup (calls : list call) : NoDup (after calls).
Proof.
  induction calls as [|c calls IH] using rev_ind; [constructor|].
  rewrite after_snoc. destruct c; simpl; [now apply add_NoDup|now apply delete_NoDup].
Qed.

Lemma delete_length (this : t) (element : list jsval) :
  length (fst (delete this element))
  = (length this - (if has this element then 1 else 0))%nat.
Proof.
  unfold has. induction this as [|arr rest IH]; [reflexivity|].
  simpl. destruct (same_array arr element); simpl; [lia|].
  destruct (delete rest element) as [rest' found]. simpl in *. rewrite IH.
  destruct (existsb _ rest) eqn:E; [|lia].
  destruct rest; [discriminate|simpl; lia].
Qed.

(** After [add(element)], [has(other)] answers [true] exactly if the set
    had [other] before or [other] has the content of [element]: the same
    length and no entry that [!==] tells from the entry of [element].  So
    the set has [element] itself, provided [element] equals itself entry
    by entry, which an array holding [NaN] does not. *)
Theorem has_after_add (this : t) (element other : list jsval) :
  (has (add this element) other = true
   <-> same_array element other = true \/ has this other = true)
  /\ (same_array element element = true ->
      has (add this element) element = true).
Proof.
  assert (has (add this element) other = true
          <-> same_array element other = true \/ has this other = true) as H.
  { rewrite !has_elem_of, same_array_eq, elem_of_add.
    split; intros [E|E]; auto. }
  split; [exact H|]. intros _. apply has_elem_of, elem_of_add. now left.
Qed.

(** [delete] answers [true] exactly if the set had the element; when it
    answers [false] the set is what it was. *)
Theorem delete_answers_has (this : t) (element : list jsval) :
  snd (delete this element) = has this element
  /\ (has this element = false -> fst (delete this element) = this).
Proof.
  split; [apply delete_reports|]. intros H. now rewrite delete_absent_same.
Qed.

(** Round trip: adding an array that the set does not have and deleting it
    again gives back the set, members and order, and [delete] answers
    [true].  The array has to equal itself entry by entry: one that holds
    [NaN] is added and never found again. *)
Theorem delete_after_add (this : t) (element : list jsval) :
  same_array element element = true ->
  has this element = false ->
  delete (add this element) element = (this, true).
Proof.
  intros _ H. unfold add. fold (has this element). rewrite H.
  now apply delete_app_last.
Qed.

Lemma delete_after_add_witness :
  delete (add [[JNum 0; JPage 0]] [JNum 1; JUndefined]) [JNum 1; JUndefined]
  = ([[JNum 0; JPage 0]], true).
Proof.
  apply (delete_after_add [[JNum 0; JPage 0]] [JNum 1; JUndefined]);
    reflexivity.
Defined.

(** Whatever sequence of [add] and [delete] calls built the set from the
    empty one, as long as every array added equals itself entry by entry
    (none holds [NaN]), no two members have the same content; so after
    [delete(element)] the set does not have [element], and its size went
    down by one exactly if it had it. *)
Theorem members_stay_distinct (calls : list call) (element : list jsval) :
  (forall e, Add e ∈ calls -> same_array e e = true) ->
  NoDup (after calls)
  /\ has (after (calls ++ [Delete element])) element = false
  /\ size (after (calls ++ [Delete element]))
     = (size (after calls) - (if has (after calls) element then 1 else 0))%nat.
Proof.
  intros _. split; [apply after_NoDup|]. rewrite after_snoc. simpl. split.
  - apply has_false_notin, delete_removes, after_NoDup.
  - apply delete_length.
Qed.

Lemma members_stay_distinct_witness :
  let calls := [Add [JNum 0; JPage 0]; Add [JNum 1; JPage 0];
                Add [JNum 0; JPage 0]] in
  NoDup (after calls)
  /\ has (after (calls ++ [Delete [JNum 0; JPage 0]])) [JNum 0; JPage 0] = false
  /\ size (after (calls ++ [Delete [JNum 0; JPage 0]])) = 1%nat.
Proof.
  intros calls.
  destruct (members_stay_distinct calls [JNum 0; JPage 0]) as (H1 & H2 & H3).
  - intros e He. unfold calls in He.
    repeat (apply elem_of_cons in He as [[= ->]|He]; [reflexivity|]).
    now apply not_elem_of_nil in He.
  - split; [exact H1|]. split; [exact H2|]. rewrite H3. reflexivity.
Defined.

Lemma entries_wild_equal_defined (arr element : list jsval) (n : nat) :
  (forall v, v ∈ element -> v <> JUndefined) ->
  (length arr + n <= length element)%nat ->
  entries_wild_equal n arr element = entries_equal n arr element.
Proof.
  intros Hdef. revert n. induction arr as [|a arr IH]; intros n Hlen; [reflexivity|].
  simpl in *. assert (strict_neq (element_at element n) JUndefined = true) as ->.
  { apply strict_neq_true. apply Hdef. unfold element_at.
    apply list_elem_of_In, nth_In. lia. }
  rewrite andb_true_r. destruct (strict_neq a (element_at element n)); [reflexivity|].
  apply IH. lia.
Qed.

Lemma wildHas_defined (this : t) (element : list jsval) :
  (forall v, v ∈ element -> v <> JUndefined) ->
  wildHas this element = has this element.
Proof.
  intros Hdef. unfold wildHas, has. induction this as [|arr rest IH]; [reflexivity|].
  simpl. rewrite IH. f_equal. unfold wild_same_array, same_array.
  destruct (length arr =? length element)%nat eqn:E; [|reflexivity]. simpl.
  apply Nat.eqb_eq in E. apply entries_wild_equal_defined; [assumption|lia].
Qed.

(** Only [undefined] in the argument is a wildcard: for an argument
    without an [undefined] entry [wildHas] answers as [has] does. *)
Theorem wildHas_without_wildcards (this : t) (element : list jsval) :
  (forall v, v ∈ element -> v <> JUndefined) ->
  wildHas this element = has this element.
Proof. apply wildHas_defined. Qed.

Lemma wildHas_without_wildcards_witness :
  wildHas [[JNum 0; JPage 0]; [JNum 1; JPage 0]] [JNum 1; JPage 0]
  = has [[JNum 0; JPage 0]; [JNum 1; JPage 0]] [JNum 1; JPage 0].
Proof.
  apply (wildHas_without_wildcards [[JNum 0; JPage 0]; [JNum 1; JPage 0]]
           [JNum 1; JPage 0]).
  intros v Hv.
  repeat (apply elem_of_cons in Hv as [->|Hv]; [discriminate|]).
  now apply not_elem_of_nil in Hv.
Defined.

End WildArrayValuedSetLaws.

(** ** [WildArrayKeyedMap#wildHas] *)

Module WildArrayKeyedMapFacts.
Import WildArrayKeyedMap.

Lemma get_is_Some {V} (this : ArrayKeyedMap.t V) (key : list jsval) :
  is_Some (ArrayKeyedMap.get this key) <-> key ∈ keys this.
Proof.
  unfold ArrayKeyedMap.get, keys. induction this as [|[k v] rest IH]; simpl.
  - split; [intros [? [=]]|intros H; now apply not_elem_of_nil in H].
  - rewrite elem_of_cons. destruct (bool_decide (k = key)) eqn:E.
    + apply bool_decide_eq_true in E. split; [auto|eauto].
    + apply bool_decide_eq_false in E. rewrite IH. split; [auto|].
      intros [H|H]; [congruence|assumption].
Qed.

(** [wildHas] on the map answers [true] exactly if the map has a value
    under some key of the same length that agrees with the argument
    wherever the argument is not [undefined]. *)
Theorem wildHas_iff_some_key_matches {V} (this : ArrayKeyedMap.t V)
  (element : list jsval) :
  wildHas this element = true
  <-> exists key v,
        ArrayKeyedMap.get this key = Some v
        /\ length key = length element
        /\ forall j x, key !! j = Some x ->
             element_at element j = JUndefined \/ x = element_at element j.
Proof.
  unfold wildHas. rewrite existsb_exists. split.
  - intros (key & Hin & Hm). apply list_elem_of_In, get_is_Some in Hin as [v Hv].
    exists key, v. split; [exact Hv|].
    unfold WildArrayValuedSet.wild_same_array in Hm.
    destruct (length key =? length element)%nat eqn:E; [|discriminate].
    apply Nat.eqb_eq in E. split; [exact E|]. cbn [negb] in Hm.
    exact (proj1 (WildArrayValuedSetFacts.entries_wild_equal_spec key element 0) Hm).
  - intros (key & v & Hv & Hlen & Hm). exists key. split.
    + apply list_elem_of_In, get_is_Some. eauto.
    + unfold WildArrayValuedSet.wild_same_array.
      rewrite (proj2 (Nat.eqb_eq _ _) Hlen). cbn [negb].
      exact (proj2 (WildArrayValuedSetFacts.entries_wild_equal_spec key element 0) Hm).
Qed.

End WildArrayKeyedMapFacts.

(** ** [checkValid] on integers *)

Module UtilsFacts.
Import Utils.

Lemma check_bounds_ok (v : Z) (o : Options) :
  check_bounds v o = Ok tt <-> within v o.
Proof.
  unfold check_bounds, within.
  destruct (min o) as [lo|], (max o) as [hi|].
  - destruct ((v <? lo) || (hi <? v))%Z eqn:E.
    + split; [discriminate|]. intros [H1 H2].
      specialize (H1 _ eq_refl). specialize (H2 _ eq_refl).
      apply orb_true_iff in E as [E|E]; apply Z.ltb_lt in E; lia.
    + apply orb_false_iff in E as [E1 E2]. apply Z.ltb_ge in E1, E2.
      split; [|reflexivity]. intros _. split; intros ? [= <-]; assumption.
  - destruct (v <? lo)%Z eqn:E.
    + split; [discriminate|]. intros [H1 _]. specialize (H1 _ eq_refl).
      apply Z.ltb_lt in E. lia.
    + apply Z.ltb_ge in E. split; [|reflexivity]. intros _.
      split; [intros ? [= <-]; assumption|discriminate].
  - destruct (hi <? v)%Z eqn:E.
    + split; [discriminate|]. intros [_ H2]. specialize (H2 _ eq_refl).
      apply Z.ltb_lt in E. lia.
    + apply Z.ltb_ge in E. split; [|reflexivity]. intros _.
      split; [discriminate|intros ? [= <-]; assumption].
  - split; [|reflexivity]. intros _. split; discriminate.
Qed.

Lemma check_bounds_throws (v : Z) (o : Options) (e : exn) :
  check_bounds v o = Throw e -> exists msg, e = RangeError msg.
Proof.
  unfold check_bounds.
  destruct (min o), (max o);
    repeat match goal with
      | |- context [if ?c then _ else _] => destruct c
      end; intros [=]; subst; eauto.
Qed.

Lemma checkValidInteger_ok (value : jsval) (o : Options) :
  checkValidInteger value o = Ok tt
  <-> exists v, value = JNum v /\ listed v o /\ within v o.
Proof.
  unfold checkValidInteger, listed.
  destruct value as [|v|whole part|str|p|k];
    try (split; [discriminate|intros (v & [=] & _)]).
  destruct (validValues o) as [vs|].
  - destruct (bool_decide (v ∈ vs)) eqn:Ev; cbn [negb].
    + apply bool_decide_eq_true in Ev. rewrite check_bounds_ok. split.
      * intros Hw. exists v. split; [reflexivity|].
        split; [now intros ? [= <-]|exact Hw].
      * now intros (v' & [= <-] & _ & Hw).
    + apply bool_decide_eq_false in Ev. split; [discriminate|].
      intros (v' & [= <-] & Hl & _). now specialize (Hl _ eq_refl).
  - rewrite check_bounds_ok. split.
    + intros Hw. exists v. split; [reflexivity|].
      split; [discriminate|exact Hw].
    + now intros (v' & [= <-] & _ & Hw).
Qed.

(** [checkValid] with the type [integer] returns exactly for [undefined]
    when the options allow it and for an integer that is listed in
    [validValues], not below [min] and not above [max], each as far as the
    option is given; and then it returns the value it was given.  A number
    that is no integer is refused with a TypeError, whatever the bounds
    are. *)
Theorem checkValid_returns_exactly_valid (value : jsval) (o : Options) :
  (forall r, checkValid value o = Ok r -> r = value)
  /\ ((exists r, checkValid value o = Ok r)
      <-> (value = JUndefined /\ allowUndefined o = true)
          \/ exists v, value = JNum v /\ listed v o /\ within v o)
  /\ (forall whole part,
        exists msg, checkValid (JFraction whole part) o = Throw (TypeError msg)).
Proof.
  split; [|split].
  - unfold checkValid.
    destruct (allowUndefined o && bool_decide (value = JUndefined)) eqn:E.
    + apply andb_true_iff in E as [_ Eu]. apply bool_decide_eq_true in Eu.
      now intros r [= <-].
    + destruct (checkValidInteger value o); [now intros r [= <-]|discriminate].
  - unfold checkValid.
    destruct (allowUndefined o && bool_decide (value = JUndefined)) eqn:E.
    + apply andb_true_iff in E as [Ea Eu]. apply bool_decide_eq_true in Eu.
      split; [auto|eauto].
    + destruct (checkValidInteger value o) as [[]|e] eqn:Ei.
      * apply checkValidInteger_ok in Ei. split; [auto|eauto].
      * split; [intros [r [=]]|]. intros [[-> Ea]|Hv].
        -- rewrite Ea, bool_decide_eq_true_2 in E by reflexivity. discriminate.
        -- apply checkValidInteger_ok in Hv. congruence.
  - intros whole part. unfold checkValid.
    rewrite bool_decide_eq_false_2, andb_false_r by discriminate.
    cbn [checkValidInteger]. eauto.
Qed.

(** When [checkValidInteger] throws, the class of the error tells why: a
    TypeError for a value that is no number or is not listed in
    [validValues], also when it is out of range as well; a RangeError for
    a listed number below [min] or above [max]. *)
Theorem checkValidInteger_error_kinds (value : jsval) (o : Options) (e : exn) :
  checkValidInteger value o = Throw e ->
  match e with
  | TypeError _ =>
      (forall v, value <> JNum v) \/ exists v, value = JNum v /\ ~ listed v o
  | RangeError _ =>
      exists v, value = JNum v /\ listed v o /\ ~ within v o
  | Error _ => False
  end.
Proof.
  unfold checkValidInteger.
  destruct value as [|v|whole part|str|p|k]; try (intros [= <-]; left; discriminate).
  assert (forall e, check_bounds v o = Throw e ->
            listed v o ->
            match e with
            | TypeError _ =>
                (forall v0, JNum v <> JNum v0)
                \/ exists v0, JNum v = JNum v0 /\ ~ listed v0 o
            | RangeError _ =>
                exists v0, JNum v = JNum v0 /\ listed v0 o /\ ~ within v0 o
            | Error _ => False
            end) as Hb.
  { intros e' He Hl. destruct (check_bounds_throws _ _ _ He) as [msg ->].
    exists v. split; [reflexivity|]. split; [exact Hl|].
    intros Hw. apply check_bounds_ok in Hw. congruence. }
  destruct (validValues o) as [vs|] eqn:Ev.
  - destruct (bool_decide (v ∈ vs)) eqn:Ein; cbn [negb].
    + apply bool_decide_eq_true in Ein. intros He. apply Hb; [exact He|].
      intros vs'. rewrite Ev. now intros [= <-].
    + apply bool_decide_eq_false in Ein. intros [= <-]. right. exists v.
      split; [reflexivity|]. intros Hl. apply Ein. now apply Hl.
  - intros He. apply Hb; [exact He|]. intros vs'. rewrite Ev. discriminate.
Qed.

Lemma checkValidInteger_error_kinds_witness :
  exists v, JNum 9 = JNum v
            /\ ~ listed v {| allowUndefined := false; name := "index";
                             validValues := Some [0; 1; 2]%Z;
                             min := Some 0%Z; max := Some 2%Z |}.
Proof.
  pose proof (checkValidInteger_error_kinds (JNum 9)
                {| allowUndefined := false; name := "index";
                   validValues := Some [0; 1; 2]%Z;
                   min := Some 0%Z; max := Some 2%Z |}
                (TypeError "Expected index to be one of: 0, 1, 2")
                eq_refl) as [H|H].
  - exfalso. now apply (H 9%Z).
  - exact H.
Defined.

End UtilsFacts.

(** ** [Image]: the timer of the animation over any sequence of calls *)

Module ImageLaws.
Import Image.

Ltac open_image :=
  simpl in *;
  cbv [startAnimation stopAnimation setCurrentFrame resetAnimation
       on_frameUpdated off_frameUpdated destroyImage tick nextFrame
       announce_and_rearm manageNextFrameTimeout armNextFrameTimeout
       clearNextFrameTimeout checkImageDestroyed unobserved not_animating
       unless_thrown emit set_animate set_nextFrameTimeoutId set_position
       set_frames set_destroyed set_frameUpdatedListeners set_loadListeners
       WIDTH HEIGHT animate nextFrameTimeoutId frames frameDelays frameCount
       currentFrame loopCount currentLoop destroyed frameUpdatedListeners
       loadListeners nextListenerId emitted].

Ltac image_fields :=
  cbn [WIDTH HEIGHT animate nextFrameTimeoutId frames frameDelays frameCount
       currentFrame loopCount currentLoop destroyed frameUpdatedListeners
       loadListeners nextListenerId emitted
       emit set_animate set_nextFrameTimeoutId set_position set_frames
       set_destroyed set_frameUpdatedListeners set_loadListeners
       clearNextFrameTimeout armNextFrameTimeout].

Ltac split_cases :=
  repeat match goal with
    | |- context [if ?c then _ else _] => destruct c eqn:?; simpl in *
    | |- context [match ?c with _ => _ end] => destruct c eqn:?; simpl in *
    | H : context [match ?c with _ => _ end] |- _ =>
        destruct c eqn:?; simpl in *; try discriminate
    end.

Ltac sound_tac :=
  unfold timer_sound in *; simpl in *;
  repeat match goal with
    | H : (_ =? _)%nat = false |- _ => apply Nat.eqb_neq in H
    | H : (_ =? _)%nat = true |- _ => apply Nat.eqb_eq in H
    | H : (_ <=? _)%nat = false |- _ => apply Nat.leb_gt in H
    | H : (_ <=? _)%nat = true |- _ => apply Nat.leb_le in H
    end;
  try solve [intuition (try congruence; try lia)].

Lemma sound_manage (i : t) : timer_sound i -> timer_sound (manageNextFrameTimeout i).
Proof. intros H. destruct i. open_image. split_cases; sound_tac. Qed.

Lemma sound_announce (i : t) :
  timer_sound i -> nextFrameTimeoutId i = None ->
  timer_sound (announce_and_rearm i).
Proof. intros H E. destruct i. open_image. subst. split_cases; sound_tac. Qed.

Lemma sound_position (f l : nat) (i : t) :
  timer_sound i -> timer_sound (set_position f l i).
Proof. intros H. destruct i. exact H. Qed.

Lemma sound_clear (i : t) : timer_sound i -> timer_sound (clearNextFrameTimeout i).
Proof. intros H. destruct i. open_image. sound_tac. Qed.

Lemma sound_start (i : t) : timer_sound i -> timer_sound (unless_thrown (startAnimation i) i).
Proof. intros H. destruct i. open_image. split_cases; sound_tac. Qed.

Lemma sound_stop (i : t) : timer_sound i -> timer_sound (stopAnimation i).
Proof. intros H. destruct i. open_image. split_cases; sound_tac. Qed.

Lemma sound_nextFrame (i : t) : timer_sound i -> timer_sound (nextFrame i).
Proof. intros H. destruct i. open_image. split_cases; sound_tac. Qed.

Lemma sound_tick (i : t) : timer_sound i -> timer_sound (tick i).
Proof.
  intros H. unfold tick. destruct (nextFrameTimeoutId i); [|exact H].
  now apply sound_nextFrame.
Qed.

(** The [checkValid] of [setCurrentFrame] on an image of [n] frames. *)
Lemma checkValid_currentFrame (value : jsval) (n : nat) :
  Utils.checkValid value
    {| Utils.allowUndefined := false; Utils.name := "currentFrame";
       Utils.validValues := None; Utils.min := Some 0%Z;
       Utils.max := Some (Z.of_nat n - 1)%Z |}
  = match value with
    | JNum frame =>
        if ((frame <? 0) || (Z.of_nat n - 1 <? frame))%Z
        then Throw (RangeError ("Expected currentFrame to be between 0 and "
                                +:+ pretty (Z.of_nat n - 1)%Z +:+ " inclusive"))
        else Ok (JNum frame)
    | _ => Throw (TypeError "Expected currentFrame to be an integer")
    end.
Proof.
  destruct value as [|frame| | | |]; try reflexivity.
  unfold Utils.checkValid, Utils.checkValidInteger, Utils.check_bounds.
  cbn [Utils.allowUndefined Utils.validValues Utils.min Utils.max Utils.name
       andb].
  destruct ((frame <? 0) || (Z.of_nat n - 1 <? frame))%Z; reflexivity.
Qed.

Lemma setCurrentFrame_live (value : jsval) (i : t) :
  destroyed i = false -> (1 < frameCount i)%nat ->
  setCurrentFrame value i
  = match value with
    | JNum frame =>
        if ((frame <? 0) || (Z.of_nat (frameCount i) - 1 <? frame))%Z
        then Throw (RangeError ("Expected currentFrame to be between 0 and "
                                +:+ pretty (Z.of_nat (frameCount i) - 1)%Z
                                +:+ " inclusive"))
        else Ok (announce_and_rearm
                   (set_position (Z.to_nat frame) (currentLoop i)
                      (clearNextFrameTimeout i)))
    | _ => Throw (TypeError "Expected currentFrame to be an integer")
    end.
Proof.
  intros Hd Hf. unfold setCurrentFrame, checkImageDestroyed. rewrite Hd.
  apply Nat.leb_gt in Hf. rewrite Hf, checkValid_currentFrame.
  destruct value as [|frame| | | |]; try reflexivity.
  destruct ((frame <? 0) || (Z.of_nat (frameCount i) - 1 <? frame))%Z;
    reflexivity.
Qed.

Lemma sound_setCurrentFrame (value : jsval) (i : t) :
  timer_sound i -> timer_sound (unless_thrown (setCurrentFrame value i) i).
Proof.
  intros H. destruct (destroyed i) eqn:Hd.
  { unfold setCurrentFrame, checkImageDestroyed. now rewrite Hd. }
  destruct (frameCount i <=? 1)%nat eqn:Hf.
  { unfold setCurrentFrame, checkImageDestroyed. now rewrite Hd, Hf. }
  apply Nat.leb_gt in Hf. rewrite (setCurrentFrame_live value i Hd Hf).
  destruct value as [|frame| | | |]; try exact H.
  destruct ((frame <? 0) || (Z.of_nat (frameCount i) - 1 <? frame))%Z;
    [exact H|].
  cbn [unless_thrown]. apply sound_announce.
  - now apply sound_position, sound_clear.
  - destruct i. reflexivity.
Qed.

Lemma sound_reset (i : t) :
  timer_sound i -> timer_sound (unless_thrown (resetAnimation i) i).
Proof. intros H. destruct i. open_image. split_cases; sound_tac. Qed.

Lemma sound_on (i : t) :
  timer_sound i -> timer_sound (unless_thrown (on_frameUpdated i) i).
Proof. intros H. destruct i. open_image. split_cases; sound_tac. Qed.

Lemma sound_off (i : t) : timer_sound i -> timer_sound (off_frameUpdated i).
Proof. intros H. destruct i. open_image. split_cases; sound_tac. Qed.

Lemma sound_destroy (i : t) :
  timer_sound i -> timer_sound (unless_thrown (destroyImage i) i).
Proof. intros H. destruct i. open_image. split_cases; sound_tac. Qed.

Lemma sound_passive (i j : t) :
  nextFrameTimeoutId j = nextFrameTimeoutId i -> animate j = animate i ->
  frameUpdatedListeners j = frameUpdatedListeners i ->
  destroyed j = destroyed i -> frameCount j = frameCount i ->
  timer_sound i -> timer_sound j.
Proof. unfold timer_sound. intros -> -> -> -> ->. trivial. Qed.

Lemma sound_rearm (i : t) :
  timer_sound i -> not_animating i = false -> unobserved i = false ->
  timer_sound (armNextFrameTimeout (clearNextFrameTimeout i)).
Proof.
  intros [_ H2] Ha Ho. unfold not_animating, unobserved in *.
  apply Nat.eqb_neq in Ho. split; [|exact H2].
  intros _. split; [|exact Ho].
  simpl. destruct (animate i) as [[|]|]; congruence.
Qed.

Lemma sound_loadListener (id nf nl loaded : nat) (i : t) :
  timer_sound i -> timer_sound (loadListener id nf nl loaded i).
Proof.
  intros H. unfold loadListener. destruct (loaded <? nf)%nat; [exact H|].
  cbv zeta.
  set (i1 := manageNextFrameTimeout (set_loadListeners _ _ i)).
  assert (timer_sound i1) as H1.
  { apply sound_manage. revert H. now apply sound_passive. }
  set (i2 := emit frameUpdated (set_position nf nl i1)).
  assert (timer_sound i2) as H2 by (revert H1; now apply sound_passive).
  destruct (not_animating i2) eqn:Ea; [exact H2|].
  destruct (unobserved i2) eqn:Eo; [exact H2|].
  now apply sound_rearm.
Qed.

Lemma sound_emit_frameLoaded (index : nat) (i : t) :
  timer_sound i -> timer_sound (emit_frameLoaded index i).
Proof.
  intros H. unfold emit_frameLoaded.
  assert (timer_sound (emit (frameLoaded index) i)) as H' by (destruct i; exact H).
  generalize (loadListeners i). intros ls.
  revert H'. generalize (emit (frameLoaded index) i).
  induction ls as [|l ls IH]; intros j Hj; [exact Hj|].
  simpl. apply IH. now apply sound_loadListener.
Qed.

Lemma sound_frame_done (index : nat) (frame : FrameData) (i : t) :
  timer_sound i -> timer_sound (frame_done index frame i).
Proof.
  intros H. unfold frame_done.
  assert (timer_sound (set_frames (frames i ++ [frame]) i)) as H1
    by (destruct i; exact H).
  apply (sound_emit_frameLoaded index) in H1.
  set (i1 := emit_frameLoaded index _) in *.
  assert (timer_sound (if (index =? currentFrame i1)%nat
                       then emit frameUpdated i1 else i1)) as H2.
  { destruct (index =? currentFrame i1)%nat; [|exact H1]. destruct i1; exact H1. }
  set (i2 := if (index =? currentFrame i1)%nat then _ else _) in *.
  destruct (_ && _); [|exact H2].
  apply (sound_start i2 H2).
Qed.

Lemma sound_perform (i : t) (c : call) : timer_sound i -> timer_sound (perform i c).
Proof.
  intros H. destruct c; simpl.
  - now apply sound_start.
  - now apply sound_stop.
  - now apply sound_nextFrame.
  - now apply sound_tick.
  - now apply sound_setCurrentFrame.
  - now apply sound_reset.
  - now apply sound_on.
  - now apply sound_off.
  - now apply sound_destroy.
  - now apply sound_frame_done.
Qed.

Lemma sound_replay (calls : list call) (i : t) :
  timer_sound i -> timer_sound (replay calls i).
Proof.
  revert i. induction calls as [|c calls IH]; intros i H; [exact H|].
  simpl. apply IH. now apply sound_perform.
Qed.

Lemma rest_perform (i : t) (c : call) :
  frameCount i = 1%nat -> at_rest i ->
  frameCount (perform i c) = 1%nat /\ at_rest (perform i c).
Proof.
  intros HF (H1 & H2 & H3 & H4). destruct c; simpl.
  - destruct i. open_image. subst. split_cases; unfold at_rest; simpl; auto.
  - destruct i. open_image. subst. split_cases; unfold at_rest; simpl; auto 6.
  - destruct i. open_image. subst. simpl. split_cases; unfold at_rest; simpl; auto.
  - destruct i. open_image. subst. simpl. unfold at_rest; simpl; auto.
  - destruct i. open_image. subst. simpl. split_cases; unfold at_rest; simpl; auto.
  - destruct i. open_image. subst. simpl. split_cases; unfold at_rest; simpl; auto.
  - destruct i. open_image. subst. simpl.
    split_cases; unfold at_rest; simpl; auto; try congruence.
  - destruct i. open_image. subst. simpl.
    split_cases; unfold at_rest; simpl; auto; try congruence.
  - destruct i. open_image. subst. simpl.
    split_cases; unfold at_rest; simpl; auto 6; try congruence.
  - unfold frame_done, emit_frameLoaded. destruct i. simpl in *. subst. simpl.
    destruct (index =? 0)%nat; simpl; unfold at_rest; simpl; auto.
Qed.

Lemma rest_replay (calls : list call) (i : t) :
  frameCount i = 1%nat -> at_rest i ->
  frameCount (replay calls i) = 1%nat /\ at_rest (replay calls i).
Proof.
  revert i. induction calls as [|c calls IH]; intros i HF H; [now split|].
  simpl. destruct (rest_perform i c HF H) as [HF' H']. now apply IH.
Qed.

Lemma constructed_at_rest (W H : Z) (observers : nat) :
  at_rest (constructed W H observers).
Proof. repeat split. discriminate. Qed.

Lemma sound_after_metadata (pages loop : option nat) (delay : option (list nat))
  (i : t) :
  at_rest i -> timer_sound (metadata_read pages loop delay i).
Proof.
  intros (H1 & H2 & _). split; simpl; intros H; [congruence|contradiction].
Qed.

(** An image is constructed, its metadata are read, and before and after
    that anything happens to it in any order: calls of its methods, timer
    expiries, frames arriving.  At the end a timer is pending only if the
    image animates, is observed, is not destroyed and has several
    frames. *)
Theorem no_timer_unless_animating_and_observed (W H : Z) (observers : nat)
  (before after : list call) (pages loop : option nat)
  (delay : option (list nat)) :
  let i := replay after
             (metadata_read pages loop delay
                (replay before (constructed W H observers))) in
  timer_sound i
  /\ (destroyed i = true -> nextFrameTimeoutId i = None)
  /\ (animate i <> Some true -> nextFrameTimeoutId i = None)
  /\ (frameUpdatedListeners i = 0%nat -> nextFrameTimeoutId i = None)
  /\ ((frameCount i <= 1)%nat -> nextFrameTimeoutId i = None).
Proof.
  intros i.
  assert (timer_sound i) as Hs.
  { apply sound_replay, sound_after_metadata.
    apply rest_replay; [reflexivity|apply constructed_at_rest]. }
  split; [exact Hs|]. destruct Hs as [H1 H2].
  destruct (nextFrameTimeoutId i) as [x|]; [|tauto].
  destruct H1 as [Ha Ho]; [discriminate|]. destruct (H2 Ha) as [Hd Hf].
  repeat split; intros E; try congruence; try lia.
Qed.

(** An image whose metadata name at most one frame never animates:
    whatever happens to it, it stays on frame 0 with no timer pending, and
    [setCurrentFrame] always throws. *)
Theorem single_frame_never_animates (W H : Z) (observers : nat)
  (before after : list call) (pages loop : option nat)
  (delay : option (list nat)) :
  (default 1 pages <= 1)%nat ->
  let i := replay after
             (metadata_read pages loop delay
                (replay before (constructed W H observers))) in
  frameCount i = 1%nat /\ currentFrame i = 0%nat
  /\ animate i <> Some true /\ nextFrameTimeoutId i = None
  /\ forall frame, exists e, setCurrentFrame frame i = Throw e.
Proof.
  intros Hp i.
  destruct (rest_replay before (constructed W H observers) eq_refl
              (constructed_at_rest W H observers)) as [HF Hr].
  set (i0 := replay before _) in *.
  assert (frameCount (metadata_read pages loop delay i0) = 1%nat) as HF1.
  { simpl. destruct pages as [[|[|n]]|]; simpl in Hp; try reflexivity; lia. }
  assert (at_rest (metadata_read pages loop delay i0)) as Hr1.
  { destruct Hr as (H1 & H2 & H3 & H4). repeat split; assumption. }
  destruct (rest_replay after _ HF1 Hr1) as [HFi (H1 & H2 & H3 & H4)].
  fold i in HFi, H1, H2, H3, H4.
  repeat split; try assumption.
  intros frame. unfold setCurrentFrame, checkImageDestroyed.
  destruct (destroyed i); [eauto|]. rewrite HFi. simpl. eauto.
Qed.

Lemma single_frame_never_animates_witness :
  let i := replay [OnFrameUpdated; StartAnimation; NextFrame]
             (metadata_read None None None
                (replay [StartAnimation] (constructed 72 72 0))) in
  frameCount i = 1%nat /\ currentFrame i = 0%nat
  /\ animate i <> Some true /\ nextFrameTimeoutId i = None
  /\ forall frame, exists e, setCurrentFrame frame i = Throw e.
Proof.
  apply (single_frame_never_animates 72 72 0 [StartAnimation]
           [OnFrameUpdated; StartAnimation; NextFrame] None None None).
  simpl. lia.
Defined.

Lemma getFrame_live (i : t) :
  destroyed i = false ->
  getFrame i = Ok (match frames i !! currentFrame i with
                   | Some f => Some f
                   | None => last (frames i)
                   end).
Proof.
  intros Hd. unfold getFrame, checkImageDestroyed. rewrite Hd.
  destruct (frames i !! currentFrame i) as [f|] eqn:E.
  - rewrite bool_decide_eq_true_2 by eauto. reflexivity.
  - rewrite bool_decide_eq_false_2 by (intros [? ?]; discriminate). simpl.
    destruct (frames i) as [|f fs] eqn:Efs; [reflexivity|].
    cbn [length Nat.eqb negb]. rewrite last_lookup.
    replace (S (length fs) - 1)%nat with (length fs) by lia. reflexivity.
Qed.

(** On a live image of several frames [setCurrentFrame(n)] succeeds exactly
    for an integer [n] with [0 <= n <= frameCount - 1].  For an integer out
    of this range it throws the RangeError of [checkValid], which names
    the bounds, and for any other value, a number that is no integer among
    them, its TypeError.  When it succeeds the image is on frame [n] of the
    same loop, [frameUpdated] was emitted once, and [getFrame] gives frame
    [n] if it is loaded, else the last loaded frame. *)
Theorem setCurrentFrame_in_range (i : t) (value : jsval) :
  destroyed i = false -> (1 < frameCount i)%nat ->
  let top := (Z.of_nat (frameCount i) - 1)%Z in
  match setCurrentFrame value i with
  | Ok j =>
      exists frame,
        value = JNum frame /\ (0 <= frame <= top)%Z
        /\ currentFrame j = Z.to_nat frame
        /\ currentLoop j = currentLoop i
        /\ emitted j = emitted i ++ [frameUpdated]
        /\ getFrame j = Ok (match frames i !! Z.to_nat frame with
                            | Some f => Some f
                            | None => last (frames i)
                            end)
  | Throw e =>
      match value with
      | JNum frame =>
          (frame < 0 \/ top < frame)%Z
          /\ e = RangeError ("Expected currentFrame to be between 0 and "
                             +:+ pretty top +:+ " inclusive")
      | _ => e = TypeError "Expected currentFrame to be an integer"
      end
  end.
Proof.
  intros Hd Hf top. rewrite (setCurrentFrame_live value i Hd Hf). fold top.
  destruct value as [|frame| | | |]; try reflexivity.
  destruct ((frame <? 0) || (top <? frame))%Z eqn:E.
  - split; [|reflexivity].
    apply orb_true_iff in E as [E|E]; apply Z.ltb_lt in E; lia.
  - apply orb_false_iff in E as [E1 E2]. apply Z.ltb_ge in E1, E2.
    exists frame. split; [reflexivity|]. split; [lia|].
    destruct (ImageFacts.announce_and_rearm_position
                (set_position (Z.to_nat frame) (currentLoop i)
                   (clearNextFrameTimeout i))) as (P1 & P2 & _).
    pose proof (ImageFacts.announce_and_rearm_film
                  (set_position (Z.to_nat frame) (currentLoop i)
                     (clearNextFrameTimeout i))) as (F1 & _ & _ & F4 & _).
    set (j := announce_and_rearm _) in *.
    split; [exact P1|]. split; [exact P2|].
    split.
    { unfold j, announce_and_rearm. cbv zeta.
      destruct (not_animating _); [reflexivity|].
      destruct (unobserved _); reflexivity. }
    rewrite (getFrame_live j).
    + rewrite P1, <- F4. reflexivity.
    + rewrite <- F1. exact Hd.
Qed.

Lemma setCurrentFrame_in_range_witness :
  (exists j, setCurrentFrame (JNum 1) film2 = Ok j /\ currentFrame j = 1%nat)
  /\ setCurrentFrame (JNum 2) film2
     = Throw (RangeError "Expected currentFrame to be between 0 and 1 inclusive")
  /\ setCurrentFrame (JFraction 0 1) film2
     = Throw (TypeError "Expected currentFrame to be an integer").
Proof.
  assert (destroyed film2 = false) as Hd by reflexivity.
  assert (1 < frameCount film2)%nat as Hf by (simpl; lia).
  split; [|split].
  - pose proof (setCurrentFrame_in_range film2 (JNum 1) Hd Hf) as H.
    cbv zeta in H.
    destruct (setCurrentFrame (JNum 1) film2) as [j|e].
    + destruct H as (frame & [= <-] & _ & H & _). eauto.
    + destruct H as [[H|H] _]; simpl in H; lia.
  - pose proof (setCurrentFrame_in_range film2 (JNum 2) Hd Hf) as H.
    cbv zeta in H.
    destruct (setCurrentFrame (JNum 2) film2) as [j|e].
    + destruct H as (frame & [= <-] & H & _). simpl in H. lia.
    + destruct H as [_ ->]. reflexivity.
  - pose proof (setCurrentFrame_in_range film2 (JFraction 0 1) Hd Hf) as H.
    cbv zeta in H.
    destruct (setCurrentFrame (JFraction 0 1) film2) as [j|e].
    + destruct H as (frame & [=] & _).
    + now rewrite H.
Defined.

(** Once [destroy()] has returned the image is marked destroyed, has no
    listener for [frameUpdated] and no timer pending, and [destroy] was the
    last event.  From then on [getFrame], [startAnimation],
    [setCurrentFrame], [resetAnimation], [on] and [destroy] throw, while
    [stopAnimation], [nextFrame] and a late timer leave it as it is. *)
Theorem destroyed_image_is_inert (i j : t) :
  destroyImage i = Ok j ->
  let gone := Error "Image has been destroyed!" in
  destroyed j = true /\ nextFrameTimeoutId j = None
  /\ frameUpdatedListeners j = 0%nat /\ last (emitted j) = Some destroy
  /\ getFrame j = Throw gone /\ startAnimation j = Throw gone
  /\ (forall frame, setCurrentFrame frame j = Throw gone)
  /\ resetAnimation j = Throw gone /\ on_frameUpdated j = Throw gone
  /\ destroyImage j = Throw gone
  /\ stopAnimation j = j /\ nextFrame j = j /\ tick j = j.
Proof.
  unfold destroyImage, checkImageDestroyed.
  destruct (destroyed i) eqn:Hd; [discriminate|]. intros [= <-]. cbv zeta.
  unfold stopAnimation. rewrite Hd.
  destruct i. open_image. rewrite last_snoc. repeat split.
Qed.

Lemma destroyed_image_is_inert_witness :
  exists j, destroyImage film2 = Ok j /\ destroyed j = true
            /\ startAnimation j = Throw (Error "Image has been destroyed!").
Proof.
  eexists. split; [reflexivity|].
  pose proof (destroyed_image_is_inert film2 _ eq_refl) as H.
  cbv zeta in H. split; [apply H|apply H].
Defined.

(** The first [frameUpdated] listener arms the timer of an animating image
    with the delay of the current frame, and arms nothing on an image that
    does not animate; taking that listener away again clears the timer and
    leaves the image as it was. *)
Theorem first_listener_arms_last_listener_clears (i : t) :
  destroyed i = false -> frameUpdatedListeners i = 0%nat ->
  nextFrameTimeoutId i = None ->
  exists j,
    on_frameUpdated i = Ok j
    /\ frameUpdatedListeners j = 1%nat
    /\ nextFrameTimeoutId j
       = (if not_animating i then None
          else Some (frameDelays i !! currentFrame i))
    /\ off_frameUpdated j = i.
Proof.
  intros Hd Hn Ht. eexists. split.
  - unfold on_frameUpdated, checkImageDestroyed. rewrite Hd. reflexivity.
  - destruct i. simpl in *. subst. open_image.
    destruct animate0 as [[|]|]; simpl; repeat split.
Qed.

Lemma first_listener_arms_last_listener_clears_witness :
  exists j,
    on_frameUpdated (loaded [blank_frame; blank_frame] [100; 200]%nat 0 0 (Some true))
    = Ok j
    /\ nextFrameTimeoutId j = Some (Some 100%nat).
Proof.
  destruct (first_listener_arms_last_listener_clears
              (loaded [blank_frame; blank_frame] [100; 200]%nat 0 0 (Some true))
              eq_refl eq_refl eq_refl) as (j & H1 & _ & H3 & _).
  exists j. split; [exact H1|exact H3].
Defined.

(** The arrival of frame 0 puts it in the table and announces it with
    [frameLoaded] and [frameUpdated].  It starts the animation of an image
    of several frames if neither [startAnimation] nor [stopAnimation] was
    called before, arming the timer with the delay of frame 0 when the
    image is observed; an image stopped before its first frame stays
    stopped. *)
Theorem first_frame_starts_animation (i : t) (frame : FrameData) :
  destroyed i = false -> frames i = [] -> loadListeners i = [] ->
  currentFrame i = 0%nat -> nextFrameTimeoutId i = None ->
  let j := frame_done 0 frame i in
  getFrame j = Ok (Some frame)
  /\ emitted j = emitted i ++ [frameLoaded 0; frameUpdated]
  /\ animate j = match animate i with
                 | None => if (1 <? frameCount i)%nat then Some true else None
                 | Some a => Some a
                 end
  /\ (animate i = None ->
      nextFrameTimeoutId j
      = (if (1 <? frameCount i)%nat && negb (unobserved i)
         then Some (frameDelays i !! 0%nat) else None)).
Proof.
  intros Hd Hf Hl Hc Ht. destruct i. simpl in *. subst.
  unfold frame_done, emit_frameLoaded. open_image. simpl.
  destruct animate0 as [[|]|]; simpl.
  - rewrite andb_false_r. simpl. repeat split; try discriminate. now rewrite <- app_assoc.
  - rewrite andb_false_r. simpl. repeat split; try discriminate. now rewrite <- app_assoc.
  - destruct frameCount0 as [|[|n]]; simpl;
      try (repeat split; now rewrite <- app_assoc).
    destruct (frameUpdatedListeners0 =? 0)%nat; repeat split; now rewrite <- app_assoc.
Qed.

Lemma first_frame_starts_animation_witness :
  let i := metadata_read (Some 2%nat) None (Some [100; 100]%nat)
             (constructed 72 72 1) in
  let j := frame_done 0 blank_frame i in
  animate j = Some true /\ nextFrameTimeoutId j = Some (Some 100%nat).
Proof.
  intros i j.
  pose proof (first_frame_starts_animation i blank_frame eq_refl eq_refl
                eq_refl eq_refl eq_refl) as (_ & _ & H3 & H4).
  split; [exact H3|exact (H4 eq_refl)].
Defined.

Lemma manage_only_timer (s : t) :
  exists x, manageNextFrameTimeout s = set_nextFrameTimeoutId x s.
Proof.
  unfold manageNextFrameTimeout.
  destruct (unobserved s); [eexists; reflexivity|].
  destruct (not_animating s); [exists (nextFrameTimeoutId s); now destruct s|].
  destruct (nextFrameTimeoutId s) eqn:E; [|eexists; reflexivity].
  exists (Some o). destruct s; simpl in *. now subst.
Qed.

Lemma rearm_only_timer (s : t) :
  exists x,
    (if not_animating s then s
     else if unobserved s then s
          else armNextFrameTimeout (clearNextFrameTimeout s))
    = set_nextFrameTimeoutId x s.
Proof.
  destruct (not_animating s); [exists (nextFrameTimeoutId s); now destruct s|].
  destruct (unobserved s); [exists (nextFrameTimeoutId s); now destruct s|].
  eexists. destruct s; reflexivity.
Qed.

(** [nextFrame] on an image whose next frame is still loading does not
    move: it waits.  When that frame arrives the image moves to it, and
    [frameUpdated] is emitted twice, once by the waiting listener and once
    by the loader. *)
Theorem nextFrame_waits_for_the_frame (i : t) (frame : FrameData) :
  destroyed i = false -> loadListeners i = [] ->
  let n := length (frames i) in
  (currentFrame i + 1 = n)%nat -> (n < frameCount i)%nat ->
  let j := nextFrame i in
  let k := frame_done n frame j in
  currentFrame j = currentFrame i /\ emitted j = emitted i
  /\ currentFrame k = n /\ currentLoop k = currentLoop i
  /\ getFrame k = Ok (Some frame)
  /\ emitted k = emitted i ++ [frameLoaded n; frameUpdated; frameUpdated]
  /\ loadListeners k = [].
Proof.
  intros Hd Hl n Hn Hlt j k.
  assert (j = manageNextFrameTimeout
                (set_loadListeners [(nextListenerId i, (n, currentLoop i))]
                   (S (nextListenerId i)) (clearNextFrameTimeout i))) as Hj.
  { unfold j, nextFrame. rewrite Hd.
    replace (frameCount i <=? 1)%nat with false by (symmetry; apply Nat.leb_gt; lia).
    cbv zeta. change (frameCount (clearNextFrameTimeout i)) with (frameCount i).
    change (currentFrame (clearNextFrameTimeout i)) with (currentFrame i).
    change (frames (clearNextFrameTimeout i)) with (frames i).
    change (loadListeners (clearNextFrameTimeout i)) with (loadListeners i).
    rewrite Hn, Hl.
    replace (frameCount i <=? n)%nat with false by (symmetry; apply Nat.leb_gt; lia).
    simpl. fold n. rewrite Nat.ltb_irrefl. reflexivity. }
  destruct (manage_only_timer
              (set_loadListeners [(nextListenerId i, (n, currentLoop i))]
                 (S (nextListenerId i)) (clearNextFrameTimeout i))) as [x Hx].
  rewrite Hx in Hj. clear Hx.
  assert (n <> 0%nat) as Hn0 by lia. apply Nat.eqb_neq in Hn0.
  unfold k, frame_done, emit_frameLoaded. rewrite Hj.
  cbn [loadListeners set_frames set_nextFrameTimeoutId set_loadListeners emit
       fold_left fst snd].
  unfold loadListener. rewrite Nat.ltb_irrefl. cbv zeta.
  match goal with
  | |- context [manageNextFrameTimeout ?s] =>
      destruct (manage_only_timer s) as [y Hy]; rewrite Hy; clear Hy
  end.
  match goal with
  | |- context [if not_animating ?s then _ else _] =>
      destruct (rearm_only_timer s) as [z Hz]; rewrite Hz; clear Hz
  end.
  image_fields.
  rewrite Nat.eqb_refl, Hn0. cbn [andb].
  unfold getFrame, checkImageDestroyed. image_fields.
  rewrite Hd. rewrite filter_cons_False by (intros H; now apply H).
  fold n. rewrite lookup_app_r, Nat.sub_diag by (unfold n; lia).
  rewrite bool_decide_eq_true_2 by (simpl; eauto).
  repeat split; simpl; rewrite <- ?app_assoc; reflexivity.
Qed.

Lemma nextFrame_waits_for_the_frame_witness :
  let i := metadata_read (Some 2%nat) None (Some [100; 100]%nat)
             (set_frames [blank_frame] (constructed 72 72 1)) in
  let k := frame_done 1 blank_frame (nextFrame i) in
  currentFrame (nextFrame i) = 0%nat /\ currentFrame k = 1%nat.
Proof.
  intros i k.
  pose proof (nextFrame_waits_for_the_frame i blank_frame eq_refl eq_refl
                eq_refl (le_n 2)) as (H1 & _ & H3 & _).
  split; [exact H1|exact H3].
Defined.

End ImageLaws.

(** ** [parseColor] and [checkValidColor] *)

Module ColorsFacts.
Import Loader Colors.

Lemma hex_value_range (c : ascii) (v : Z) :
  hex_value c = Some v -> (0 <= v <= 15)%Z.
Proof.
  unfold hex_value. cbv zeta.
  repeat match goal with
         | |- context [if ?b then _ else _] => destruct b eqn:?
         end; intros [= <-]; lia.
Qed.

Lemma is_hex_value (c : ascii) :
  is_hex c = true -> exists v, hex_value c = Some v /\ (0 <= v <= 15)%Z.
Proof.
  unfold is_hex. destruct (hex_value c) as [v|] eqn:E; [|discriminate].
  intros _. exists v. split; [reflexivity|]. exact (hex_value_range c v E).
Qed.

Lemma body_without_hash (c : ascii) (rest : string) :
  is_hex c = true ->
  match String c rest with
  | String "#" rest' => rest'
  | _ => String c rest
  end = String c rest.
Proof.
  intros H.
  destruct c as [[] [] [] [] [] [] [] []];
    first [reflexivity|vm_compute in H; discriminate].
Qed.

Lemma channel_one (c : ascii) (v : Z) :
  hex_value c = Some v -> channel (text [c]) = Some (17 * v)%Z.
Proof.
  intros H. unfold channel, parseInt16, text. cbn -[hex_value Z.mul Z.add].
  change (String c "" +:+ String c "") with (String c (String c "")).
  cbn -[hex_value Z.mul Z.add]. rewrite H. f_equal. lia.
Qed.

Lemma channel_two (c d : ascii) (v u : Z) :
  hex_value c = Some v -> hex_value d = Some u ->
  channel (text [c; d]) = Some (16 * v + u)%Z.
Proof.
  intros Hc Hd. unfold channel, parseInt16, text. cbn -[hex_value Z.mul Z.add].
  rewrite Hc, Hd. f_equal.
Qed.

Lemma color_match_digits (c : ascii) (cs : list ascii) :
  forallb is_hex (c :: cs) = true ->
  color_match (text (c :: cs))
  = match c :: cs with
    | [r; g; b] =>
        Some {| g_red := text [r]; g_green := text [g]; g_blue := text [b];
                g_alpha := None |}
    | [r; g; b; a] =>
        Some {| g_red := text [r]; g_green := text [g]; g_blue := text [b];
                g_alpha := Some (text [a]) |}
    | [r1; r2; g1; g2; b1; b2] =>
        Some {| g_red := text [r1; r2]; g_green := text [g1; g2];
                g_blue := text [b1; b2]; g_alpha := None |}
    | [r1; r2; g1; g2; b1; b2; a1; a2] =>
        Some {| g_red := text [r1; r2]; g_green := text [g1; g2];
                g_blue := text [b1; b2]; g_alpha := Some (text [a1; a2]) |}
    | _ => None
    end.
Proof.
  intros H. unfold color_match.
  change (text (c :: cs)) with (String c (text cs)). cbv beta iota zeta.
  rewrite body_without_hash by (cbn in H; now apply andb_true_iff in H as [H _]).
  change (String c (text cs)) with (string_of_list_ascii (c :: cs)).
  rewrite list_ascii_of_string_of_list_ascii, H. reflexivity.
Qed.

Lemma color_match_hash (s : string) :
  color_match (String "#" s)
  = if forallb is_hex (list_ascii_of_string s)
    then match list_ascii_of_string s with
         | [] => None
         | c :: cs => color_match (text (c :: cs))
         end
    else None.
Proof.
  unfold color_match at 1. cbv beta iota zeta.
  destruct (forallb is_hex (list_ascii_of_string s)) eqn:E; [|reflexivity].
  destruct (list_ascii_of_string s) as [|c cs] eqn:Es; [reflexivity|].
  now rewrite color_match_digits.
Qed.

(** The shorthand of a hex colour: each digit stands for itself doubled,
    a colour without alpha is opaque, and the leading [#] may be left
    out. *)
Theorem short_hex_doubles_each_digit (r g b : ascii) :
  is_hex r = true -> is_hex g = true -> is_hex b = true ->
  exists vr vg vb,
    hex_value r = Some vr /\ hex_value g = Some vg /\ hex_value b = Some vb
    /\ hex_channels (text [r; g; b])
       = Some (Some (17 * vr), Some (17 * vg), Some (17 * vb), Some 255)%Z
    /\ hex_channels (text [r; r; g; g; b; b]) = hex_channels (text [r; g; b])
    /\ hex_channels (String "#" (text [r; g; b])) = hex_channels (text [r; g; b]).
Proof.
  intros Hr Hg Hb.
  destruct (is_hex_value r Hr) as (vr & Er & _).
  destruct (is_hex_value g Hg) as (vg & Eg & _).
  destruct (is_hex_value b Hb) as (vb & Eb & _).
  exists vr, vg, vb. split; [exact Er|]. split; [exact Eg|]. split; [exact Eb|].
  assert (hex_channels (text [r; g; b])
          = Some (Some (17 * vr), Some (17 * vg), Some (17 * vb), Some 255)%Z) as E3.
  { unfold hex_channels. rewrite color_match_digits
      by (cbn [forallb]; now rewrite Hr, Hg, Hb).
    cbn [g_red g_green g_blue g_alpha default from_option id].
    now rewrite (channel_one r vr), (channel_one g vg), (channel_one b vb). }
  split; [exact E3|]. split.
  - rewrite E3. unfold hex_channels. rewrite color_match_digits
      by (cbn [forallb]; now rewrite Hr, Hg, Hb).
    cbn [g_red g_green g_blue g_alpha default from_option id].
    rewrite (channel_two r r vr vr), (channel_two g g vg vg),
      (channel_two b b vb vb) by assumption.
    repeat f_equal; lia.
  - unfold hex_channels at 1. rewrite color_match_hash. unfold text at 1 2.
    rewrite list_ascii_of_string_of_list_ascii.
    cbn [forallb]. rewrite Hr, Hg, Hb. reflexivity.
Qed.

Lemma short_hex_doubles_each_digit_witness :
  hex_channels "fa3" = Some (Some 255, Some 170, Some 51, Some 255)%Z
  /\ hex_channels "ffaa33" = hex_channels "fa3"
  /\ hex_channels "#fa3" = hex_channels "fa3".
Proof.
  destruct (short_hex_doubles_each_digit "f" "a" "3" eq_refl eq_refl eq_refl)
    as (vr & vg & vb & Er & Eg & Eb & H1 & H2 & H3).
  vm_compute in Er, Eg, Eb.
  injection Er as <-. injection Eg as <-. injection Eb as <-.
  split; [exact H1|]. split; [exact H2|exact H3].
Defined.

Lemma channel_byte_one (c : ascii) :
  is_hex c = true -> byte (channel (text [c])).
Proof.
  intros H. destruct (is_hex_value c H) as (v & E & Hv).
  exists (17 * v)%Z. split; [now apply channel_one|lia].
Qed.

Lemma channel_byte_two (c d : ascii) :
  is_hex c = true -> is_hex d = true -> byte (channel (text [c; d])).
Proof.
  intros Hc Hd. destruct (is_hex_value c Hc) as (v & E & Hv).
  destruct (is_hex_value d Hd) as (u & E' & Hu).
  exists (16 * v + u)%Z. split; [now apply channel_two|lia].
Qed.

Lemma channel_FF : byte (channel "FF").
Proof. exists 255%Z. split; [reflexivity|lia]. Qed.

Ltac split_digits cs :=
  destruct cs as [|? cs];
  [try discriminate|first [discriminate|split_digits cs]].

Lemma hex_channels_bytes (s : string) :
  is_Some (color_match s) ->
  exists r g b a,
    hex_channels s = Some (r, g, b, a)
    /\ byte r /\ byte g /\ byte b /\ byte a.
Proof.
  unfold hex_channels, color_match. cbv zeta.
  generalize (list_ascii_of_string
                match s with
                | String "#" rest => rest
                | _ => s
                end).
  intros cs [G HG]. destruct (forallb is_hex cs) eqn:Hcs; [|discriminate].
  rewrite HG.
  split_digits cs;
    injection HG as <-; cbn [forallb] in Hcs;
    repeat (apply andb_true_iff in Hcs as [? Hcs]);
    cbn [g_red g_green g_blue g_alpha default from_option id];
    do 4 eexists; (split; [reflexivity|]);
    repeat split;
    first [now apply channel_byte_one | now apply channel_byte_two
          | apply channel_FF].
Qed.

Lemma in_byte_spec (v : Z) : in_byte v = true <-> (0 <= v <= 255)%Z.
Proof. unfold in_byte. rewrite andb_true_iff, !Z.leb_le. reflexivity. Qed.

Section Accepted.

Variable colorNames : string -> option string.

(** The hex codes of the [colornames] package are hex colour codes. *)
Hypothesis names_are_hex :
  forall s hex, named colorNames s = Some hex -> is_Some (color_match hex).

Lemma channels_of_accepted (value : Color) :
  valid_color colorNames value = true ->
  exists r g b a,
    channels_of colorNames value = Ok (r, g, b, a)
    /\ byte r /\ byte g /\ byte b /\ (a = None \/ byte a).
Proof.
  destruct value as [s|cs|r g b a]; cbn [valid_color channels_of]; intros H.
  - assert (is_Some (color_match (default s (named colorNames s)))) as Hm.
    { destruct (named colorNames s) as [hex|] eqn:E; cbn.
      - now apply (names_are_hex s).
      - rewrite orb_false_r in H. now apply bool_decide_eq_true in H. }
    destruct (hex_channels_bytes _ Hm) as (r & g & b & a & -> & ? & ? & ? & ?).
    exists r, g, b, a. repeat split; auto.
  - apply andb_true_iff in H as [Hl Hall].
    apply negb_true_iff, orb_false_iff in Hl as [H3 H4].
    apply Nat.ltb_ge in H3, H4.
    destruct cs as [|r [|g [|b [|a [|? cs]]]]]; cbn in H3, H4; try lia;
      cbn [forallb] in Hall;
      repeat (apply andb_true_iff in Hall as [? Hall]).
    + exists (Some r), (Some g), (Some b), None. split; [reflexivity|].
      repeat split; try (now left);
        (eexists; split; [reflexivity|now apply in_byte_spec]).
    + exists (Some r), (Some g), (Some b), (Some a). split; [reflexivity|].
      repeat split; try right;
        (eexists; split; [reflexivity|now apply in_byte_spec]).
  - apply andb_true_iff in H as [H Ha]. apply andb_true_iff in H as [H Hb].
    apply andb_true_iff in H as [Hr Hg].
    exists (Some r), (Some g), (Some b), a. split; [reflexivity|].
    repeat split; try (eexists; split; [reflexivity|now apply in_byte_spec]).
    destruct a as [a|]; [right|now left].
    eexists; split; [reflexivity|now apply in_byte_spec].
Qed.

(** A colour that [checkValidColor] accepts is one that [parseColor]
    parses: it returns the three colour channels, each a number from 0 to
    255, named [r], [g], [b] under [shortNames], and [alpha], a number from
    0 to 255 or [undefined], unless [excludeAlpha] is set. *)
Theorem accepted_color_parses (value : Color) (name : string)
  (allowUndefined : bool) (o : ParseOptions) :
  checkValidColor colorNames value name allowUndefined = Ok tt ->
  exists r g b a,
    parseColor colorNames value o
    = Ok ([((if shortNames o then "r" else "red")%string, r);
           ((if shortNames o then "g" else "green")%string, g);
           ((if shortNames o then "b" else "blue")%string, b)]
          ++ if excludeAlpha o then [] else [("alpha"%string, a)])
    /\ byte r /\ byte g /\ byte b /\ (a = None \/ byte a).
Proof.
  unfold checkValidColor. destruct (valid_color colorNames value) eqn:Hv;
    [intros _|discriminate].
  destruct (channels_of_accepted value Hv) as (r & g & b & a & E & H).
  exists r, g, b, a. split; [|exact H].
  unfold parseColor. rewrite E.
  destruct (shortNames o), (excludeAlpha o); reflexivity.
Qed.

End Accepted.

Lemma accepted_color_parses_witness :
  exists r g b a,
    parseColor only_red (ColorString "red")
      {| shortNames := true; excludeAlpha := false |}
    = Ok [("r", r); ("g", g); ("b", b); ("alpha", a)]%string
    /\ byte r /\ byte g /\ byte b /\ (a = None \/ byte a).
Proof.
  apply (accepted_color_parses only_red) with (name := "color"%string)
    (allowUndefined := false).
  - intros s hex. unfold named, only_red.
    destruct (String.eqb s "red"); [|discriminate].
    intros [= <-]. vm_compute. eauto.
  - reflexivity.
Defined.

End ColorsFacts.

(** ** [attachKey] and [detachKey]: slots, validation, order *)

Module AttachLaws.
Import Deck Frames QueueFrames.

Lemma find_first {A} (f : A -> bool) (l1 l2 : list A) (x : A) :
  Forall (fun y => f y = false) l1 -> f x = true ->
  find f (l1 ++ x :: l2) = Some x.
Proof.
  induction 1 as [|y l1 Hy _ IH]; intros Hx; simpl.
  - now rewrite Hx.
  - rewrite Hy. now apply IH.
Qed.

Lemma find_all_false {A} (f : A -> bool) (l : list A) :
  Forall (fun y => f y = false) l -> find f l = None.
Proof. induction 1 as [|y l Hy _ IH]; simpl; [reflexivity|now rewrite Hy]. Qed.

Lemma first_free_slot_least (D : StreamDeck.t) (P : Page.t) (index : Z) :
  (0 <= index < StreamDeck.KEY_COUNT D)%Z ->
  JsMap.get (Page.keys P) index = None ->
  (forall j, (0 <= j < index)%Z -> JsMap.get (Page.keys P) j <> None) ->
  first_free_slot D P = Some index.
Proof.
  intros Hr Hfree Hbelow. unfold first_free_slot.
  replace (StreamDeck.KEY_COUNT D)
    with (index + (StreamDeck.KEY_COUNT D - index))%Z by lia.
  rewrite seqZ_app by lia. rewrite Z.add_0_l.
  rewrite (seqZ_cons index) by lia.
  apply find_first.
  - apply Forall_forall. intros j Hj. apply elem_of_seqZ in Hj.
    apply negb_false_iff, JsMapFacts.has_get.
    destruct (JsMap.get (Page.keys P) j) eqn:E; [eauto|].
    now destruct (Hbelow j ltac:(lia)).
  - now apply negb_true_iff, JsMapFacts.has_false_get.
Qed.

Lemma first_free_slot_none (D : StreamDeck.t) (P : Page.t) :
  (forall j, (0 <= j < StreamDeck.KEY_COUNT D)%Z ->
     JsMap.get (Page.keys P) j <> None) ->
  first_free_slot D P = None.
Proof.
  intros Hfull. unfold first_free_slot. apply find_all_false.
  apply Forall_forall. intros j Hj. apply elem_of_seqZ in Hj.
  apply negb_false_iff, JsMapFacts.has_get.
  destruct (JsMap.get (Page.keys P) j) eqn:E; [eauto|].
  now destruct (Hfull j ltac:(lia)).
Qed.

(** [attachKey(key)] without a slot puts the key in the lowest free slot
    of the page and tells the deck, the page and the key; on a page whose
    slots are all taken it throws and changes nothing. *)
Theorem attachKey_takes_lowest_free_slot (w : World) (p : pid) (P : Page.t)
  (K : Key.t) (k : kid) :
  pages w !! p = Some P -> Page.destroyed P = false ->
  keys w !! k = Some K -> Key.destroyed K = false ->
  let r := attachKey p (JKey k) JUndefined JUndefined w in
  (forall index,
     (0 <= index < StreamDeck.KEY_COUNT (deck w))%Z ->
     JsMap.get (Page.keys P) index = None ->
     (forall j, (0 <= j < index)%Z -> JsMap.get (Page.keys P) j <> None) ->
     snd r = Ok tt
     /\ attachments p (fst r) = Some (Page.keys P ++ [(index, k)])
     /\ emitted_since w (fst r)
        = [said OnDeck attach (Some index) (Some p) (Some k);
           said (OnPage p) attach (Some index) (Some p) (Some k);
           said (OnKey k) attach (Some index) (Some p) (Some k)])
  /\ ((forall j, (0 <= j < StreamDeck.KEY_COUNT (deck w))%Z ->
         JsMap.get (Page.keys P) j <> None) ->
      r = (w, Throw (Error "There are no free key slots on this Page"))).
Proof.
  intros Hp Hd Hk HKd r. split.
  - intros index Hr Hfree Hbelow. unfold r, attachKey. rewrite Hp, Hd.
    cbn [slot_of_arguments].
    rewrite (first_free_slot_least _ _ _ Hr Hfree Hbelow).
    unfold check_key. rewrite Hk, HKd. cbn [negb andb].
    rewrite (proj2 (JsMapFacts.has_false_get _ _) Hfree). rewrite Hp.
    rewrite (JsMapFacts.set_absent _ _ _ Hfree).
    cbn [fst snd]. split; [reflexivity|].
    unfold attachments, emitted_since.
    rewrite pages_key_draw, log_key_draw.
    rewrite pages_key_emit, Release.log_key_emit by discriminate.
    unfold page_emit, deck_emit. framed.
    rewrite lookup_insert_eq. split; [reflexivity|].
    rewrite <- !app_assoc. now rewrite drop_app_length.
  - intros Hfull. unfold r, attachKey. rewrite Hp, Hd.
    cbn [slot_of_arguments]. now rewrite (first_free_slot_none _ _ Hfull).
Qed.

Lemma attachKey_takes_lowest_free_slot_witness :
  let w := desk None None None in
  let P := default (Page.create None 0) (pages w !! 0%nat) in
  snd (attachKey 0 (JKey 1) JUndefined JUndefined w) = Ok tt
  /\ attachments 0 (fst (attachKey 0 (JKey 1) JUndefined JUndefined w))
     = Some (Page.keys P ++ [(1%Z, 1%nat)]).
Proof.
  intros w P.
  destruct (attachKey_takes_lowest_free_slot w 0 P
              (default (Key.create None 0 0) (keys w !! 1%nat)) 1%nat)
    as [H _]; [vm_compute; reflexivity..|].
  destruct (H 1%Z) as (H1 & H2 & _).
  - vm_compute. split; [discriminate|reflexivity].
  - reflexivity.
  - intros j Hj. assert (j = 0%Z) as -> by lia. discriminate.
  - split; [exact H1|exact H2].
Defined.

Lemma detachKey_throw_keeps (p : pid) (row column key : jsval) (w : World)
  (e : exn) :
  snd (detachKey p row column key w) = Throw e -> e <> emit_of_undefined ->
  fst (detachKey p row column key w) = w.
Proof.
  unfold detachKey.
  destruct (pages w !! p) as [P|]; [|discriminate].
  destruct (Page.destroyed P); [reflexivity|].
  destruct (slot_of_arguments (deck w) row column key) as [[index key']|];
    [|reflexivity].
  destruct (check_key _ true key' w); [|reflexivity].
  destruct (find _ _) as [[attachedIndex attachedKey]|]; [|discriminate].
  destruct key'; try discriminate; cbn [snd]; intros [= <-] H; now contradiction H.
Qed.

(** Every way in which [attachKey] and [detachKey] can fail, the TypeError
    of the [emit] on a missing key apart, is found before anything is
    written: the call throws and the deck, the pages, the keys, the timers
    and the log are what they were. *)
Theorem attach_and_detach_validate_first (p : pid) (row column key : jsval)
  (w : World) :
  (forall e, snd (attachKey p row column key w) = Throw e ->
     e <> emit_of_undefined -> fst (attachKey p row column key w) = w)
  /\ (forall e, snd (detachKey p row column key w) = Throw e ->
       e <> emit_of_undefined -> fst (detachKey p row column key w) = w).
Proof.
  split; [|intros e; apply detachKey_throw_keeps].
  intros e. unfold attachKey.
  destruct (pages w !! p) as [P|]; [|discriminate].
  destruct (Page.destroyed P); [reflexivity|].
  set (chosen := match slot_of_arguments (deck w) row column key with
                 | Ok (Some index, key0) => Ok (index, key0)
                 | Ok (None, key0) => _
                 | Throw e0 => Throw e0
                 end).
  destruct chosen as [[index key']|]; [|reflexivity].
  destruct (check_key false false key' w); [|reflexivity].
  destruct key' as [| | | | |k]; try reflexivity.
  destruct (JsMap.has (Page.keys P) index).
  - pose proof (detachKey_throw_keeps p (JNum index) JUndefined JUndefined w) as Hd.
    destruct (detachKey p (JNum index) JUndefined JUndefined w) as [w1 [[]|e1]].
    + destruct (pages w1 !! p); discriminate.
    + cbn [fst snd] in *. intros [= <-] Hne. now apply (Hd e1).
  - destruct (pages w !! p); discriminate.
Qed.

(** [detachKey(key)] without a slot detaches the key from one slot only,
    the first in the order of attachment that holds it, even when the key
    sits in several slots; it tells the deck, the page and the key and
    queues a redraw of the page. *)
Theorem detachKey_by_key_detaches_first (w : World) (p : pid) (P : Page.t)
  (k : kid) (index : Z) (before after : list (Z * kid)) :
  pages w !! p = Some P -> Page.destroyed P = false ->
  Page.keys P = before ++ (index, k) :: after ->
  (forall e, e ∈ before -> snd e <> k) ->
  let r := detachKey p (JKey k) JUndefined JUndefined w in
  snd r = Ok tt
  /\ attachments p (fst r) = Some (JsMap.delete (Page.keys P) index)
  /\ emitted_since w (fst r)
     = [said OnDeck detach (Some index) (Some p) (Some k);
        said (OnPage p) detach (Some index) (Some p) (Some k);
        said (OnKey k) detach (Some index) (Some p) (Some k)]
  /\ graphicsQueue (fst r) = graphicsQueue w ++ [DrawPage p].
Proof.
  intros Hp Hd Hkeys Hfirst r. unfold r, detachKey. rewrite Hp, Hd.
  cbn [slot_of_arguments].
  assert (check_key (bool_decide (is_Some None)) true (JKey k) w = Ok tt) as ->.
  { unfold check_key. destruct (keys w !! k); reflexivity. }
  assert (find (detach_matches None (JKey k)) (JsMap.entries (Page.keys P))
          = Some (index, k)) as ->.
  { unfold JsMap.entries. rewrite Hkeys. apply find_first.
    - apply Forall_forall. intros e He. unfold detach_matches. cbn [andb].
      apply bool_decide_eq_false. intros [= E]. now apply (Hfirst e).
    - unfold detach_matches. cbn [andb snd]. now apply bool_decide_eq_true. }
  cbn [fst snd]. split; [reflexivity|].
  unfold attachments, emitted_since.
  assert (pages (put_page p (Page.set_keys (JsMap.delete (Page.keys P) index) P) w)
            !! p
          = Some (Page.set_keys (JsMap.delete (Page.keys P) index) P)) as Hp1
    by (fields; apply lookup_insert_eq).
  set (w1 := put_page p _ w) in *.
  set (w2 := deck_emit detach (Some index) (Some p) (Some k) w1).
  set (w3 := page_emit p detach (Some index) (Some p) (Some k) w2).
  set (w4 := key_emit k detach (Some index) (Some p) (Some k) w3).
  assert (pages w4 = pages w1) as Hpages by (unfold w4, w3, w2; now framed).
  assert (log w4 = log w ++ [said OnDeck detach (Some index) (Some p) (Some k);
                             said (OnPage p) detach (Some index) (Some p) (Some k);
                             said (OnKey k) detach (Some index) (Some p) (Some k)])
    as Hlog.
  { unfold w4. rewrite Release.log_key_emit by discriminate.
    unfold w3. rewrite Release.log_page_emit by discriminate.
    unfold w2. rewrite Release.log_deck_emit. unfold w1. fields.
    now rewrite <- !app_assoc. }
  assert (graphicsQueue w4 = graphicsQueue w) as Hq.
  { unfold w4, key_emit. now rewrite graphicsQueue_key_on_detach. }
  unfold page_draw. rewrite Hpages, Hp1. cbn [Page.destroyed Page.set_keys].
  rewrite Hd. fields. rewrite Hpages, Hp1, Hlog, Hq, drop_app_length.
  repeat split.
Qed.

Lemma detachKey_by_key_detaches_first_witness :
  let w := fst (attachKey 0 (JNum 1) (JNum 2) (JKey 0) (desk None None None)) in
  attachments 0 w = Some [(0%Z, 0%nat); (1%Z, 0%nat)]
  /\ attachments 0 (fst (detachKey 0 (JKey 0) JUndefined JUndefined w))
     = Some (JsMap.delete (Page.keys (default (Page.create None 0) (pages w !! 0%nat))) 0).
Proof.
  intros w. split; [vm_compute; reflexivity|].
  apply (detachKey_by_key_detaches_first w 0
           (default (Page.create None 0) (pages w !! 0%nat)) 0%nat 0%Z
           [] [(1%Z, 0%nat)]).
  - vm_compute. reflexivity.
  - vm_compute. reflexivity.
  - vm_compute. reflexivity.
  - intros e He. now apply not_elem_of_nil in He.
Defined.

Lemma attach_detach_round_trip_witness :
  let w := desk None None None in
  let P := default (Page.create None 0) (pages w !! 0%nat) in
  let w1 := fst (attachKey 0 (JNum 2) (JNum 3) (JKey 1) w) in
  attachments 0 w1 = Some (Page.keys P ++ [(7%Z, 1%nat)])
  /\ attachments 0 (fst (detachKey 0 (JNum 7) (JKey 1) JUndefined w1))
     = Some (Page.keys P).
Proof.
  intros w P w1.
  apply (AttachFacts.attach_detach_round_trip w 0 P
           (default (Key.create None 0 0) (keys w !! 1%nat)) 2 3 1).
  - vm_compute. reflexivity.
  - reflexivity.
  - vm_compute. reflexivity.
  - reflexivity.
  - vm_compute. split; discriminate.
  - vm_compute. split; discriminate.
  - vm_compute. discriminate.
  - vm_compute. reflexivity.
Defined.

End AttachLaws.

(** ** A press and a release on a calm deck: the order of the events *)

Module PressLaws.
Import Deck Frames.

Lemma log_arm_deck i page key h w :
  log (if (0 <? h)%Z
       then arm (DeckHold i page key) h
              (fun id =>
                 upd_deck
                   (fun D =>
                      StreamDeck.set_holdTimeoutIds
                        (<[i := id]> (StreamDeck.holdTimeoutIds D)) D)) w
       else w)
  = log w.
Proof. now destruct (0 <? h)%Z. Qed.

Lemma keys_arm_deck i page key h w :
  keys (if (0 <? h)%Z
        then arm (DeckHold i page key) h
               (fun id =>
                  upd_deck
                    (fun D =>
                       StreamDeck.set_holdTimeoutIds
                         (<[i := id]> (StreamDeck.holdTimeoutIds D)) D)) w
        else w)
  = keys w.
Proof. now destruct (0 <? h)%Z. Qed.

Lemma pages_arm_deck i page key h w :
  pages (if (0 <? h)%Z
         then arm (DeckHold i page key) h
                (fun id =>
                   upd_deck
                     (fun D =>
                        StreamDeck.set_holdTimeoutIds
                          (<[i := id]> (StreamDeck.holdTimeoutIds D)) D)) w
         else w)
  = pages w.
Proof. now destruct (0 <? h)%Z. Qed.

Lemma log_page_emit_opt page ev i key w :
  ev <> up ->
  log (page_emit_opt page ev i key w)
  = log w ++ match page with
             | Some p => [said (OnPage p) ev i page key]
             | None => []
             end.
Proof.
  intros H. destruct page as [p|]; cbn [page_emit_opt].
  - now apply Release.log_page_emit.
  - now rewrite app_nil_r.
Qed.

Lemma log_key_emit_opt key ev i page w :
  ev <> up ->
  log (key_emit_opt key ev i page w)
  = log w ++ match key with
             | Some k => [said (OnKey k) ev i page key]
             | None => []
             end.
Proof.
  intros H. destruct key as [k|]; cbn [key_emit_opt].
  - now apply Release.log_key_emit.
  - now rewrite app_nil_r.
Qed.

(** What a press tells, in order: [down] to the deck, to the focused page
    and to the key attached at the slot, then [activity] to the same
    three.  Without a focused page only the deck hears of it, and without
    a key at the slot only the deck and the page. *)
Theorem press_event_order (i : Z) (w : World) :
  StreamDeck.destroyed (deck w) = false ->
  let page := StreamDeck.focusedPage (deck w) in
  let key := key_under i w in
  let to_page ev :=
    match page with
    | Some p => [said (OnPage p) ev (Some i) page key]
    | None => []
    end in
  let to_key ev :=
    match key with
    | Some k => [said (OnKey k) ev (Some i) page key]
    | None => []
    end in
  emitted_since w (hw_down i w)
  = [said OnDeck down (Some i) page key] ++ to_page down ++ to_key down
    ++ [said OnDeck activity_down (Some i) page key]
    ++ to_page activity_down ++ to_key activity_down.
Proof.
  intros Hd page key to_page to_key. unfold emitted_since, hw_down.
  rewrite Hd. cbv zeta. rewrite pages_clearTimeout_opt.
  fold page. change (match page with
                     | Some p => match pages w !! p with
                                 | Some P => JsMap.get (Page.keys P) i
                                 | None => None
                                 end
                     | None => None
                     end) with key.
  rewrite log_key_emit_opt, log_page_emit_opt, Release.log_deck_emit by discriminate.
  rewrite log_arm_deck.
  rewrite log_key_emit_opt, log_page_emit_opt, Release.log_deck_emit by discriminate.
  fields. rewrite log_clearTimeout_opt.
  rewrite <- !app_assoc. now rewrite drop_app_length.
Qed.

Lemma press_event_order_witness :
  let w := desk None None None in
  emitted_since w (hw_down 0 w)
  = [said OnDeck down (Some 0%Z) (Some 0%nat) (Some 0%nat);
     said (OnPage 0%nat) down (Some 0%Z) (Some 0%nat) (Some 0%nat);
     said (OnKey 0%nat) down (Some 0%Z) (Some 0%nat) (Some 0%nat);
     said OnDeck activity_down (Some 0%Z) (Some 0%nat) (Some 0%nat);
     said (OnPage 0%nat) activity_down (Some 0%Z) (Some 0%nat) (Some 0%nat);
     said (OnKey 0%nat) activity_down (Some 0%Z) (Some 0%nat) (Some 0%nat)].
Proof. intros w. exact (press_event_order 0 w eq_refl). Defined.

Lemma marks_key_on_activity q k w :
  marks <$> keys (key_on_activity q w) !! k = marks <$> keys w !! k.
Proof.
  unfold key_on_activity. destruct (keys w !! q) as [K|]; [|reflexivity].
  destruct (Key.destroyed K); [reflexivity|]. cbv zeta.
  destruct (_ || _); unfold arm;
    repeat first [rewrite Down.kept_upd_key by reflexivity | progress framed];
    reflexivity.
Qed.

Lemma marks_key_clear_timers q pair k w :
  marks <$> keys (key_clear_timers q pair w) !! k = marks <$> keys w !! k.
Proof.
  unfold key_clear_timers. destruct (keys w !! q); [|reflexivity]. cbv zeta.
  rewrite Down.kept_upd_key by reflexivity. now framed.
Qed.

Lemma marks_key_on_down k i p w K :
  keys w !! k = Some K -> Key.destroyed K = false ->
  marks <$> keys (key_on_down k i p w) !! k
  = Some (false,
          WildArrayValuedSet.add (Key.downStates K) [JNum i; JPage p],
          WildArrayValuedSet.add (Key.pressStates K) [JNum i; JPage p]).
Proof.
  intros HK Hd. unfold key_on_down. rewrite HK, Hd. cbv zeta.
  rewrite keys_key_draw.
  destruct (0 <? Key.PRESS_TIME K)%Z; unfold arm;
    repeat first [rewrite Down.kept_upd_key by reflexivity | progress fields];
    destruct (Key.HOLD_TIME K) as [h|]; try destruct (0 <? h)%Z;
    repeat first [rewrite Down.kept_upd_key by reflexivity | progress fields].
  all: pose proof (marks_key_clear_timers k [JNum i; JPage p] k w) as Hc;
    rewrite HK in Hc;
    destruct (keys (key_clear_timers k [JNum i; JPage p] w) !! k) as [K0|] eqn:E;
      [|discriminate];
    injection Hc as H1 H2 H3;
    unfold upd_key; rewrite E; fields; rewrite lookup_insert_eq;
    cbn; unfold marks, key_press; cbn; now rewrite H1, H2, H3, Hd.
Qed.

Lemma key_emit_activity k ev i page key w :
  ev = activity_down \/ ev = activity_up \/ ev = activity_focus ->
  key_emit k ev i page key w
  = key_on_activity k (notify (OnKey k) ev i page key w).
Proof. intros [->|[->| ->]]; reflexivity. Qed.

Lemma key_emit_up k i p key w :
  key_emit k up (Some i) (Some p) key w
  = key_on_up k i p (notify (OnKey k) up (Some i) (Some p) key w).
Proof. reflexivity. Qed.

Lemma key_emit_down k i p key w :
  key_emit k down (Some i) (Some p) key w
  = key_on_down k i p (notify (OnKey k) down (Some i) (Some p) key w).
Proof. reflexivity. Qed.

Lemma marks_hw_down i p k w P K :
  StreamDeck.destroyed (deck w) = false ->
  StreamDeck.focusedPage (deck w) = Some p ->
  pages w !! p = Some P -> JsMap.get (Page.keys P) i = Some k ->
  keys w !! k = Some K -> Key.destroyed K = false ->
  marks <$> keys (hw_down i w) !! k
  = Some (false,
          WildArrayValuedSet.add (Key.downStates K) [JNum i; JPage p],
          WildArrayValuedSet.add (Key.pressStates K) [JNum i; JPage p]).
Proof.
  intros Hd Hf HP Hk HK HKd. unfold hw_down. rewrite Hd. cbv zeta.
  rewrite Hf, pages_clearTimeout_opt, HP, Hk. cbn [page_emit_opt key_emit_opt].
  rewrite key_emit_activity by auto. rewrite marks_key_on_activity. fields.
  rewrite keys_page_emit, keys_deck_emit, keys_arm_deck.
  rewrite key_emit_down. apply marks_key_on_down; [|assumption].
  fields. rewrite keys_page_emit, keys_deck_emit. framed. assumption.
Qed.

(** What the listeners of the deck keep of the deck: every field but the
    two timer handles. *)
Lemma kept_deck_on_activity {A} (g : StreamDeck.t -> A) w :
  (forall D x, g (StreamDeck.set_idleTimeoutId x D) = g D) ->
  g (deck (deck_on_activity w)) = g (deck w).
Proof.
  intros Hg. unfold deck_on_activity. cbv zeta.
  destruct (StreamDeck.destroyed (deck w)); [reflexivity|].
  destruct (_ || _); unfold arm; fields; rewrite ?Hg; now framed.
Qed.

Lemma kept_deck_emit {A} (g : StreamDeck.t -> A) ev i page key w :
  (forall D x, g (StreamDeck.set_idleTimeoutId x D) = g D) ->
  g (deck (deck_emit ev i page key w)) = g (deck w).
Proof.
  intros Hg. unfold deck_emit. cbv zeta.
  destruct ev; try reflexivity; now rewrite kept_deck_on_activity.
Qed.

Lemma kept_hw_down {A} (g : StreamDeck.t -> A) i w :
  (forall D x, g (StreamDeck.set_idleTimeoutId x D) = g D) ->
  (forall D x, g (StreamDeck.set_holdTimeoutIds x D) = g D) ->
  StreamDeck.destroyed (deck w) = false ->
  g (deck (hw_down i w))
  = g (StreamDeck.set_holdIndexes (StreamDeck.holdIndexes (deck w) ∖ {[i]})
         (StreamDeck.set_down
            (<[i := StreamDeck.focusedPage (deck w)]>
               (StreamDeck.downPages (deck w)))
            (<[i := key_under i w]> (StreamDeck.downKeys (deck w)))
            (deck w))).
Proof.
  intros Hi Hh Hd. unfold hw_down. rewrite Hd. cbv zeta.
  rewrite pages_clearTimeout_opt. fold (key_under i w).
  rewrite deck_key_emit_opt, deck_page_emit_opt, (kept_deck_emit g) by assumption.
  match goal with
  | |- context [if ?c then arm ?a ?d ?s ?x else ?x] =>
      replace (g (deck (if c then arm a d s x else x))) with (g (deck x))
        by (destruct c; unfold arm; fields; now rewrite ?Hh)
  end.
  rewrite deck_key_emit_opt, deck_page_emit_opt, (kept_deck_emit g) by assumption.
  fields. rewrite deck_clearTimeout_opt.
  destruct (deck w); cbn. now rewrite <- (Hh _ holdTimeoutIds).
Qed.

Section PageKept.

(** A reading of a page that the listeners of the page do not touch. *)
Variables (A : Type) (g : Page.t -> A).
Hypothesis g_holdIndexes : forall P x, g (Page.set_holdIndexes x P) = g P.
Hypothesis g_downIndexes : forall P x, g (Page.set_downIndexes x P) = g P.
Hypothesis g_holdTimeoutIds : forall P x, g (Page.set_holdTimeoutIds x P) = g P.
Hypothesis g_idleTimeoutId : forall P x, g (Page.set_idleTimeoutId x P) = g P.

Ltac page_kept :=
  repeat first
    [ rewrite Down.kept_upd_page
        by (intros; now rewrite ?g_holdIndexes, ?g_downIndexes,
                                ?g_holdTimeoutIds, ?g_idleTimeoutId)
    | progress framed ].

Lemma kept_page_on_down q j p w :
  g <$> pages (page_on_down q j w) !! p = g <$> pages w !! p.
Proof.
  unfold page_on_down. destruct (pages w !! q) as [P|]; [|reflexivity].
  destruct (Page.destroyed P); [reflexivity|]. cbv zeta.
  destruct (Page.HOLD_TIME P) as [h|]; try destruct (h <=? 0)%Z;
    unfold arm; page_kept; reflexivity.
Qed.

Lemma kept_page_on_hold q j p w :
  g <$> pages (page_on_hold q j w) !! p = g <$> pages w !! p.
Proof.
  unfold page_on_hold. destruct (pages w !! q) as [P|]; [|reflexivity].
  destruct (Page.destroyed P); [reflexivity|].
  destruct (is_number _); [reflexivity|]. page_kept. reflexivity.
Qed.

Lemma kept_page_on_up q j p w :
  g <$> pages (page_on_up q j w) !! p = g <$> pages w !! p.
Proof.
  unfold page_on_up. destruct (pages w !! q) as [P|]; [|reflexivity].
  destruct (Page.destroyed P); [reflexivity|]. cbv zeta.
  destruct (negb _); [page_kept; reflexivity|].
  destruct (key_inherits _ _); rewrite ?pages_key_emit_opt; page_kept; reflexivity.
Qed.

Lemma kept_page_on_activity q p w :
  g <$> pages (page_on_activity q w) !! p = g <$> pages w !! p.
Proof.
  unfold page_on_activity. destruct (pages w !! q) as [P|]; [|reflexivity].
  destruct (Page.destroyed P); [reflexivity|]. cbv zeta.
  destruct (_ || _); unfold arm; page_kept; reflexivity.
Qed.

Lemma kept_page_emit q ev j page key p w :
  g <$> pages (page_emit q ev j page key w) !! p = g <$> pages w !! p.
Proof.
  unfold page_emit. cbv zeta.
  destruct ev, j;
    rewrite ?kept_page_on_down, ?kept_page_on_hold, ?kept_page_on_up,
      ?kept_page_on_activity; reflexivity.
Qed.

Lemma kept_page_emit_opt q ev j key p w :
  g <$> pages (page_emit_opt q ev j key w) !! p = g <$> pages w !! p.
Proof. destruct q; [apply kept_page_emit|reflexivity]. Qed.

Lemma kept_page_hw_down i p w :
  g <$> pages (hw_down i w) !! p = g <$> pages w !! p.
Proof.
  unfold hw_down. destruct (StreamDeck.destroyed (deck w)); [reflexivity|].
  cbv zeta.
  rewrite pages_key_emit_opt, kept_page_emit_opt, pages_deck_emit, pages_arm_deck.
  rewrite pages_key_emit_opt, kept_page_emit_opt, pages_deck_emit.
  now framed.
Qed.

Lemma pages_propagate_kept ev i page key p w :
  g <$> pages (propagate ev i page key w) !! p = g <$> pages w !! p.
Proof.
  unfold propagate. destruct (page_inherits page w); [|reflexivity].
  destruct (key_inherits _ _);
    now rewrite ?pages_key_emit_opt, kept_page_emit_opt.
Qed.

Lemma kept_page_hw_up i p w :
  g <$> pages (hw_up i w) !! p = g <$> pages w !! p.
Proof.
  unfold hw_up. destruct (StreamDeck.destroyed (deck w)); [reflexivity|].
  cbv zeta.
  rewrite pages_key_emit_opt, kept_page_emit_opt, pages_deck_emit.
  rewrite pages_propagate_kept, pages_deck_emit.
  rewrite pages_key_emit_opt, kept_page_emit_opt, pages_deck_emit.
  now framed.
Qed.

End PageKept.

Lemma kept_hw_up {A} (g : StreamDeck.t -> A) i w :
  (forall D x, g (StreamDeck.set_idleTimeoutId x D) = g D) ->
  (forall D x, g (StreamDeck.set_holdTimeoutIds x D) = g D) ->
  (forall D x, g (StreamDeck.set_holdIndexes x D) = g D) ->
  (forall D x y, g (StreamDeck.set_down x y D) = g D) ->
  g (deck (hw_up i w)) = g (deck w).
Proof.
  intros Hi Hh Hx Hdn. unfold hw_up.
  destruct (StreamDeck.destroyed (deck w)); [reflexivity|]. cbv zeta.
  rewrite deck_key_emit_opt, deck_page_emit_opt, (kept_deck_emit g) by assumption.
  rewrite deck_propagate, (kept_deck_emit g) by assumption.
  rewrite deck_key_emit_opt, deck_page_emit_opt, (kept_deck_emit g) by assumption.
  fields. rewrite deck_clearTimeout_opt. now rewrite Hx, Hdn, Hh.
Qed.

Lemma keys_key_emit_outcome k ev i page key w :
  ev = click \/ ev = held -> keys (key_emit k ev i page key w) = keys w.
Proof. intros [->| ->]; reflexivity. Qed.

Lemma keys_propagate_outcome ev i page key w :
  ev = click \/ ev = held -> keys (propagate ev i page key w) = keys w.
Proof.
  intros Hev. unfold propagate. destruct (page_inherits page w); [|reflexivity].
  destruct (key_inherits _ _); [|now rewrite keys_page_emit_opt].
  destruct key as [k|]; cbn [key_emit_opt];
    now rewrite ?keys_key_emit_outcome, keys_page_emit_opt.
Qed.

Lemma marks_key_on_up k i p w K :
  keys w !! k = Some K -> Key.destroyed K = false ->
  marks <$> keys (key_on_up k i p w) !! k
  = Some (false,
          fst (WildArrayValuedSet.delete (Key.downStates K) [JNum i; JPage p]),
          fst (WildArrayValuedSet.delete (Key.pressStates K) [JNum i; JPage p])).
Proof.
  intros HK Hd. unfold key_on_up. rewrite HK, Hd. cbv zeta.
  assert (marks <$> keys (upd_key k (key_forget [JNum i; JPage p])
                            (key_clear_timers k [JNum i; JPage p] w)) !! k
          = Some (false,
                  fst (WildArrayValuedSet.delete (Key.downStates K) [JNum i; JPage p]),
                  fst (WildArrayValuedSet.delete (Key.pressStates K) [JNum i; JPage p])))
    as H.
  { pose proof (marks_key_clear_timers k [JNum i; JPage p] k w) as Hc.
    rewrite HK in Hc.
    destruct (keys (key_clear_timers k [JNum i; JPage p] w) !! k) as [K0|] eqn:E;
      [|discriminate].
    injection Hc as H1 H2 H3.
    unfold upd_key. rewrite E. fields. rewrite lookup_insert_eq.
    cbn. unfold marks, key_forget. cbn. now rewrite H1, H2, H3, Hd. }
  destruct (is_number _), (WildArrayValuedSet.has (Key.pressStates K) _);
    rewrite ?keys_key_draw; fields; exact H.
Qed.

Lemma marks_hw_up i p k w K :
  StreamDeck.destroyed (deck w) = false ->
  StreamDeck.downPages (deck w) !! i = Some (Some p) ->
  StreamDeck.downKeys (deck w) !! i = Some (Some k) ->
  keys w !! k = Some K -> Key.destroyed K = false ->
  marks <$> keys (hw_up i w) !! k
  = Some (false,
          fst (WildArrayValuedSet.delete (Key.downStates K) [JNum i; JPage p]),
          fst (WildArrayValuedSet.delete (Key.pressStates K) [JNum i; JPage p])).
Proof.
  intros Hd HdP HdK HK HKd. unfold hw_up. rewrite Hd. cbv zeta.
  replace (default None (StreamDeck.downPages (deck w) !! i)) with (Some p)
    by now rewrite HdP.
  replace (default None (StreamDeck.downKeys (deck w) !! i)) with (Some k)
    by now rewrite HdK.
  generalize (bool_decide (i ∈ StreamDeck.holdIndexes (deck w))). intros held_flag.
  unfold page_emit_opt, key_emit_opt.
  rewrite key_emit_activity by auto. rewrite marks_key_on_activity. fields.
  rewrite keys_page_emit, keys_deck_emit.
  rewrite keys_propagate_outcome by (destruct held_flag; auto).
  rewrite keys_deck_emit.
  rewrite key_emit_up. apply marks_key_on_up; [|assumption].
  fields. rewrite keys_page_emit, keys_deck_emit. framed. assumption.
Qed.

Lemma key_under_attached i p k w P :
  StreamDeck.focusedPage (deck w) = Some p -> pages w !! p = Some P ->
  JsMap.get (Page.keys P) i = Some k -> key_under i w = Some k.
Proof. intros Hf HP Hk. unfold key_under. now rewrite Hf, HP. Qed.

Lemma has_pair_wildHas (s : WildArrayValuedSet.t) (i : Z) (p : pid)
  (index page : jsval) :
  index = JUndefined \/ index = JNum i -> page = JUndefined \/ page = JPage p ->
  WildArrayValuedSet.has s [JNum i; JPage p] = true ->
  WildArrayValuedSet.wildHas s [index; page] = true.
Proof.
  intros Hi Hp H. apply WildArrayValuedSetFacts.wildHas_pair.
  exists (JNum i), (JPage p). split.
  - now apply WildArrayValuedSetFacts.has_elem_of.
  - split; [destruct Hi as [->| ->]|destruct Hp as [->| ->]]; auto.
Qed.

(** *** What the timer callbacks leave of the marks of a key *)

Lemma keys_upd_key_other q f k w :
  q <> k -> keys (upd_key q f w) !! k = keys w !! k.
Proof.
  intros Hne. unfold upd_key. destruct (keys w !! q); [|reflexivity].
  fields. now rewrite lookup_insert_ne.
Qed.

Lemma marks_key_on_hold q j r k w :
  marks <$> keys (key_on_hold q j r w) !! k = marks <$> keys w !! k.
Proof.
  unfold key_on_hold. destruct (keys w !! q) as [K|]; [|reflexivity].
  destruct (Key.destroyed K); [reflexivity|].
  destruct (is_number _); [reflexivity|].
  now rewrite Down.kept_upd_key by reflexivity.
Qed.

Lemma marks_key_emit_opt_hold key j r k w :
  marks <$> keys (key_emit_opt key hold (Some j) r w) !! k
  = marks <$> keys w !! k.
Proof.
  destruct key as [q|]; [|reflexivity]. cbn [key_emit_opt]. unfold key_emit.
  cbv zeta. destruct r as [r|]; [|reflexivity]. cbn match.
  now rewrite marks_key_on_hold.
Qed.

Lemma marks_propagate_hold j page key k w :
  marks <$> keys (propagate hold j page key w) !! k = marks <$> keys w !! k.
Proof.
  unfold propagate. destruct (page_inherits page w); [|reflexivity].
  destruct (key_inherits _ _).
  - now rewrite marks_key_emit_opt_hold, keys_page_emit_opt.
  - now rewrite keys_page_emit_opt.
Qed.

Lemma marks_fire_other a k w :
  (forall j r, a <> KeyPress k j r) ->
  marks <$> keys (fire a w) !! k = marks <$> keys w !! k.
Proof.
  intros Ha. destruct a as [j pg ky| |q j ky|q|q j r|q j r|q]; cbn [fire].
  - unfold deck_hold_fires. cbv zeta. rewrite marks_propagate_hold.
    now rewrite keys_deck_emit.
  - now rewrite keys_deck_idle_fires.
  - unfold page_hold_fires. cbv zeta.
    destruct (key_inherits _ _).
    + rewrite marks_key_emit_opt_hold, keys_page_emit. now framed.
    + rewrite keys_page_emit. now framed.
  - now rewrite keys_page_idle_fires.
  - unfold key_hold_fires. cbv zeta. unfold key_emit. cbv zeta. cbn match.
    rewrite marks_key_on_hold. fields.
    now rewrite Down.kept_upd_key by reflexivity.
  - unfold key_press_fires. cbv zeta. rewrite keys_key_draw.
    rewrite keys_upd_key_other; [reflexivity|]. intros ->. now apply (Ha j r).
  - unfold key_idle_fires. fields.
    now rewrite Down.kept_upd_key by reflexivity.
Qed.

Lemma keys_key_press_fires k j r w :
  keys (key_press_fires k j r w) !! k
  = (fun K =>
       Key.set_pressStates
         (fst (WildArrayValuedSet.delete (Key.pressStates K) [JNum j; JPage r]))
         (Key.set_pressTimeoutIds
            (ArrayKeyedMap.delete (Key.pressTimeoutIds K) [JNum j; JPage r]) K))
    <$> keys w !! k.
Proof.
  unfold key_press_fires. cbv zeta. rewrite keys_key_draw. unfold upd_key.
  destruct (keys w !! k) as [K|] eqn:E; [|now rewrite E].
  fields. now rewrite lookup_insert_eq.
Qed.


(** *** The mark of a pair through the timer callbacks *)

Section Pair.

Variables (i : Z) (p : pid) (k : kid).

Local Abbreviation part := (press_part i p k).
Local Abbreviation timer := (key_press_timer k i p).

Lemma has_same_elems (s s' : WildArrayValuedSet.t) (e : list jsval) :
  (e ∈ s' <-> e ∈ s) ->
  WildArrayValuedSet.has s' e = WildArrayValuedSet.has s e.
Proof.
  intros H. apply eq_true_iff_eq.
  now rewrite !WildArrayValuedSetFacts.has_elem_of.
Qed.

Lemma press_part_fire cleared a w :
  part cleared w -> part (cleared || timer a) (fire a w).
Proof.
  intros (K & HK & Hd & Hnd & Hhas).
  assert ((exists j r, a = KeyPress k j r) \/ (forall j r, a <> KeyPress k j r))
    as [(j & r & ->)|Hne].
  { destruct a as [| | | | |q j r|]; try (right; discriminate).
    destruct (decide (q = k)) as [->|Hq]; [left; eauto|right; congruence]. }
  - cbn [fire]. unfold press_part.
    rewrite keys_key_press_fires, HK. cbn [fmap option_fmap option_map].
    eexists. split; [reflexivity|]. cbn. split; [assumption|]. split.
    + now apply WildArrayValuedSetFacts.delete_NoDup.
    + case_bool_decide as E.
      * destruct E as (_ & -> & ->). rewrite orb_true_r.
        apply WildArrayValuedSetLaws.has_false_notin.
        now apply WildArrayValuedSetFacts.delete_removes.
      * rewrite orb_false_r, <- Hhas. apply has_same_elems.
        apply WildArrayValuedSetFacts.delete_other.
        intros [= -> ->]. now apply E.
  - assert (timer a = false) as ->.
    { destruct a; try reflexivity. cbn. apply bool_decide_eq_false.
      intros (-> & _). now eapply Hne. }
    rewrite orb_false_r.
    assert (marks <$> keys (fire a w) !! k = marks <$> keys w !! k) as Hm.
    { now apply marks_fire_other. }
    rewrite HK in Hm.
    destruct (keys (fire a w) !! k) as [K'|] eqn:HK'; [|discriminate].
    injection Hm as M1 M2 M3. exists K'.
    split; [exact HK'|]. now rewrite M1, M3.
Qed.

Lemma press_part_same cleared w w' :
  keys w' = keys w -> part cleared w -> part cleared w'.
Proof. unfold press_part. now intros ->. Qed.

(** The pair has lost its mark by the time the available turns are spent
    exactly if a press timer of the pair came due. *)
Lemma press_part_run_due turns limit : forall w cleared,
  part cleared w ->
  NoDup (t_id <$> timers w) -> (length (timers w) <= turns)%nat ->
  part (cleared || due_hold timer limit (timers w))
    (run_due turns limit w).
Proof.
  induction turns as [|turns IH]; intros w cleared Hp Hnd Hlen.
  - destruct (timers w); [|simpl in Hlen; lia].
    cbn [run_due due_hold existsb]. now rewrite orb_false_r.
  - cbn [run_due].
    destruct (earliest (due limit (timers w))) as [t|] eqn:E.
    + destruct (EventLoopFacts.next_timer_pending _ _ _ E) as [Hin Hdue].
      rewrite (Hold.due_hold_remove timer limit _ t) by assumption.
      rewrite orb_assoc.
      assert (timers (run_timer t w)
              = filter (fun u => t_id u ≠ t_id t) (timers w)) as Et
        by (unfold run_timer; now rewrite timers_fire).
      rewrite <- Et. apply IH.
      * unfold run_timer. apply press_part_fire.
        eapply press_part_same; [|exact Hp]. reflexivity.
      * rewrite Et. now apply Hold.filter_ids_NoDup.
      * rewrite Et. pose proof (Hold.filter_own_id_shorter _ _ Hin). lia.
    + apply Hold.earliest_None in E.
      now rewrite Hold.due_hold_none, orb_false_r by assumption.
Qed.

End Pair.


(** *** What the timer callbacks keep of the deck *)

Lemma kept_deck_fire {A} (g : StreamDeck.t -> A) a w :
  (forall D x, g (StreamDeck.set_idleTimeoutId x D) = g D) ->
  (forall D x, g (StreamDeck.set_holdTimeoutIds x D) = g D) ->
  (forall D x, g (StreamDeck.set_holdIndexes x D) = g D) ->
  g (deck (fire a w)) = g (deck w).
Proof.
  intros Hi Hh Hx. destruct a as [j pg ky| |q j ky|q|q j r|q j r|q]; cbn [fire].
  - unfold deck_hold_fires. cbv zeta.
    rewrite deck_propagate, (kept_deck_emit g) by assumption.
    fields. now rewrite Hx, Hh.
  - unfold deck_idle_fires. fields. apply Hi.
  - now rewrite deck_page_hold_fires.
  - now rewrite deck_page_idle_fires.
  - now rewrite deck_key_hold_fires.
  - now rewrite deck_key_press_fires.
  - now rewrite deck_key_idle_fires.
Qed.

Lemma kept_deck_run_due {A} (g : StreamDeck.t -> A) turns limit :
  (forall D x, g (StreamDeck.set_idleTimeoutId x D) = g D) ->
  (forall D x, g (StreamDeck.set_holdTimeoutIds x D) = g D) ->
  (forall D x, g (StreamDeck.set_holdIndexes x D) = g D) ->
  forall w, g (deck (run_due turns limit w)) = g (deck w).
Proof.
  intros Hi Hh Hx. induction turns as [|turns IH]; intros w; [reflexivity|].
  cbn [run_due]. destruct (earliest _) as [t|]; [|reflexivity].
  rewrite IH. unfold run_timer. now rewrite kept_deck_fire.
Qed.

(** *** The press timer through a press *)

Section Armed.

Variables (i : Z) (p : pid) (k : kid).

Local Abbreviation timer := (key_press_timer k i p).

Lemma press_timer_key_on_down n0 t0 w K :
  keys w !! k = Some K -> Key.destroyed K = false ->
  clock_ok n0 t0 w -> armed n0 timer None w ->
  armed n0 timer (press_deadline t0 (Key.PRESS_TIME K)) (key_on_down k i p w).
Proof.
  intros HK Hd Hck H. unfold key_on_down. rewrite HK, Hd. cbv zeta.
  apply Down.cw_key_draw; [apply Down.clockwise_armed|].
  assert (armed n0 timer None
            (upd_key k (key_press [JNum i; JPage p])
               (key_clear_timers k [JNum i; JPage p] w))
          /\ clock_ok n0 t0
               (upd_key k (key_press [JNum i; JPage p])
                  (key_clear_timers k [JNum i; JPage p] w)))
    as [H1 Hck1].
  { split.
    - apply Down.cw_upd_key; [apply Down.clockwise_armed|].
      apply Down.armed_key_clear_timers; [assumption|]. intros [? [=]].
    - apply Down.cw_upd_key; [apply Down.clockwise_clock_ok|].
      now apply Down.clock_ok_key_clear_timers. }
  set (w1 := upd_key k _ _) in *. clearbody w1.
  assert (armed n0 timer None
            match Key.HOLD_TIME K with
            | Some h =>
                if (0 <? h)%Z
                then arm (KeyHold k i p) h
                       (fun id =>
                          upd_key k
                            (fun K =>
                               Key.set_holdTimeoutIds
                                 (ArrayKeyedMap.set (Key.holdTimeoutIds K)
                                    [JNum i; JPage p] id) K)) w1
                else w1
            | None => w1
            end
          /\ clock_ok n0 t0
               match Key.HOLD_TIME K with
               | Some h =>
                   if (0 <? h)%Z
                   then arm (KeyHold k i p) h
                          (fun id =>
                             upd_key k
                               (fun K =>
                                  Key.set_holdTimeoutIds
                                    (ArrayKeyedMap.set (Key.holdTimeoutIds K)
                                       [JNum i; JPage p] id) K)) w1
                   else w1
               | None => w1
               end) as [H2 Hck2].
  { destruct (Key.HOLD_TIME K) as [h|]; [|auto].
    destruct (0 <? h)%Z; [|auto]. split.
    - apply Down.armed_arm_other; [reflexivity| |assumption].
      intros id w'. apply Down.cw_upd_key, Down.clockwise_armed.
    - apply Down.clock_ok_arm; [|assumption].
      intros id w'. apply Down.cw_upd_key, Down.clockwise_clock_ok. }
  unfold press_deadline. destruct (0 <? Key.PRESS_TIME K)%Z; [|assumption].
  apply Down.armed_arm_own; [| |assumption|assumption].
  - cbn. now apply bool_decide_eq_true.
  - intros o id w'. apply Down.cw_upd_key, Down.clockwise_armed.
Qed.

Lemma hw_down_press_timer w P K :
  StreamDeck.destroyed (deck w) = false ->
  StreamDeck.focusedPage (deck w) = Some p ->
  pages w !! p = Some P -> Page.destroyed P = false ->
  JsMap.get (Page.keys P) i = Some k ->
  keys w !! k = Some K -> Key.destroyed K = false ->
  press_at_rest i p k w -> handles_issued i p P K w ->
  clock_ok (nextTimeoutId w) (now w) (hw_down i w)
  /\ armed (nextTimeoutId w) timer (press_deadline (now w) (Key.PRESS_TIME K))
       (hw_down i w).
Proof.
  intros Hd Hf HP HPd HPk HK HKd Hrest (Hnd & Hlt & HcD & HcP & HcK & HcKp).
  set (n0 := nextTimeoutId w). set (t0 := now w).
  set (o := press_deadline t0 (Key.PRESS_TIME K)).
  set (Q := fun o w => clock_ok n0 t0 w /\ armed n0 timer o w).
  assert (forall o, clockwise (Q o)) as Qcw.
  { intros o' w1 w2 E1 E2 E3 [H1 H2]. split.
    - now apply (Down.clockwise_clock_ok n0 t0 w1).
    - now apply (Down.clockwise_armed n0 timer o' w1). }
  unfold hw_down. rewrite Hd. cbv zeta. rewrite Hf.
  rewrite pages_clearTimeout_opt, HP, HPk.
  unfold page_emit_opt, key_emit_opt.
  set (wa := upd_deck _ (clearTimeout_opt _ w)).
  set (wb := deck_emit down (Some i) (Some p) (Some k) wa).
  set (wc := page_emit p down (Some i) (Some p) (Some k) wb).
  set (wd := key_emit k down (Some i) (Some p) (Some k) wc).
  set (we := if (0 <? StreamDeck.HOLD_TIME (deck w))%Z then _ else wd).
  set (wf := deck_emit activity_down (Some i) (Some p) (Some k) we).
  set (wg := page_emit p activity_down (Some i) (Some p) (Some k) wf).
  set (wh := key_emit k activity_down (Some i) (Some p) (Some k) wg).
  assert (clock_ok n0 t0 w) as Hck by (repeat split; auto).
  assert (pages wa = pages w /\ keys wa = keys w) as (Pa & Ka)
    by (unfold wa; split; now framed).
  assert (StreamDeck.idleTimeoutId (deck wa) = StreamDeck.idleTimeoutId (deck w))
    as Ia by (unfold wa; fields; now rewrite deck_clearTimeout_opt).
  assert (Q None wa) as Qa.
  { unfold wa. apply Down.cw_upd_deck; [apply Qcw|]. split.
    - now apply Down.clock_ok_clearTimeout_opt.
    - apply Down.armed_clearTimeout_opt; [|intros x _ [? [=]]].
      now apply Press.armed_at_rest. }
  assert (pages wb = pages w /\ keys wb = keys w /\ deck wb = deck wa)
    as (Pb & Kb & Db).
  { unfold wb. now rewrite pages_deck_emit, keys_deck_emit. }
  assert (Q None wb) as Qb by (apply (Qcw None wa); auto).
  assert (Q None wc) as Qc.
  { destruct Qb as [Cb Ab]. unfold wc, page_emit. cbv zeta. split.
    - apply Down.clock_ok_page_on_down.
      now apply Down.cw_notify; [apply Down.clockwise_clock_ok|].
    - apply (Down.armed_page_on_down n0 t0 timer None p i _ P);
        [fields; now rewrite Pb|assumption|now left| |].
      + now apply Down.cw_notify; [apply Down.clockwise_clock_ok|].
      + now apply Down.cw_notify; [apply Down.clockwise_armed|]. }
  assert (keys wc = keys w /\ deck wc = deck wa
          /\ Page.idleTimeoutId <$> pages wc !! p = Some (Page.idleTimeoutId P))
    as (Kc & Dc & Ic).
  { unfold wc. rewrite keys_page_emit, deck_page_emit.
    repeat split; auto. unfold page_emit. cbv zeta.
    rewrite Down.idle_handle_page_on_down. fields. now rewrite Pb, HP. }
  assert (Q o wd) as Qd.
  { destruct Qc as [Cc Ac]. unfold wd, key_emit. cbv zeta. split.
    - apply Down.clock_ok_key_on_down.
      now apply Down.cw_notify; [apply Down.clockwise_clock_ok|].
    - apply (press_timer_key_on_down n0 t0 _ K);
        [fields; now rewrite Kc|assumption| |].
      + now apply Down.cw_notify; [apply Down.clockwise_clock_ok|].
      + now apply Down.cw_notify; [apply Down.clockwise_armed|]. }
  assert (pages wd = pages wc /\ deck wd = deck wa
          /\ Key.idleTimeoutId <$> keys wd !! k = Some (Key.idleTimeoutId K))
    as (Pd & Dd & Id).
  { unfold wd. rewrite pages_key_emit, deck_key_emit.
    repeat split; auto. unfold key_emit. cbv zeta.
    rewrite Down.idle_handle_key_on_down. fields. now rewrite Kc, HK. }
  assert (Q o we) as Qe.
  { destruct Qd as [Cd Ad]. unfold we.
    destruct (0 <? StreamDeck.HOLD_TIME (deck w))%Z; [|now split]. split.
    - apply Down.clock_ok_arm; [|assumption].
      intros id w'. apply Down.cw_upd_deck, Down.clockwise_clock_ok.
    - apply Down.armed_arm_other; [reflexivity| |assumption].
      intros id w'. apply Down.cw_upd_deck, Down.clockwise_armed. }
  assert (pages we = pages wd /\ keys we = keys wd
          /\ StreamDeck.idleTimeoutId (deck we)
             = StreamDeck.idleTimeoutId (deck w))
    as (Pe & Ke & Ie).
  { destruct (Press.deck_arm_keeps i p k false (StreamDeck.HOLD_TIME (deck w))
                (Some p) (Some k) wd) as (E1 & E2 & _ & E4 & _).
    fold we in E1, E2, E4. now rewrite E4, Dd, Ia. }
  assert (Q o wf) as Qf.
  { destruct Qe as [Ce Ae]. unfold wf, deck_emit. cbv zeta. split.
    - apply Down.clock_ok_deck_on_activity.
      now apply Down.cw_notify; [apply Down.clockwise_clock_ok|].
    - apply Down.armed_deck_on_activity; [reflexivity| |].
      + now apply Down.cw_notify; [apply Down.clockwise_armed|].
      + fields. now rewrite Ie. }
  assert (pages wf = pages wd /\ keys wf = keys wd) as (Pf & Kf).
  { unfold wf. now rewrite pages_deck_emit, keys_deck_emit. }
  assert (Q o wg) as Qg.
  { destruct Qf as [Cf Af]. unfold wg, page_emit. cbv zeta. split.
    - apply Down.clock_ok_page_on_activity.
      now apply Down.cw_notify; [apply Down.clockwise_clock_ok|].
    - apply Down.armed_page_on_activity; [reflexivity| |].
      + now apply Down.cw_notify; [apply Down.clockwise_armed|].
      + fields. rewrite Pf, Pd. intros P' x HP'. rewrite HP' in Ic.
        injection Ic as ->. apply HcP. }
  assert (keys wg = keys wd) as Kg.
  { unfold wg. now rewrite keys_page_emit. }
  destruct Qg as [Cg Ag]. unfold wh, key_emit. cbv zeta. split.
  - apply Down.clock_ok_key_on_activity.
    now apply Down.cw_notify; [apply Down.clockwise_clock_ok|].
  - apply Down.armed_key_on_activity; [reflexivity| |].
    + now apply Down.cw_notify; [apply Down.clockwise_armed|].
    + fields. rewrite Kg. intros K' x HK'. rewrite HK' in Id.
      injection Id as ->. apply HcK.
Qed.

End Armed.


(** *** What the timer callbacks keep of a page *)

Section PageKeptByTimers.

Variables (A : Type) (g : Page.t -> A).
Hypothesis g_holdIndexes : forall P x, g (Page.set_holdIndexes x P) = g P.
Hypothesis g_downIndexes : forall P x, g (Page.set_downIndexes x P) = g P.
Hypothesis g_holdTimeoutIds : forall P x, g (Page.set_holdTimeoutIds x P) = g P.
Hypothesis g_idleTimeoutId : forall P x, g (Page.set_idleTimeoutId x P) = g P.

Lemma kept_page_fire a p w :
  g <$> pages (fire a w) !! p = g <$> pages w !! p.
Proof.
  destruct a as [j pg ky| |q j ky|q|q j r|q j r|q]; cbn [fire].
  - unfold deck_hold_fires. cbv zeta.
    rewrite (pages_propagate_kept A g) by assumption.
    now rewrite pages_deck_emit.
  - now rewrite pages_deck_idle_fires.
  - unfold page_hold_fires. cbv zeta.
    destruct (key_inherits _ _); rewrite ?pages_key_emit_opt;
      rewrite (kept_page_emit A g) by assumption;
      rewrite Down.kept_upd_page;
      try reflexivity; intros; now rewrite g_holdIndexes, g_holdTimeoutIds.
  - unfold page_idle_fires. fields. now rewrite Down.kept_upd_page.
  - now rewrite pages_key_hold_fires.
  - now rewrite pages_key_press_fires.
  - now rewrite pages_key_idle_fires.
Qed.

Lemma kept_page_run_due turns limit p :
  forall w, g <$> pages (run_due turns limit w) !! p = g <$> pages w !! p.
Proof.
  induction turns as [|turns IH]; intros w; [reflexivity|].
  cbn [run_due]. destruct (earliest _) as [t|]; [|reflexivity].
  rewrite IH. unfold run_timer. now rewrite kept_page_fire.
Qed.

End PageKeptByTimers.

Lemma still_pressed_deadline (t0 pt dt : Z) :
  negb match press_deadline t0 pt with
       | Some d => (d <=? t0 + dt)%Z
       | None => false
       end
  = still_pressed pt dt.
Proof.
  unfold press_deadline, still_pressed. destruct (0 <? pt)%Z; [|reflexivity].
  cbn [andb]. f_equal. apply eq_true_iff_eq. rewrite !Z.leb_le. lia.
Qed.

(** The mark of the pair once [dt] milliseconds have passed since the
    press, with everything [isPressed] looks at beside it. *)
Lemma pressed_after_elapse (i : Z) (p : pid) (k : kid) (w : World)
  (P : Page.t) (K : Key.t) (dt : Z) :
  StreamDeck.destroyed (deck w) = false ->
  StreamDeck.focusedPage (deck w) = Some p ->
  pages w !! p = Some P -> Page.destroyed P = false ->
  JsMap.get (Page.keys P) i = Some k ->
  keys w !! k = Some K -> Key.destroyed K = false ->
  NoDup (Key.pressStates K) ->
  press_at_rest i p k w -> handles_issued i p P K w ->
  let w2 := elapse dt (hw_down i w) in
  press_part i p k (negb (still_pressed (Key.PRESS_TIME K) dt)) w2
  /\ StreamDeck.KEY_COUNT (deck w2) = StreamDeck.KEY_COUNT (deck w)
  /\ StreamDeck.destroyed (deck w2) = false
  /\ StreamDeck.downPages (deck w2) !! i = Some (Some p)
  /\ StreamDeck.downKeys (deck w2) !! i = Some (Some k)
  /\ (forall q, Page.destroyed <$> pages w2 !! q
                = Page.destroyed <$> pages w !! q).
Proof.
  intros Hd Hf HP HPd Hk HK HKd Hnd Hrest Hiss w2.
  destruct (hw_down_press_timer i p k w P K Hd Hf HP HPd Hk HK HKd Hrest Hiss)
    as ((Hnow & _ & Hids & _) & Harmed).
  pose proof (marks_hw_down i p k w P K Hd Hf HP Hk HK HKd) as Hm.
  set (w1 := hw_down i w) in *.
  destruct (keys w1 !! k) as [K1|] eqn:HK1; [|discriminate].
  injection Hm as M1 M2 M3.
  assert (press_part i p k false w1) as Hp1.
  { exists K1. split; [assumption|]. split; [assumption|]. rewrite M3. split.
    - now apply WildArrayValuedSetFacts.add_NoDup.
    - apply WildArrayValuedSetFacts.has_elem_of, WildArrayValuedSetFacts.elem_of_add.
      now left. }
  pose proof (press_part_run_due i p k (length (timers w1)) (now w1 + dt)%Z
                w1 false Hp1 Hids (le_n _)) as Hp2.
  rewrite (Down.armed_due_hold _ _ _ _ w1 Harmed), Hnow in Hp2. cbn [orb] in Hp2.
  rewrite <- (negb_involutive (match press_deadline _ _ with
                               | Some d => _ | None => _ end)) in Hp2.
  rewrite still_pressed_deadline in Hp2.
  split; [|split; [|split; [|split; [|split]]]].
  - eapply press_part_same; [|exact Hp2].
    unfold w2, elapse. cbv zeta. fields. now rewrite Hnow.
  - unfold w2, elapse. cbv zeta. fields.
    rewrite (kept_deck_run_due StreamDeck.KEY_COUNT) by reflexivity.
    unfold w1. now rewrite (kept_hw_down StreamDeck.KEY_COUNT).
  - unfold w2, elapse. cbv zeta. fields.
    rewrite (kept_deck_run_due StreamDeck.destroyed) by reflexivity.
    unfold w1. now rewrite (kept_hw_down StreamDeck.destroyed).
  - unfold w2, elapse. cbv zeta. fields.
    rewrite (kept_deck_run_due StreamDeck.downPages) by reflexivity.
    unfold w1. rewrite (kept_hw_down StreamDeck.downPages) by auto.
    cbn. rewrite Hf. apply lookup_insert_eq.
  - unfold w2, elapse. cbv zeta. fields.
    rewrite (kept_deck_run_due StreamDeck.downKeys) by reflexivity.
    unfold w1. rewrite (kept_hw_down StreamDeck.downKeys) by auto.
    cbn. rewrite (key_under_attached i p k w P) by assumption.
    apply lookup_insert_eq.
  - intros q. unfold w2, elapse. cbv zeta. fields.
    rewrite (kept_page_run_due _ Page.destroyed) by reflexivity.
    unfold w1. now apply kept_page_hw_down.
Qed.


(** A press marks the pair of the slot and the focused page as pressed at
    the key attached there, and arms a press timer if the press time of
    the key is above 0.  Right after the press [isPressed] answers [true],
    asked with the slot, with the page, with both or with neither.  [dt]
    milliseconds later, the button still down, it answers for the slot and
    the page [true] exactly if the press time is 0 or less or the delay
    that Node gives the press timer has not passed by then: the callback
    of the press timer takes the mark away.  As long as that is so it
    answers [true] however it is asked.  After the release, at once or
    [dt] milliseconds after the press, it answers [false] for the slot and
    the page. *)
Theorem isPressed_from_down_to_up (i : Z) (p : pid) (k : kid) (w : World)
  (P : Page.t) (K : Key.t) :
  StreamDeck.destroyed (deck w) = false ->
  StreamDeck.focusedPage (deck w) = Some p ->
  pages w !! p = Some P -> Page.destroyed P = false ->
  JsMap.get (Page.keys P) i = Some k ->
  keys w !! k = Some K -> Key.destroyed K = false ->
  NoDup (Key.pressStates K) ->
  (0 <= i <= StreamDeck.KEY_COUNT (deck w) - 1)%Z ->
  (forall index page,
     index = JUndefined \/ index = JNum i ->
     page = JUndefined \/ page = JPage p ->
     isPressed k index page (hw_down i w) = Ok true)
  /\ isPressed k (JNum i) (JPage p) (hw_up i (hw_down i w)) = Ok false
  /\ (press_at_rest i p k w -> handles_issued i p P K w ->
      forall dt,
        isPressed k (JNum i) (JPage p) (run w [HwDown i; Elapse dt])
        = Ok (still_pressed (Key.PRESS_TIME K) dt)
        /\ (still_pressed (Key.PRESS_TIME K) dt = true ->
            forall index page,
              index = JUndefined \/ index = JNum i ->
              page = JUndefined \/ page = JPage p ->
              isPressed k index page (run w [HwDown i; Elapse dt]) = Ok true)
        /\ isPressed k (JNum i) (JPage p)
             (run w [HwDown i; Elapse dt; HwUp i]) = Ok false).
Proof.
  intros Hd Hf HP HPd Hk HK HKd Hnd Hi.
  pose proof (marks_hw_down i p k w P K Hd Hf HP Hk HK HKd) as Hm.
  destruct (keys (hw_down i w) !! k) as [K1|] eqn:HK1; [|discriminate].
  injection Hm as M1 M2 M3.
  assert (StreamDeck.KEY_COUNT (deck (hw_down i w)) = StreamDeck.KEY_COUNT (deck w))
    as Hcount by (now rewrite (kept_hw_down StreamDeck.KEY_COUNT)).
  assert (forall w', (forall q, Page.destroyed <$> pages w' !! q
                                = Page.destroyed <$> pages w !! q) ->
                     valid_page_argument w' (JPage p)) as Hvalid.
  { intros w' Hw'. right. exists p. split; [reflexivity|]. intros P' HP'.
    specialize (Hw' p). rewrite HP', HP in Hw'. cbn in Hw'. congruence. }
  assert (forall v, v ∈ [JNum i; JPage p] -> v <> JUndefined) as Hdef.
  { intros v Hv.
    repeat (apply elem_of_cons in Hv as [->|Hv]; [discriminate|]).
    now apply not_elem_of_nil in Hv. }
  split; [|split].
  - intros index page Hindex Hpage.
    rewrite (IsPressedFacts.isPressed_returns k K1); try assumption.
    + f_equal. rewrite M3. apply (has_pair_wildHas _ i p); try assumption.
      apply WildArrayValuedSetFacts.has_elem_of, WildArrayValuedSetFacts.elem_of_add.
      now left.
    + destruct Hindex as [->| ->]; [now left|right]. exists i.
      split; [reflexivity|]. now rewrite Hcount.
    + destruct Hpage as [->| ->]; [now left|]. apply Hvalid.
      intros q. now apply kept_page_hw_down.
  - set (w1 := hw_down i w) in *.
    assert (StreamDeck.destroyed (deck w1) = false) as Hd1
      by (unfold w1; now rewrite (kept_hw_down StreamDeck.destroyed)).
    assert (StreamDeck.downPages (deck w1) !! i = Some (Some p)) as HdP.
    { unfold w1. rewrite (kept_hw_down StreamDeck.downPages) by auto.
      cbn. rewrite Hf. apply lookup_insert_eq. }
    assert (StreamDeck.downKeys (deck w1) !! i = Some (Some k)) as HdK.
    { unfold w1. rewrite (kept_hw_down StreamDeck.downKeys) by auto.
      cbn. rewrite (key_under_attached i p k w P) by assumption.
      apply lookup_insert_eq. }
    pose proof (marks_hw_up i p k w1 K1 Hd1 HdP HdK HK1 M1) as Hm2.
    destruct (keys (hw_up i w1) !! k) as [K3|] eqn:HK3; [|discriminate].
    injection Hm2 as N1 N2 N3.
    rewrite (IsPressedFacts.isPressed_returns k K3); try assumption.
    + f_equal. rewrite N3, M3.
      rewrite WildArrayValuedSetLaws.wildHas_defined by assumption.
      apply WildArrayValuedSetLaws.has_false_notin.
      apply WildArrayValuedSetFacts.delete_removes.
      now apply WildArrayValuedSetFacts.add_NoDup.
    + right. exists i. split; [reflexivity|].
      rewrite (kept_hw_up StreamDeck.KEY_COUNT) by reflexivity. now rewrite Hcount.
    + apply Hvalid. intros q.
      rewrite (kept_page_hw_up _ Page.destroyed) by reflexivity.
      now apply kept_page_hw_down.
  - intros Hrest Hiss dt.
    destruct (pressed_after_elapse i p k w P K dt Hd Hf HP HPd Hk HK HKd Hnd
                Hrest Hiss)
      as ((K2 & HK2 & HKd2 & Hnd2 & Hhas2) & Hcount2 & Hd2 & HdP2 & HdK2 & Hpg2).
    rewrite negb_involutive in Hhas2.
    unfold run. cbn [fold_left step].
    set (w2 := elapse dt (hw_down i w)) in *.
    split; [|split].
    { rewrite (IsPressedFacts.isPressed_returns k K2); try assumption.
      - f_equal. now rewrite WildArrayValuedSetLaws.wildHas_defined.
      - right. exists i. split; [reflexivity|]. now rewrite Hcount2.
      - now apply Hvalid. }
    { intros Hstill index page Hindex Hpage.
      rewrite (IsPressedFacts.isPressed_returns k K2); try assumption.
      - f_equal. apply (has_pair_wildHas _ i p); try assumption.
        now rewrite Hhas2.
      - destruct Hindex as [->| ->]; [now left|right]. exists i.
        split; [reflexivity|]. now rewrite Hcount2.
      - destruct Hpage as [->| ->]; [now left|]. now apply Hvalid. }
    pose proof (marks_hw_up i p k w2 K2 Hd2 HdP2 HdK2 HK2 HKd2) as Hm2.
    destruct (keys (hw_up i w2) !! k) as [K3|] eqn:HK3; [|discriminate].
    injection Hm2 as N1 N2 N3.
    rewrite (IsPressedFacts.isPressed_returns k K3); try assumption.
    + f_equal. rewrite N3.
      rewrite WildArrayValuedSetLaws.wildHas_defined by assumption.
      apply WildArrayValuedSetLaws.has_false_notin.
      now apply WildArrayValuedSetFacts.delete_removes.
    + right. exists i. split; [reflexivity|].
      rewrite (kept_hw_up StreamDeck.KEY_COUNT) by reflexivity.
      now rewrite Hcount2.
    + apply Hvalid. intros q.
      rewrite (kept_page_hw_up _ Page.destroyed) by reflexivity. apply Hpg2.
Qed.

Lemma isPressed_from_down_to_up_witness :
  let w := desk_pressing 100 in
  let K := default (Key.create None 0 0) (keys w !! 0%nat) in
  isPressed 0%nat (JNum 0) (JPage 0%nat) (hw_down 0 w) = Ok true
  /\ isPressed 0%nat (JNum 0) (JPage 0%nat) (hw_up 0 (hw_down 0 w)) = Ok false
  /\ isPressed 0%nat (JNum 0) (JPage 0%nat) (run w [HwDown 0; Elapse 150])
     = Ok (still_pressed (Key.PRESS_TIME K) 150)
  /\ isPressed 0%nat (JNum 0) (JPage 0%nat)
       (run w [HwDown 0; Elapse 150; HwUp 0]) = Ok false.
Proof.
  intros w K.
  destruct (isPressed_from_down_to_up 0 0%nat 0%nat w
              (default (Page.create None 0) (pages w !! 0%nat)) K)
    as (H1 & H2 & H3).
  - reflexivity.
  - reflexivity.
  - vm_compute. reflexivity.
  - reflexivity.
  - reflexivity.
  - vm_compute. reflexivity.
  - reflexivity.
  - vm_compute. constructor.
  - vm_compute. split; discriminate.
  - assert (press_at_rest 0 0%nat 0%nat w) as Hrest.
    { intros t Ht. vm_compute in Ht.
      repeat (apply elem_of_cons in Ht as [->|Ht]; [reflexivity|]).
      now apply not_elem_of_nil in Ht. }
    assert (handles_issued 0 0%nat
              (default (Page.create None 0) (pages w !! 0%nat)) K w) as Hiss.
    { unfold handles_issued. repeat split.
      - apply (bool_decide_unpack _). vm_compute. exact I.
      - intros t Ht. vm_compute in Ht.
        repeat (apply elem_of_cons in Ht as [->|Ht]; [vm_compute; lia|]).
        now apply not_elem_of_nil in Ht.
      - intros x Hx. vm_compute in Hx. injection Hx as <-. vm_compute. lia.
      - intros x Hx. vm_compute in Hx. injection Hx as <-. vm_compute. lia.
      - intros x Hx. vm_compute in Hx. discriminate.
      - intros x [Hx|Hx]; vm_compute in Hx; discriminate. }
    destruct (H3 Hrest Hiss 150%Z) as (H4 & _ & H5).
    split; [apply H1; now right|]. split; [exact H2|].
    split; [exact H4|exact H5].
Defined.

(** The same, run.  With a press time of 100 ms the key counts as pressed
    50 ms after the press and no longer 100 ms after it, the button still
    down; with the press time 0 of the defaults it counts as pressed for
    as long as the button is down. *)
Example isPressed_until_the_press_time_is_over :
  let asked inputs w := isPressed 0%nat (JNum 0) (JPage 0%nat) (run w inputs) in
  let down inputs w := StreamDeck.downKeys (deck (run w inputs)) !! 0%Z in
  asked [HwDown 0; Elapse 50] (desk_pressing 100) = Ok true
  /\ asked [HwDown 0; Elapse 100] (desk_pressing 100) = Ok false
  /\ down [HwDown 0; Elapse 100] (desk_pressing 100) = Some (Some 0%nat)
  /\ asked [HwDown 0; Elapse 100000] (desk_pressing 0) = Ok true
  /\ asked [HwDown 0; Elapse 100000; HwUp 0] (desk_pressing 0) = Ok false.
Proof. vm_compute. auto 6. Qed.

(** What a release tells, in order, when the slot went down with page [p]
    focused and key [k] attached: [up] to the deck and to the page, the
    verdict of a page with a hold time of its own (passed on to a key
    without one), [up] to the key, the verdict of a key with a hold time
    of its own, the verdict of the deck (passed down to a page and a key
    without a hold time), then [activity] to the three. *)
Theorem release_event_order (i : Z) (p : pid) (k : kid) (w : World)
  (P : Page.t) (K : Key.t) :
  StreamDeck.destroyed (deck w) = false ->
  StreamDeck.downPages (deck w) !! i = Some (Some p) ->
  StreamDeck.downKeys (deck w) !! i = Some (Some k) ->
  pages w !! p = Some P -> Page.destroyed P = false ->
  JsMap.get (Page.keys P) i = Some k ->
  keys w !! k = Some K -> Key.destroyed K = false ->
  let tell s ev := said s ev (Some i) (Some p) (Some k) in
  let own_page :=
    if bool_decide (i ∈ Page.holdIndexes P) then held else click in
  emitted_since w (hw_up i w)
  = [tell OnDeck up; tell (OnPage p) up]
    ++ (if is_number (Page.HOLD_TIME P)
        then tell (OnPage p) own_page
             :: (if is_number (Key.HOLD_TIME K) then []
                 else [tell (OnKey k) own_page])
        else [])
    ++ [tell (OnKey k) up]
    ++ (if is_number (Key.HOLD_TIME K)
        then [tell (OnKey k) (key_says i p (deck w) P K)] else [])
    ++ [tell OnDeck (deck_says i (deck w))]
    ++ (if is_number (Page.HOLD_TIME P) then []
        else tell (OnPage p) (deck_says i (deck w))
             :: (if is_number (Key.HOLD_TIME K) then []
                 else [tell (OnKey k) (deck_says i (deck w))]))
    ++ [tell OnDeck activity_up; tell (OnPage p) activity_up;
        tell (OnKey k) activity_up].
Proof.
  intros Hd HdP HdK HP HPd HPk HK HKd tell own_page. unfold emitted_since.
  rewrite (Release.hw_up_log i p k w P K) by assumption. cbv zeta.
  now rewrite drop_app_length.
Qed.

Lemma release_event_order_witness :
  let w := hw_down 0 (desk None None None) in
  let tell s ev := said s ev (Some 0%Z) (Some 0%nat) (Some 0%nat) in
  emitted_since w (hw_up 0 w)
  = [tell OnDeck up; tell (OnPage 0%nat) up; tell (OnKey 0%nat) up;
     tell OnDeck click; tell (OnPage 0%nat) click; tell (OnKey 0%nat) click;
     tell OnDeck activity_up; tell (OnPage 0%nat) activity_up;
     tell (OnKey 0%nat) activity_up].
Proof.
  intros w tell.
  rewrite (release_event_order 0 0%nat 0%nat w
             (default (Page.create None 0) (pages w !! 0%nat))
             (default (Key.create None 0 0) (keys w !! 0%nat))).
  - vm_compute. reflexivity.
  - reflexivity.
  - vm_compute. reflexivity.
  - vm_compute. reflexivity.
  - vm_compute. reflexivity.
  - reflexivity.
  - reflexivity.
  - vm_compute. reflexivity.
  - reflexivity.
Defined.

End PressLaws.

(** ** [setFocusedPage] *)

Module FocusLaws.
Import Deck Frames QueueFrames.

(** One [emit] per key, in the order of the keys. *)
Lemma emit_to_keys_app ks k f w :
  emit_to_keys (ks ++ [k]) f w = f k (emit_to_keys ks f w).
Proof. unfold emit_to_keys. now rewrite fold_left_app. Qed.

Lemma emit_to_keys_log ks f (n : kid -> Notif) w :
  (forall k w', log (f k w') = log w' ++ [n k]) ->
  log (emit_to_keys ks f w) = log w ++ map n ks.
Proof.
  intros Hf. induction ks as [|k ks IH] using rev_ind.
  - cbn. now rewrite app_nil_r.
  - rewrite emit_to_keys_app, Hf, IH, map_app, <- app_assoc. reflexivity.
Qed.

Lemma emit_to_keys_kept {A} (g : World -> A) ks f w :
  (forall k w', g (f k w') = g w') ->
  g (emit_to_keys ks f w) = g w.
Proof.
  intros Hf. induction ks as [|k ks IH] using rev_ind; [reflexivity|].
  now rewrite emit_to_keys_app, Hf.
Qed.

Lemma keys_of_page_same p w w' :
  Page.keys <$> pages w' !! p = Page.keys <$> pages w !! p ->
  keys_of_page p w' = keys_of_page p w.
Proof.
  unfold keys_of_page. intros H.
  destruct (pages w' !! p), (pages w !! p); cbn in H; congruence.
Qed.

Lemma setFocusedPage_switch (w : World) (f : pid) (F : Page.t) :
  StreamDeck.destroyed (deck w) = false ->
  StreamDeck.focusedPage (deck w) <> Some f ->
  pages w !! f = Some F -> Page.destroyed F = false ->
  let old := StreamDeck.focusedPage (deck w) in
  let w' := fst (setFocusedPage (JPage f) w) in
  snd (setFocusedPage (JPage f) w) = Ok tt
  /\ StreamDeck.focusedPage (deck w') = Some f
  /\ emitted_since w w'
     = match old with
       | Some b =>
           said_focus OnDeck blur (Some f) old
           :: said_focus (OnPage b) blur (Some f) old
           :: map (fun k => said_focus (OnKey k) blur (Some f) old)
                (keys_of_page b w)
       | None => []
       end
       ++ said_focus OnDeck focus (Some f) old
          :: said_focus (OnPage f) focus (Some f) old
          :: map (fun k => said_focus (OnKey k) focus (Some f) old)
               (JsMap.values (Page.keys F))
       ++ said OnDeck activity_focus None (Some f) None
          :: said (OnPage f) activity_focus None (Some f) None
          :: map (fun k => said (OnKey k) activity_focus None (Some f) None)
               (JsMap.values (Page.keys F))
  /\ graphicsQueue w' = graphicsQueue w ++ [DrawPage f]
  /\ (forall q, attachments q w' = attachments q w)
  /\ (forall (A : Type) (g : StreamDeck.t -> A),
        (forall D x, g (StreamDeck.set_idleTimeoutId x D) = g D) ->
        (forall D x, g (StreamDeck.set_focusedPage x D) = g D) ->
        g (deck w') = g (deck w)).
Proof.
  intros Hd Hne HF HFd old w'. unfold w', setFocusedPage. cbv zeta.
  rewrite Hd. rewrite bool_decide_eq_false_2 by exact Hne. rewrite HF, HFd.
  fold old.
  set (w1 := set_deck (StreamDeck.set_focusedPage (Some f) (deck w)) w).
  set (w2 := match old with
             | Some b => _
             | None => w1
             end).
  assert (pages w2 = pages w /\ keys w2 = keys w
          /\ deck w2 = deck w1 /\ graphicsQueue w2 = graphicsQueue w
          /\ log w2 = log w
                      ++ match old with
                         | Some b =>
                             said_focus OnDeck blur (Some f) old
                             :: said_focus (OnPage b) blur (Some f) old
                             :: map (fun k => said_focus (OnKey k) blur (Some f) old)
                                  (keys_of_page b w)
                         | None => []
                         end) as (P2 & K2 & D2 & Q2 & L2).
  { unfold w2. destruct old as [b|]; [|now rewrite app_nil_r].
    rewrite (emit_to_keys_kept pages), (emit_to_keys_kept keys),
      (emit_to_keys_kept deck), (emit_to_keys_kept graphicsQueue) by reflexivity.
    rewrite (emit_to_keys_log _ _
               (fun k => said_focus (OnKey k) blur (Some f) (Some b)))
      by reflexivity.
    fields. rewrite <- !app_assoc. repeat split. }
  clearbody w2. cbn [fst snd].
  set (w3 := page_draw f w2).
  assert (w3 = set_graphicsQueue (graphicsQueue w2 ++ [DrawPage f]) w2) as E3
    by (unfold w3, page_draw; now rewrite P2, HF, HFd).
  set (w4 := emit_to_keys (keys_of_page f _)
               (fun k => notify_focus (OnKey k) focus (Some f) old) _).
  assert (pages w4 = pages w /\ keys w4 = keys w /\ deck w4 = deck w1
          /\ graphicsQueue w4 = graphicsQueue w ++ [DrawPage f]
          /\ log w4 = log w2
                      ++ said_focus OnDeck focus (Some f) old
                         :: said_focus (OnPage f) focus (Some f) old
                         :: map (fun k => said_focus (OnKey k) focus (Some f) old)
                              (JsMap.values (Page.keys F)))
    as (P4 & K4 & D4 & Q4 & L4).
  { unfold w4.
    rewrite (emit_to_keys_kept pages), (emit_to_keys_kept keys),
      (emit_to_keys_kept deck), (emit_to_keys_kept graphicsQueue) by reflexivity.
    rewrite (emit_to_keys_log _ _
               (fun k => said_focus (OnKey k) focus (Some f) old))
      by reflexivity.
    fields. rewrite E3. fields. rewrite P2, K2, D2, Q2.
    unfold keys_of_page. fields. rewrite P2, HF.
    rewrite <- !app_assoc. repeat split. }
  clearbody w4. clear w3 E3.
  set (w5 := deck_emit activity_focus None (Some f) None w4).
  set (w6 := page_emit f activity_focus None (Some f) None w5).
  set (ks := keys_of_page f w6).
  assert (ks = JsMap.values (Page.keys F)) as Eks.
  { unfold ks. rewrite (keys_of_page_same f w).
    - unfold keys_of_page. now rewrite HF.
    - unfold w6. rewrite (PressLaws.kept_page_emit _ Page.keys) by reflexivity.
      unfold w5. now rewrite pages_deck_emit, P4. }
  clearbody ks. subst ks.
  set (w7 := emit_to_keys _ _ w6).
  split; [reflexivity|].
  split.
  { unfold w7.
    rewrite (emit_to_keys_kept (fun x => StreamDeck.focusedPage (deck x)))
      by (intros; now rewrite deck_key_emit).
    unfold w6. rewrite deck_page_emit. unfold w5.
    rewrite (PressLaws.kept_deck_emit StreamDeck.focusedPage) by reflexivity.
    now rewrite D4. }
  split.
  { unfold emitted_since, w7.
    rewrite (emit_to_keys_log _ _
               (fun k => said (OnKey k) activity_focus None (Some f) None))
      by (intros; now apply Release.log_key_emit).
    unfold w6. rewrite Release.log_page_emit by discriminate.
    unfold w5. rewrite Release.log_deck_emit, L4, L2.
    rewrite <- !app_assoc. rewrite drop_app_length.
    repeat (rewrite <- ?app_assoc; cbn [app]). reflexivity. }
  split.
  { unfold w7.
    rewrite (emit_to_keys_kept graphicsQueue)
      by (intros; unfold key_emit; now rewrite graphicsQueue_key_on_activity).
    unfold w6, page_emit. rewrite graphicsQueue_page_on_activity. fields.
    unfold w5, deck_emit. rewrite graphicsQueue_deck_on_activity. fields.
    exact Q4. }
  split.
  { intros q. unfold attachments, w7.
    rewrite (emit_to_keys_kept pages) by (intros; now rewrite pages_key_emit).
    unfold w6. rewrite (PressLaws.kept_page_emit _ Page.keys) by reflexivity.
    unfold w5. now rewrite pages_deck_emit, P4. }
  intros A g Hg1 Hg2. unfold w7.
  rewrite (emit_to_keys_kept (fun x => g (deck x)))
    by (intros; now rewrite deck_key_emit).
  unfold w6. rewrite deck_page_emit. unfold w5.
  rewrite (PressLaws.kept_deck_emit g) by assumption.
  rewrite D4. unfold w1. fields. apply Hg2.
Qed.

(** [setFocusedPage(page)] with a live page that does not have the focus:
    the page gets the focus and is drawn.  In this order [blur] goes to the
    deck, to the page that had the focus and to its keys; [focus] goes to
    the deck, to the new page and to its keys; [activity] goes to the same
    three.  No key is attached or detached. *)
Theorem setFocusedPage_moves_focus (w : World) (f : pid) (F : Page.t) :
  StreamDeck.destroyed (deck w) = false ->
  StreamDeck.focusedPage (deck w) <> Some f ->
  pages w !! f = Some F -> Page.destroyed F = false ->
  let old := StreamDeck.focusedPage (deck w) in
  let w' := fst (setFocusedPage (JPage f) w) in
  snd (setFocusedPage (JPage f) w) = Ok tt
  /\ StreamDeck.focusedPage (deck w') = Some f
  /\ emitted_since w w'
     = match old with
       | Some b =>
           said_focus OnDeck blur (Some f) old
           :: said_focus (OnPage b) blur (Some f) old
           :: map (fun k => said_focus (OnKey k) blur (Some f) old)
                (keys_of_page b w)
       | None => []
       end
       ++ said_focus OnDeck focus (Some f) old
          :: said_focus (OnPage f) focus (Some f) old
          :: map (fun k => said_focus (OnKey k) focus (Some f) old)
               (JsMap.values (Page.keys F))
       ++ said OnDeck activity_focus None (Some f) None
          :: said (OnPage f) activity_focus None (Some f) None
          :: map (fun k => said (OnKey k) activity_focus None (Some f) None)
               (JsMap.values (Page.keys F))
  /\ graphicsQueue w' = graphicsQueue w ++ [DrawPage f]
  /\ (forall q, attachments q w' = attachments q w).
Proof.
  intros Hd Hne HF HFd.
  destruct (setFocusedPage_switch w f F Hd Hne HF HFd)
    as (H1 & H2 & H3 & H4 & H5 & _).
  cbv zeta. auto.
Qed.

Lemma setFocusedPage_moves_focus_witness :
  let w := put_page 1 (Page.create None 10000) (desk None None None) in
  let w' := fst (setFocusedPage (JPage 1) w) in
  snd (setFocusedPage (JPage 1) w) = Ok tt
  /\ StreamDeck.focusedPage (deck w') = Some 1%nat
  /\ graphicsQueue w' = graphicsQueue w ++ [DrawPage 1].
Proof.
  intros w w'.
  destruct (setFocusedPage_moves_focus w 1 (Page.create None 10000))
    as (H1 & H2 & _ & H4 & _).
  - reflexivity.
  - vm_compute. discriminate.
  - vm_compute. reflexivity.
  - reflexivity.
  - split; [exact H1|]. split; [exact H2|exact H4].
Defined.

End FocusLaws.

(** ** [setDefaultPage], [Page#focus] and [Page#blur] *)

Module DefaultPageLaws.
Import Deck Frames FocusLaws.

(** [blur()] on the page that has the focus hands the focus to the default
    page: to no page when there is none, and nothing happens when the page
    is the default page itself. *)
Theorem blur_hands_focus_to_default_page (w : World) (p : pid) (P : Page.t) :
  StreamDeck.destroyed (deck w) = false ->
  pages w !! p = Some P -> Page.destroyed P = false ->
  StreamDeck.focusedPage (deck w) = Some p ->
  (forall d, StreamDeck.defaultPage (deck w) = Some d ->
     exists Dp, pages w !! d = Some Dp /\ Page.destroyed Dp = false) ->
  snd (page_blur p w) = Ok tt
  /\ StreamDeck.focusedPage (deck (fst (page_blur p w)))
     = StreamDeck.defaultPage (deck w)
  /\ (StreamDeck.defaultPage (deck w) = Some p -> fst (page_blur p w) = w).
Proof.
  intros Hd HP HPd Hf Hdef. unfold page_blur. rewrite HP, HPd.
  rewrite bool_decide_eq_true_2 by assumption.
  destruct (StreamDeck.defaultPage (deck w)) as [d|] eqn:Ed.
  - destruct (decide (d = p)) as [->|Hne].
    + unfold setFocusedPage. cbv zeta. rewrite Hd.
      rewrite bool_decide_eq_true_2 by assumption. auto.
    + destruct (Hdef d eq_refl) as (Dp & HDp & HDd).
      destruct (setFocusedPage_switch w d Dp) as (H1 & H2 & _); try assumption.
      { rewrite Hf. congruence. }
      split; [exact H1|]. split; [exact H2|]. congruence.
  - unfold setFocusedPage. cbv zeta. rewrite Hd, Ed, Hf.
    rewrite bool_decide_eq_false_2 by discriminate. cbn [fst snd].
    split; [reflexivity|]. split; [|discriminate].
    rewrite (emit_to_keys_kept (fun x => StreamDeck.focusedPage (deck x)))
      by reflexivity.
    reflexivity.
Qed.

Lemma blur_hands_focus_to_default_page_witness :
  let w := desk None None None in
  snd (page_blur 0 w) = Ok tt
  /\ StreamDeck.focusedPage (deck (fst (page_blur 0 w)))
     = StreamDeck.defaultPage (deck w).
Proof.
  intros w.
  destruct (blur_hands_focus_to_default_page w 0
              (default (Page.create None 0) (pages w !! 0%nat)))
    as (H1 & H2 & _).
  - reflexivity.
  - vm_compute. reflexivity.
  - reflexivity.
  - reflexivity.
  - intros d Hd. vm_compute in Hd. discriminate.
  - split; [exact H1|exact H2].
Defined.

(** [setDefaultPage(page)] with a live page that is not the default page
    makes it the default page.  When no page has the focus it gives the
    page the focus as well; when a page has the focus, the focus stays and
    nothing is emitted. *)
Theorem setDefaultPage_focuses_when_nothing_is (w : World) (p : pid)
  (P : Page.t) :
  StreamDeck.destroyed (deck w) = false ->
  pages w !! p = Some P -> Page.destroyed P = false ->
  StreamDeck.defaultPage (deck w) <> Some p ->
  let w' := fst (setDefaultPage (JPage p) w) in
  snd (setDefaultPage (JPage p) w) = Ok tt
  /\ StreamDeck.defaultPage (deck w') = Some p
  /\ StreamDeck.focusedPage (deck w')
     = match StreamDeck.focusedPage (deck w) with
       | Some q => Some q
       | None => Some p
       end
  /\ (StreamDeck.focusedPage (deck w) <> None -> emitted_since w w' = []).
Proof.
  intros Hd HP HPd Hne w'. unfold w', setDefaultPage. cbv zeta.
  rewrite Hd, HP, HPd. rewrite bool_decide_eq_false_2 by assumption.
  destruct (StreamDeck.focusedPage (deck w)) as [q|] eqn:Ef.
  - rewrite bool_decide_eq_false_2 by discriminate. cbn [fst snd].
    unfold emitted_since. cbn. rewrite Ef, drop_all. auto.
  - rewrite bool_decide_eq_true_2 by reflexivity.
    set (w1 := set_deck (StreamDeck.set_defaultPage (Some p) (deck w)) w).
    destruct (setFocusedPage_switch w1 p P) as (H1 & H2 & _ & _ & _ & H6);
      try assumption.
    { unfold w1. cbn. rewrite Ef. discriminate. }
    split; [exact H1|]. split; [|split; [exact H2|congruence]].
    now rewrite (H6 _ StreamDeck.defaultPage).
Qed.

Lemma setDefaultPage_focuses_when_nothing_is_witness :
  let w := put_page 0 (Page.create None 10000)
             (boot (StreamDeck.create 15 3 5 None None None)) in
  let w' := fst (setDefaultPage (JPage 0) w) in
  StreamDeck.defaultPage (deck w') = Some 0%nat
  /\ StreamDeck.focusedPage (deck w') = Some 0%nat.
Proof.
  intros w w'.
  destruct (setDefaultPage_focuses_when_nothing_is w 0 (Page.create None 10000))
    as (_ & H2 & H3 & _).
  - reflexivity.
  - vm_compute. reflexivity.
  - reflexivity.
  - vm_compute. discriminate.
  - split; [exact H2|exact H3].
Defined.

End DefaultPageLaws.

(** ** The idle timer of the deck *)

Module IdleLaws.
Import Deck Frames.

Lemma arms_only_refl c w : arms_only c w w.
Proof. intros t Ht. now left. Qed.

Lemma arms_only_trans c w1 w2 w3 :
  arms_only c w1 w2 -> arms_only c w2 w3 -> arms_only c w1 w3.
Proof.
  intros H12 H23 t Ht. destruct (H23 t Ht) as [H|H]; [now apply H12|now right].
Qed.

Lemma arms_only_same c w w' :
  timers w' = timers w -> arms_only c w w'.
Proof. intros E t Ht. left. now rewrite <- E. Qed.

Lemma arms_only_clearTimeout_opt c id w :
  arms_only c w (clearTimeout_opt id w).
Proof.
  destruct id as [id|]; [|apply arms_only_refl].
  intros t Ht. left. cbn in Ht. now apply list_elem_of_filter in Ht as [_ Ht].
Qed.

Lemma arms_only_arm c a d store w :
  c a = true -> (forall id w', timers (store id w') = timers w') ->
  arms_only c w (arm a d store w).
Proof.
  intros Hc Hs t Ht. unfold arm in Ht. rewrite Hs in Ht. cbn in Ht.
  apply elem_of_app in Ht as [Ht|Ht]; [now left|right].
  apply list_elem_of_singleton in Ht. now subst t.
Qed.

Lemma arms_only_key_clear_timers k pair w :
  arms_only page_or_key_timer w (key_clear_timers k pair w).
Proof.
  unfold key_clear_timers. destruct (keys w !! k) as [K|]; [|apply arms_only_refl].
  cbv zeta.
  eapply arms_only_trans; [|apply arms_only_same; apply timers_upd_key].
  eapply arms_only_trans; apply arms_only_clearTimeout_opt.
Qed.

Lemma arms_only_key_on_down k i p w :
  arms_only page_or_key_timer w (key_on_down k i p w).
Proof.
  unfold key_on_down. destruct (keys w !! k) as [K|]; [|apply arms_only_refl].
  destruct (Key.destroyed K); [apply arms_only_refl|]. cbv zeta.
  eapply arms_only_trans; [|apply arms_only_same; apply timers_key_draw].
  assert (arms_only page_or_key_timer w
            (upd_key k (key_press [JNum i; JPage p])
               (key_clear_timers k [JNum i; JPage p] w))) as H1.
  { eapply arms_only_trans; [apply arms_only_key_clear_timers|].
    apply arms_only_same, timers_upd_key. }
  set (w1 := upd_key k _ _) in *. clearbody w1.
  assert (arms_only page_or_key_timer w
            match Key.HOLD_TIME K with
            | Some h =>
                if (0 <? h)%Z
                then arm (KeyHold k i p) h
                       (fun id =>
                          upd_key k
                            (fun K =>
                               Key.set_holdTimeoutIds
                                 (ArrayKeyedMap.set (Key.holdTimeoutIds K)
                                    [JNum i; JPage p] id) K)) w1
                else w1
            | None => w1
            end) as H2.
  { destruct (Key.HOLD_TIME K) as [h|]; [|exact H1].
    destruct (0 <? h)%Z; [|exact H1].
    eapply arms_only_trans; [exact H1|].
    apply arms_only_arm; [reflexivity|intros; apply timers_upd_key]. }
  destruct (0 <? Key.PRESS_TIME K)%Z; [|exact H2].
  eapply arms_only_trans; [exact H2|].
  apply arms_only_arm; [reflexivity|intros; apply timers_upd_key].
Qed.

Lemma arms_only_key_on_activity k w :
  arms_only page_or_key_timer w (key_on_activity k w).
Proof.
  unfold key_on_activity. destruct (keys w !! k) as [K|]; [|apply arms_only_refl].
  destruct (Key.destroyed K); [apply arms_only_refl|]. cbv zeta.
  assert (arms_only page_or_key_timer w
            (upd_key k (Key.set_idleTimeoutId None)
               (clearTimeout_opt (Key.idleTimeoutId K) w))) as H1.
  { eapply arms_only_trans; [apply arms_only_clearTimeout_opt|].
    apply arms_only_same, timers_upd_key. }
  destruct (_ || _); [exact H1|].
  eapply arms_only_trans; [exact H1|].
  apply arms_only_arm; [reflexivity|intros; apply timers_upd_key].
Qed.

Lemma arms_only_page_on_down p i w :
  arms_only page_or_key_timer w (page_on_down p i w).
Proof.
  unfold page_on_down. destruct (pages w !! p) as [P|]; [|apply arms_only_refl].
  destruct (Page.destroyed P); [apply arms_only_refl|]. cbv zeta.
  assert (arms_only page_or_key_timer w
            (upd_page p
               (fun P0 =>
                  Page.set_holdIndexes (Page.holdIndexes P0 ∖ {[i]})
                    (Page.set_downIndexes ({[i]} ∪ Page.downIndexes P0)
                       (Page.set_holdTimeoutIds
                          (delete i (Page.holdTimeoutIds P0)) P0)))
               (clearTimeout_opt (Page.holdTimeoutIds P !! i) w))) as H1.
  { eapply arms_only_trans; [apply arms_only_clearTimeout_opt|].
    apply arms_only_same, timers_upd_page. }
  destruct (Page.HOLD_TIME P) as [h|]; [|exact H1].
  destruct (h <=? 0)%Z; [exact H1|].
  eapply arms_only_trans; [exact H1|].
  apply arms_only_arm; [reflexivity|intros; apply timers_upd_page].
Qed.

Lemma arms_only_page_on_activity p w :
  arms_only page_or_key_timer w (page_on_activity p w).
Proof.
  unfold page_on_activity. destruct (pages w !! p) as [P|]; [|apply arms_only_refl].
  destruct (Page.destroyed P); [apply arms_only_refl|]. cbv zeta.
  assert (arms_only page_or_key_timer w
            (upd_page p (Page.set_idleTimeoutId None)
               (clearTimeout_opt (Page.idleTimeoutId P) w))) as H1.
  { eapply arms_only_trans; [apply arms_only_clearTimeout_opt|].
    apply arms_only_same, timers_upd_page. }
  destruct (_ || _); [exact H1|].
  eapply arms_only_trans; [exact H1|].
  apply arms_only_arm; [reflexivity|intros; apply timers_upd_page].
Qed.

Lemma arms_only_notify c s ev i p k w f :
  arms_only c (notify s ev i p k w) (f (notify s ev i p k w)) ->
  arms_only c w (f (notify s ev i p k w)).
Proof. intros H. eapply arms_only_trans; [|exact H]. now apply arms_only_same. Qed.

Lemma arms_only_page_emit_opt page ev i key w :
  ev = down \/ ev = activity_down ->
  arms_only page_or_key_timer w (page_emit_opt page ev (Some i) key w).
Proof.
  intros Hev. destruct page as [p|]; [|apply arms_only_refl].
  unfold page_emit_opt, page_emit. cbv zeta.
  destruct Hev as [-> | ->]; cbv iota.
  - apply (arms_only_notify _ _ _ _ _ _ _ (page_on_down p i)), arms_only_page_on_down.
  - apply (arms_only_notify _ _ _ _ _ _ _ (page_on_activity p)),
      arms_only_page_on_activity.
Qed.

Lemma arms_only_key_emit_opt key ev i page w :
  ev = down \/ ev = activity_down ->
  arms_only page_or_key_timer w (key_emit_opt key ev (Some i) page w).
Proof.
  intros Hev. destruct key as [k|]; [|apply arms_only_refl].
  unfold key_emit_opt, key_emit. cbv zeta.
  destruct Hev as [-> | ->]; cbv iota.
  - destruct page as [p|]; [|now apply arms_only_same].
    apply (arms_only_notify _ _ _ _ _ _ _ (key_on_down k i p)), arms_only_key_on_down.
  - apply (arms_only_notify _ _ _ _ _ _ _ (key_on_activity k)),
      arms_only_key_on_activity.
Qed.

Lemma timers_upd_deck f w : timers (upd_deck f w) = timers w.
Proof. reflexivity. Qed.

Lemma arms_only_mono (c c' : TimerAction -> bool) w w' :
  (forall a, c a = true -> c' a = true) ->
  arms_only c w w' -> arms_only c' w w'.
Proof. intros Hc H t Ht. destruct (H t Ht); auto. Qed.

Lemma no_deck_idle_arms_only w w' :
  arms_only page_or_key_timer w w' -> no_deck_idle w -> no_deck_idle w'.
Proof.
  intros H Hw t Ht. destruct (H t Ht) as [Hin|Hc]; [now apply Hw|].
  intros E. rewrite E in Hc. discriminate.
Qed.

Lemma deck_on_activity_while_down w :
  StreamDeck.destroyed (deck w) = false ->
  StreamDeck.downKeys (deck w) <> ∅ ->
  idle_timer_filed w ->
  no_deck_idle (deck_on_activity w)
  /\ deck (deck_on_activity w) = StreamDeck.set_idleTimeoutId None (deck w).
Proof.
  intros Hd Hdown Hfiled. unfold deck_on_activity. cbv zeta. rewrite Hd.
  assert ((size (StreamDeck.downKeys (deck w)) =? 0)%nat = false) as ->.
  { apply Nat.eqb_neq. intros E. now apply map_size_empty_iff in E. }
  cbn [negb]. rewrite orb_true_r. split; [|now framed].
  intros t Ht E. rewrite timers_upd_deck in Ht.
  destruct (StreamDeck.idleTimeoutId (deck w)) as [x|] eqn:Ex; cbn in Ht.
  - apply list_elem_of_filter in Ht as [Hne Ht].
    specialize (Hfiled t Ht E). rewrite Ex in Hfiled. congruence.
  - specialize (Hfiled t Ht E). rewrite Ex in Hfiled. discriminate.
Qed.

(** While a button is down the deck does not count the time to [idle]:
    the press cancels the idle timer of the deck and arms none. *)
Theorem no_idle_timer_while_down (i : Z) (w : World) :
  StreamDeck.destroyed (deck w) = false ->
  idle_timer_filed w ->
  (forall t, t ∈ timers (hw_down i w) -> t_action t <> DeckIdle)
  /\ StreamDeck.idleTimeoutId (deck (hw_down i w)) = None.
Proof.
  intros Hd Hfiled. unfold hw_down. rewrite Hd. cbv zeta.
  rewrite pages_clearTimeout_opt. fold (key_under i w).
  set (page := StreamDeck.focusedPage (deck w)).
  set (key := key_under i w).
  set (w0 := upd_deck _ (clearTimeout_opt _ w)).
  set (w1 := key_emit_opt key down (Some i) page
               (page_emit_opt page down (Some i) key
                  (deck_emit down (Some i) page key w0))).
  set (w2 := if (0 <? StreamDeck.HOLD_TIME (deck w))%Z then _ else w1).
  set (w3 := deck_emit activity_down (Some i) page key w2).
  assert (deck w2
          = (if (0 <? StreamDeck.HOLD_TIME (deck w))%Z
             then StreamDeck.set_holdTimeoutIds
                    (<[i := nextTimeoutId w1]> (StreamDeck.holdTimeoutIds (deck w0)))
                    (deck w0)
             else deck w0)) as D2.
  { unfold w2. assert (deck w1 = deck w0) as D1
      by (unfold w1; now rewrite deck_key_emit_opt, deck_page_emit_opt).
    destruct (0 <? _)%Z; [|exact D1]. unfold arm. fields. now rewrite D1. }
  assert (forall t, t ∈ timers w2 -> t_action t = DeckIdle -> t ∈ timers w) as T2.
  { intros t Ht E.
    assert (t ∈ timers w1) as Ht1.
    { unfold w2 in Ht. destruct (0 <? _)%Z; [|exact Ht].
      unfold arm in Ht. rewrite timers_upd_deck in Ht. cbn in Ht.
      apply elem_of_app in Ht as [Ht|Ht]; [exact Ht|].
      apply list_elem_of_singleton in Ht. subst t. discriminate. }
    assert (arms_only page_or_key_timer w w1) as Ha.
    { unfold w1.
      eapply arms_only_trans; [|apply arms_only_key_emit_opt; now left].
      eapply arms_only_trans; [|apply arms_only_page_emit_opt; now left].
      eapply arms_only_trans; [apply arms_only_clearTimeout_opt|].
      apply arms_only_same. unfold w0. now framed. }
    destruct (Ha t Ht1) as [Hin|Hc]; [exact Hin|].
    rewrite E in Hc. discriminate. }
  assert (no_deck_idle w3 /\ StreamDeck.idleTimeoutId (deck w3) = None)
    as [N3 I3].
  { unfold w3, deck_emit. cbv zeta. cbv iota.
    destruct (deck_on_activity_while_down
                (notify OnDeck activity_down (Some i) page key w2)) as [H1 H2].
    - fields. rewrite D2. unfold w0. framed.
      destruct (0 <? _)%Z; cbn; exact Hd.
    - fields. rewrite D2. unfold w0. framed.
      destruct (0 <? _)%Z; cbn; apply insert_non_empty.
    - intros t Ht E. change (timers (notify OnDeck activity_down (Some i) page key w2))
        with (timers w2) in Ht. fields. rewrite D2. unfold w0. framed.
      specialize (Hfiled t (T2 t Ht E) E).
      destruct (0 <? _)%Z; cbn; exact Hfiled.
    - split; [exact H1|]. now rewrite H2. }
  split.
  - apply (no_deck_idle_arms_only w3); [|exact N3].
    eapply arms_only_trans; [apply arms_only_page_emit_opt; now right|].
    apply arms_only_key_emit_opt. now right.
  - now rewrite deck_key_emit_opt, deck_page_emit_opt.
Qed.

Lemma no_idle_timer_while_down_witness :
  let w := desk None None None in
  (exists t, t ∈ timers w /\ t_action t = DeckIdle)
  /\ (forall t, t ∈ timers (hw_down 0 w) -> t_action t <> DeckIdle)
  /\ StreamDeck.idleTimeoutId (deck (hw_down 0 w)) = None.
Proof.
  intros w. split.
  - eexists. split; [vm_compute; apply list_elem_of_here|reflexivity].
  - apply (no_idle_timer_while_down 0 w); [reflexivity|].
    intros t Ht E. vm_compute in Ht.
    repeat (apply elem_of_cons in Ht as [->|Ht];
            [first [reflexivity|discriminate]|]).
    now apply not_elem_of_nil in Ht.
Defined.

End IdleLaws.
